(* ===== verification/_CoqProject ===== *)
-Q . S2P
Prelude.v
GoLib.v
GoStrings.v
GoStrconv.v
GoTime.v
GoCalendar.v
GoRfc3339.v
Json.v
JsonDecode.v
Http.v
GoFilepath.v
GoFloat.v
GoFormatFloat.v
GoDuration.v
Io.v
Packet.v
Codec.v
Decoder.v
Framing.v
TopicRegistry.v
Chan.v
ClientManager.v
Config.v
Listener.v
Auth.v
Prog.v
Server.v
Broker.v
Scenarios.v
Session.v
TestClient.v
Ingestion.v
Drain.v
FanOut.v
System.v
SystemDrain.v
Sql.v
RawStore.v
Migrator.v
Shift.v
ShiftJson.v
ShiftStore.v
Availability.v
AvailabilityJson.v
StateChange.v
IngestState.v
Live.v
Sinks.v
Query.v
IntervalRepo.v
StuckMachine.v
Api.v
ApiWindows.v
Bootstrap.v
Delivery.v
EndToEnd.v
LiveSystem.v
Process.v
Lifecycle.v
