(* ===== verification/Prelude.v ===== *)
(** * Verification of the microbroker MQTT edge broker

    The program is an MQTT 3.1.1 broker for machines, written in Go (the
    directory [src]).  Clients connect over TCP, authenticate and publish on a
    few configured topics; every message is queued by topic, stored in SQLite
    and handed to workers; one worker turns the machine states published on
    one topic into intervals, from which the availability of a machine (OEE)
    is computed live and on demand.  This library models that path in full,
    from the bytes of a connection to the numbers of an availability, as
    executable definitions named after the source, and proves what each part
    promises and what the parts promise together.

    ** How the parts interact

    [Server] goroutines (one per connection) share a client manager, a topic
    registry and the channel [MsgChan]; the [Pipeline] takes messages from it,
    saves them through the [Store] interface and forwards them into
    [ProcessChan]; the [FanOut] takes them from there and runs every worker on
    each.  The OEE worker calls [Apply], which writes to an [IntervalStore] and
    tells the live [Engine]; queries read the same intervals.  Goroutines are
    step functions [act -> state -> option (labels * state)], an execution is a
    list of actions run by [Prelude.execute], and every theorem about
    concurrency holds for all lists of actions.

    ** Files, and what they model

    Foundations: [Prelude] (results, executions, sums over ranges, shared
    automation); [GoLib], [GoStrings], [GoStrconv], [GoTime], [GoCalendar],
    [GoRfc3339], [GoDuration], [GoFloat], [GoFormatFloat], [Io] (what the source
    uses of Go and its standard library: machine integers,
    [strings.TrimSpace], [strconv], [time.Time] with zones and [AddDate], the
    calendar, [Format] and [Parse] of RFC 3339 texts and their order,
    [time.ParseDuration], [float64] and its shortest texts, [io.Reader]);
    [Json] and [JsonDecode] (encoding/json: texts, values, decoding into
    structs); [Http] (net/http: the paths of [ServeMux], net/url: escapes and
    queries); [GoFilepath] (path/filepath: [Clean], [Dir]); [Chan] (buffered channels and internal/common/message); [Sql]
    (statements, transactions and their failures).

    Protocol (internal/modules/broker/protocol): [Packet], [Codec], [Decoder],
    [Framing].  A decoder is a function of the reader it reads from.

    Broker (internal/modules/broker, internal/modules/auth): [TopicRegistry],
    [ClientManager], [Listener] (the accept loop), [Auth], [Prog] and [Server]
    (the connection handlers as programs over their calls), [Broker] (the
    shared state, what each call does, and the interleaving of connections),
    [Scenarios] (executions that show flaws), [Session] (one client from
    CONNECT to close), [TestClient] (what the clients of the tests read).

    Processing: [Ingestion] and [Drain] (internal/modules/broker/ingestion),
    [FanOut] (internal/modules/processing).

    Database and audit: [RawStore] (the repository of the messages, which
    implements [Store], and internal/modules/audit), [Migrator]
    (internal/platform/database: the connection and the migrations, and
    [InitDatabase]).

    OEE (internal/modules/oee): [Shift] (domain), [ShiftJson] and [ShiftStore]
    (config), [Availability] and [AvailabilityJson] (availability/domain),
    [StateChange] (the messages of ingest-state), [IngestState], [Live],
    [Query] (the three features), [IntervalRepo] (their repositories, which
    implement [IntervalStore] and [IntervalReader]), [StuckMachine] (the worker
    over its repository and any bytes), [Sinks] (what the live engine updates:
    the composite sink, the log sink, the WebSocket hub).

    HTTP: [Api] (the routes of server.go and the four handlers, from a request
    to the bytes of its answer), [ApiWindows] (queries of a window).

    Start and end (cmd/broker): [Config] ([Load]), [System] (the product of
    broker, pipeline and fan-out over their channels) and [SystemDrain] (its
    progress), [Bootstrap] ([InitModules], [StartServers]), [Delivery] (every
    message of the started broker arrives), [EndToEnd] (the broker over the database,
    up to the audit over HTTP), [LiveSystem] (the running broker with the loop
    of the live engine, its sinks and their subscribers), [Process] ([main] up
    to [StartServers], [GracefulShutdown]), [Lifecycle] (the process from there
    to its end, as a machine around [LiveSystem]).

    The record of a struct has the struct's fields under their names; where
    several structs share a field name a prefix tells them apart, and a comment
    gives the original.  A method is the definition of its name with the
    receiver as an argument; a Go error is [Err], a nil pointer or an absent
    value [None].  Mutexes are not modelled: an operation that holds one is one
    step.

    ** What the theorems show

    - The whole: [Bootstrap.end_to_end] and [states_end_to_end] (a message from
      an authorised session through queue and store to every worker, and on
      into the history of its machine and the live engine, in every execution
      of the broker built from a loaded configuration), [InitModules_spec];
      [Delivery.every_message_arrives] (its goroutines come to rest under every
      scheduler, and only when every message has been through);
      [Lifecycle.exit_account] (what is stored and what is lost when the
      process ends, and that only a signal or a panic of the live engine ends
      it), [failed_listener_deaf], [acknowledged_lost];
      [LiveSystem.subscribers_see_history] (what a WebSocket subscriber is sent
      is the history of its machine, as published, while its store does not
      fail);
      [EndToEnd.published_then_audited] (what the audit answers over HTTP is
      what entitled sessions published); [Process.main_starts] (what a started
      process serves, and why none starts).
    - The broker: session protocol, authorisation, limits and the channel in
      every execution ([Broker]); termination of a connection ([Server]); one
      client end to end ([Session]).
    - The protocol: decoders accept exactly the wire format, round trips,
      framing ([Codec], [Decoder], [Framing]).
    - The pipeline and the fan-out: order, conservation, persistence before
      dispatch, progress ([Ingestion], [Drain], [FanOut]).
    - OEE: [Apply] refines the recording of a transition in a history, and
      histories stay chains ([IngestState]); the engine follows the store
      ([Live]); downtimes are measures of the time spent in stops
      ([Availability]); planned time is the measure of the shifts and its loop
      ends ([Shift]); live figures and queries agree, but for the
      flag of a clipped open interval, which the engine never sets ([Query], and
      over the database [IntervalRepo.stored_states_agree]); sinks cannot disturb each
      other or the engine ([Sinks]).
    - The database: the repositories discharge the interfaces the rest is
      proved against: of messages ([RawStore]), of intervals ([IntervalRepo])
      and of shifts ([ShiftStore]), for any failures of statements and
      commits; migrations are atomic and converge over restarts ([Migrator]).
    - The texts: JSON is read back as it was written ([Json.parse_print]), state
      changes and shifts with it ([state_change_roundtrip],
      [shifts_roundtrip]); whatever bytes come, what is decoded can be stored
      ([decoded_transition], [StuckMachine.states_stored], with the one
      exception of [stuck_machine]).
    - The API: what each path asks for and the answer it gets
      ([Api.request_routing]), what answers there are ([api_answers]), what the audit and a query answer, to
      the byte ([audit_over_http], [ApiWindows.window_over_http]).
    - Configuration: what [Load] guarantees, and that it can be written down
      ([Config]); an interval or a queue size it should have refused ends the
      process ([LiveSystem.bad_interval_crashes], [Bootstrap.unmakeable_queues]).

    ** Fuel and bounds

    Recursion is structural or well-founded, except for the loop over the days
    of a window: [Shift.PlannedProductionTime] takes fuel, [enough_days] is an
    amount for which it is proved to end whenever the offsets of the zone span
    less than a day, and more fuel changes nothing.  A zone that skips a day
    has none ([Shift.skipped_day_never_ends]).  [ParseDuration] takes the length
    of its text as fuel, and more changes nothing
    ([GoDuration.parse_parts_fuel]).  Durations are [int64] with
    wrap-around or saturation as in Go; that sums do not overflow is proved for
    windows shorter than 292 years.  Channels have a capacity of at least one;
    a queue size of zero, unbuffered channels, is outside the model.  The
    largest size of a channel depends on the platform and is the parameter
    [chan_limit] of [InitModules]; the examples take that of linux/amd64.

    ** What is not modelled

    Message texts and logging.  Time zone data, files, the SQLite driver's
    opening of a database and what it makes of a DDL statement are parameters.  The writes of a connection succeed at
    once.  Of HTTP, the headers but for the content type, the host and the
    connection are left out; whether its server serves is a flag, and its
    shutdown, which waits for requests, a call that takes any time.  Every repository has tables of
    its own: that they share one connection shows only in that calls can fail.
    Requests run one at a time and beside the system, not as steps of it: a
    next step is one product of [Lifecycle] and [Api] over one database.  Of the
    panics only those of [make] and of [time.NewTicker] are modelled, the ones
    a configuration can cause; that memory runs out is not. *)

From stdpp Require Export base tactics numbers option list list_numbers strings
  gmap fin_maps relations.
From Stdlib Require Export ZArith Lia.

#[global] Set Default Goal Selector "!".

Declare Scope go_scope.
Delimit Scope go_scope with go.

(** ** Results: Go's [(value, error)] pairs *)

(** A Go function that returns [(v, nil)] or [(_, err)]. *)
Inductive result (E A : Type) : Type :=
  | Ok (a : A)
  | Err (e : E).
Arguments Ok {E A} a.
Arguments Err {E A} e.

#[export] Instance result_eq_dec `{EqDecision E, EqDecision A} :
  EqDecision (result E A).
Proof. solve_decision. Defined.

#[export] Instance result_ret {E} : MRet (result E) := λ A a, Ok a.
#[export] Instance result_bind {E} : MBind (result E) := λ A B f m,
  match m with Ok a => f a | Err e => Err e end.
#[export] Instance result_fmap {E} : FMap (result E) := λ A B f m,
  match m with Ok a => Ok (f a) | Err e => Err e end.

(** [if err != nil { return wrap(err) }]. *)
Definition map_err {E E' A} (f : E → E') (m : result E A) : result E' A :=
  match m with Ok a => Ok a | Err e => Err (f e) end.

Definition is_ok {E A} (m : result E A) : bool :=
  match m with Ok _ => true | Err _ => false end.

Section result_lemmas.
Context {E E' A B : Type}.

Lemma bind_Ok (m : result E A) (f : A → result E B) b :
  (m ≫= f) = Ok b ↔ ∃ a, m = Ok a ∧ f a = Ok b.
Proof. destruct m; simpl; naive_solver. Qed.

Lemma bind_Err (m : result E A) (f : A → result E B) e :
  (m ≫= f) = Err e ↔ m = Err e ∨ ∃ a, m = Ok a ∧ f a = Err e.
Proof. destruct m; naive_solver. Qed.

Lemma map_err_Ok (f : E → E') (m : result E A) a :
  map_err f m = Ok a ↔ m = Ok a.
Proof. destruct m; naive_solver. Qed.
End result_lemmas.

(** ** Hints and tactics *)

Create HintDb go discriminated.
Create Rewrite HintDb go_len.
Create Rewrite HintDb io_ok.
#[export] Hint Rewrite @length_app @length_take @length_drop @length_fmap
  @length_replicate using lia : go_len.

(** Splits every boolean [&&], [||], [negb] and comparison hypothesis. *)
Ltac bool_simpl :=
  repeat match goal with
  | H : (_ && _)%bool = true |- _ => apply andb_true_iff in H as [??]
  | H : (_ || _)%bool = false |- _ => apply orb_false_iff in H as [??]
  | H : negb _ = true |- _ => apply negb_true_iff in H
  | H : negb _ = false |- _ => apply negb_false_iff in H
  | H : bool_decide _ = true |- _ => apply bool_decide_eq_true in H
  | H : bool_decide _ = false |- _ => apply bool_decide_eq_false in H
  | H : (_ =? _)%Z = true |- _ => apply Z.eqb_eq in H
  | H : (_ =? _)%Z = false |- _ => apply Z.eqb_neq in H
  | H : (_ <? _)%Z = true |- _ => apply Z.ltb_lt in H
  | H : (_ <? _)%Z = false |- _ => apply Z.ltb_ge in H
  | H : (_ <=? _)%Z = true |- _ => apply Z.leb_le in H
  | H : (_ <=? _)%Z = false |- _ => apply Z.leb_gt in H
  | H : (_ >? _)%Z = _ |- _ => rewrite Z.gtb_ltb in H
  | H : (_ >=? _)%Z = _ |- _ => rewrite Z.geb_leb in H
  end.

(** Case analysis on the first test of the goal, then simplification. *)
Ltac case_test :=
  match goal with
  | |- context [if ?c then _ else _] => destruct c eqn:?; bool_simpl
  | |- context [match ?c with _ => _ end] => destruct c eqn:?; bool_simpl
  end.

(** ** Lists *)

Section lists.
Context {A : Type}.
Implicit Types l k : list A.

(** Keeping what a decidable test accepts, as a Go loop with [continue]. *)
Lemma filter_app_cons (P : A → Prop) `{∀ x, Decision (P x)} l x k :
  filter P (l ++ x :: k) = filter P l ++ (if decide (P x) then [x] else []) ++ filter P k.
Proof. rewrite filter_app, filter_cons. by case_decide. Qed.

Lemma filter_none (P : A → Prop) `{∀ x, Decision (P x)} l :
  Forall (λ x, ¬ P x) l → filter P l = [].
Proof. induction 1; [done|]. rewrite filter_cons_False; done. Qed.

Lemma filter_all (P : A → Prop) `{∀ x, Decision (P x)} l :
  Forall P l → filter P l = l.
Proof. induction 1; [done|]. rewrite filter_cons_True by done. by f_equal. Qed.

Lemma take_app_exact l k : take (length l) (l ++ k) = l.
Proof. by rewrite take_app_length. Qed.

Lemma take_app_exact' n l k : length l = n → take n (l ++ k) = l.
Proof. intros <-. apply take_app_exact. Qed.

Lemma exists_last_or_nil l : l = [] ∨ ∃ k x, l = k ++ [x].
Proof. destruct l as [|x k _] using rev_ind; eauto. Qed.

Lemma drop_app_exact l k : drop (length l) (l ++ k) = k.
Proof. by rewrite drop_app_length. Qed.
End lists.

(** ** Finite maps *)

(** [delete(m, k)] for the keys whose value a test selects. *)
Lemma lookup_filter_value {K V} `{Countable K} (P : V → Prop) `{∀ v, Decision (P v)}
    (m : gmap K V) k :
  filter (λ kv, P kv.2) m !! k = (v ← m !! k; if decide (P v) then Some v else None).
Proof.
  rewrite map_lookup_filter. destruct (m !! k); simpl; [|done].
  by case_guard.
Qed.

Lemma map_size_insert_le {K V} `{Countable K} (m : gmap K V) k v :
  size (<[k := v]> m) ≤ S (size m).
Proof. rewrite map_size_insert. destruct (m !! k); simpl; lia. Qed.

(** The sum of a measure over the values of a map. *)
Definition map_sum {K V} `{Countable K} (f : V → nat) (m : gmap K V) : nat :=
  map_fold (λ _ v acc, f v + acc) 0 m.

Section map_sum.
Context {K V} `{Countable K} (f : V → nat).
Implicit Types m : gmap K V.

Lemma map_sum_delete m k v : m !! k = Some v → map_sum f m = f v + map_sum f (delete k m).
Proof. apply (map_fold_delete_L (λ _ v acc, f v + acc)). intros. lia. Qed.

Lemma map_sum_insert m k v v' : m !! k = Some v →
  map_sum f (<[k := v']> m) + f v = map_sum f m + f v'.
Proof.
  intros Hk. rewrite (map_sum_delete m k v Hk).
  rewrite (map_sum_delete (<[k := v']> m) k v') by apply lookup_insert_eq.
  rewrite delete_insert_eq. lia.
Qed.

Lemma map_sum_zero m : map_Forall (λ _ v, f v = 0) m → map_sum f m = 0.
Proof.
  induction m as [|k v m Hk IH] using map_ind; [done|]. intros Hall.
  rewrite map_Forall_insert in Hall by done. destruct Hall as [Hv Hall].
  rewrite (map_sum_delete _ k v) by apply lookup_insert_eq.
  rewrite delete_insert_id by done. by rewrite Hv, IH.
Qed.
End map_sum.

(** ** Sums over a range of integers *)

Section Zsum.
Local Open Scope Z_scope.
Implicit Types (f g : Z → Z) (a k : Z) (n m : nat).

(** [f a + f (a + 1) + ... + f (a + n - 1)]. *)
Fixpoint Zsum f a n : Z :=
  match n with
  | O => 0
  | S n => Zsum f a n + f (a + Z.of_nat n)
  end.

Lemma Zsum_ext f g a n :
  (∀ k, a ≤ k < a + Z.of_nat n → f k = g k) → Zsum f a n = Zsum g a n.
Proof.
  induction n as [|n IH]; intros Hfg; simpl; [done|].
  rewrite IH by (intros; apply Hfg; lia). rewrite Hfg by lia. done.
Qed.

Lemma Zsum_zero f a n : (∀ k, a ≤ k < a + Z.of_nat n → f k = 0) → Zsum f a n = 0.
Proof.
  induction n as [|n IH]; intros Hf; simpl; [done|].
  rewrite IH by (intros; apply Hf; lia). rewrite Hf by lia. done.
Qed.

Lemma Zsum_mono f g a n :
  (∀ k, a ≤ k < a + Z.of_nat n → f k ≤ g k) → Zsum f a n ≤ Zsum g a n.
Proof.
  induction n as [|n IH]; intros Hfg; simpl; [done|].
  specialize (IH ltac:(intros; apply Hfg; lia)). specialize (Hfg (a + Z.of_nat n)). lia.
Qed.

Lemma Zsum_add f g a n : Zsum (λ k, f k + g k) a n = Zsum f a n + Zsum g a n.
Proof. induction n; simpl; lia. Qed.

Lemma Zsum_sub f g a n : Zsum (λ k, f k - g k) a n = Zsum f a n - Zsum g a n.
Proof. induction n; simpl; lia. Qed.

Lemma Zsum_app f a n m : Zsum f a (n + m) = Zsum f a n + Zsum f (a + Z.of_nat n) m.
Proof.
  induction m as [|m IH]; simpl.
  { rewrite Nat.add_0_r. lia. }
  rewrite Nat.add_succ_r. simpl. rewrite IH.
  replace (a + Z.of_nat (n + m)) with (a + Z.of_nat n + Z.of_nat m) by lia. lia.
Qed.

Lemma Zsum_cons f a n : Zsum f a (S n) = f a + Zsum f (a + 1) n.
Proof. change (S n) with (1 + n)%nat. rewrite Zsum_app. simpl. by rewrite Z.add_0_r. Qed.

Lemma Zsum_swap (h : Z → Z → Z) a n b m :
  Zsum (λ i, Zsum (h i) b m) a n = Zsum (λ j, Zsum (λ i, h i j) a n) b m.
Proof.
  induction n as [|n IH]; simpl; [by rewrite Zsum_zero|]. by rewrite IH, <-Zsum_add.
Qed.

(** How much of [a, a + n) lies in [c, d). *)
Lemma Zsum_interval a n c d :
  Zsum (λ t, Z.b2z ((c <=? t) && (t <? d))) a n =
  Z.max 0 (Z.min (a + Z.of_nat n) d - Z.max a c).
Proof.
  induction n as [|n IH]; simpl Zsum; [lia|]. rewrite IH.
  destruct (Z.leb_spec c (a + Z.of_nat n)), (Z.ltb_spec (a + Z.of_nat n) d); simpl; lia.
Qed.

(** A sum with at most two terms that are not zero, next to each other. *)
Lemma Zsum_two f a n k :
  a ≤ k → k + 1 < a + Z.of_nat n → (∀ j, j ≠ k → j ≠ k + 1 → f j = 0) →
  Zsum f a n = f k + f (k + 1).
Proof.
  intros Ha Hn Hf.
  replace n with (Z.to_nat (k - a) + S (S (n - Z.to_nat (k - a) - 2)))%nat by lia.
  rewrite Zsum_app, !Zsum_cons, !(Zsum_zero f) by (intros; apply Hf; lia).
  rewrite Z2Nat.id by lia. replace (a + (k - a)) with k by lia. lia.
Qed.
End Zsum.

(** ** Executions of a state machine *)

(** A machine does an action if it can, and labels it; an execution is a list
    of actions that can all be done in turn. *)
Section executions.
Context {St Act Lab : Type} (step : Act → St → option (list Lab * St)).

Fixpoint execute (acts : list Act) (st : St) : option (list Lab * St) :=
  match acts with
  | [] => Some ([], st)
  | a :: acts =>
      '(ls, st) ← step a st;
      '(ls', st) ← execute acts st;
      Some (ls ++ ls', st)
  end.

(** Induction over the steps of an execution. *)
Lemma execute_ind (I : list Lab → St → Prop) st0 acts ls st :
  I [] st0 →
  (∀ ls st a ls' st', I ls st → step a st = Some (ls', st') → I (ls ++ ls') st') →
  execute acts st0 = Some (ls, st) → I ls st.
Proof.
  intros H0 Hstep.
  cut (∀ ls0 st0, I ls0 st0 → execute acts st0 = Some (ls, st) → I (ls0 ++ ls) st).
  { intros Hall Hp. by apply (Hall [] st0). }
  clear H0 st0. revert ls. induction acts as [|a acts IH]; intros ls ls0 st0 Hb; simpl.
  { intros [= <- <-]. by rewrite app_nil_r. }
  destruct (step a st0) as [[ls1 b1]|] eqn:Ha; simpl; [|done].
  destruct (execute acts b1) as [[ls2 b2]|] eqn:Has; simpl; [|done].
  intros [= <- ->]. rewrite app_assoc. eapply IH; [by eapply Hstep|done].
Qed.

Lemma execute_app acts acts' st :
  execute (acts ++ acts') st =
  '(ls, st) ← execute acts st; '(ls', st) ← execute acts' st; Some (ls ++ ls', st).
Proof.
  revert st. induction acts as [|a acts IH]; intros st; simpl.
  { by destruct (execute acts' st) as [[]|]. }
  destruct (step a st) as [[ls1 st1]|]; simpl; [|done]. rewrite IH.
  destruct (execute acts st1) as [[ls2 st2]|]; simpl; [|done].
  destruct (execute acts' st2) as [[ls3 st3]|]; simpl; [|done]. by rewrite app_assoc.
Qed.

Lemma execute_one a st : execute [a] st = '(ls, st) ← step a st; Some (ls, st).
Proof. simpl. destruct (step a st) as [[ls st1]|]; simpl; [|done]. by rewrite app_nil_r. Qed.
End executions.

Lemma Forall_filter_bool {A} (P : A → Prop) (Q : A → bool) l :
  Forall P l → Forall P (List.filter Q l).
Proof. induction 1 as [|x l Hx _ IH]; simpl; [done|]. destruct (Q x); by try constructor. Qed.

(** Selecting what an injection tagged. *)
Lemma omap_fmap_some {A B} (g : A → B) (h : B → option A) (l : list A) :
  (∀ x, h (g x) = Some x) → omap h (g <$> l) = l.
Proof. intros Hh. induction l as [|x l IH]; csimpl; [done|]. by rewrite Hh, IH. Qed.
Lemma omap_fmap_none {A B C} (g : A → B) (h : B → option C) (l : list A) :
  (∀ x, h (g x) = None) → omap h (g <$> l) = [].
Proof. intros Hh. induction l as [|x l IH]; csimpl; [done|]. by rewrite Hh. Qed.

(** An execution that was computed to succeed. *)
Lemma computed {A} (o : option A) (d : A) : is_Some o → o = Some (default d o).
Proof. by intros [x ->]. Qed.

Lemma is_Some_computed {A} (o : option A) :
  match o with Some _ => true | None => false end = true → is_Some o.
Proof. destruct o; [eauto|done]. Qed.

(** A run that is evaluated, named by its two components. *)
Lemma computed_run {A B} (o : option (A * B)) (a : A) (b : B) :
  match o with Some _ => true | None => false end = true →
  o = Some (from_option fst a o, from_option snd b o).
Proof. by destruct o as [[]|]. Qed.
