(* ===== verification/GoLib.v ===== *)
(** * The parts of Go and its standard library the broker uses

    Bytes and fixed-width integers, strings as byte sequences and
    [encoding/binary]'s big-endian 16-bit integers.  Nothing here
    translates a file of the repository: the other files are written with it. *)

From Stdlib Require Export Strings.Byte.
From S2P Require Export Prelude.

Local Open Scope Z_scope.

#[export] Instance byte_eq_dec : EqDecision byte := Byte.byte_eq_dec.

(** ** Unsigned bytes *)

(** The value of a byte, and Go's conversion [byte(z)], which wraps. *)
Definition uint8 (b : byte) : Z := Z.of_N (Byte.to_N b).
Definition byte_of (z : Z) : byte :=
  match Byte.of_N (Z.to_N (z mod 256)) with Some b => b | None => x00 end.

Lemma uint8_range b : 0 ≤ uint8 b < 256.
Proof. unfold uint8. pose proof (Byte.to_N_bounded b). lia. Qed.

Lemma uint8_byte_of z : uint8 (byte_of z) = z mod 256.
Proof.
  unfold uint8, byte_of.
  pose proof (Z.mod_pos_bound z 256 ltac:(lia)).
  destruct (Byte.of_N _) as [b|] eqn:E.
  - apply Byte.to_of_N in E. rewrite E. lia.
  - apply Byte.of_N_None_iff in E. lia.
Qed.

Lemma uint8_inj b b' : uint8 b = uint8 b' → b = b'.
Proof.
  unfold uint8. intros ?%N2Z.inj.
  enough (Some b = Some b') by congruence.
  by rewrite <-(Byte.of_to_N b), <-(Byte.of_to_N b'), H.
Qed.

Lemma byte_of_uint8 b : byte_of (uint8 b) = b.
Proof.
  apply uint8_inj. rewrite uint8_byte_of. apply Z.mod_small, uint8_range.
Qed.

Lemma byte_of_eq z z' : z mod 256 = z' mod 256 → byte_of z = byte_of z'.
Proof. unfold byte_of. by intros ->. Qed.

(** A statement about one byte, decided on its 256 values. *)
Definition all_bytes : list byte :=
  omap (λ n, Byte.of_N (N.of_nat n)) (seq 0 256).

Lemma elem_of_all_bytes b : b ∈ all_bytes.
Proof.
  apply list_elem_of_omap. exists (N.to_nat (Byte.to_N b)).
  rewrite N2Nat.id. split; [|by rewrite Byte.of_to_N].
  apply elem_of_seq. pose proof (Byte.to_N_bounded b). lia.
Qed.

Lemma byte_forall (P : byte → Prop) `{∀ b, Decision (P b)} :
  bool_decide (Forall P all_bytes) = true → ∀ b, P b.
Proof.
  intros HP%bool_decide_eq_true b. eapply Forall_forall; [exact HP|apply elem_of_all_bytes].
Qed.

(** ** 64-bit signed integers ([int], [int64], [time.Duration]) *)

Definition int64_min : Z := - 2 ^ 63.
Definition int64_max : Z := 2 ^ 63 - 1.
Definition wrap64 (z : Z) : Z := (z + 2 ^ 63) mod 2 ^ 64 - 2 ^ 63.
Definition is_int64 (z : Z) : Prop := int64_min ≤ z ≤ int64_max.

Lemma wrap64_is_int64 z : is_int64 (wrap64 z).
Proof.
  unfold is_int64, wrap64, int64_min, int64_max.
  pose proof (Z.mod_pos_bound (z + 2 ^ 63) (2 ^ 64) ltac:(lia)). lia.
Qed.

Lemma wrap64_id z : is_int64 z → wrap64 z = z.
Proof.
  unfold is_int64, wrap64, int64_min, int64_max. intros.
  rewrite Z.mod_small; lia.
Qed.

(** ** 16-bit unsigned integers and [binary.BigEndian] *)

Definition is_uint16 (z : Z) : Prop := 0 ≤ z < 65536.

(** [binary.BigEndian.Uint16(buf)]. *)
Definition Uint16 (buf : list byte) : Z :=
  Z.lor (Z.shiftl (uint8 (nth 0 buf x00)) 8) (uint8 (nth 1 buf x00)).

(** [binary.BigEndian.PutUint16], and the literal pair
    [byte(v >> 8), byte(v & 0xFF)]. *)
Definition PutUint16 (v : Z) : list byte :=
  [byte_of (Z.shiftr v 8); byte_of (Z.land v 0xFF)].

#[global] Arguments PutUint16 : simpl never.
#[global] Arguments Uint16 : simpl never.
#[global] Arguments uint8 : simpl never.
#[global] Arguments byte_of : simpl never.

Lemma lor_shiftl_add a b : 0 ≤ b < 256 → Z.lor (Z.shiftl a 8) b = a * 256 + b.
Proof.
  intros Hb. rewrite Z.shiftl_mul_pow2 by lia. change (2 ^ 8) with 256.
  rewrite <-Z.add_lor_land.
  enough (Z.land (a * 256) b = 0) by lia.
  apply Z.bits_inj'. intros n Hn. rewrite Z.land_spec, Z.bits_0.
  change 256 with (2 ^ 8). destruct (decide (n < 8)).
  - by rewrite Z.mul_pow2_bits_low.
  - rewrite (Z.bits_above_log2 b); [apply andb_false_r|lia|].
    destruct (decide (b = 0)) as [->|]; [simpl; lia|].
    apply Z.log2_lt_pow2; [lia|].
    apply Z.lt_le_trans with (2 ^ 8); [lia|]. apply Z.pow_le_mono_r; lia.
Qed.

Lemma Uint16_eq b0 b1 : Uint16 [b0; b1] = uint8 b0 * 256 + uint8 b1.
Proof. apply lor_shiftl_add, uint8_range. Qed.

Lemma Uint16_range b0 b1 : is_uint16 (Uint16 [b0; b1]).
Proof.
  rewrite Uint16_eq. unfold is_uint16.
  pose proof (uint8_range b0). pose proof (uint8_range b1). lia.
Qed.

Lemma PutUint16_eq v : PutUint16 v = [byte_of (v / 256); byte_of (v mod 256)].
Proof.
  unfold PutUint16. rewrite Z.shiftr_div_pow2 by lia.
  by change 0xFF with (Z.ones 8); rewrite Z.land_ones by lia.
Qed.

Lemma Uint16_PutUint16 v : is_uint16 v → Uint16 (PutUint16 v) = v.
Proof.
  unfold is_uint16. intros. rewrite PutUint16_eq, Uint16_eq, !uint8_byte_of.
  rewrite Z.mod_mod by lia. rewrite (Z.mod_small (v / 256)).
  - pose proof (Z.div_mod v 256). lia.
  - split; [apply Z.div_pos; lia|]. apply Z.div_lt_upper_bound; lia.
Qed.

Lemma PutUint16_Uint16 b0 b1 : PutUint16 (Uint16 [b0; b1]) = [b0; b1].
Proof.
  rewrite PutUint16_eq, Uint16_eq.
  pose proof (uint8_range b0). pose proof (uint8_range b1).
  rewrite Z.div_add_l, Z.div_small, Z.add_0_r by lia.
  rewrite Z.add_comm, Z_mod_plus_full, Z.mod_small by lia.
  by rewrite !byte_of_uint8.
Qed.

Lemma length_PutUint16 v : length (PutUint16 v) = 2%nat.
Proof. done. Qed.

(** ** Strings: Go strings are byte sequences *)

Definition bytes_of (s : string) : list byte := String.list_byte_of_string s.
Definition string_of (bs : list byte) : string := String.string_of_list_byte bs.

Lemma string_of_bytes_of s : string_of (bytes_of s) = s.
Proof. apply String.string_of_list_byte_of_string. Qed.
Lemma bytes_of_string_of bs : bytes_of (string_of bs) = bs.
Proof. apply String.list_byte_of_string_of_list_byte. Qed.

Lemma bytes_of_inj s s' : bytes_of s = bytes_of s' → s = s'.
Proof. intros H. by rewrite <-(string_of_bytes_of s), H, string_of_bytes_of. Qed.

(** [len(s)]. *)
Definition len (bs : list byte) : Z := Z.of_nat (length bs).
