(* ===== verification/GoStrings.v ===== *)
(** * [strings.TrimSpace]

    White space is what [unicode.IsSpace] accepts, in its UTF-8 encoding:
    trimming on the left removes an encoded space that starts the string, on
    the right one that ends it.  [strings.Split] on a one-byte separator is
    here too.  The laws: trimming is idempotent, and what it leaves neither
    starts nor ends with white space. *)

From S2P Require Export GoLib.

(** ** White space *)

Definition space1 (b : byte) : bool :=
  bool_decide (b ∈ [x09; x0a; x0b; x0c; x0d; x20]).

(** U+0085 and U+00A0. *)
Definition space2 (b c : byte) : bool :=
  bool_decide ((b, c) ∈ [(xc2, x85); (xc2, xa0)]).

(** U+1680, U+2000 to U+200A, U+2028, U+2029, U+202F, U+205F, U+3000. *)
Definition space3 (b c d : byte) : bool :=
  bool_decide ((b, c, d) ∈
    [(xe1, x9a, x80); (xe2, x80, x80); (xe2, x80, x81); (xe2, x80, x82);
     (xe2, x80, x83); (xe2, x80, x84); (xe2, x80, x85); (xe2, x80, x86);
     (xe2, x80, x87); (xe2, x80, x88); (xe2, x80, x89); (xe2, x80, x8a);
     (xe2, x80, xa8); (xe2, x80, xa9); (xe2, x80, xaf); (xe2, x81, x9f);
     (xe3, x80, x80)]).

(** ** Trimming one end *)

Section trim.
Context (sp1 : byte → bool) (sp2 : byte → byte → bool) (sp3 : byte → byte → byte → bool).

Fixpoint trim (bs : list byte) : list byte :=
  match bs with
  | [] => []
  | b :: rest =>
      if sp1 b then trim rest
      else match rest with
      | [] => bs
      | c :: rest2 =>
          if sp2 b c then trim rest2
          else match rest2 with
          | [] => bs
          | d :: rest3 => if sp3 b c d then trim rest3 else bs
          end
      end
  end.

(** The string starts with an encoded space. *)
Definition starts_space (bs : list byte) : bool :=
  match bs with
  | [] => false
  | [b] => sp1 b
  | [b; c] => sp1 b || sp2 b c
  | b :: c :: d :: _ => sp1 b || sp2 b c || sp3 b c d
  end.

Lemma trim_no_space bs : starts_space bs = false → trim bs = bs.
Proof.
  destruct bs as [|b [|c [|d rest]]]; simpl; [done|by intros ->| |].
  - by intros [-> ->]%orb_false_iff.
  - by intros [[-> ->]%orb_false_iff ->]%orb_false_iff.
Qed.

Lemma trim_starts bs : starts_space (trim bs) = false.
Proof.
  remember (length bs) as n eqn:Hn. revert bs Hn.
  induction n as [n IH] using lt_wf_ind. intros bs ->.
  destruct bs as [|b rest]; [done|]. simpl.
  destruct (sp1 b) eqn:H1; [eapply IH; [|done]; simpl; lia|].
  destruct rest as [|c rest]; [done|].
  destruct (sp2 b c) eqn:H2; [eapply IH; [|done]; simpl; lia|].
  destruct rest as [|d rest]; [simpl; by rewrite H1, H2|].
  destruct (sp3 b c d) eqn:H3; [eapply IH; [|done]; simpl; lia|].
  simpl. by rewrite H1, H2, H3.
Qed.

Lemma trim_idem bs : trim (trim bs) = trim bs.
Proof. apply trim_no_space, trim_starts. Qed.

(** A prefix of a string that starts with no space starts with none. *)
Lemma starts_space_prefix bs k : starts_space (bs ++ k) = false → starts_space bs = false.
Proof.
  destruct bs as [|b [|c [|d bs]]]; simpl; [done| | |done].
  - destruct k as [|c [|d k]]; [done|by intros [-> _]%orb_false_iff|].
    by intros [[-> _]%orb_false_iff _]%orb_false_iff.
  - destruct k as [|d k]; [done|by intros [-> _]%orb_false_iff].
Qed.

Lemma trim_suffix bs : ∃ k, bs = k ++ trim bs.
Proof.
  remember (length bs) as n eqn:Hn. revert bs Hn.
  induction n as [n IH] using lt_wf_ind. intros bs ->.
  destruct bs as [|b rest]; [by exists []|]. simpl.
  destruct (sp1 b).
  { edestruct (IH (length rest)) as [k Hk]; [simpl; lia|done|]. exists (b :: k).
    simpl. by rewrite <-Hk. }
  destruct rest as [|c rest]; [by exists []|]. destruct (sp2 b c).
  { edestruct (IH (length rest)) as [k Hk]; [simpl; lia|done|]. exists (b :: c :: k).
    simpl. by rewrite <-Hk. }
  destruct rest as [|d rest]; [by exists []|]. destruct (sp3 b c d); [|by exists []].
  edestruct (IH (length rest)) as [k Hk]; [simpl; lia|done|]. exists (b :: c :: d :: k).
  simpl. by rewrite <-Hk.
Qed.
End trim.

Definition trim_left : list byte → list byte := trim space1 space2 space3.
Definition trim_right (bs : list byte) : list byte :=
  rev (trim space1 (λ c b, space2 b c) (λ d c b, space3 b c d) (rev bs)).

(** [strings.TrimSpace]. *)
Definition TrimSpace (s : string) : string := string_of (trim_right (trim_left (bytes_of s))).

Lemma trim_right_prefix bs : ∃ k, bs = trim_right bs ++ k.
Proof.
  destruct (trim_suffix space1 (λ c b, space2 b c) (λ d c b, space3 b c d) (rev bs)) as [k Hk].
  exists (rev k). unfold trim_right. rewrite <-rev_app_distr, <-Hk. by rewrite rev_involutive.
Qed.

Lemma trim_right_idem bs : trim_right (trim_right bs) = trim_right bs.
Proof. unfold trim_right. by rewrite rev_involutive, trim_idem. Qed.

Lemma TrimSpace_idem s : TrimSpace (TrimSpace s) = TrimSpace s.
Proof.
  unfold TrimSpace. rewrite bytes_of_string_of. f_equal.
  set (l := trim_left (bytes_of s)).
  assert (trim_left (trim_right l) = trim_right l) as ->; [|apply trim_right_idem].
  apply trim_no_space. destruct (trim_right_prefix l) as [k Hk].
  apply (starts_space_prefix _ _ _ _ k). rewrite <-Hk. apply trim_starts.
Qed.

Example TrimSpace_ex : TrimSpace "  machine/state	 " = "machine/state"%string.
Proof. vm_compute. reflexivity. Qed.

(** ** Splitting on a separator byte *)

(** [strings.Split(s, sep)] for a one-byte [sep]: always at least one part. *)
Fixpoint split_bytes (sep : byte) (bs : list byte) : list (list byte) :=
  match bs with
  | [] => [[]]
  | b :: rest =>
      if bool_decide (b = sep) then [] :: split_bytes sep rest
      else match split_bytes sep rest with
      | part :: parts => (b :: part) :: parts
      | [] => [[b]]
      end
  end.

Definition Split (s : string) (sep : byte) : list string :=
  string_of <$> split_bytes sep (bytes_of s).

(** [strings.HasSuffix]. *)
Definition HasSuffix (s suffix : string) : bool :=
  let n := (String.length s - String.length suffix)%nat in
  bool_decide (String.length suffix ≤ String.length s)%nat &&
  bool_decide (String.substring n (String.length suffix) s = suffix).
