(* ===== verification/GoStrconv.v ===== *)
(** * [strconv] and [strings.Join]

    [Itoa], [Atoi] and [ParseBool] of the package strconv, and
    [strings.Join], with what printing and parsing have to do with each
    other. *)

From Stdlib Require Import Strings.Ascii DecimalString DecimalZ.
From S2P Require Export GoStrings.

Local Open Scope Z_scope.

(** ** Numbers *)

Definition Itoa (n : Z) : string := NilZero.string_of_int (Z.to_int n).

(** [Atoi]: an optional sign and decimal digits, within the range of an
    [int]; [None] is an error. *)
Definition Atoi_digits (sign : Z) (s : string) : option Z :=
  d ← NilZero.uint_of_string s;
  let n := sign * Z.of_uint d in
  if (int64_min <=? n) && (n <=? int64_max) then Some n else None.

Definition Atoi (s : string) : option Z :=
  match s with
  | String "-"%char rest => Atoi_digits (-1) rest
  | String "+"%char rest => Atoi_digits 1 rest
  | _ => Atoi_digits 1 s
  end.

(** [ParseBool]; [None] is an error. *)
Definition ParseBool (s : string) : option bool :=
  if bool_decide (s ∈ ["1"; "t"; "T"; "TRUE"; "true"; "True"]%string) then Some true
  else if bool_decide (s ∈ ["0"; "f"; "F"; "FALSE"; "false"; "False"]%string) then Some false
  else None.

Lemma Atoi_unsigned s : (∀ c rest, s = String c rest → c ≠ "-"%char ∧ c ≠ "+"%char) →
  Atoi s = Atoi_digits 1 s.
Proof.
  destruct s as [|c rest]; [done|]. intros Hc. destruct (Hc c rest eq_refl) as [Hm Hp].
  unfold Atoi. by repeat (case_match; try congruence).
Qed.

Lemma string_of_uint_digit d c rest : NilZero.string_of_uint d = String c rest →
  c ≠ "-"%char ∧ c ≠ "+"%char.
Proof. destruct d; simpl; intros [= <- _]; done. Qed.

Lemma Atoi_Itoa n : is_int64 n → Atoi (Itoa n) = Some n.
Proof.
  intros Hn. unfold Itoa.
  assert (∀ d sign : _, d ≠ Decimal.Nil → sign * Z.of_uint d = n →
    Atoi_digits sign (NilZero.string_of_uint d) = Some n) as Hdigits.
  { intros d sign Hd Heq. unfold Atoi_digits. rewrite NilZero.usu by done. simpl. rewrite Heq.
    unfold is_int64 in Hn. destruct (Z.leb_spec int64_min n), (Z.leb_spec n int64_max); simpl;
      done || lia. }
  pose proof (DecimalZ.of_to n) as Hof. pose proof (DecimalZ.to_of (Z.to_int n)) as Hnorm.
  rewrite Hof in Hnorm. destruct (Z.to_int n) as [d|d] eqn:Hd; simpl in Hof |- *.
  - rewrite Atoi_unsigned by apply string_of_uint_digit. apply Hdigits; [|lia].
    intros ->. simpl in Hnorm. done.
  - apply Hdigits; [|lia]. intros ->. simpl in Hnorm. done.
Qed.

Lemma Atoi_digits_int64 sign s n : Atoi_digits sign s = Some n → is_int64 n.
Proof.
  unfold Atoi_digits. destruct (NilZero.uint_of_string s) as [d|]; simpl; [|done].
  destruct (Z.leb_spec int64_min (sign * Z.of_uint d)), (Z.leb_spec (sign * Z.of_uint d) int64_max);
    simpl; intros [= <-]; unfold is_int64; lia.
Qed.

Lemma Atoi_int64 s n : Atoi s = Some n → is_int64 n.
Proof.
  unfold Atoi. repeat case_match; apply Atoi_digits_int64.
Qed.

(** ** Joining and splitting *)

Definition comma : byte := x2c.

(** [strings.Join] with a one-byte separator. *)
Fixpoint join_bytes (sep : byte) (parts : list (list byte)) : list byte :=
  match parts with
  | [] => []
  | [p] => p
  | p :: parts => p ++ sep :: join_bytes sep parts
  end.

Definition Join (parts : list string) (sep : byte) : string :=
  string_of (join_bytes sep (bytes_of <$> parts)).

Lemma split_none sep p : sep ∉ p → split_bytes sep p = [p].
Proof.
  induction p as [|b p IH]; [done|]. intros [Hb Hp]%not_elem_of_cons. simpl.
  rewrite bool_decide_false by done. by rewrite IH.
Qed.

Lemma split_app sep p rest : sep ∉ p → split_bytes sep (p ++ sep :: rest) = p :: split_bytes sep rest.
Proof.
  induction p as [|b p IH]; intros Hp; simpl; [by rewrite bool_decide_true|].
  apply not_elem_of_cons in Hp as [Hb Hp]. rewrite bool_decide_false by done. by rewrite IH.
Qed.

Lemma split_join sep parts : parts ≠ [] → Forall (λ p, sep ∉ p) parts →
  split_bytes sep (join_bytes sep parts) = parts.
Proof.
  induction parts as [|p parts IH]; [done|]. intros _ [Hp Hps]%Forall_cons.
  destruct parts as [|q parts]; [by apply split_none|].
  change (join_bytes sep (p :: q :: parts)) with (p ++ sep :: join_bytes sep (q :: parts)).
  rewrite split_app by done. by rewrite IH.
Qed.

Lemma Split_Join sep parts : parts ≠ [] → Forall (λ p, sep ∉ bytes_of p) parts →
  Split (Join parts sep) sep = parts.
Proof.
  intros Hne Hall. unfold Split, Join. rewrite bytes_of_string_of, split_join.
  - rewrite <-list_fmap_compose. rewrite <-(list_fmap_id parts) at 2.
    apply list_fmap_ext. intros _ p _. apply string_of_bytes_of.
  - by destruct parts.
  - by apply Forall_fmap.
Qed.

(** ** Printed numbers *)

(** A byte of a printed number or duration: no separator and no white space. *)
Definition plain (b : byte) : bool :=
  bool_decide (b ∈ [x2d; x30; x31; x32; x33; x34; x35; x36; x37; x38; x39; x6e; x73]).

Lemma bytes_of_uint d : Forall (λ b, plain b = true) (bytes_of (NilEmpty.string_of_uint d)).
Proof. induction d; simpl; [constructor|constructor; [reflexivity|exact IHd]..]. Qed.

Lemma Itoa_plain n : Forall (λ b, plain b = true) (bytes_of (Itoa n)).
Proof.
  unfold Itoa, NilZero.string_of_int, NilZero.string_of_uint.
  assert (∀ d, Forall (λ b, plain b = true)
    (bytes_of match d with Decimal.Nil => "0"%string | _ => NilEmpty.string_of_uint d end)) as Hd.
  { intros d. destruct d; [by repeat constructor|apply bytes_of_uint..]. }
  destruct (Z.to_int n) as [d|d]; [apply Hd|]. constructor; [done|apply Hd].
Qed.

Lemma trim_plain sp1 sp2 sp3 bs : Forall (λ b, plain b = true) bs →
  (∀ b, plain b = true → sp1 b = false) → (∀ b c, plain b = true → sp2 b c = false) →
  (∀ b c d, plain b = true → sp3 b c d = false) → trim sp1 sp2 sp3 bs = bs.
Proof.
  intros Hbs H1 H2 H3. destruct bs as [|b bs]; [done|]. apply Forall_cons in Hbs as [Hb _]. simpl.
  rewrite H1 by done. destruct bs as [|c bs]; [done|]. rewrite H2 by done.
  destruct bs as [|d bs]; [done|]. by rewrite H3.
Qed.

Lemma plain_space1 b : plain b = true → space1 b = false.
Proof. by destruct b. Qed.
Lemma plain_space2_l b c : plain b = true → space2 b c = false.
Proof. by destruct b. Qed.
Lemma plain_space2_r b c : plain c = true → space2 b c = false.
Proof.
  intros Hc. unfold space2. apply bool_decide_eq_false. intros Hin.
  repeat (apply elem_of_cons in Hin as [[= -> ->]|Hin]; [done|]). by apply elem_of_nil in Hin.
Qed.
Lemma plain_space3_l b c d : plain b = true → space3 b c d = false.
Proof. by destruct b. Qed.
Lemma plain_space3_r b c d : plain d = true → space3 b c d = false.
Proof.
  intros Hd. unfold space3. apply bool_decide_eq_false. intros Hin.
  repeat (apply elem_of_cons in Hin as [[= -> -> ->]|Hin]; [done|]). by apply elem_of_nil in Hin.
Qed.

Lemma TrimSpace_plain s : Forall (λ b, plain b = true) (bytes_of s) → TrimSpace s = s.
Proof.
  intros Hs. unfold TrimSpace, trim_left.
  rewrite trim_plain by eauto using plain_space1, plain_space2_l, plain_space3_l.
  unfold trim_right. rewrite trim_plain;
    [by rewrite rev_involutive, string_of_bytes_of|..];
    eauto using plain_space1, plain_space2_r, plain_space3_r.
  apply Forall_rev, Hs.
Qed.
