(* ===== verification/GoTime.v ===== *)
(** * Time ([time.Time], [time.Duration], [time.Location])

    Durations and points in time are integers of nanoseconds.  A duration is
    an [int64]; a point in time counts from the Unix epoch and is not bounded
    here (Go's range is 292 billion years).  A [Time] carries the location it
    is shown in.  A location is what [Location.lookup] finds in its table
    of zones; the tables themselves are data of the operating system.

    The date arithmetic of [time.Date] and [Time.AddDate] is written over the
    civil clock: the nanoseconds a wall clock of the location shows, counted
    from 1970-01-01 00:00. *)

From S2P Require Export GoLib.

Local Open Scope Z_scope.

Definition Second : Z := 1000000000.
Definition Minute : Z := 60 * Second.
Definition Day : Z := 86400 * Second.

(** The zone in use at a Unix time in seconds: its offset to UTC in seconds,
    the Unix time it starts and the one it ends. *)
Record Location := { zone_lookup : Z → Z * Z * Z }.

Definition zone_offset (l : Location) (sec : Z) : Z := (zone_lookup l sec).1.1.

Definition UTC : Location := {| zone_lookup _ := (0, int64_min, int64_max) |}.

Record Time := { ns : Z; loc : Location }.

(** The wall clock of [t.Location()] at [t]. *)
Definition civil (t : Time) : Z := ns t + zone_offset (loc t) (ns t / Second) * Second.

(** [time.Date]: the instant at which a clock of [l] shows [c].  The first
    offset is looked up as if [c] were a Unix time; when the instant it gives
    is not in that zone the offset of that instant is used. *)
Definition Date (c : Z) (l : Location) : Time :=
  let '(offset, zstart, zend) := zone_lookup l (c / Second) in
  let utc := c / Second - offset in
  let offset :=
    if offset =? 0 then 0
    else if (utc <? zstart) || (zend <=? utc) then zone_offset l utc else offset in
  {| ns := c - offset * Second; loc := l |}.

(** [t.In(l)]. *)
Definition In (t : Time) (l : Location) : Time := {| ns := ns t; loc := l |}.
(** [t.AddDate(0, 0, n)]. *)
Definition AddDate (t : Time) (n : Z) : Time := Date (civil t + n * Day) (loc t).
(** [time.Date(t.Year(), t.Month(), t.Day(), 0, 0, 0, 0, t.Location())]. *)
Definition midnight (t : Time) : Time := Date (civil t / Day * Day) (loc t).
(** [t.Weekday()]: Sunday is 0, and 1970-01-01 was a Thursday. *)
Definition Weekday (t : Time) : Z := (civil t / Day + 4) mod 7.

Definition After (t u : Time) : bool := ns u <? ns t.
Definition Before (t u : Time) : bool := ns t <? ns u.
(** [t.Add(d)]. *)
Definition Plus (t : Time) (d : Z) : Time := {| ns := ns t + d; loc := loc t |}.
(** [t.Sub(u)] saturates. *)
Definition Sub (t u : Time) : Z := Z.max int64_min (Z.min int64_max (ns t - ns u)).

(** ** Locations whose offset never changes *)

Definition fixed_offset (off : Z) (l : Location) : Prop := ∀ sec, zone_offset l sec = off.

Lemma ns_Date_fixed off l c : fixed_offset off l → ns (Date c l) = c - off * Second.
Proof.
  intros Hl. unfold Date. pose proof (Hl (c / Second)) as Hc. unfold zone_offset in Hc.
  destruct (zone_lookup l (c / Second)) as [[o s] e]. simpl in Hc. subst o. simpl.
  rewrite Hl. destruct (Z.eqb_spec off 0) as [->|]; [done|]. by case_match.
Qed.

Lemma loc_Date c l : loc (Date c l) = l.
Proof. unfold Date. by destruct (zone_lookup l (c / Second)) as [[o s] e]. Qed.

Lemma Date_eta c l : Date c l = {| ns := ns (Date c l); loc := l |}.
Proof. rewrite <-(loc_Date c l) at 3. by destruct (Date c l). Qed.

Lemma civil_fixed off t : fixed_offset off (loc t) → civil t = ns t + off * Second.
Proof. intros Hl. unfold civil. by rewrite Hl. Qed.

Lemma civil_Date_fixed off l c : fixed_offset off l → civil (Date c l) = c.
Proof.
  intros Hl. rewrite (civil_fixed off) by by rewrite loc_Date.
  rewrite (ns_Date_fixed off) by done. lia.
Qed.

(** ** Locations whose offsets lie within a range *)

Definition offsets_within (lo hi : Z) (l : Location) : Prop :=
  ∀ sec, lo ≤ zone_offset l sec ≤ hi.

Lemma offsets_fixed off l : offsets_within off off l ↔ fixed_offset off l.
Proof. split; intros Hl s; specialize (Hl s); lia. Qed.

Lemma ns_Date_range lo hi l c : offsets_within lo hi l →
  c - hi * Second ≤ ns (Date c l) ≤ c - lo * Second.
Proof.
  intros Hl. unfold Date. pose proof (Hl (c / Second)) as Hc. unfold zone_offset in Hc.
  destruct (zone_lookup l (c / Second)) as [[o s] e]. simpl in Hc |- *.
  pose proof (Hl (c / Second - o)). unfold Second in *.
  destruct (Z.eqb_spec o 0); [lia|]. case_match; lia.
Qed.

Lemma civil_range lo hi t : offsets_within lo hi (loc t) →
  ns t + lo * Second ≤ civil t ≤ ns t + hi * Second.
Proof. intros Hl. unfold civil. specialize (Hl (ns t / Second)). unfold Second in *. lia. Qed.

(** A day later is later, by at least a day less the span of the offsets. *)
Lemma AddDate_advances lo hi t : offsets_within lo hi (loc t) →
  ns t + Day - (hi - lo) * Second ≤ ns (AddDate t 1).
Proof.
  intros Hl. unfold AddDate.
  pose proof (ns_Date_range lo hi (loc t) (civil t + 1 * Day) Hl).
  pose proof (civil_range lo hi t Hl). lia.
Qed.
