(* ===== verification/GoCalendar.v ===== *)
(** * The calendar ([time.Time.Date], [time.Date])

    The Gregorian calendar of the package time: days are counted from
    0001-01-01, years and days of the year found by cutting off cycles of 400,
    100, 4 and 1 years, months by their lengths.  Splitting a day into year,
    month and day and counting it again are inverse, and the order of dates is
    the order of days. *)

From S2P Require Export GoTime.

Local Open Scope Z_scope.

#[local] Ltac Zify.zify_post_hook ::= Z.to_euclidean_division_equations.

(** Days from 0001-01-01 to 1970-01-01. *)
Definition epoch : Z := 719162.

Definition isLeap (y : Z) : bool :=
  (y mod 4 =? 0) && (negb (y mod 100 =? 0) || (y mod 400 =? 0)).

(** ** Years *)

(** The days before January 1 of a year. *)
Definition january1 (y : Z) : Z :=
  let p := y - 1 in 365 * p + p / 4 - p / 100 + p / 400.

(** The year of a day and the day of that year, from 0. *)
Definition year_yday (d : Z) : Z * Z :=
  let n400 := d / 146097 in
  let d := d - 146097 * n400 in
  let n100 := Z.min 3 (d / 36524) in
  let d := d - 36524 * n100 in
  let n4 := d / 1461 in
  let d := d - 1461 * n4 in
  let n1 := Z.min 3 (d / 365) in
  (400 * n400 + 100 * n100 + 4 * n4 + n1 + 1, d - 365 * n1).

Definition year_days (y : Z) : Z := if isLeap y then 366 else 365.

(** A year in its cycles. *)
Lemma cycles a b c e : 0 ≤ b ≤ 3 → 0 ≤ c ≤ 24 → 0 ≤ e ≤ 3 →
  let y := 400 * a + 100 * b + 4 * c + e + 1 in
  january1 y = 146097 * a + 36524 * b + 1461 * c + 365 * e ∧
  isLeap y = (e =? 3) && (negb (c =? 24) || (b =? 3)).
Proof.
  intros Hb Hc He y. split.
  - unfold january1, y. cbv zeta. lia.
  - unfold isLeap, y.
    destruct (Z.eqb_spec e 3), (Z.eqb_spec c 24), (Z.eqb_spec b 3);
      destruct (Z.eqb_spec ((400 * a + 100 * b + 4 * c + e + 1) mod 4) 0);
      destruct (Z.eqb_spec ((400 * a + 100 * b + 4 * c + e + 1) mod 100) 0);
      destruct (Z.eqb_spec ((400 * a + 100 * b + 4 * c + e + 1) mod 400) 0); simpl; try done; lia.
Qed.

Lemma year_yday_spec d : let '(y, yd) := year_yday d in
  january1 y + yd = d ∧ 0 ≤ yd < year_days y.
Proof.
  unfold year_yday. set (a := d / 146097). set (d1 := d - 146097 * a).
  set (b := Z.min 3 (d1 / 36524)). set (d2 := d1 - 36524 * b).
  set (c := d2 / 1461). set (d3 := d2 - 1461 * c). set (e := Z.min 3 (d3 / 365)).
  assert (0 ≤ d1 < 146097) by lia. assert (0 ≤ b ≤ 3) by lia.
  assert (0 ≤ d2 < 36525 ∧ (b ≤ 2 → d2 < 36524)) by lia.
  assert (0 ≤ c ≤ 24) by lia. assert (0 ≤ d3 < 1461 ∧ (c = 24 → b ≤ 2 → d3 < 1460)) by lia.
  assert (0 ≤ e ≤ 3) by lia.
  destruct (cycles a b c e) as [Hj Hl]; [lia..|]. split; [lia|].
  unfold year_days. rewrite Hl.
  destruct (Z.eqb_spec e 3), (Z.eqb_spec c 24), (Z.eqb_spec b 3); simpl; lia.
Qed.

(** Every year is one of the cycles. *)
Lemma year_cycles y : ∃ a b c e, 0 ≤ b ≤ 3 ∧ 0 ≤ c ≤ 24 ∧ 0 ≤ e ≤ 3 ∧
  y = 400 * a + 100 * b + 4 * c + e + 1.
Proof.
  exists ((y - 1) / 400), ((y - 1) mod 400 / 100), ((y - 1) mod 100 / 4), ((y - 1) mod 4). lia.
Qed.

Lemma january1_next y : january1 (y + 1) = january1 y + year_days y.
Proof.
  destruct (year_cycles y) as (a & b & c & e & Hb & Hc & He & ->).
  destruct (cycles a b c e Hb Hc He) as [Hj Hl]. unfold year_days. rewrite Hj, Hl.
  unfold january1. destruct (Z.eqb_spec e 3), (Z.eqb_spec c 24), (Z.eqb_spec b 3); simpl; lia.
Qed.

Lemma year_days_bounds y : 365 ≤ year_days y ≤ 366.
Proof. unfold year_days. destruct (isLeap y); lia. Qed.

Lemma january1_mono y y' : y < y' → january1 y + year_days y ≤ january1 y'.
Proof.
  intros Hy. rewrite <-january1_next.
  assert (∀ n, january1 (y + 1) ≤ january1 (y + 1 + Z.of_nat n)) as Hn.
  { induction n as [|n IH]; [by rewrite Z.add_0_r|].
    pose proof (january1_next (y + 1 + Z.of_nat n)) as Hnext.
    pose proof (year_days_bounds (y + 1 + Z.of_nat n)).
    replace (y + 1 + Z.of_nat (S n)) with (y + 1 + Z.of_nat n + 1) by lia. lia. }
  specialize (Hn (Z.to_nat (y' - y - 1))).
  replace (y + 1 + Z.of_nat (Z.to_nat (y' - y - 1))) with y' in Hn by lia. done.
Qed.

Lemma year_yday_unique y yd : 0 ≤ yd < year_days y → year_yday (january1 y + yd) = (y, yd).
Proof.
  intros Hyd. pose proof (year_yday_spec (january1 y + yd)) as Hs.
  destruct (year_yday (january1 y + yd)) as [y' yd']. destruct Hs as [Heq Hyd'].
  assert (y' = y) as ->.
  { destruct (Z.lt_trichotomy y' y) as [Hl|[Hl|Hl]]; [|done|];
      apply january1_mono in Hl; lia. }
  f_equal. lia.
Qed.

(** ** Months *)

#[local] Ltac Zify.zify_post_hook ::= idtac.

(** The days of a year before a month, [time.daysBefore] with the leap day. *)
Definition daysBefore (leap : bool) (m : Z) : Z :=
  let feb := if leap then 29 else 28 in
  nth (Z.to_nat (m - 1))
    [0; 31; 31 + feb; 62 + feb; 92 + feb; 123 + feb; 153 + feb; 184 + feb; 215 + feb;
     245 + feb; 276 + feb; 306 + feb; 337 + feb] 0.

Definition daysIn (leap : bool) (m : Z) : Z := daysBefore leap (m + 1) - daysBefore leap m.

(** The month of a day of the year and the day of that month. *)
Fixpoint month_from (leap : bool) (n : nat) (m yd : Z) : Z * Z :=
  match n with
  | O => (m, yd - daysBefore leap m + 1)
  | S n =>
      if yd <? daysBefore leap (m + 1) then (m, yd - daysBefore leap m + 1)
      else month_from leap n (m + 1) yd
  end.
Definition month_day (leap : bool) (yd : Z) : Z * Z := month_from leap 11 1 yd.

(** Evaluates the table at the months that are known. *)
Ltac table := repeat match goal with
  | |- context [daysBefore ?l ?m] =>
      let v := eval vm_compute in (daysBefore l m) in change (daysBefore l m) with v
  | H : context [daysBefore ?l ?m] |- _ =>
      let v := eval vm_compute in (daysBefore l m) in change (daysBefore l m) with v in H
  end.

Lemma month_day_spec (leap : bool) yd : 0 ≤ yd < (if leap then 366 else 365) →
  let '(m, d) := month_day leap yd in
  1 ≤ m ≤ 12 ∧ 1 ≤ d ≤ daysIn leap m ∧ daysBefore leap m + d - 1 = yd.
Proof.
  intros Hyd. unfold month_day. destruct leap; cbn [month_from];
    repeat match goal with |- context [if ?b then _ else _] => destruct b eqn:? end;
    bool_simpl; unfold daysIn; table; lia.
Qed.

(** ** Dates *)

(** Year, month and day of a day counted from 1970-01-01, and back. *)
Definition date_of (day : Z) : Z * Z * Z :=
  let '(y, yd) := year_yday (day + epoch) in
  let '(m, d) := month_day (isLeap y) yd in (y, m, d).

Definition date_days (y m d : Z) : Z := january1 y + daysBefore (isLeap y) m + d - 1 - epoch.

Lemma date_of_spec day : let '(y, m, d) := date_of day in
  1 ≤ m ≤ 12 ∧ 1 ≤ d ≤ daysIn (isLeap y) m ∧ date_days y m d = day.
Proof.
  unfold date_of. pose proof (year_yday_spec (day + epoch)) as Hy.
  destruct (year_yday (day + epoch)) as [y yd]. destruct Hy as [Hy Hyd].
  pose proof (month_day_spec (isLeap y) yd Hyd) as Hm.
  destruct (month_day (isLeap y) yd) as [m d]. unfold date_days. lia.
Qed.

Lemma daysIn_bounds l m : 1 ≤ m ≤ 12 → 28 ≤ daysIn l m ≤ 31.
Proof.
  intros Hm. assert (m ∈ [1; 2; 3; 4; 5; 6; 7; 8; 9; 10; 11; 12]) as Hin.
  { rewrite !elem_of_cons, elem_of_nil. lia. }
  unfold daysIn. repeat (apply elem_of_cons in Hin as [->|Hin];
    [destruct l; table; lia|]). by apply elem_of_nil in Hin.
Qed.

Example date_of_ex : date_of 20454 = (2026, 1, 1) ∧ date_of 19782 = (2024, 2, 29).
Proof. vm_compute. done. Qed.

(** *** Order *)

Lemma daysBefore_mono l m m' : 1 ≤ m → m < m' → m' ≤ 12 →
  daysBefore l m + daysIn l m ≤ daysBefore l m'.
Proof.
  intros H1 Hlt H12.
  assert (∀ n, m + 1 + Z.of_nat n ≤ 12 → daysBefore l (m + 1) ≤ daysBefore l (m + 1 + Z.of_nat n)) as Hn.
  { induction n as [|n IH]; intros Hle; [by rewrite Z.add_0_r|].
    pose proof (daysIn_bounds l (m + 1 + Z.of_nat n) ltac:(lia)) as Hb. unfold daysIn in Hb.
    replace (m + 1 + Z.of_nat (S n)) with (m + 1 + Z.of_nat n + 1) by lia. lia. }
  specialize (Hn (Z.to_nat (m' - m - 1)) ltac:(lia)).
  replace (m + 1 + Z.of_nat (Z.to_nat (m' - m - 1))) with m' in Hn by lia. unfold daysIn. lia.
Qed.

(** The day of the year of a date. *)
Lemma yday_range l m d : 1 ≤ m ≤ 12 → 1 ≤ d ≤ daysIn l m →
  0 ≤ daysBefore l m + d - 1 < (if l then 366 else 365).
Proof.
  intros Ha Hb. assert (0 ≤ daysBefore l m ∧ daysBefore l m + daysIn l m ≤ if l then 366 else 365).
  { destruct (decide (m = 12)) as [->|]; [by destruct l|]. destruct (decide (m = 1)) as [->|].
    - pose proof (daysBefore_mono l 1 12 ltac:(lia) ltac:(lia) ltac:(lia)). by destruct l.
    - pose proof (daysBefore_mono l m 12 ltac:(lia) ltac:(lia) ltac:(lia)).
      pose proof (daysBefore_mono l 1 m ltac:(lia) ltac:(lia) ltac:(lia)).
      pose proof (daysIn_bounds l 1 ltac:(lia)).
      assert (daysBefore l 1 = 0 ∧ daysBefore l 12 = if l then 335 else 334) by by destruct l.
      destruct l; lia. }
  destruct l; lia.
Qed.

(** The year of a date is read back from its day. *)
Lemma date_of_year y m d : 1 ≤ m ≤ 12 → 1 ≤ d ≤ daysIn (isLeap y) m →
  (date_of (date_days y m d)).1.1 = y.
Proof.
  intros Hm Hd. unfold date_of, date_days.
  replace (january1 y + daysBefore (isLeap y) m + d - 1 - epoch + epoch)
    with (january1 y + (daysBefore (isLeap y) m + d - 1)) by lia.
  rewrite year_yday_unique by by apply yday_range. by destruct (month_day _ _).
Qed.

Lemma date_order day day' : day < day' →
  let '(y, m, d) := date_of day in let '(y', m', d') := date_of day' in
  y < y' ∨ y = y' ∧ (m < m' ∨ m = m' ∧ d < d').
Proof.
  intros Hlt. pose proof (date_of_spec day) as H1. pose proof (date_of_spec day') as H2.
  destruct (date_of day) as [[y m] d], (date_of day') as [[y' m'] d'].
  destruct H1 as (Hm & Hd & Heq), H2 as (Hm' & Hd' & Heq'). unfold date_days in *.
  pose proof (yday_range (isLeap y) m d Hm Hd). pose proof (yday_range (isLeap y') m' d' Hm' Hd').
  destruct (Z.lt_trichotomy y y') as [?|[<-|Hy]]; [by left| |].
  - right. split; [done|]. destruct (Z.lt_trichotomy m m') as [?|[<-|Hmm]]; [by left| |].
    + right. lia.
    + pose proof (daysBefore_mono (isLeap y) m' m ltac:(lia) Hmm ltac:(lia)). lia.
  - apply january1_mono in Hy. unfold year_days in Hy. lia.
Qed.
