(* ===== verification/GoRfc3339.v ===== *)
(** * Timestamps as text ([time.RFC3339Nano])

    [Time.Format] and [time.Parse] with the layout RFC3339Nano, as the
    repositories use them to keep timestamps in TEXT columns.

    - a time of the years 0 to 9999 in a zone of whole minutes, [storable], is
      read back to the same instant;
    - texts of times in UTC with whole seconds are ordered as the times are.
      Others are not: a fraction and another offset change the order.

    [Parse] reads what Go reads of the layouts RFC3339 and RFC3339Nano, which
    parse alike: hours of one digit and a comma before the fraction too, and
    offsets up to 24 hours and 60 minutes.  So the offset of a parsed time can
    be 25 hours, which no text can say: all other parsed times are [storable]
    ([parse_storable]).  The zone of a parsed time is the fixed one of its
    text; Go prefers the local zone when it has the same offset, which does not
    change the instant. *)

From S2P Require Export GoCalendar GoStrconv.

Local Open Scope Z_scope.

(** ** Digits *)

Definition digit (d : Z) : byte := byte_of (48 + d).
Definition is_digit (b : byte) : bool := (48 <=? uint8 b) && (uint8 b <=? 57).

(** The last [n] digits of a number. *)
Fixpoint digits (n : nat) (x : Z) : list byte :=
  match n with
  | O => []
  | S n => digits n (x / 10) ++ [digit (x mod 10)]
  end.

Definition value (bs : list byte) : Z := foldl (λ a b, a * 10 + (uint8 b - 48)) 0 bs.

(** [appendInt(b, x, width)]. *)
Definition appendInt (x : Z) (width : nat) : list byte :=
  (if x <? 0 then [x2d] else []) ++
  let u := Z.abs x in
  if u <? 10 ^ Z.of_nat width then digits width u else bytes_of (Itoa u).

Lemma uint8_digit d : 0 ≤ d < 10 → uint8 (digit d) = 48 + d.
Proof. intros Hd. unfold digit. rewrite uint8_byte_of. apply Z.mod_small. lia. Qed.

Lemma is_digit_digit d : 0 ≤ d < 10 → is_digit (digit d) = true.
Proof. intros Hd. unfold is_digit. rewrite uint8_digit by done. lia. Qed.

Lemma length_digits n x : length (digits n x) = n.
Proof. revert x. induction n as [|n IH]; intros x; simpl; [done|]. rewrite length_app, IH. simpl. lia. Qed.

Lemma digits_are n x : 0 ≤ x → Forall (λ b, is_digit b = true) (digits n x).
Proof.
  revert x. induction n as [|n IH]; intros x Hx; simpl; [constructor|].
  apply Forall_app. split; [apply IH; by apply Z.div_pos|]. apply Forall_singleton, is_digit_digit.
  by apply Z.mod_pos_bound.
Qed.

Lemma value_acc a bs :
  foldl (λ a b, a * 10 + (uint8 b - 48)) a bs = a * 10 ^ Z.of_nat (length bs) + value bs.
Proof.
  unfold value. revert a. induction bs as [|b bs IH]; intros a; simpl; [lia|].
  rewrite IH, (IH (0 * 10 + _)), Nat2Z.inj_succ, Z.pow_succ_r by lia. lia.
Qed.

Lemma value_app bs cs : value (bs ++ cs) = value bs * 10 ^ Z.of_nat (length cs) + value cs.
Proof. unfold value at 1. by rewrite foldl_app, value_acc. Qed.

Lemma value_one b : value [b] = uint8 b - 48.
Proof. done. Qed.

Lemma value_digits n x : 0 ≤ x < 10 ^ Z.of_nat n → value (digits n x) = x.
Proof.
  revert x. induction n as [|n IH]; intros x Hx; simpl; [unfold value; simpl; lia|].
  replace (Z.of_nat (S n)) with (Z.of_nat n + 1) in Hx by lia.
  rewrite Z.pow_add_r in Hx by lia.
  rewrite value_app, IH, value_one by (pose proof (Z.div_mod x 10); pose proof (Z.mod_pos_bound x 10);
    split; [apply Z.div_pos; lia|apply Z.div_lt_upper_bound; lia]).
  pose proof (Z.mod_pos_bound x 10). rewrite uint8_digit by lia.
  pose proof (Z.div_mod x 10). change (Z.of_nat (length [digit (x mod 10)])) with 1. lia.
Qed.

Lemma appendInt_digits x n : 0 ≤ x < 10 ^ Z.of_nat n → appendInt x n = digits n x.
Proof.
  intros Hx. unfold appendInt. destruct (Z.ltb_spec x 0); [lia|]. rewrite Z.abs_eq by lia.
  by destruct (Z.ltb_spec x (10 ^ Z.of_nat n)); [|lia].
Qed.

(** ** [Format] *)

Fixpoint drop_zeros (bs : list byte) : list byte :=
  match bs with
  | b :: rest => if bool_decide (b = x30) then drop_zeros rest else bs
  | [] => []
  end.

(** [appendNano] with trailing zeros removed, and the point when nothing is left. *)
Definition fraction (nsec : Z) : list byte :=
  match rev (drop_zeros (rev (digits 9 nsec))) with
  | [] => []
  | ds => x2e :: ds
  end.

(** The minutes of an offset are cut off as by Go's [/]. *)
Definition zone_text (offset : Z) : list byte :=
  if offset =? 0 then [x5a]
  else
    let zone := Z.quot offset 60 in
    (if zone <? 0 then [x2d] else [x2b]) ++
    appendInt (Z.abs zone / 60) 2 ++ x3a :: appendInt (Z.abs zone mod 60) 2.

Definition format (t : Time) : list byte :=
  let c := civil t in
  let '(year, month, day) := date_of (c / Day) in
  let sec := c mod Day / Second in
  appendInt year 4 ++ x2d :: appendInt month 2 ++ x2d :: appendInt day 2 ++ x54 ::
  appendInt (sec / 3600) 2 ++ x3a :: appendInt (sec mod 3600 / 60) 2 ++ x3a ::
  appendInt (sec mod 60) 2 ++
  fraction (c mod Second) ++ zone_text (zone_offset (loc t) (ns t / Second)).

(** [t.Format(time.RFC3339Nano)]. *)
Definition Format (t : Time) : string := string_of (format t).

(** ** [Parse] *)

Definition fixed (offset : Z) : Location := {| zone_lookup _ := (offset, int64_min, int64_max) |}.

(** [n] digits whose value lies in a range. *)
Definition field (n : nat) (lo hi : Z) (bs : list byte) : option (Z * list byte) :=
  let ds := take n bs in
  let x := value ds in
  if bool_decide (length ds = n) && forallb is_digit ds && (lo <=? x) && (x <=? hi)
  then Some (x, drop n bs) else None.

Definition literal (b : byte) (bs : list byte) : option (list byte) :=
  match bs with
  | c :: rest => if bool_decide (c = b) then Some rest else None
  | [] => None
  end.

Fixpoint span_digits (bs : list byte) : list byte * list byte :=
  match bs with
  | b :: rest => if is_digit b then let '(ds, k) := span_digits rest in (b :: ds, k) else ([], bs)
  | [] => ([], [])
  end.

(** [getnum(value, false)]: two digits or one. *)
Definition hour_field (bs : list byte) : option (Z * list byte) :=
  match bs with
  | a :: b :: rest =>
      if is_digit a && is_digit b then field 2 0 23 bs
      else if is_digit a then Some (value [a], b :: rest) else None
  | [a] => if is_digit a then Some (value [a], []) else None
  | [] => None
  end.

(** Nanoseconds: nine digits count, fewer stand for tenths and so on. *)
Definition parse_fraction (bs : list byte) : Z * list byte :=
  match bs with
  | (x2e | x2c) :: ((b :: _) as rest) =>
      if is_digit b then
        let '(ds, k) := span_digits rest in
        (value (take 9 ds) * 10 ^ (9 - Z.of_nat (length (take 9 ds))), k)
      else (0, bs)
  | _ => (0, bs)
  end.

(** The offset in seconds; [Z] is UTC. *)
Definition parse_zone (bs : list byte) : option Z :=
  match bs with
  | [x5a] => Some 0
  | sign :: rest =>
      if bool_decide (sign = x2d) || bool_decide (sign = x2b) then
        '(hr, k) ← field 2 0 24 rest;
        k ← literal x3a k;
        '(mm, k) ← field 2 0 60 k;
        match k with
        | [] => let o := (hr * 60 + mm) * 60 in Some (if bool_decide (sign = x2d) then - o else o)
        | _ => None
        end
      else None
  | [] => None
  end.

Definition parse (bs : list byte) : option Time :=
  '(year, k) ← field 4 0 9999 bs;
  k ← literal x2d k;
  '(month, k) ← field 2 1 12 k;
  k ← literal x2d k;
  '(day, k) ← field 2 1 (daysIn (isLeap year) month) k;
  k ← literal x54 k;
  '(hour, k) ← hour_field k;
  k ← literal x3a k;
  '(min, k) ← field 2 0 59 k;
  k ← literal x3a k;
  '(sec, k) ← field 2 0 59 k;
  let '(nsec, k) := parse_fraction k in
  offset ← parse_zone k;
  Some {| ns := (date_days year month day * 86400 + hour * 3600 + min * 60 + sec - offset) * Second
                + nsec;
          loc := fixed offset |}.

(** [time.Parse(time.RFC3339Nano, s)]; [None] is an error. *)
Definition Parse (s : string) : option Time := parse (bytes_of s).

(** ** What is written is read back *)

Lemma is_digits_forallb bs : Forall (λ b, is_digit b = true) bs → forallb is_digit bs = true.
Proof. induction 1 as [|b bs Hb _ IH]; simpl; [done|]. by rewrite Hb, IH. Qed.

Lemma field_digits n x lo hi k : 0 ≤ x < 10 ^ Z.of_nat n → lo ≤ x ≤ hi →
  field n lo hi (digits n x ++ k) = Some (x, k).
Proof.
  intros Hx Hr. unfold field. rewrite take_app_length', drop_app_length' by by rewrite length_digits.
  rewrite value_digits, length_digits, bool_decide_true by done.
  rewrite is_digits_forallb by (apply digits_are; lia).
  destruct (Z.leb_spec lo x), (Z.leb_spec x hi); done || lia.
Qed.

Lemma hour_field_digits x k : 0 ≤ x < 24 → hour_field (digits 2 x ++ k) = Some (x, k).
Proof.
  intros Hx. assert (field 2 0 23 (digits 2 x ++ k) = Some (x, k)) as Hf by (apply field_digits; simpl; lia).
  revert Hf. simpl. set (a := digit _). set (b := digit _). intros Hf.
  assert (is_digit a = true ∧ is_digit b = true) as [-> ->]; [|exact Hf].
  split; apply is_digit_digit; apply Z.mod_pos_bound; lia.
Qed.

Lemma literal_cons b k : literal b (b :: k) = Some k.
Proof. simpl. by rewrite bool_decide_true. Qed.

Lemma drop_zeros_spec bs : ∃ n, bs = replicate n x30 ++ drop_zeros bs.
Proof.
  induction bs as [|b bs [n IH]]; [by exists 0%nat|]. simpl.
  destruct (bool_decide_reflect (b = x30)) as [->|]; [|by exists 0%nat].
  exists (S n). simpl. by rewrite <-IH.
Qed.

Lemma value_zeros n : value (replicate n x30) = 0.
Proof.
  induction n as [|n IH]; [done|]. change (replicate (S n) x30) with ([x30] ++ replicate n x30).
  rewrite value_app, IH, value_one. done.
Qed.

(** The digits that are left when trailing zeros are cut off. *)
Lemma stripped bs : ∃ n, bs = rev (drop_zeros (rev bs)) ++ replicate n x30.
Proof.
  destruct (drop_zeros_spec (rev bs)) as [n Hn]. exists n.
  rewrite <-(rev_involutive bs) at 1. rewrite Hn at 1. rewrite rev_app_distr. f_equal.
  apply (f_equal (@rev byte)) in Hn. clear. induction n as [|n IH]; [done|].
  simpl. rewrite IH. by rewrite <-replicate_S_end.
Qed.

Lemma span_digits_app ds k : Forall (λ b, is_digit b = true) ds →
  (∀ b k', k = b :: k' → is_digit b = false) → span_digits (ds ++ k) = (ds, k).
Proof.
  intros Hds Hk. induction Hds as [|b ds Hb _ IH]; simpl.
  - destruct k as [|b k']; [done|]. simpl. by rewrite (Hk b k').
  - by rewrite Hb, IH.
Qed.

(** Text that can follow a fraction: it starts neither with a digit nor with a
    point or comma. *)
Definition ends_fraction (k : list byte) : Prop :=
  ∀ b k', k = b :: k' → is_digit b = false ∧ b ≠ x2e ∧ b ≠ x2c.

Lemma parse_fraction_none k : ends_fraction k → parse_fraction k = (0, k).
Proof.
  intros Hk. unfold parse_fraction. destruct k as [|b k]; [done|].
  destruct (Hk b k eq_refl) as (_ & Hb & Hb'). by destruct b.
Qed.

Lemma fraction_roundtrip nsec k : 0 ≤ nsec < Second → ends_fraction k →
  parse_fraction (fraction nsec ++ k) = (nsec, k).
Proof.
  intros Hn Hk. unfold fraction. destruct (stripped (digits 9 nsec)) as [z Hz].
  pose proof (digits_are 9 nsec ltac:(lia)) as Hd.
  pose proof (value_digits 9 nsec Hn) as Hv. pose proof (length_digits 9 nsec) as Hl.
  rewrite Hz in Hd, Hv, Hl. set (ds := rev (drop_zeros (rev (digits 9 nsec)))) in *.
  rewrite value_app, value_zeros, length_replicate, Z.add_0_r in Hv.
  rewrite length_app, length_replicate in Hl. apply Forall_app in Hd as [Hd _].
  destruct ds as [|b ds'] eqn:Hds.
  { unfold value in Hv. simpl in Hv. subst nsec. by apply parse_fraction_none. }
  rewrite <-Hds in *.
  assert (is_digit b = true) as Hb by (rewrite Hds in Hd; by apply Forall_cons in Hd as []).
  assert (parse_fraction ((x2e :: ds) ++ k) =
    let '(es, k) := span_digits (ds ++ k) in
    (value (take 9 es) * 10 ^ (9 - Z.of_nat (length (take 9 es))), k)) as ->.
  { rewrite Hds. simpl. by rewrite Hb. }
  rewrite span_digits_app by (done || (intros c k' ->; by apply (Hk c k'))).
  rewrite take_ge by lia. f_equal. rewrite <-Hv. f_equal. f_equal. lia.
Qed.

Lemma zone_text_ends offset : ends_fraction (zone_text offset).
Proof.
  intros b k. unfold zone_text. destruct (offset =? 0); [by intros [= <- <-]|].
  destruct (Z.quot offset 60 <? 0); by intros [= <- <-].
Qed.

(** Offsets that a text can say: whole minutes, less than 25 hours. *)
Definition whole_minutes (offset : Z) : Prop := offset mod 60 = 0 ∧ -90000 < offset < 90000.

Lemma zone_roundtrip offset : whole_minutes offset → parse_zone (zone_text offset) = Some offset.
Proof.
  intros [Hm Hr]. unfold zone_text. destruct (Z.eqb_spec offset 0) as [->|Hz]; [done|].
  assert (offset = 60 * (offset / 60)) as Ho by (pose proof (Z.div_mod offset 60); lia).
  set (zone := offset / 60) in *. rewrite Ho, (Z.mul_comm 60), Z.quot_mul by lia.
  assert (0 ≤ Z.abs zone / 60 < 25) by (split; [apply Z.div_pos|apply Z.div_lt_upper_bound]; lia).
  pose proof (Z.mod_pos_bound (Z.abs zone) 60 ltac:(lia)).
  pose proof (Z.div_mod (Z.abs zone) 60 ltac:(lia)).
  rewrite !appendInt_digits by (simpl; lia).
  assert (∀ sign, sign = x2d ∨ sign = x2b →
    parse_zone (sign :: digits 2 (Z.abs zone / 60) ++ x3a :: digits 2 (Z.abs zone mod 60)) =
    Some (if bool_decide (sign = x2d) then - (Z.abs zone * 60) else Z.abs zone * 60)) as Hp.
  { intros sign Hs. unfold parse_zone. rewrite field_digits by (simpl; lia).
    cbn [mbind option_bind]. rewrite literal_cons. cbn [mbind option_bind].
    rewrite <-(app_nil_r (digits 2 (Z.abs zone mod 60))), field_digits by (simpl; lia).
    cbn [mbind option_bind].
    assert ((Z.abs zone / 60 * 60 + Z.abs zone mod 60) * 60 = Z.abs zone * 60) as -> by lia.
    by destruct Hs as [->| ->]. }
  destruct (Z.ltb_spec zone 0); cbn [app]; rewrite Hp by auto;
    [rewrite bool_decide_true by done|rewrite bool_decide_false by done]; f_equal; lia.
Qed.

(** The times a text can say. *)
Definition storable (t : Time) : Prop :=
  0 ≤ (date_of (civil t / Day)).1.1 ≤ 9999 ∧ whole_minutes (zone_offset (loc t) (ns t / Second)).

(** The clock of a time. *)
Lemma clock_fields c :
  let sec := c mod Day / Second in
  0 ≤ sec / 3600 < 24 ∧ 0 ≤ sec mod 3600 / 60 < 60 ∧ 0 ≤ sec mod 60 < 60 ∧
  0 ≤ c mod Second < Second ∧
  (c / Day * 86400 + sec / 3600 * 3600 + sec mod 3600 / 60 * 60 + sec mod 60) * Second
    + c mod Second = c.
Proof.
  intros sec. unfold sec, Day, Second. Z.to_euclidean_division_equations. lia.
Qed.

Lemma parse_format t : storable t →
  parse (format t) = Some {| ns := ns t; loc := fixed (zone_offset (loc t) (ns t / Second)) |}.
Proof.
  intros [Hy Hz]. unfold format. set (c := civil t) in *. set (offset := zone_offset _ _) in *.
  pose proof (date_of_spec (c / Day)) as Hd. destruct (date_of (c / Day)) as [[y m] d].
  simpl in Hy. destruct Hd as (Hm & Hd & Hdays).
  pose proof (daysIn_bounds (isLeap y) m Hm).
  destruct (clock_fields c) as (Hh & Hmi & Hs & Hn & Hc).
  assert (10 ^ Z.of_nat 4 = 10000 ∧ 10 ^ Z.of_nat 2 = 100) as [Hp4 Hp2] by done.
  set (sec := c mod Day / Second) in *. rewrite !appendInt_digits by lia.
  unfold parse.
  do 3 (rewrite field_digits by lia; cbn [mbind option_bind];
        rewrite literal_cons; cbn [mbind option_bind]).
  rewrite hour_field_digits by lia. cbn [mbind option_bind]. rewrite literal_cons. cbn [mbind option_bind].
  rewrite field_digits by lia. cbn [mbind option_bind]. rewrite literal_cons. cbn [mbind option_bind].
  rewrite field_digits by lia. cbn [mbind option_bind].
  rewrite (fraction_roundtrip _ _ Hn (zone_text_ends offset)). cbn [mbind option_bind].
  rewrite (zone_roundtrip offset Hz). cbn [mbind option_bind]. f_equal. f_equal.
  rewrite Hdays.
  assert (c = ns t + offset * Second) as Hct by done. lia.
Qed.

Lemma Parse_Format t : storable t →
  Parse (Format t) = Some {| ns := ns t; loc := fixed (zone_offset (loc t) (ns t / Second)) |}.
Proof. intros Ht. unfold Parse, Format. rewrite bytes_of_string_of. by apply parse_format. Qed.

(** *** The times that are read *)

Lemma field_range n lo hi bs x k : field n lo hi bs = Some (x, k) → lo ≤ x ≤ hi.
Proof.
  unfold field. destruct (_ && _ && _ && _) eqn:Hc; [|done]. intros [= <- <-]. bool_simpl. lia.
Qed.

Lemma value_digit_range b : is_digit b = true → 0 ≤ value [b] ≤ 9.
Proof. unfold is_digit. rewrite value_one. lia. Qed.

Lemma hour_field_range bs x k : hour_field bs = Some (x, k) → 0 ≤ x ≤ 23.
Proof.
  unfold hour_field. destruct bs as [|a [|b bs]]; [done| |].
  - destruct (is_digit a) eqn:Ha; [|done]. intros [= <- _]. pose proof (value_digit_range a Ha). lia.
  - destruct (is_digit a && is_digit b); [apply field_range|].
    destruct (is_digit a) eqn:Ha; [|done]. intros [= <- _]. pose proof (value_digit_range a Ha). lia.
Qed.

Lemma value_range bs : forallb is_digit bs = true → 0 ≤ value bs < 10 ^ Z.of_nat (length bs).
Proof.
  induction bs as [|b bs IH] using rev_ind; [done|]. rewrite forallb_app, value_app. simpl.
  intros [Hbs Hb%andb_true_iff]%andb_true_iff. destruct Hb as [Hb _]. specialize (IH Hbs).
  pose proof (value_digit_range b Hb). rewrite length_app, Nat2Z.inj_add, Z.pow_add_r by lia. simpl. lia.
Qed.

Lemma span_digits_are bs : forallb is_digit (span_digits bs).1 = true.
Proof.
  induction bs as [|b bs IH]; [done|]. simpl. destruct (is_digit b) eqn:Hb; [|done].
  destruct (span_digits bs). simpl in *. by rewrite Hb.
Qed.

Lemma forallb_take {A} (P : A → bool) n l : forallb P l = true → forallb P (take n l) = true.
Proof. revert n. induction l as [|x l IH]; intros [|n]; simpl; try done. intros [? ?]%andb_true_iff. by rewrite H, IH. Qed.

Lemma parse_fraction_range bs : 0 ≤ (parse_fraction bs).1 < Second.
Proof.
  assert (∀ rest, 0 ≤ (let '(ds, k) := span_digits rest in
    (value (take 9 ds) * 10 ^ (9 - Z.of_nat (length (take 9 ds))), k)).1 < Second) as Hds.
  { intros rest. pose proof (span_digits_are rest) as Hd. destruct (span_digits rest) as [ds k]. simpl in *.
    pose proof (value_range (take 9 ds) (forallb_take _ _ _ Hd)) as Hv.
    assert (length (take 9 ds) ≤ 9)%nat by (rewrite length_take; lia).
    assert (0 ≤ Z.of_nat (length (take 9 ds)) ≤ 9) as Hn by lia.
    set (n := Z.of_nat (length (take 9 ds))) in *.
    assert (Second = 10 ^ n * 10 ^ (9 - n)) as ->.
    { change Second with (10 ^ 9). rewrite <-Z.pow_add_r by lia. f_equal. lia. }
    assert (0 < 10 ^ (9 - n)) by (apply Z.pow_pos_nonneg; lia). nia. }
  unfold parse_fraction. destruct bs as [|b [|c rest]]; [done|by destruct b|].
  destruct b; try done; (destruct (is_digit c); [apply Hds|done]).
Qed.

Lemma parse_zone_range bs o : parse_zone bs = Some o → o mod 60 = 0 ∧ -90000 ≤ o ≤ 90000.
Proof.
  unfold parse_zone. destruct bs as [|b rest]; [done|].
  assert (∀ o, ('(hr, k) ← field 2 0 24 rest;
        k ← literal x3a k;
        '(mm, k) ← field 2 0 60 k;
        match k with
        | [] => let o := (hr * 60 + mm) * 60 in Some (if bool_decide (b = x2d) then - o else o)
        | _ => None
        end) = Some o → o mod 60 = 0 ∧ -90000 ≤ o ≤ 90000) as Hz.
  { clear o. intros o ([hr k] & Hhr%field_range & H)%bind_Some. apply bind_Some in H as (k' & _ & H).
    apply bind_Some in H as ([mm k''] & Hmm%field_range & H). destruct k''; [|done].
    injection H as <-. split; [|case_bool_decide; lia].
    case_bool_decide; [rewrite <-Z.mul_opp_l|]; apply Z.mod_mul; lia. }
  destruct b, rest; try (intros [= <-]; split; [done|lia]); try (apply Hz); done.
Qed.

(** What is parsed can be written again, unless its offset is 25 hours. *)
Lemma parse_storable bs t : parse bs = Some t →
  ∃ o, loc t = fixed o ∧ -90000 ≤ o ≤ 90000 ∧ (Z.abs o ≠ 90000 → storable t).
Proof.
  unfold parse. intros ([y k1] & Hy%field_range & H)%bind_Some.
  apply bind_Some in H as (k2 & _ & H). apply bind_Some in H as ([m k3] & Hm%field_range & H).
  apply bind_Some in H as (k4 & _ & H). apply bind_Some in H as ([d k5] & Hd%field_range & H).
  apply bind_Some in H as (k6 & _ & H). apply bind_Some in H as ([h k7] & Hh%hour_field_range & H).
  apply bind_Some in H as (k8 & _ & H). apply bind_Some in H as ([mi k9] & Hmi%field_range & H).
  apply bind_Some in H as (ka & _ & H). apply bind_Some in H as ([sec kb] & Hs%field_range & H).
  pose proof (parse_fraction_range kb) as Hn. destruct (parse_fraction kb) as [n kc]. simpl in Hn.
  apply bind_Some in H as (o & [Ho Hr]%parse_zone_range & H). apply (inj Some) in H. subst t.
  exists o. split; [reflexivity|]. split; [lia|]. intros Habs.
  unfold storable, civil. cbn [ns loc]. change (zone_offset (fixed o) _) with o. split; [|split; [done|lia]].
  assert (((date_days y m d * 86400 + h * 3600 + mi * 60 + sec - o) * Second + n + o * Second) / Day =
    date_days y m d) as ->.
  { symmetry. apply (Z.div_unique_pos _ _ _ ((h * 3600 + mi * 60 + sec) * Second + n)); unfold Day, Second in *; lia. }
  by rewrite date_of_year.
Qed.

(** *** No spaces are read *)

(** [k] is what is left of [bs] after text without spaces. *)
Definition reads_to (bs k : list byte) : Prop := ∃ pre, bs = pre ++ k ∧ x20 ∉ pre.

Lemma reads_to_refl bs : reads_to bs bs.
Proof. exists []. split; [done|apply not_elem_of_nil]. Qed.
Lemma reads_to_trans a b c : reads_to a b → reads_to b c → reads_to a c.
Proof.
  intros (p & -> & Hp) (q & -> & Hq). exists (p ++ q). rewrite (assoc_L (++)). split; [done|].
  rewrite elem_of_app. tauto.
Qed.
Lemma reads_to_cons b k : b ≠ x20 → reads_to (b :: k) k.
Proof. intros Hb. exists [b]. split; [done|]. rewrite list_elem_of_singleton. congruence. Qed.

Lemma digits_no_space ds : forallb is_digit ds = true → x20 ∉ ds.
Proof.
  rewrite forallb_forall. intros Hd Hin%list_elem_of_In. by apply Hd in Hin.
Qed.

Lemma field_reads n lo hi bs x k : field n lo hi bs = Some (x, k) → reads_to bs k.
Proof.
  unfold field. destruct (_ && _ && _ && _) eqn:Hc; [|done]. intros [= _ <-]. bool_simpl.
  exists (take n bs). split; [by rewrite take_drop|by apply digits_no_space].
Qed.

Lemma literal_reads b bs k : b ≠ x20 → literal b bs = Some k → reads_to bs k.
Proof.
  intros Hb. destruct bs as [|c rest]; [done|]. simpl.
  destruct (bool_decide_reflect (c = b)) as [->|]; [|done]. intros [= <-]. by apply reads_to_cons.
Qed.

Lemma is_digit_space b : is_digit b = true → b ≠ x20.
Proof. by intros Hb ->. Qed.

Lemma hour_field_reads bs x k : hour_field bs = Some (x, k) → reads_to bs k.
Proof.
  unfold hour_field. destruct bs as [|a [|b rest]]; [done| |].
  - destruct (is_digit a) eqn:Ha; [|done]. intros [= _ <-]. by apply reads_to_cons, is_digit_space.
  - destruct (is_digit a && is_digit b); [apply field_reads|].
    destruct (is_digit a) eqn:Ha; [|done]. intros [= _ <-]. by apply reads_to_cons, is_digit_space.
Qed.

Lemma span_digits_reads bs : reads_to bs (span_digits bs).2.
Proof.
  induction bs as [|b bs IH]; simpl; [apply reads_to_refl|].
  destruct (is_digit b) eqn:Hb; [|apply reads_to_refl].
  destruct (span_digits bs) as [ds k]. simpl in *.
  eapply reads_to_trans; [by apply reads_to_cons, is_digit_space|done].
Qed.

Lemma parse_fraction_reads bs : reads_to bs (parse_fraction bs).2.
Proof.
  unfold parse_fraction. destruct bs as [|b [|c rest]]; [apply reads_to_refl|destruct b; apply reads_to_refl|].
  pose proof (span_digits_reads (c :: rest)) as Hr. destruct (span_digits (c :: rest)) as [ds k].
  destruct b; try apply reads_to_refl;
    (destruct (is_digit c); [eapply reads_to_trans; [by apply reads_to_cons|exact Hr]|apply reads_to_refl]).
Qed.

Lemma parse_zone_no_space bs o : parse_zone bs = Some o → x20 ∉ bs.
Proof.
  unfold parse_zone. destruct bs as [|b rest]; [done|].
  assert ((if bool_decide (b = x2d) || bool_decide (b = x2b) then
      '(hr, k) ← field 2 0 24 rest; k ← literal x3a k; '(mm, k) ← field 2 0 60 k;
      match k with [] => let o := (hr * 60 + mm) * 60 in Some (if bool_decide (b = x2d) then - o else o)
      | _ => None end else None) = Some o → x20 ∉ b :: rest) as Hz.
  { destruct (_ || _) eqn:Hb; [|done]. intros ([hr k] & H1%field_reads & H)%bind_Some.
    apply bind_Some in H as (k' & H2%literal_reads & H); [|done].
    apply bind_Some in H as ([mm k''] & H3%field_reads & H). destruct k''; [|done].
    destruct (reads_to_trans _ _ _ (reads_to_trans _ _ _ H1 H2) H3) as (pre & -> & Hpre).
    rewrite app_nil_r, not_elem_of_cons. split; [|done]. intros <-. discriminate. }
  destruct b, rest; try (apply Hz); intros _; set_solver.
Qed.

(** A text with a space is no time. *)
Lemma parse_no_space bs t : parse bs = Some t → x20 ∉ bs.
Proof.
  unfold parse. intros ([y k1] & H1%field_reads & H)%bind_Some.
  apply bind_Some in H as (k2 & H2%literal_reads & H); [|done].
  apply bind_Some in H as ([m k3] & H3%field_reads & H).
  apply bind_Some in H as (k4 & H4%literal_reads & H); [|done].
  apply bind_Some in H as ([d k5] & H5%field_reads & H).
  apply bind_Some in H as (k6 & H6%literal_reads & H); [|done].
  apply bind_Some in H as ([h k7] & H7%hour_field_reads & H).
  apply bind_Some in H as (k8 & H8%literal_reads & H); [|done].
  apply bind_Some in H as ([mi k9] & H9%field_reads & H).
  apply bind_Some in H as (ka & H10%literal_reads & H); [|done].
  apply bind_Some in H as ([sec kb] & H11%field_reads & H).
  pose proof (parse_fraction_reads kb) as H12. destruct (parse_fraction kb) as [n kc].
  apply bind_Some in H as (o & Ho%parse_zone_no_space & _).
  assert (reads_to bs kc) as (pre & -> & Hpre).
  { eauto 12 using reads_to_trans. }
  rewrite elem_of_app. tauto.
Qed.

(** ** The order of texts *)

(** The comparison of TEXT values in SQLite: byte by byte. *)
Fixpoint text_lt (a b : list byte) : bool :=
  match a, b with
  | _, [] => false
  | [], _ :: _ => true
  | x :: a, y :: b => (uint8 x <? uint8 y) || ((uint8 x =? uint8 y) && text_lt a b)
  end.

Lemma text_lt_cons x a b : text_lt (x :: a) (x :: b) = text_lt a b.
Proof. simpl. by rewrite Z.ltb_irrefl, Z.eqb_refl. Qed.

Lemma text_lt_irrefl a : text_lt a a = false.
Proof. induction a as [|x a IH]; [done|]. by rewrite text_lt_cons. Qed.

Lemma text_lt_asym a b : text_lt a b = true → text_lt b a = false.
Proof.
  revert b. induction a as [|x a IH]; intros [|y b]; simpl; try done.
  destruct (Z.ltb_spec (uint8 x) (uint8 y)), (Z.ltb_spec (uint8 y) (uint8 x)),
    (Z.eqb_spec (uint8 x) (uint8 y)), (Z.eqb_spec (uint8 y) (uint8 x));
    simpl; intros; try done; try lia. by apply IH.
Qed.

Lemma digits_lt n x x' r r' : 0 ≤ x < 10 ^ Z.of_nat n → 0 ≤ x' < 10 ^ Z.of_nat n →
  (x < x' ∨ x = x' ∧ text_lt r r' = true) →
  text_lt (digits n x ++ r) (digits n x' ++ r') = true.
Proof.
  revert x x' r r'. induction n as [|n IH]; intros x x' r r' Hx Hx' Hlt; simpl.
  { simpl in Hx, Hx'. destruct Hlt as [?|[_ ?]]; [lia|done]. }
  rewrite Nat2Z.inj_succ, Z.pow_succ_r in Hx, Hx' by lia. rewrite <-!(assoc_L (++)).
  pose proof (Z.div_mod x 10 ltac:(lia)). pose proof (Z.div_mod x' 10 ltac:(lia)).
  pose proof (Z.mod_pos_bound x 10 ltac:(lia)). pose proof (Z.mod_pos_bound x' 10 ltac:(lia)).
  apply IH; [lia|lia|].
  destruct (Z.lt_trichotomy (x / 10) (x' / 10)) as [?|[Heq|?]]; [by left| |lia].
  right. split; [done|]. simpl. rewrite !uint8_digit by lia.
  destruct Hlt as [Hlt|[-> Hr]].
  - destruct (Z.ltb_spec (48 + x mod 10) (48 + x' mod 10)); [done|lia].
  - by rewrite Z.ltb_irrefl, Z.eqb_refl, Hr.
Qed.

(** A time in UTC, of the years 0 to 9999, with whole seconds. *)
Definition canonical (t : Time) : Prop :=
  zone_offset (loc t) (ns t / Second) = 0 ∧ ns t mod Second = 0 ∧
  0 ≤ (date_of (ns t / Day)).1.1 ≤ 9999.

Lemma canonical_civil t : canonical t → civil t = ns t.
Proof. intros (Ho & _). unfold civil. rewrite Ho. lia. Qed.

Lemma canonical_storable t : canonical t → storable t.
Proof.
  intros Ht. pose proof (canonical_civil t Ht) as Hc. destruct Ht as (Ho & _ & Hy).
  split; [by rewrite Hc|]. rewrite Ho. done.
Qed.

Lemma format_canonical t : canonical t →
  let '(y, m, d) := date_of (ns t / Day) in let sec := ns t mod Day / Second in
  format t = digits 4 y ++ x2d :: digits 2 m ++ x2d :: digits 2 d ++ x54 :: digits 2 (sec / 3600) ++
    x3a :: digits 2 (sec mod 3600 / 60) ++ x3a :: digits 2 (sec mod 60) ++ [x5a].
Proof.
  intros Ht. pose proof (canonical_civil t Ht) as Hc. destruct Ht as (Ho & Hs & Hy).
  unfold format. rewrite Hc, Hs, Ho. pose proof (date_of_spec (ns t / Day)) as Hd.
  destruct (date_of (ns t / Day)) as [[y m] d]. simpl in Hy. destruct Hd as (Hm & Hd & _).
  pose proof (daysIn_bounds (isLeap y) m Hm).
  destruct (clock_fields (ns t)) as (? & ? & ? & _).
  assert (10 ^ Z.of_nat 4 = 10000 ∧ 10 ^ Z.of_nat 2 = 100) as [Hp4 Hp2] by done.
  by rewrite !appendInt_digits by lia.
Qed.

(** Of two whole seconds of one day the later one is later by its clock. *)
Lemma clock_order c c' : c / Day = c' / Day → c mod Second = 0 → c' mod Second = 0 → c < c' →
  let s := c mod Day / Second in let s' := c' mod Day / Second in
  s / 3600 < s' / 3600 ∨ s / 3600 = s' / 3600 ∧
    (s mod 3600 / 60 < s' mod 3600 / 60 ∨ s mod 3600 / 60 = s' mod 3600 / 60 ∧ s mod 60 < s' mod 60).
Proof.
  intros Hd Hs Hs' Hlt. cbv zeta.
  destruct (clock_fields c) as (_ & Hm1 & Hs1 & _ & H1).
  destruct (clock_fields c') as (_ & Hm2 & Hs2 & _ & H2).
  revert H1 H2 Hm1 Hs1 Hm2 Hs2. generalize (c mod Day / Second), (c' mod Day / Second). rewrite Hd, Hs, Hs'.
  intros. unfold Second in *. lia.
Qed.

Lemma format_lt t t' : canonical t → canonical t' → ns t < ns t' →
  text_lt (format t) (format t') = true.
Proof.
  intros Ht Ht' Hlt. pose proof (format_canonical t Ht) as Hf. pose proof (format_canonical t' Ht') as Hf'.
  pose proof (date_order (ns t / Day) (ns t' / Day)) as Hord.
  pose proof (clock_order (ns t) (ns t')) as Hclock.
  destruct Ht as (_ & Hs & Hy), Ht' as (_ & Hs' & Hy').
  pose proof (date_of_spec (ns t / Day)) as Hd. pose proof (date_of_spec (ns t' / Day)) as Hd'.
  destruct (date_of (ns t / Day)) as [[y m] d] eqn:Hdate, (date_of (ns t' / Day)) as [[y' m'] d'] eqn:Hdate'.
  destruct Hd as (Hm & Hd & _), Hd' as (Hm' & Hd' & _). simpl in Hy, Hy'.
  pose proof (daysIn_bounds (isLeap y) m Hm). pose proof (daysIn_bounds (isLeap y') m' Hm').
  destruct (clock_fields (ns t)) as (? & ? & ? & _). destruct (clock_fields (ns t')) as (? & ? & ? & _).
  assert (10 ^ Z.of_nat 4 = 10000 ∧ 10 ^ Z.of_nat 2 = 100) as [Hp4 Hp2] by done.
  rewrite Hf, Hf'.
  assert (y < y' ∨ y = y' ∧ (m < m' ∨ m = m' ∧ (d < d' ∨ d = d' ∧ ns t / Day = ns t' / Day))) as Hdate_lt.
  { assert (ns t / Day ≤ ns t' / Day) by (apply Z.div_le_mono; unfold Day, Second; lia).
    destruct (decide (ns t / Day = ns t' / Day)) as [Heq|]; [|destruct Hord as [|[? [|[]]]]; [lia|tauto..]].
    rewrite Heq, Hdate' in Hdate. injection Hdate as -> -> ->. tauto. }
  apply digits_lt; [lia|lia|]. destruct Hdate_lt as [?|[-> Hl]]; [by left|].
  right. split; [done|]. rewrite text_lt_cons.
  apply digits_lt; [lia|lia|]. destruct Hl as [?|[-> Hl]]; [by left|].
  right. split; [done|]. rewrite text_lt_cons.
  apply digits_lt; [lia|lia|]. destruct Hl as [?|[-> Hl]]; [by left|].
  destruct (Hclock Hl Hs Hs' Hlt) as [?|[-> Hc]]; right; (split; [done|]); rewrite text_lt_cons;
    (apply digits_lt; [lia|lia|]); [by left|]. right. split; [done|]. rewrite text_lt_cons.
  apply digits_lt; [lia|lia|]. destruct Hc as [?|[-> Hc]]; [by left|].
  right. split; [done|]. rewrite text_lt_cons. apply digits_lt; [lia|lia|]. by left.
Qed.

(** Canonical texts are ordered as their times are. *)
Lemma format_order t t' : canonical t → canonical t' →
  text_lt (format t) (format t') = (ns t <? ns t').
Proof.
  intros Ht Ht'. destruct (Z.ltb_spec (ns t) (ns t')) as [Hlt|Hge]; [by apply format_lt|].
  destruct (decide (ns t = ns t')) as [Heq|Hne].
  - assert (format t = format t') as ->; [|apply text_lt_irrefl].
    pose proof (format_canonical t Ht) as Hf. pose proof (format_canonical t' Ht') as Hf'.
    rewrite <-Heq in Hf'. destruct (date_of (ns t / Day)) as [[??]?]. congruence.
  - apply text_lt_asym, format_lt; [done|done|lia].
Qed.
