(* ===== verification/Json.v ===== *)
(** * JSON texts ([encoding/json])

    What the program uses of the package: the syntax a text must have
    ([Parse_json], the scanner of the package as a pushdown machine over the
    bytes) and strings with their escapes and their coercion to UTF-8 in both
    directions.  [JsonDecode] has the Go variables they are decoded into.

    - every value printed is parsed back ([parse_print]);
    - a string that was quoted is unquoted to itself, up to bytes that are not
      UTF-8, which become U+FFFD ([unquote_quote]).

    A value keeps its strings and numbers as the text they were written in, as
    a [RawMessage] does. *)

From Stdlib Require Import DecimalString DecimalFacts DecimalZ.
From S2P Require Export GoRfc3339.

Local Open Scope Z_scope.

(** ** Values *)

Inductive json :=
  | JNull
  | JBool (b : bool)
  | JNumber (text : list byte)
  | JString (raw : list byte)                       (* between the quotes *)
  | JArray (elems : list json)
  | JObject (members : list (list byte * json)).    (* names as they are quoted *)

(** ** The scanner (scanner.go) *)

Definition members : Type := list (list byte * json).

(** What encloses a value: an array with the elements before it, or an object
    with the members before it and its name; last first. *)
Inductive frame :=
  | InArray (before : list json)
  | InObject (before : members) (name : list byte).

Inductive string_state := InString | InStringEsc | InStringEscU (todo : nat).
Inductive number_state := NumNeg | Num0 | Num1 | NumDot | NumDot0 | NumE | NumESign | NumE0.

Inductive mode :=
  | BeginValue
  | BeginValueOrEmpty                                (* after [ *)
  | BeginString (before : members)                   (* a name, after , *)
  | BeginStringOrEmpty                               (* after { *)
  | ScanString (name : option members) (s : string_state) (text : list byte)
  | EndName (before : members) (name : list byte)    (* before : *)
  | ScanNumber (n : number_state) (text : list byte)
  | ScanWord (todo : list byte) (v : json)           (* true, false, null *)
  | EndValue (v : json).

Definition scanner : Type := mode * list frame.

Definition is_space (b : byte) : bool := bool_decide (b ∈ [x20; x09; x0d; x0a]).
Definition is_hex (b : byte) : bool :=
  let c := uint8 b in
  ((48 <=? c) && (c <=? 57)) || ((97 <=? c) && (c <=? 102)) || ((65 <=? c) && (c <=? 70)).

(** A byte inside a string, other than the closing quote. *)
Definition string_step (s : string_state) (b : byte) : option string_state :=
  match s with
  | InString =>
      if bool_decide (b = x5c) then Some InStringEsc
      else if bool_decide (b = x22) || (uint8 b <? 32) then None else Some InString
  | InStringEsc =>
      if bool_decide (b ∈ [x62; x66; x6e; x72; x74; x5c; x2f; x22]) then Some InString
      else if bool_decide (b = x75) then Some (InStringEscU 3) else None
  | InStringEscU n =>
      if is_hex b then Some (match n with O => InString | S n => InStringEscU n end) else None
  end.

(** A byte that continues a number. *)
Definition number_step (n : number_state) (b : byte) : option number_state :=
  let e := bool_decide (b = x65) || bool_decide (b = x45) in
  let dot := bool_decide (b = x2e) in
  let digit := is_digit b in
  match n with
  | NumNeg => if bool_decide (b = x30) then Some Num0 else if digit then Some Num1 else None
  | Num0 => if dot then Some NumDot else if e then Some NumE else None
  | Num1 => if digit then Some Num1 else if dot then Some NumDot else if e then Some NumE else None
  | NumDot => if digit then Some NumDot0 else None
  | NumDot0 => if digit then Some NumDot0 else if e then Some NumE else None
  | NumE => if bool_decide (b = x2b) || bool_decide (b = x2d) then Some NumESign
            else if digit then Some NumE0 else None
  | NumESign | NumE0 => if digit then Some NumE0 else None
  end.

(** A byte that starts a number. *)
Definition number_start (b : byte) : option number_state :=
  if bool_decide (b = x2d) then Some NumNeg else if bool_decide (b = x30) then Some Num0
  else if is_digit b then Some Num1 else None.

(** Where a number can end. *)
Definition number_ends (n : number_state) : bool :=
  match n with Num0 | Num1 | NumDot0 | NumE0 => true | _ => false end.

Definition maxNestingDepth : Z := 10000.

Definition begin_value (b : byte) (stack : list frame) : option scanner :=
  let deeper := Z.of_nat (S (length stack)) <=? maxNestingDepth in
  if is_space b then Some (BeginValue, stack)
  else if bool_decide (b = x7b) then if deeper then Some (BeginStringOrEmpty, stack) else None
  else if bool_decide (b = x5b) then
    if deeper then Some (BeginValueOrEmpty, InArray [] :: stack) else None
  else if bool_decide (b = x22) then Some (ScanString None InString [], stack)
  else match number_start b with
  | Some n => Some (ScanNumber n [b], stack)
  | None =>
      if bool_decide (b = x74) then Some (ScanWord [x72; x75; x65] (JBool true), stack)
      else if bool_decide (b = x66) then Some (ScanWord [x61; x6c; x73; x65] (JBool false), stack)
      else if bool_decide (b = x6e) then Some (ScanWord [x75; x6c; x6c] JNull, stack)
      else None
  end.

Definition end_value (v : json) (b : byte) (stack : list frame) : option scanner :=
  if is_space b then Some (EndValue v, stack)
  else match stack with
  | [] => None
  | InArray before :: stack =>
      if bool_decide (b = x2c) then Some (BeginValue, InArray (v :: before) :: stack)
      else if bool_decide (b = x5d) then Some (EndValue (JArray (rev (v :: before))), stack)
      else None
  | InObject before name :: stack =>
      if bool_decide (b = x2c) then Some (BeginString ((name, v) :: before), stack)
      else if bool_decide (b = x7d) then Some (EndValue (JObject (rev ((name, v) :: before))), stack)
      else None
  end.

Definition scan_step (s : scanner) (b : byte) : option scanner :=
  let '(m, stack) := s in
  match m with
  | BeginValue => begin_value b stack
  | BeginValueOrEmpty =>
      if is_space b then Some (BeginValueOrEmpty, stack)
      else if bool_decide (b = x5d) then
        match stack with InArray _ :: stack => Some (EndValue (JArray []), stack) | _ => None end
      else begin_value b stack
  | BeginStringOrEmpty =>
      if is_space b then Some (BeginStringOrEmpty, stack)
      else if bool_decide (b = x7d) then Some (EndValue (JObject []), stack)
      else if bool_decide (b = x22) then Some (ScanString (Some []) InString [], stack) else None
  | BeginString before =>
      if is_space b then Some (BeginString before, stack)
      else if bool_decide (b = x22) then Some (ScanString (Some before) InString [], stack) else None
  | ScanString name InString text =>
      if bool_decide (b = x22) then
        Some (match name with
              | None => EndValue (JString (rev text))
              | Some before => EndName before (rev text)
              end, stack)
      else s ← string_step InString b; Some (ScanString name s (b :: text), stack)
  | ScanString name s text => s ← string_step s b; Some (ScanString name s (b :: text), stack)
  | EndName before name =>
      if is_space b then Some (EndName before name, stack)
      else if bool_decide (b = x3a) then Some (BeginValue, InObject before name :: stack) else None
  | ScanNumber n text =>
      match number_step n b with
      | Some n => Some (ScanNumber n (b :: text), stack)
      | None => if number_ends n then end_value (JNumber (rev text)) b stack else None
      end
  | ScanWord todo v =>
      match todo with
      | [] => None
      | c :: todo =>
          if bool_decide (b = c) then
            Some (match todo with [] => EndValue v | _ => ScanWord todo v end, stack)
          else None
      end
  | EndValue v => end_value v b stack
  end.

Fixpoint scan (bs : list byte) (s : scanner) : option scanner :=
  match bs with
  | [] => Some s
  | b :: bs => s ← scan_step s b; scan bs s
  end.

(** The value of a text that is valid JSON; the end counts as a space. *)
Definition Parse_json (bs : list byte) : option json :=
  s ← scan bs (BeginValue, []);
  match scan_step s x20 with
  | Some (EndValue v, []) => Some v
  | _ => None
  end.

(** ** UTF-8 (package unicode/utf8) *)

(** U+FFFD, which stands for what is not UTF-8. *)
Definition RuneError : list byte := [xef; xbf; xbd].

Definition within (lo hi : Z) (b : byte) : bool := (lo <=? uint8 b) && (uint8 b <=? hi).
Definition continues : byte → bool := within 0x80 0xBF.

(** The length of the sequence of several bytes [bs] starts with; 0 when it
    starts with none. *)
Definition sequence_length (bs : list byte) : nat :=
  match bs with
  | a :: b :: rest =>
      if within 0xC2 0xDF a then if continues b then 2 else 0
      else match rest with
      | c :: rest =>
          if within 0xE0 0xEF a then
            let lo := if bool_decide (a = xe0) then 0xA0%Z else 0x80%Z in
            let hi := if bool_decide (a = xed) then 0x9F%Z else 0xBF%Z in
            if within lo hi b && continues c then 3 else 0
          else match rest with
          | d :: _ =>
              if within 0xF0 0xF4 a then
                let lo := if bool_decide (a = xf0) then 0x90%Z else 0x80%Z in
                let hi := if bool_decide (a = xf4) then 0x8F%Z else 0xBF%Z in
                if within lo hi b && continues c && continues d then 4 else 0
              else 0
          | [] => 0
          end
      | [] => 0
      end
  | _ => 0
  end%nat.

(** [bs] with every byte that is not UTF-8 replaced: what [string(runes)] of
    its runes is. *)
Fixpoint coerce (bs : list byte) : list byte :=
  match bs with
  | [] => []
  | a :: r1 =>
      if uint8 a <? 0x80 then a :: coerce r1
      else match sequence_length bs, r1 with
      | 2%nat, b :: r2 => a :: b :: coerce r2
      | 3%nat, b :: c :: r3 => a :: b :: c :: coerce r3
      | 4%nat, b :: c :: d :: r4 => a :: b :: c :: d :: coerce r4
      | _, _ => RuneError ++ coerce r1
      end
  end.

Definition valid_utf8 (bs : list byte) : Prop := coerce bs = bs.

(** [utf8.AppendRune]. *)
Definition AppendRune (r : Z) : list byte :=
  if (0 <=? r) && (r <? 0x80) then [byte_of r]
  else if (0 <=? r) && (r <? 0x800) then
    [byte_of (Z.lor 0xC0 (Z.shiftr r 6)); byte_of (Z.lor 0x80 (Z.land r 0x3F))]
  else if (r <? 0) || (0x10FFFF <? r) || ((0xD800 <=? r) && (r <=? 0xDFFF)) then RuneError
  else if r <? 0x10000 then
    [byte_of (Z.lor 0xE0 (Z.shiftr r 12)); byte_of (Z.lor 0x80 (Z.land (Z.shiftr r 6) 0x3F));
     byte_of (Z.lor 0x80 (Z.land r 0x3F))]
  else
    [byte_of (Z.lor 0xF0 (Z.shiftr r 18)); byte_of (Z.lor 0x80 (Z.land (Z.shiftr r 12) 0x3F));
     byte_of (Z.lor 0x80 (Z.land (Z.shiftr r 6) 0x3F)); byte_of (Z.lor 0x80 (Z.land r 0x3F))].

(** ** Strings *)

Definition hex_value (b : byte) : Z :=
  let c := uint8 b in
  if c <=? 57 then c - 48 else if 97 <=? c then c - 97 + 10 else c - 65 + 10.
(** [getu4] of the four digits. *)
Definition getu4 (a b c d : byte) : Z :=
  ((hex_value a * 16 + hex_value b) * 16 + hex_value c) * 16 + hex_value d.

(** [utf16.DecodeRune]; [None] when the two are no surrogate pair. *)
Definition DecodeRune16 (r1 r2 : Z) : option Z :=
  if (0xD800 <=? r1) && (r1 <? 0xDC00) && (0xDC00 <=? r2) && (r2 <? 0xE000)
  then Some ((r1 - 0xD800) * 1024 + (r2 - 0xDC00) + 0x10000) else None.

Definition unescape (b : byte) : byte :=
  match b with x62 => x08 | x66 => x0c | x6e => x0a | x72 => x0d | x74 => x09 | _ => b end.

(** [unquote], of the text between the quotes of a valid string. *)
Fixpoint unquote (bs : list byte) : list byte :=
  match bs with
  | [] => []
  | a :: r1 =>
      if bool_decide (a = x5c) then
        match r1 with
        | [] => []
        | b :: r2 =>
            if bool_decide (b = x75) then
              match r2 with
              | h1 :: h2 :: h3 :: h4 :: r6 =>
                  let rr := getu4 h1 h2 h3 h4 in
                  if (0xD800 <=? rr) && (rr <? 0xE000) then
                    match r6 with
                    | s :: u :: g1 :: g2 :: g3 :: g4 :: r12 =>
                        match (if bool_decide (s = x5c) && bool_decide (u = x75) &&
                                  is_hex g1 && is_hex g2 && is_hex g3 && is_hex g4
                               then DecodeRune16 rr (getu4 g1 g2 g3 g4) else None) with
                        | Some dec => AppendRune dec ++ unquote r12
                        | None => RuneError ++ unquote r6
                        end
                    | _ => RuneError ++ unquote r6
                    end
                  else AppendRune rr ++ unquote r6
              | _ => []
              end
            else unescape b :: unquote r2
        end
      else if uint8 a <? 0x80 then a :: unquote r1
      else match sequence_length bs, r1 with
      | 2%nat, b :: r2 => a :: b :: unquote r2
      | 3%nat, b :: c :: r3 => a :: b :: c :: unquote r3
      | 4%nat, b :: c :: d :: r4 => a :: b :: c :: d :: unquote r4
      | _, _ => RuneError ++ unquote r1
      end
  end.

Definition hex_digit (d : Z) : byte := byte_of (if d <? 10 then 48 + d else 97 + (d - 10)).

(** The bytes [htmlSafeSet] leaves as they are, and the escapes of the
    others. *)
Definition html_safe (b : byte) : bool :=
  (0x20 <=? uint8 b) && negb (bool_decide (b ∈ [x22; x5c; x3c; x3e; x26])).
Definition escape_ascii (b : byte) : list byte :=
  if html_safe b then [b]
  else match b with
  | x22 | x5c => [x5c; b]
  | x08 => [x5c; x62]
  | x0c => [x5c; x66]
  | x0a => [x5c; x6e]
  | x0d => [x5c; x72]
  | x09 => [x5c; x74]
  | _ => [x5c; x75; x30; x30; hex_digit (Z.shiftr (uint8 b) 4); hex_digit (Z.land (uint8 b) 0xF)]
  end.

(** [appendString] without the quotes: U+2028 and U+2029 are escaped too. *)
Fixpoint quote (bs : list byte) : list byte :=
  match bs with
  | [] => []
  | a :: r1 =>
      if uint8 a <? 0x80 then escape_ascii a ++ quote r1
      else match sequence_length bs, r1 with
      | 2%nat, b :: r2 => a :: b :: quote r2
      | 3%nat, b :: c :: r3 =>
          (if bool_decide (a = xe2) && bool_decide (b = x80) && bool_decide (c ∈ [xa8; xa9])
           then [x5c; x75; x32; x30; x32; hex_digit (Z.land (uint8 c) 0xF)] else [a; b; c]) ++ quote r3
      | 4%nat, b :: c :: d :: r4 => a :: b :: c :: d :: quote r4
      | _, _ => [x5c; x75; x66; x66; x66; x64] ++ quote r1
      end
  end.

(** ** Printing *)

Definition quoted (raw : list byte) : list byte := x22 :: raw ++ [x22].

Fixpoint print (v : json) : list byte :=
  match v with
  | JNull => [x6e; x75; x6c; x6c]
  | JBool true => [x74; x72; x75; x65]
  | JBool false => [x66; x61; x6c; x73; x65]
  | JNumber text => text
  | JString raw => quoted raw
  | JArray vs => x5b :: join_bytes x2c (map print vs) ++ [x5d]
  | JObject ms => x7b :: join_bytes x2c (map (λ '(k, v), quoted k ++ x3a :: print v) ms) ++ [x7d]
  end.

(** *** Texts that can be printed *)

Fixpoint string_run (s : string_state) (bs : list byte) : option string_state :=
  match bs with [] => Some s | b :: bs => s ← string_step s b; string_run s bs end.
Definition string_text (raw : list byte) : Prop := string_run InString raw = Some InString.

Fixpoint number_run (n : number_state) (bs : list byte) : option number_state :=
  match bs with [] => Some n | b :: bs => n ← number_step n b; number_run n bs end.
Definition number_text (text : list byte) : Prop :=
  ∃ b bs n0 n, text = b :: bs ∧ number_start b = Some n0 ∧ number_run n0 bs = Some n ∧
    number_ends n = true.

(** Values whose texts are valid, nested at most [d] deep. *)
Inductive printable : nat → json → Prop :=
  | printable_null d : printable d JNull
  | printable_bool d b : printable d (JBool b)
  | printable_number d text : number_text text → printable d (JNumber text)
  | printable_string d raw : string_text raw → printable d (JString raw)
  | printable_array d vs : (∀ v, v ∈ vs → printable d v) → printable (S d) (JArray vs)
  | printable_object d ms :
      (∀ k v, (k, v) ∈ ms → string_text k ∧ printable d v) → printable (S d) (JObject ms).

(** *** What is printed is scanned *)

Lemma scan_app bs cs s : scan (bs ++ cs) s = s' ← scan bs s; scan cs s'.
Proof. revert s. induction bs as [|b bs IH]; intros s; simpl; [done|]. destruct (scan_step s b); simpl; [apply IH|done]. Qed.

Lemma scan_cons b bs s s' : scan_step s b = Some s' → scan (b :: bs) s = scan bs s'.
Proof. intros Hs. simpl. by rewrite Hs. Qed.

(** The quote ends a string only outside escapes. *)
Lemma string_step_quote s b s' : string_step s b = Some s' → s = InString → b ≠ x22.
Proof.
  by intros Hs -> ->.
Qed.

Lemma scan_step_string name s b s1 text st : string_step s b = Some s1 →
  scan_step (ScanString name s text, st) b = Some (ScanString name s1 (b :: text), st).
Proof.
  intros H1. pose proof (string_step_quote s b s1 H1) as Hq. unfold scan_step.
  destruct s; rewrite ?bool_decide_false by (by apply Hq); by rewrite H1.
Qed.

Lemma scan_string_run name raw : ∀ s s' text st, string_run s raw = Some s' →
  scan raw (ScanString name s text, st) = Some (ScanString name s' (rev raw ++ text), st).
Proof.
  induction raw as [|b raw IH]; intros s s' text st Hr; [by injection Hr as ->|].
  apply bind_Some in Hr as (s1 & H1 & H2).
  rewrite (scan_cons _ _ _ _ (scan_step_string name s b s1 text st H1)), (IH _ _ _ _ H2).
  simpl. by rewrite <-(assoc_L (++)).
Qed.

Lemma scan_string raw text st name : string_text raw →
  scan (raw ++ [x22]) (ScanString name InString text, st) =
  Some (match name with
        | None => EndValue (JString (rev text ++ raw))
        | Some before => EndName before (rev text ++ raw)
        end, st).
Proof.
  intros Hr. rewrite scan_app, (scan_string_run _ _ _ _ _ _ Hr). simpl.
  by destruct name; rewrite rev_app_distr, rev_involutive.
Qed.

Lemma scan_number_run bs : ∀ n n' text st, number_run n bs = Some n' →
  scan bs (ScanNumber n text, st) = Some (ScanNumber n' (rev bs ++ text), st).
Proof.
  induction bs as [|b bs IH]; intros n n' text st Hr; [by injection Hr as ->|].
  apply bind_Some in Hr as (n1 & H1 & H2).
  rewrite (scan_cons _ _ _ (ScanNumber n1 (b :: text), st)) by (by unfold scan_step; rewrite H1).
  rewrite (IH _ _ _ _ H2). simpl. by rewrite <-(assoc_L (++)).
Qed.

(** The value is complete; of a number this shows at the next byte. *)
Definition settled (v : json) (st : list frame) (s : scanner) : Prop :=
  s = (EndValue v, st) ∨
  ∃ n text, s = (ScanNumber n text, st) ∧ number_ends n = true ∧ v = JNumber (rev text).

Definition delimiter (b : byte) : Prop := b ∈ [x20; x0a; x2c; x5d; x7d].

Lemma settled_step v st s b : settled v st s → delimiter b → scan_step s b = end_value v b st.
Proof.
  intros [->|(n & text & -> & Hn & ->)] Hb; [done|]. simpl.
  assert (number_step n b = None) as ->; [|by rewrite Hn].
  unfold delimiter in Hb. rewrite !elem_of_cons, elem_of_nil in Hb.
  by destruct n, Hb as [->|[->|[->|[->|[->|]]]]].
Qed.

(** The first byte of a value. *)
Definition starts_value (b : byte) : Prop := is_space b = false ∧ b ≠ x5d.

Lemma number_start_spec b n : number_start b = Some n →
  is_space b = false ∧ b ≠ x7b ∧ b ≠ x5b ∧ b ≠ x22 ∧ b ≠ x5d.
Proof. destruct b; try done; by vm_compute. Qed.

Lemma print_head d v : printable d v → ∃ b bs, print v = b :: bs ∧ starts_value b.
Proof.
  unfold starts_value. destruct 1 as [d|d [] |d text (b & bs & n0 & n & -> & Hn & _)|d raw Hr|d vs Hv|d ms Hm]; simpl;
    try by eexists _, _.
  apply number_start_spec in Hn as (? & _ & _ & _ & ?). by eexists _, _.
Qed.

Lemma begin_or_empty b st : starts_value b → scan_step (BeginValueOrEmpty, st) b = begin_value b st.
Proof. intros [Hs Hb]. simpl. by rewrite Hs, bool_decide_false. Qed.

(** A value scanned where one begins, whatever encloses it. *)
Definition scans (d : nat) (v : json) : Prop :=
  ∀ st, Z.of_nat (length st + d) ≤ maxNestingDepth →
  ∃ s, scan (print v) (BeginValue, st) = Some s ∧ settled v st s.

Lemma deeper_ok (st : list frame) (d : nat) : Z.of_nat (length st + S d) ≤ maxNestingDepth →
  (Z.of_nat (S (length st)) <=? maxNestingDepth) = true.
Proof. intros. apply Z.leb_le. lia. Qed.

Lemma scan_elements d vs v before st :
  Z.of_nat (length st + S d) ≤ maxNestingDepth → (∀ v', v' ∈ v :: vs → scans d v') →
  scan (join_bytes x2c (map print (v :: vs)) ++ [x5d]) (BeginValue, InArray before :: st) =
  Some (EndValue (JArray (rev before ++ v :: vs)), st).
Proof.
  intros Hd. revert v before. induction vs as [|w vs IH]; intros v before Hs.
  - destruct (Hs v ltac:(set_solver) (InArray before :: st)) as (s & Hsc & Hset); [simpl; lia|].
    simpl map. simpl join_bytes. rewrite scan_app, Hsc. simpl.
    rewrite (settled_step _ _ _ _ Hset) by (unfold delimiter; set_solver). done.
  - destruct (Hs v ltac:(set_solver) (InArray before :: st)) as (s & Hsc & Hset); [simpl; lia|].
    change (join_bytes x2c (map print (v :: w :: vs)))
      with (print v ++ x2c :: join_bytes x2c (map print (w :: vs))).
    rewrite <-(assoc_L (++)), scan_app, Hsc. cbn [mbind option_bind app].
    rewrite (scan_cons _ _ _ (BeginValue, InArray (v :: before) :: st)).
    2:{ rewrite (settled_step _ _ _ _ Hset) by (unfold delimiter; set_solver). done. }
    rewrite IH; [|intros v' Hv'; apply Hs; set_solver]. simpl. by rewrite <-(assoc_L (++)).
Qed.

Lemma scan_name k st before : string_text k →
  scan (quoted k ++ [x3a]) (BeginString before, st) = Some (BeginValue, InObject before k :: st).
Proof.
  intros Hk. unfold quoted. cbn [app]. rewrite (scan_cons _ _ _ (ScanString (Some before) InString [], st)) by done.
  rewrite scan_app, scan_string by done. done.
Qed.

Lemma scan_member d k v before st :
  Z.of_nat (length st + S d) ≤ maxNestingDepth → string_text k → scans d v →
  ∃ s, scan (quoted k ++ x3a :: print v) (BeginString before, st) = Some s ∧
    settled v (InObject before k :: st) s.
Proof.
  intros Hd Hk Hv. destruct (Hv (InObject before k :: st)) as (s & Hsc & Hset); [simpl; lia|].
  exists s. split; [|done].
  by rewrite (cons_middle x3a), (assoc_L (++)), scan_app, (scan_name _ _ _ Hk).
Qed.

Lemma scan_members d ms : ∀ k v before st,
  Z.of_nat (length st + S d) ≤ maxNestingDepth →
  (∀ k' v', (k', v') ∈ (k, v) :: ms → string_text k' ∧ scans d v') →
  scan (join_bytes x2c (map (λ '(k, v), quoted k ++ x3a :: print v) ((k, v) :: ms)) ++ [x7d])
    (BeginString before, st) =
  Some (EndValue (JObject (rev before ++ (k, v) :: ms)), st).
Proof.
  induction ms as [|[k2 v2] ms IH]; intros k v before st Hd Hs;
    destruct (Hs k v) as [Hk Hv]; [by left| |by left|];
    destruct (scan_member d k v before st Hd Hk Hv) as (s & Hsc & Hset).
  - change (map (λ '(k, v), quoted k ++ x3a :: print v) [(k, v)]) with [quoted k ++ x3a :: print v].
    change (join_bytes x2c [quoted k ++ x3a :: print v]) with (quoted k ++ x3a :: print v).
    rewrite scan_app, Hsc. cbn [mbind option_bind scan].
    rewrite (settled_step _ _ _ _ Hset) by (unfold delimiter; set_solver). done.
  - change (join_bytes x2c (map (λ '(k, v), quoted k ++ x3a :: print v) ((k, v) :: (k2, v2) :: ms)))
      with ((quoted k ++ x3a :: print v) ++ x2c ::
        join_bytes x2c (map (λ '(k, v), quoted k ++ x3a :: print v) ((k2, v2) :: ms))).
    rewrite <-(assoc_L (++)), scan_app, Hsc. cbn [mbind option_bind].
    change ((x2c :: join_bytes x2c (map (λ '(k, v), quoted k ++ x3a :: print v) ((k2, v2) :: ms))) ++ [x7d])
      with (x2c :: join_bytes x2c (map (λ '(k, v), quoted k ++ x3a :: print v) ((k2, v2) :: ms)) ++ [x7d]).
    rewrite (scan_cons _ _ _ (BeginString ((k, v) :: before), st)).
    2:{ rewrite (settled_step _ _ _ _ Hset) by (unfold delimiter; set_solver). done. }
    rewrite IH; [|done|intros k' v' Hin; apply Hs; by right]. simpl. by rewrite <-(assoc_L (++)).
Qed.

Lemma scan_print d : ∀ v, printable d v → scans d v.
Proof.
  induction d as [d IH] using lt_wf_ind. intros v Hv st Hd.
  destruct Hv as [d|d b|d text (b & bs & n0 & n & -> & Hb & Hbs & Hn)|d raw Hr|d vs Hvs|d ms Hms].
  - eexists. split; [done|by left].
  - destruct b; (eexists; split; [done|by left]).
  - pose proof (number_start_spec b n0 Hb) as (Hsp & H1 & H2 & H3 & _).
    exists (ScanNumber n (rev bs ++ [b]), st). split.
    + simpl print. rewrite (scan_cons _ _ _ (ScanNumber n0 [b], st)); [by apply scan_number_run|].
      simpl. unfold begin_value. rewrite Hsp, !bool_decide_false, Hb by done. done.
    + right. exists n, (rev bs ++ [b]). split_and!; [done..|]. by rewrite rev_app_distr, rev_involutive.
  - eexists. split; [|by left]. simpl print. unfold quoted.
    rewrite (scan_cons _ _ _ (ScanString None InString [], st)) by done. by rewrite scan_string.
  - assert (∀ v, v ∈ vs → scans d v) as Hsc by (intros v Hv; apply IH; [lia|by apply Hvs]).
    exists (EndValue (JArray vs), st). split; [|by left]. simpl print.
    rewrite (scan_cons _ _ _ (BeginValueOrEmpty, InArray [] :: st)).
    2:{ simpl. unfold begin_value. simpl. by rewrite (deeper_ok st d Hd). }
    destruct vs as [|v vs]; [done|].
    transitivity (scan (join_bytes x2c (map print (v :: vs)) ++ [x5d]) (BeginValue, InArray [] :: st));
      [|exact (scan_elements d vs v [] st Hd Hsc)].
    destruct (print_head d v) as (b & bs & Hp & Hst); [apply Hvs; by left|].
    assert (∃ bs', join_bytes x2c (map print (v :: vs)) ++ [x5d] = b :: bs') as [bs' ->].
    { destruct vs as [|w vs]; simpl; rewrite Hp; by eexists. }
    cbn [scan]. by rewrite (begin_or_empty b _ Hst).
  - assert (∀ k v, (k, v) ∈ ms → string_text k ∧ scans d v) as Hsc.
    { intros k v Hkv. destruct (Hms k v Hkv) as [Hk Hv]. split; [done|]. apply IH; [lia|done]. }
    exists (EndValue (JObject ms), st). split; [|by left]. simpl print.
    rewrite (scan_cons _ _ _ (BeginStringOrEmpty, st)).
    2:{ simpl. unfold begin_value. simpl. by rewrite (deeper_ok st d Hd). }
    destruct ms as [|[k v] ms]; [done|].
    transitivity (scan (join_bytes x2c (map (λ '(k, v), quoted k ++ x3a :: print v) ((k, v) :: ms)) ++ [x7d])
      (BeginString [], st)); [|exact (scan_members d ms k v [] st Hd Hsc)].
    by destruct ms as [|[k2 v2] ms].
Qed.

(** What is printed is parsed back, also with a newline behind it. *)
Lemma parse_print d v : printable d v → Z.of_nat d ≤ maxNestingDepth →
  Parse_json (print v) = Some v ∧ Parse_json (print v ++ [x0a]) = Some v.
Proof.
  intros Hv Hd. destruct (scan_print d v Hv []) as (s & Hs & Hset); [done|].
  unfold Parse_json. rewrite scan_app, Hs. cbn [mbind option_bind scan].
  rewrite !(settled_step v [] s _ Hset) by (unfold delimiter; set_solver). done.
Qed.

(** ** Strings: coercion, quoting and unquoting *)

Lemma sequence_cases bs :
  sequence_length bs = 0%nat ∨
  (∃ a b r, bs = a :: b :: r ∧ ∀ r', sequence_length (a :: b :: r') = 2%nat) ∨
  (∃ a b c r, bs = a :: b :: c :: r ∧ ∀ r', sequence_length (a :: b :: c :: r') = 3%nat) ∨
  (∃ a b c d r, bs = a :: b :: c :: d :: r ∧ ∀ r', sequence_length (a :: b :: c :: d :: r') = 4%nat).
Proof.
  destruct bs as [|a [|b r]]; [by left..|]. simpl.
  destruct (within 0xC2 0xDF a) eqn:H2.
  { destruct (continues b) eqn:Hb; [right; left; eexists _, _, _; split; [done|]; intros r'; simpl; by rewrite H2, Hb
      |by left]. }
  destruct r as [|c r]; [by left|]. destruct (within 0xE0 0xEF a) eqn:H3.
  { destruct (within _ _ b && continues c) eqn:Hb; [|by left].
    right; right; left. eexists _, _, _, _. split; [done|]. intros r'. simpl. by rewrite H2, H3, Hb. }
  destruct r as [|d r]; [by left|]. destruct (within 0xF0 0xF4 a) eqn:H4; [|by left].
  destruct (within _ _ b && continues c && continues d) eqn:Hb; [|by left].
  right; right; right. eexists _, _, _, _, _. split; [done|]. intros r'. simpl. by rewrite H2, H3, H4, Hb.
Qed.

Lemma sequence_head a bs : sequence_length (a :: bs) ≠ 0%nat → 0x80 ≤ uint8 a.
Proof.
  intros Hs. destruct (decide (0x80 ≤ uint8 a)) as [|Ha]; [done|]. exfalso. apply Hs. unfold sequence_length, within.
  destruct bs as [|b [|c [|d r]]]; repeat (rewrite (proj2 (andb_false_iff (_ <=? uint8 a) _)) by (left; apply Z.leb_gt; lia)); done.
Qed.

(** Induction along the runes of a text: one byte, a byte that is not UTF-8,
    or a sequence of several bytes. *)
Lemma runes_ind (P : list byte → Prop) :
  P [] →
  (∀ a r, uint8 a < 0x80 → P r → P (a :: r)) →
  (∀ a r, 0x80 ≤ uint8 a → sequence_length (a :: r) = 0%nat → P r → P (a :: r)) →
  (∀ a b r, 0x80 ≤ uint8 a → (∀ r', sequence_length (a :: b :: r') = 2%nat) → P r → P (a :: b :: r)) →
  (∀ a b c r, 0x80 ≤ uint8 a → (∀ r', sequence_length (a :: b :: c :: r') = 3%nat) → P r →
    P (a :: b :: c :: r)) →
  (∀ a b c d r, 0x80 ≤ uint8 a → (∀ r', sequence_length (a :: b :: c :: d :: r') = 4%nat) → P r →
    P (a :: b :: c :: d :: r)) →
  ∀ bs, P bs.
Proof.
  intros Hnil H1 H0 H2 H3 H4 bs. remember (length bs) as n eqn:Hn. revert bs Hn.
  induction n as [n IH] using lt_wf_ind. intros bs ->.
  destruct (sequence_cases bs) as [Hs|[(a & b & r & -> & Hs)|[(a & b & c & r & -> & Hs)|(a & b & c & d & r & -> & Hs)]]].
  - destruct bs as [|a r]; [done|]. assert (P r) by (eapply IH; [|done]; simpl; lia).
    destruct (decide (uint8 a < 0x80)); [by apply H1|apply H0; [lia|done..]].
  - apply H2; [by apply (sequence_head a (b :: [])); rewrite Hs|done|]. eapply IH; [|done]; simpl; lia.
  - apply H3; [by apply (sequence_head a (b :: c :: [])); rewrite Hs|done|]. eapply IH; [|done]; simpl; lia.
  - apply H4; [by apply (sequence_head a (b :: c :: d :: [])); rewrite Hs|done|]. eapply IH; [|done]; simpl; lia.
Qed.

(** The branches of the three functions along a text. *)
Ltac rune_step Ha Hs :=
  cbn [coerce quote unquote];
  rewrite ?(proj2 (Z.ltb_lt _ _) Ha), ?(proj2 (Z.ltb_ge _ _) Ha);
  rewrite ?Hs.

Lemma high_not_escape a : 0x80 ≤ uint8 a → bool_decide (a = x5c) = false.
Proof. intros Ha. apply bool_decide_false. by intros ->. Qed.

(** The three ways a byte of ASCII is written. *)
Definition written_ok (a : byte) : bool :=
  match escape_ascii a with
  | [b] => bool_decide (b = a) && negb (bool_decide (a = x5c))
  | [s; e] => bool_decide (s = x5c) && negb (bool_decide (e = x75)) && bool_decide (unescape e = a)
  | [s; u; z1; z2; h1; h2] =>
      bool_decide (s = x5c) && bool_decide (u = x75) && bool_decide (z1 = x30) && bool_decide (z2 = x30) &&
      is_hex h1 && is_hex h2 &&
      (getu4 z1 z2 h1 h2 <? 0xD800) && bool_decide (AppendRune (getu4 z1 z2 h1 h2) = [a])
  | _ => false
  end.

Lemma written_ok_ascii a : (uint8 a <? 0x80) = true → written_ok a = true.
Proof. by destruct a; vm_compute. Qed.

Lemma escape_ascii_cases a : uint8 a < 0x80 →
  (escape_ascii a = [a] ∧ a ≠ x5c) ∨
  (∃ e, escape_ascii a = [x5c; e] ∧ e ≠ x75 ∧ unescape e = a) ∨
  (∃ h1 h2, escape_ascii a = [x5c; x75; x30; x30; h1; h2] ∧ is_hex h1 = true ∧ is_hex h2 = true ∧
    getu4 x30 x30 h1 h2 < 0xD800 ∧ AppendRune (getu4 x30 x30 h1 h2) = [a]).
Proof.
  intros Ha%Z.ltb_lt%written_ok_ascii. unfold written_ok in Ha.
  destruct (escape_ascii a) as [|x1 [|x2 [|x3 [|x4 [|x5 [|x6 [|]]]]]]]; try discriminate;
    rewrite ?andb_true_iff, ?negb_true_iff, ?bool_decide_eq_true, ?bool_decide_eq_false in Ha;
    rewrite ?Z.ltb_lt in Ha; naive_solver.
Qed.

Lemma unquote_escape_ascii a r : uint8 a < 0x80 → unquote (escape_ascii a ++ r) = a :: unquote r.
Proof.
  intros Ha. destruct (escape_ascii_cases a Ha) as [[-> Hne]|[(e & -> & He & <-)|(h1 & h2 & -> & _ & _ & Hlt & Hr)]].
  - cbn [app unquote]. rewrite bool_decide_false by done. by rewrite (proj2 (Z.ltb_lt _ _) Ha).
  - cbn [app unquote]. by rewrite bool_decide_true, bool_decide_false by done.
  - cbn [app unquote]. rewrite !bool_decide_true by done. cbv zeta.
    rewrite (proj2 (Z.leb_gt _ _) Hlt). cbn [andb]. by rewrite Hr.
Qed.

(** What was quoted is unquoted to itself, with every byte that is not UTF-8
    replaced. *)
Lemma unquote_quote bs : unquote (quote bs) = coerce bs.
Proof.
  induction bs as [|a r Ha IH|a r Ha Hs IH|a b r Ha Hs IH|a b c r Ha Hs IH|a b c d r Ha Hs IH] using runes_ind.
  - done.
  - rune_step Ha Ha. by rewrite unquote_escape_ascii, IH.
  - rune_step Ha Hs. rewrite <-IH. done.
  - rune_step Ha Hs. cbn [unquote]. rewrite high_not_escape, (proj2 (Z.ltb_ge _ _) Ha), Hs by done. by rewrite IH.
  - rune_step Ha Hs. destruct (_ && _) eqn:He.
    + rewrite !andb_true_iff, !bool_decide_eq_true, !elem_of_cons, elem_of_nil in He.
      destruct He as [[-> ->] [-> | [-> | []]]]; rewrite <-IH; done.
    + cbn [unquote app]. rewrite high_not_escape, (proj2 (Z.ltb_ge _ _) Ha), Hs by done. by rewrite IH.
  - rune_step Ha Hs. cbn [unquote]. rewrite high_not_escape, (proj2 (Z.ltb_ge _ _) Ha), Hs by done. by rewrite IH.
Qed.

Lemma coerce_idem bs : valid_utf8 (coerce bs).
Proof.
  unfold valid_utf8.
  induction bs as [|a r Ha IH|a r Ha Hs IH|a b r Ha Hs IH|a b c r Ha Hs IH|a b c d r Ha Hs IH] using runes_ind.
  - done.
  - rune_step Ha Ha. cbn [coerce]. by rewrite (proj2 (Z.ltb_lt _ _) Ha), IH.
  - rune_step Ha Hs. by rewrite <-IH at 2.
  - rune_step Ha Hs. cbn [coerce]. by rewrite (proj2 (Z.ltb_ge _ _) Ha), Hs, IH.
  - rune_step Ha Hs. cbn [coerce]. by rewrite (proj2 (Z.ltb_ge _ _) Ha), Hs, IH.
  - rune_step Ha Hs. cbn [coerce]. by rewrite (proj2 (Z.ltb_ge _ _) Ha), Hs, IH.
Qed.

(** ASCII is UTF-8. *)
Lemma ascii_utf8 bs : Forall (λ b, uint8 b < 0x80) bs → valid_utf8 bs.
Proof.
  unfold valid_utf8. induction 1 as [|b bs Hb _ IH]; [done|]. rune_step Hb Hb. by rewrite IH.
Qed.

Lemma string_run_app s s' xs ys : string_run s xs = Some s' →
  string_run s (xs ++ ys) = string_run s' ys.
Proof.
  revert s. induction xs as [|x xs IH]; intros s Hs; [by injection Hs as ->|].
  apply bind_Some in Hs as (s1 & H1 & H2). cbn [app string_run]. rewrite H1. by apply IH.
Qed.

(** A byte a string holds as it is. *)
Definition verbatim (b : byte) : Prop := 32 ≤ uint8 b ∧ b ≠ x22 ∧ b ≠ x5c.

Lemma string_run_verbatim b bs : verbatim b → string_run InString (b :: bs) = string_run InString bs.
Proof.
  intros (Hb & H1 & H2). simpl. rewrite !bool_decide_false by done.
  by rewrite (proj2 (Z.ltb_ge _ _) Hb).
Qed.

Lemma high_verbatim b : 0x80 ≤ uint8 b → verbatim b.
Proof. intros Hb. split_and!; [lia|by intros ->..]. Qed.

Lemma continues_high b : within 0x80 0xBF b = true → 0x80 ≤ uint8 b.
Proof. unfold within. rewrite andb_true_iff, !Z.leb_le. lia. Qed.

Lemma string_text_verbatim bs : Forall verbatim bs → string_text bs.
Proof.
  unfold string_text. induction 1 as [|b bs Hb _ IH]; [done|]. by rewrite string_run_verbatim.
Qed.

(** The bytes of a sequence are all above ASCII. *)
Lemma sequence_high2 a b : sequence_length [a; b] = 2%nat → 0x80 ≤ uint8 b.
Proof.
  simpl. destruct (within _ _ a); [|done]. destruct (continues b) eqn:Hb; [|done]. intros _. by apply continues_high.
Qed.

Lemma sequence_high3 a b c : sequence_length [a; b; c] = 3%nat → 0x80 ≤ uint8 b ∧ 0x80 ≤ uint8 c.
Proof.
  simpl. destruct (within _ _ a); [by destruct (continues b)|]. destruct (within _ _ a); [|done].
  destruct (_ && continues c) eqn:Hb; [|done]. intros _. apply andb_true_iff in Hb as [Hb Hc].
  split; [|by apply continues_high]. unfold within in Hb. rewrite andb_true_iff, !Z.leb_le in Hb.
  destruct (bool_decide (a = xe0)); lia.
Qed.

Lemma sequence_high4 a b c d : sequence_length [a; b; c; d] = 4%nat →
  0x80 ≤ uint8 b ∧ 0x80 ≤ uint8 c ∧ 0x80 ≤ uint8 d.
Proof.
  simpl. destruct (within _ _ a); [by destruct (continues b)|].
  destruct (within _ _ a); [by destruct (_ && _)|]. destruct (within _ _ a); [|done].
  destruct (_ && continues d) eqn:Hb; [|done]. intros _. apply andb_true_iff in Hb as [Hb Hd].
  apply andb_true_iff in Hb as [Hb Hc].
  split_and!; [|by apply continues_high..]. unfold within in Hb. rewrite andb_true_iff, !Z.leb_le in Hb.
  destruct (bool_decide (a = xf0)); lia.
Qed.

Lemma string_run_escape_ascii a r : uint8 a < 0x80 →
  string_run InString (escape_ascii a ++ r) = string_run InString r.
Proof. intros Ha. destruct a; try done. Qed.

(** What is quoted is the text of a string. *)
Lemma quote_text bs : string_text (quote bs).
Proof.
  unfold string_text.
  induction bs as [|a r Ha IH|a r Ha Hs IH|a b r Ha Hs IH|a b c r Ha Hs IH|a b c d r Ha Hs IH] using runes_ind.
  - done.
  - rune_step Ha Ha. by rewrite string_run_escape_ascii.
  - rune_step Ha Hs. exact IH.
  - rune_step Ha Hs. pose proof (sequence_high2 a b (Hs [])).
    by rewrite !string_run_verbatim by (by apply high_verbatim).
  - rune_step Ha Hs. pose proof (sequence_high3 a b c (Hs [])) as [??].
    destruct (_ && _) eqn:He; [|by cbn [app]; rewrite !string_run_verbatim by (by apply high_verbatim)].
    rewrite !andb_true_iff, !bool_decide_eq_true, !elem_of_cons, elem_of_nil in He.
    destruct He as [[-> ->] [-> | [-> | []]]]; exact IH.
  - rune_step Ha Hs. pose proof (sequence_high4 a b c d (Hs [])) as (?&?&?).
    by rewrite !string_run_verbatim by (by apply high_verbatim).
Qed.

(** ** Numbers *)

Lemma is_digit_uint d :
  Forall (λ b, is_digit b = true) (bytes_of (NilEmpty.string_of_uint d)).
Proof. induction d; simpl; [constructor|constructor; [reflexivity|exact IHd]..]. Qed.

Lemma number_run_digits n bs : number_step n x30 = Some n → n ≠ NumNeg →
  Forall (λ b, is_digit b = true) bs → number_run n bs = Some n.
Proof.
  intros Hn Hneg. induction 1 as [|b bs Hb _ IH]; [done|].
  assert (number_step n b = Some n) as Hs by (destruct n; try done; simpl; by rewrite Hb).
  simpl. by rewrite Hs.
Qed.

(** A printed number: no leading zeros. *)
Lemma uint_text d : Decimal.unorm d = d → ∃ b bs n,
  bytes_of (NilZero.string_of_uint d) = b :: bs ∧ is_digit b = true ∧ number_start b = Some n ∧
  number_run n bs = Some n ∧ number_ends n = true.
Proof.
  intros Hd. destruct d as [|d|d|d|d|d|d|d|d|d|d]; [done| |
    (eexists _, _, Num1; split_and!; [reflexivity..| |reflexivity];
     apply number_run_digits; [done..|apply is_digit_uint])..].
  assert (d = Decimal.Nil) as ->.
  { unfold Decimal.unorm in Hd. simpl in Hd. destruct (Decimal.nzhead d) eqn:Hnz; try done.
    - by injection Hd.
    - exfalso. by eapply DecimalFacts.nzhead_nonzero. }
  by eexists _, _, Num0.
Qed.

Lemma Itoa_text n : number_text (bytes_of (Itoa n)).
Proof.
  unfold Itoa, number_text. pose proof (DecimalZ.to_of (Z.to_int n)) as Hnorm.
  rewrite DecimalZ.of_to in Hnorm. destruct (Z.to_int n) as [d|d]; simpl in Hnorm.
  - assert (Decimal.unorm d = d) as Hd by congruence.
    destruct (uint_text d Hd) as (b & bs & n0 & Hb & _ & Hs & Hr & He).
    simpl. exists b, bs, n0, n0. done.
  - assert (Decimal.unorm d = d) as Hd.
    { assert (Decimal.nzhead d = d) as Hnz by (destruct (Decimal.nzhead d); congruence).
      unfold Decimal.unorm. rewrite Hnz. by destruct d. }
    destruct (uint_text d Hd) as (b & bs & n0 & Hb & Hdig & Hs & Hr & He).
    exists x2d, (b :: bs), NumNeg, n0. split_and!; [|done| |done].
    + change (bytes_of (NilZero.string_of_int (Decimal.Neg d)))
        with (x2d :: bytes_of (NilZero.string_of_uint d)). by rewrite Hb.
    + assert (number_step NumNeg b = Some n0) as Hst; [|cbn [number_run]; by rewrite Hst].
      revert Hs. clear -Hdig. unfold number_start. simpl.
      destruct (bool_decide_reflect (b = x2d)) as [->|]; [done|].
      destruct (bool_decide (b = x30)); [done|]. by rewrite Hdig.
Qed.
