(* ===== verification/JsonDecode.v ===== *)
(** * JSON and Go variables ([encoding/json])

    [Unmarshal] into strings, integers, times, slices and structs, with its
    case-insensitive member names, repeated members and ignored [null]s, and
    what [Marshal] makes of such values.  A value that is marshalled is
    unmarshalled to itself, up to the coercion of strings to UTF-8. *)

From S2P Require Export Json.

Local Open Scope Z_scope.

(** ** Decoding into Go variables (decode.go) *)

(** What becomes of a variable that holds [old]; [None] when [Unmarshal]
    returns an error. *)
Definition decoder (A : Type) : Type := A → json → option A.

Definition decode_string : decoder string := λ old v,
  match v with
  | JNull => Some old
  | JString raw => Some (string_of (unquote raw))
  | _ => None
  end.

(** [strconv.ParseInt] on the text of the number. *)
Definition decode_int : decoder Z := λ old v,
  match v with
  | JNull => Some old
  | JNumber text => Atoi (string_of text)
  | _ => None
  end.

(** [Time.UnmarshalJSON]: the text between the quotes, escapes and all. *)
Definition decode_time : decoder Time := λ old v,
  match v with
  | JNull => Some old
  | JString raw => parse raw
  | _ => None
  end.

(** A slice: what has been written to its array, and its length. *)
Record slice (A : Type) := { backing : list A; slice_len : nat }.
Arguments backing {A} s.
Arguments slice_len {A} s.
Definition nil_slice {A} : slice A := {| backing := []; slice_len := 0 |}.
Definition slice_elems {A} (s : slice A) : list A := take (slice_len s) (backing s).

Section decode.
Context {A : Type}.

(** The elements are decoded over what the array holds. *)
Fixpoint decode_elements (zero : A) (dec : decoder A) (old : list A) (vs : list json) : option (list A) :=
  match vs with
  | [] => Some old
  | v :: vs =>
      let '(o, old) := match old with [] => (zero, []) | o :: old => (o, old) end in
      x ← dec o v;
      xs ← decode_elements zero dec old vs;
      Some (x :: xs)
  end.

Definition decode_slice (zero : A) (dec : decoder A) : decoder (slice A) := λ old v,
  match v with
  | JNull => Some nil_slice
  | JArray [] => Some nil_slice
  | JArray vs =>
      xs ← decode_elements zero dec (backing old) vs;
      Some {| backing := xs; slice_len := length vs |}
  | _ => None
  end.

(** The fields of a struct: the names of their tags and how each is decoded. *)
Definition fields : Type := list (list byte * decoder A).

Definition upper (b : byte) : byte := if within 97 122 b then byte_of (uint8 b - 32) else b.

(** [foldName]: the long s and the Kelvin sign are the only runes outside
    ASCII that fold to ASCII. *)
Fixpoint foldName (bs : list byte) : list byte :=
  match bs with
  | a :: r1 =>
      match r1 with
      | b :: r2 =>
          if bool_decide (a = xc5) && bool_decide (b = xbf) then x53 :: foldName r2
          else match r2 with
          | c :: r3 =>
              if bool_decide (a = xe2) && bool_decide (b = x84) && bool_decide (c = xaa)
              then x4b :: foldName r3 else upper a :: foldName r1
          | [] => upper a :: foldName r1
          end
      | [] => upper a :: foldName r1
      end
  | [] => []
  end.

Definition find_field (fs : fields) (name : list byte) : option (decoder A) :=
  match List.find (λ '(n, _), bool_decide (n = name)) fs with
  | Some (_, dec) => Some dec
  | None =>
      match List.find (λ '(n, _), bool_decide (foldName n = foldName name)) fs with
      | Some (_, dec) => Some dec
      | None => None
      end
  end.

(** Members in the order of the text; unknown ones are skipped. *)
Fixpoint decode_members (fs : fields) (old : A) (ms : members) : option A :=
  match ms with
  | [] => Some old
  | (name, v) :: ms =>
      match find_field fs (unquote name) with
      | Some dec => x ← dec old v; decode_members fs x ms
      | None => decode_members fs old ms
      end
  end.

Definition decode_struct (fs : fields) : decoder A := λ old v,
  match v with
  | JNull => Some old
  | JObject ms => decode_members fs old ms
  | _ => None
  end.
End decode.
Arguments fields A : clear implicits.

(** [json.Unmarshal] into a variable that is [zero]. *)
Definition Unmarshal {A} (zero : A) (dec : decoder A) (data : list byte) : option A :=
  v ← Parse_json data; dec zero v.


(** A field of a struct. *)
Definition on_field {A B} (get : A → B) (set : B → A → A) (dec : decoder B) : decoder A := λ old v,
  x ← dec (get old) v; Some (set x old).

(** ** Marshalling *)

Definition marshal_string (s : string) : json := JString (quote (bytes_of s)).
Definition marshal_int (n : Z) : json := JNumber (bytes_of (Itoa n)).

(** [Time.MarshalJSON] ([appendStrictRFC3339]): no years of more than four
    digits, and no offsets of 24 hours or more. *)
Definition marshal_time (t : Time) : option json :=
  let b := format t in
  let zone := drop (length b - 6) b in
  if negb (bool_decide (b !! 4%nat = Some x2d)) then None
  else if negb (bool_decide (last b = Some x5a)) &&
          (from_option is_digit false (head zone) || (24 <=? value (take 2 (drop 1 zone))))
  then None else Some (JString b).

(** A slice that is not nil. *)
Definition marshal_slice {A} (f : A → json) (l : list A) : json := JArray (f <$> l).

(** A struct: the names of the tags. *)
Definition marshal_struct (ms : list (string * json)) : json :=
  JObject ((λ '(k, v), (bytes_of k, v)) <$> ms).

(** *** What is marshalled can be printed *)

Lemma string_printable d s : printable d (marshal_string s).
Proof. apply printable_string, quote_text. Qed.
Lemma int_printable d n : printable d (marshal_int n).
Proof. apply printable_number, Itoa_text. Qed.

Lemma digit_verbatim b : is_digit b = true → verbatim b.
Proof. intros Hb. unfold is_digit in Hb. bool_simpl. split_and!; [lia|by intros ->..]. Qed.

Lemma plain_verbatim b : plain b = true → verbatim b.
Proof.
  unfold plain. rewrite bool_decide_eq_true. intros Hb.
  repeat (apply elem_of_cons in Hb as [->|Hb]; [by vm_compute|]). by apply elem_of_nil in Hb.
Qed.

Lemma digits_verbatim n x : 0 ≤ x → Forall verbatim (digits n x).
Proof. intros Hx. eapply Forall_impl; [by apply digits_are|]. apply digit_verbatim. Qed.

Lemma appendInt_verbatim x w : Forall verbatim (appendInt x w).
Proof.
  unfold appendInt. apply Forall_app. split; [destruct (x <? 0); by repeat constructor|].
  destruct (_ <? _); [apply digits_verbatim; lia|].
  eapply Forall_impl; [apply Itoa_plain|]. apply plain_verbatim.
Qed.

Lemma drop_zeros_Forall (P : byte → Prop) bs : Forall P bs → Forall P (drop_zeros bs).
Proof. induction 1 as [|b bs Hb Hbs IH]; simpl; [done|]. destruct (bool_decide _); [done|by constructor]. Qed.

Lemma fraction_verbatim n : 0 ≤ n → Forall verbatim (fraction n).
Proof.
  intros Hn. unfold fraction.
  assert (Forall verbatim (rev (drop_zeros (rev (digits 9 n))))) as Hf
    by (apply Forall_rev, drop_zeros_Forall, Forall_rev, digits_verbatim; lia).
  destruct (rev _); [done|]. by constructor.
Qed.

Lemma format_text t : string_text (format t).
Proof.
  apply string_text_verbatim. unfold format. destruct (date_of _) as [[y m] d].
  assert (0 ≤ civil t mod Second) by by apply Z.mod_pos_bound.
  repeat first [apply appendInt_verbatim|apply Forall_app; split|apply fraction_verbatim
               |apply Forall_cons; split; [by vm_compute|]]; [done|].
  unfold zone_text. destruct (_ =? _); [by repeat constructor|].
  repeat first [apply appendInt_verbatim|apply Forall_app; split|apply Forall_cons; split; [by vm_compute|]].
  destruct (_ <? _); by repeat constructor.
Qed.

Lemma time_printable d t v : marshal_time t = Some v → printable d v.
Proof.
  unfold marshal_time. destruct (negb _); [done|]. destruct (_ && _); [done|]. intros [= <-].
  apply printable_string, format_text.
Qed.

(** A name of a tag. *)
Definition tag (k : string) : Prop := string_text (bytes_of k).

Lemma struct_printable d ms : Forall (λ '(k, v), tag k ∧ printable d v) ms →
  printable (S d) (marshal_struct ms).
Proof.
  intros Hms. apply printable_object. intros k v ([k' v'] & [= -> ->] & Hin)%list_elem_of_fmap.
  rewrite Forall_forall in Hms. exact (Hms _ Hin).
Qed.

Lemma slice_printable {A} d (f : A → json) l : (∀ x, x ∈ l → printable d (f x)) →
  printable (S d) (marshal_slice f l).
Proof. intros Hl. apply printable_array. intros v (x & -> & Hin)%list_elem_of_fmap. by apply Hl. Qed.

(** *** and is decoded to itself *)

Lemma decode_marshal_string old s :
  decode_string old (marshal_string s) = Some (string_of (coerce (bytes_of s))).
Proof. simpl. by rewrite unquote_quote. Qed.

Lemma decode_marshal_int old n : is_int64 n → decode_int old (marshal_int n) = Some n.
Proof. intros Hn. simpl. rewrite string_of_bytes_of. by apply Atoi_Itoa. Qed.

Lemma decode_marshal_time old t v : storable t → marshal_time t = Some v →
  decode_time old v = Some {| ns := ns t; loc := fixed (zone_offset (loc t) (ns t / Second)) |}.
Proof.
  intros Ht. unfold marshal_time. destruct (negb _); [done|]. destruct (_ && _); [done|].
  intros [= <-]. by apply parse_format.
Qed.

Lemma Unmarshal_print {A} (zero : A) dec d v : printable d v → Z.of_nat d ≤ maxNestingDepth →
  Unmarshal zero dec (print v) = dec zero v ∧ Unmarshal zero dec (print v ++ [x0a]) = dec zero v.
Proof. intros Hv Hd. unfold Unmarshal. by destruct (parse_print d v Hv Hd) as [-> ->]. Qed.

Lemma decode_member {A} (fs : fields A) old name v dec x ms :
  find_field fs (unquote name) = Some dec → dec old v = Some x →
  decode_members fs old ((name, v) :: ms) = decode_members fs x ms.
Proof. intros Hf Hd. cbn [decode_members]. by rewrite Hf, Hd. Qed.

Lemma on_field_Some {A B} (get : A → B) set dec old v x : dec (get old) v = Some x →
  on_field get set dec old v = Some (set x old).
Proof. intros Hd. unfold on_field. by rewrite Hd. Qed.

(** What text can say of a string, and of the zone of a time. *)
Definition said (s : string) : string := string_of (coerce (bytes_of s)).
Definition said_time (t : Time) : Time :=
  {| ns := ns t; loc := fixed (zone_offset (loc t) (ns t / Second)) |}.

Lemma coerce_nil bs : coerce bs = [] ↔ bs = [].
Proof.
  split; [|by intros ->]. destruct bs as [|a r1]; [done|]. cbn [coerce].
  destruct (uint8 a <? 0x80); [done|].
  destruct (sequence_length (a :: r1)) as [|[|[|[|[|]]]]], r1 as [|? [|? [|? ?]]]; done.
Qed.

Lemma string_of_nil bs : string_of bs = ""%string ↔ bs = [].
Proof. by destruct bs. Qed.

Lemma said_empty s : said s = ""%string ↔ s = ""%string.
Proof.
  unfold said. rewrite string_of_nil, coerce_nil, <-string_of_nil, string_of_bytes_of. done.
Qed.

(** Decoding a slice that nothing was written to. *)
Lemma decode_elements_new {A B} (zero : A) (dec : decoder A) (f : B → json) (g : B → A) l :
  (∀ x, x ∈ l → dec zero (f x) = Some (g x)) →
  decode_elements zero dec [] (f <$> l) = Some (g <$> l).
Proof.
  induction l as [|x l IH]; intros Hl; [done|]. cbn [fmap list_fmap decode_elements].
  rewrite Hl by by left. cbn [mbind option_bind].
  rewrite IH by (intros y Hy; apply Hl; by right). done.
Qed.

Lemma decode_marshal_slice {A B} (zero : A) (dec : decoder A) (f : B → json) (g : B → A) l :
  (∀ x, x ∈ l → dec zero (f x) = Some (g x)) →
  decode_slice zero dec nil_slice (marshal_slice f l) =
    Some {| backing := g <$> l; slice_len := length l |}.
Proof.
  intros Hl. pose proof (decode_elements_new zero dec f g l Hl) as He. unfold marshal_slice.
  destruct l as [|x l]; [done|]. unfold decode_slice. cbn [fmap list_fmap] in *. cbn [backing nil_slice].
  rewrite He. cbn [mbind option_bind]. cbn [length]. rewrite length_fmap. done.
Qed.

Lemma slice_elems_all {A} (l : list A) n : n = length l → slice_elems {| backing := l; slice_len := n |} = l.
Proof. intros ->. apply firstn_all. Qed.

Lemma decode_elements_keeps {A} (I : A → Prop) zero (dec : decoder A) :
  I zero → (∀ old v x, I old → dec old v = Some x → I x) →
  ∀ vs old xs, Forall I old → decode_elements zero dec old vs = Some xs → Forall I xs.
Proof.
  intros Hz Hdec. induction vs as [|v vs IH]; intros old xs Hold; [by intros [= <-]|].
  cbn [decode_elements].
  assert (∃ o rest, match old with [] => (zero, []) | o :: old => (o, old) end = (o, rest) ∧ I o ∧ Forall I rest)
    as (o & rest & -> & Ho & Hrest) by (destruct Hold; eauto 6).
  intros (x & Hx & (ys & Hys & [= <-])%bind_Some)%bind_Some. constructor; [by eapply Hdec|by eapply IH].
Qed.

Lemma decode_slice_keeps {A} (I : A → Prop) zero (dec : decoder A) old v s :
  I zero → (∀ old v x, I old → dec old v = Some x → I x) →
  Forall I (backing old) → decode_slice zero dec old v = Some s → Forall I (backing s).
Proof.
  intros Hz Hdec Hold. unfold decode_slice.
  destruct v as [| | | |[|v vs]|]; try done; try (by intros [= <-]; constructor).
  intros (xs & Hxs & [= <-])%bind_Some. by eapply decode_elements_keeps.
Qed.

(** A property of the variable that every field's decoder keeps. *)
Lemma decode_members_keeps {A} (I : A → Prop) (fs : fields A) :
  Forall (λ '(_, dec), ∀ old v x, I old → dec old v = Some x → I x) fs →
  ∀ ms old x, I old → decode_members fs old ms = Some x → I x.
Proof.
  intros Hfs. induction ms as [|[name v] ms IH]; intros old x Hold; [by intros [= <-]|].
  assert (∀ p n dec, List.find p fs = Some (n, dec) → ∀ old v x, I old → dec old v = Some x → I x) as Hfind.
  { intros p n dec [Hin _]%find_some. rewrite Forall_forall in Hfs. exact (Hfs _ (proj2 (list_elem_of_In _ _) Hin)). }
  assert (∀ dec, find_field fs (unquote name) = Some dec → ∀ old v x, I old → dec old v = Some x → I x) as Hff.
  { intros dec. unfold find_field. destruct (List.find _ fs) as [[n dec']|] eqn:H1; [intros [= <-]; by eapply Hfind|].
    clear H1. destruct (List.find _ fs) as [[n dec']|] eqn:H2; [intros [= <-]; by eapply Hfind|done]. }
  cbn [decode_members]. destruct (find_field fs (unquote name)) as [dec|]; [|by apply IH].
  intros (y & Hy & Hx)%bind_Some. eapply IH; [|exact Hx]. by eapply Hff.
Qed.

Lemma decode_struct_keeps {A} (I : A → Prop) (fs : fields A) old v x :
  Forall (λ '(_, dec), ∀ old v x, I old → dec old v = Some x → I x) fs →
  I old → decode_struct fs old v = Some x → I x.
Proof.
  intros Hfs Hold. destruct v as [| | | | |ms]; try done; [by intros [= <-]|].
  by apply decode_members_keeps.
Qed.

Lemma on_field_inv {A B} (get : A → B) set dec old v x : on_field get set dec old v = Some x →
  ∃ y, dec (get old) v = Some y ∧ x = set y old.
Proof. intros (y & Hy & [= <-])%bind_Some. eauto. Qed.

Lemma decode_int_int64 old v x : is_int64 old → decode_int old v = Some x → is_int64 x.
Proof. intros Ho. destruct v; try done; [by intros [= <-]|]. apply Atoi_int64. Qed.

Lemma slice_elems_Forall {A} (P : A → Prop) s : Forall P (backing s) → Forall P (slice_elems s).
Proof. apply Forall_take. Qed.

(** Marshalling a struct of printable fields (a step of a proof). *)
Ltac print_fields :=
  repeat (apply Forall_cons; split); [..|apply Forall_nil; exact I];
  (split; [by vm_compute|first [apply string_printable|apply int_printable|by eapply time_printable]]).

(** Decodes the next member, whose value [H] decodes. *)
Ltac decode_next H :=
  erewrite decode_member; [|reflexivity|apply on_field_Some; apply H].
