(* ===== verification/Http.v ===== *)
(** * The HTTP multiplexer ([net/http], [net/url])

    What the program uses of [http.ServeMux]: patterns of a method and a path
    whose segments are literals, single wildcards and a last wildcard for the
    rest of the path; their matching against the escaped path of a request,
    segment by segment, with literals before single wildcards before the rest;
    the redirection of paths that are not clean; and the answers 404 and 405.
    With it the decoding of percent escapes, in paths and queries.

    A request is taken from where the server hands it to the multiplexer: its
    method, [URL.EscapedPath] and [URL.RawQuery]. *)

From S2P Require Export Json.

Local Open Scope Z_scope.

(** ** Percent escapes (net/url) *)

(** [unescape]; [None] is an error.  In a query a plus sign is a space. *)
Fixpoint unescape_url (query : bool) (bs : list byte) : option (list byte) :=
  match bs with
  | [] => Some []
  | a :: r1 =>
      if bool_decide (a = x25) then
        match r1 with
        | h1 :: h2 :: r3 =>
            if is_hex h1 && is_hex h2 then
              rest ← unescape_url query r3; Some (byte_of (hex_value h1 * 16 + hex_value h2) :: rest)
            else None
        | _ => None
        end
      else
        rest ← unescape_url query r1;
        Some ((if query && bool_decide (a = x2b) then x20 else a) :: rest)
  end.

Definition PathUnescape : list byte → option (list byte) := unescape_url false.
Definition QueryUnescape : list byte → option (list byte) := unescape_url true.

(** [pathUnescape] of the multiplexer: what cannot be decoded stays. *)
Definition pathUnescape (bs : list byte) : list byte := default bs (PathUnescape bs).

(** Every byte as a percent escape. *)
Definition percent (bs : list byte) : list byte :=
  bs ≫= λ b, [x25; hex_digit (Z.shiftr (uint8 b) 4); hex_digit (Z.land (uint8 b) 0xF)].

(** ** Clean paths (path.Clean, cleanPath) *)

Definition slash : byte := x2f.

(** The elements of a rooted path that [path.Clean] keeps; last first. *)
Definition clean_element (kept : list (list byte)) (e : list byte) : list (list byte) :=
  if bool_decide (e = []) || bool_decide (e = [x2e]) then kept
  else if bool_decide (e = [x2e; x2e]) then tail kept
  else e :: kept.

Definition path_Clean (p : list byte) : list byte :=
  slash :: join_bytes slash (rev (foldl clean_element [] (split_bytes slash p))).

Definition cleanPath (p : list byte) : list byte :=
  match p with
  | [] => [slash]
  | b :: _ =>
      let p := if bool_decide (b = slash) then p else slash :: p in
      let np := path_Clean p in
      if bool_decide (last p = Some slash) && negb (bool_decide (np = [slash])) then np ++ [slash] else np
  end.

(** ** Patterns (pattern.go, routing_tree.go) *)

Inductive segment :=
  | Literal (s : list byte)
  | Wildcard                     (* {name} *)
  | Multi.                       (* {name...}, last *)

#[export] Instance segment_eq_dec : EqDecision segment.
Proof. solve_decision. Defined.

Section mux.
Context {H : Type}.              (* handlers *)

Record pattern := { pat_method : string; pat_segments : list segment; pat_handler : H }.

(** A path as its first segments: each unescaped, with the rest of the path
    from it on (without the slash before it).  A slash at the end is a segment
    of its own. *)
Fixpoint path_segments (parts : list (list byte)) : list (list byte * list byte) :=
  match parts with
  | [] => []
  | [p] => [(if bool_decide (p = []) then [slash] else pathUnescape p, p)]
  | p :: parts => (pathUnescape p, join_bytes slash (p :: parts)) :: path_segments parts
  end.

(** [firstSegment], again and again; the path starts with a slash. *)
Definition segments_of (path : list byte) : list (list byte * list byte) :=
  match path with
  | [] => []
  | _ :: rest => path_segments (split_bytes slash rest)
  end.

(** The patterns below a child of a node. *)
Definition below (s : segment) (pats : list (list segment * pattern)) : list (list segment * pattern) :=
  omap (λ '(ss, p), match ss with s' :: ss => if bool_decide (s' = s) then Some (ss, p) else None
                    | [] => None end) pats.

(** [matchPath]: a node is the list of the patterns that run through it, with
    the segments they still have to match. *)
Fixpoint matchPath (segs : list (list byte * list byte)) (node : list (list segment * pattern))
    (found : list (list byte)) : option (pattern * list (list byte)) :=
  match segs with
  | [] =>
      match List.find (λ '(ss, _), bool_decide (ss = [])) node with
      | Some (_, p) => Some (p, found)
      | None => None
      end
  | (seg, from) :: segs =>
      match matchPath segs (below (Literal seg) node) found with
      | Some r => Some r
      | None =>
          let wild := if bool_decide (seg = [slash]) then None
                      else matchPath segs (below Wildcard node) (found ++ [seg]) in
          match wild with
          | Some r => Some r
          | None =>
              match below Multi node with
              | (_, p) :: _ => Some (p, found ++ [pathUnescape from])
              | [] => None
              end
          end
      end
  end.

(** [matchMethodAndPath]: GET matches HEAD too. *)
Definition tree_match (pats : list pattern) (method : string) (path : list byte) :
    option (pattern * list (list byte)) :=
  let node m := (λ p, (pat_segments p, p)) <$> List.filter (λ p, bool_decide (pat_method p = m)) pats in
  match matchPath (segments_of path) (node method) [] with
  | Some r => Some r
  | None =>
      if bool_decide (method = "HEAD"%string) then matchPath (segments_of path) (node "GET"%string) []
      else None
  end.

Definition ends_with_slash (path : list byte) : bool := bool_decide (last path = Some slash).

(** [exactMatch]. *)
Definition exactMatch (n : option (pattern * list (list byte))) (path : list byte) : bool :=
  match n with
  | None => false
  | Some (p, _) =>
      if negb (bool_decide (last (pat_segments p) = Some Multi)) then true
      else if negb (ends_with_slash path) then false
      else bool_decide (length (pat_segments p) = length (List.filter (λ b, bool_decide (b = slash)) path))
  end.

Inductive routed :=
  | Handled (h : H) (values : list (list byte))  (* of the wildcards *)
  | MovedPermanently
  | MethodNotAllowed
  | NotFound.

(** [findHandler]. *)
Definition findHandler (pats : list pattern) (method : string) (escapedPath : list byte) : routed :=
  let path := if bool_decide (method = "CONNECT"%string) then escapedPath else cleanPath escapedPath in
  let n := tree_match pats method path in
  if negb (exactMatch n path) && negb (ends_with_slash path) &&
     exactMatch (tree_match pats method (path ++ [slash])) (path ++ [slash]) then MovedPermanently
  else if negb (bool_decide (path = escapedPath)) then MovedPermanently
  else match n with
  | Some (p, found) => Handled (pat_handler p) found
  | None =>
      let matches_any path := existsb (λ p,
        bool_decide (is_Some (matchPath (segments_of path) [(pat_segments p, p)] []))) pats in
      if matches_any path || (negb (ends_with_slash path) && matches_any (path ++ [slash]))
      then MethodNotAllowed else NotFound
  end.
End mux.
Arguments pattern H : clear implicits.
Arguments routed H : clear implicits.

(** ** Queries ([url.ParseQuery], [Values.Get]) *)

Definition cut_byte (sep : byte) (bs : list byte) : list byte * list byte :=
  match split_bytes sep bs with
  | k :: ((_ :: _) as vs) => (k, join_bytes sep vs)
  | _ => (bs, [])
  end.

(** The pairs of a query; those with a semicolon or a wrong escape are
    skipped. *)
Definition query_pair (pair : list byte) : option (list byte * list byte) :=
  if bool_decide (pair = []) || bool_decide (x3b ∈ pair) then None
  else
    let '(k, v) := cut_byte x3d pair in
    k ← QueryUnescape k; v ← QueryUnescape v; Some (k, v).

Definition ParseQuery (rawQuery : list byte) : list (list byte * list byte) :=
  omap query_pair (split_bytes x26 rawQuery).

(** The first value, or none. *)
Definition Values_Get (values : list (list byte * list byte)) (key : list byte) : list byte :=
  match List.find (λ '(k, _), bool_decide (k = key)) values with
  | Some (_, v) => v
  | None => []
  end.

(** ** Percent escapes *)

Definition escaped_byte (b : byte) : list byte :=
  [x25; hex_digit (Z.shiftr (uint8 b) 4); hex_digit (Z.land (uint8 b) 0xF)].

Lemma escaped_byte_ok b : is_hex (hex_digit (Z.shiftr (uint8 b) 4)) = true ∧
  is_hex (hex_digit (Z.land (uint8 b) 0xF)) = true ∧
  byte_of (hex_value (hex_digit (Z.shiftr (uint8 b) 4)) * 16 +
           hex_value (hex_digit (Z.land (uint8 b) 0xF))) = b.
Proof. destruct b; vm_compute; done. Qed.

Lemma unescape_percent q bs : unescape_url q (percent bs) = Some bs.
Proof.
  induction bs as [|b bs IH]; [done|]. destruct (escaped_byte_ok b) as (H1 & H2 & Hb).
  change (percent (b :: bs)) with (escaped_byte b ++ percent bs). unfold escaped_byte.
  cbn [app unescape_url]. rewrite bool_decide_true, H1, H2 by done. cbn [andb].
  by rewrite IH, Hb.
Qed.

Lemma pathUnescape_percent bs : pathUnescape (percent bs) = bs.
Proof. unfold pathUnescape, PathUnescape. by rewrite unescape_percent. Qed.

(** Escapes are made of percent signs and hexadecimal digits. *)
Lemma percent_bytes bs : Forall (λ b, b = x25 ∨ is_hex b = true) (percent bs).
Proof.
  induction bs as [|b bs IH]; [constructor|].
  change (percent (b :: bs)) with (escaped_byte b ++ percent bs). apply Forall_app. split; [|done].
  destruct (escaped_byte_ok b) as (H1 & H2 & _). unfold escaped_byte. repeat (apply Forall_cons; split; [auto|]).
  by apply Forall_nil.
Qed.

Lemma percent_without sep bs : sep ≠ x25 → is_hex sep = false → sep ∉ percent bs.
Proof.
  intros Hp Hh Hin. pose proof (percent_bytes bs) as Hf. rewrite Forall_forall in Hf.
  destruct (Hf sep Hin); congruence.
Qed.

Lemma percent_no_slash bs : slash ∉ percent bs.
Proof. by apply percent_without. Qed.

Lemma unescape_nil q bs : unescape_url q bs = Some [] → bs = [].
Proof.
  destruct bs as [|a r]; [done|]. cbn [unescape_url]. destruct (bool_decide (a = x25)).
  - destruct r as [|h1 [|h2 r]]; try done. destruct (_ && _); [|done]. by intros (? & _ & ?)%bind_Some.
  - by intros (? & _ & ?)%bind_Some.
Qed.

Lemma pathUnescape_nil bs : pathUnescape bs = [] → bs = [].
Proof.
  unfold pathUnescape, PathUnescape. destruct (unescape_url false bs) as [r|] eqn:Hu; [|done].
  simpl. intros ->. by eapply unescape_nil.
Qed.

(** ** Clean paths *)

(** An element that a clean path can have. *)
Definition proper (e : list byte) : Prop :=
  (slash ∉ e) ∧ e ≠ [] ∧ e ≠ [x2e] ∧ e ≠ [x2e; x2e].

Lemma clean_proper es kept : Forall proper es → foldl clean_element kept es = rev es ++ kept.
Proof.
  revert kept. induction es as [|e es IH]; intros kept; [done|].
  intros [(Hs & H0 & H1 & H2) Hes]%Forall_cons. cbn [foldl].
  unfold clean_element at 2. rewrite !bool_decide_false by done. cbn [orb].
  rewrite (IH _ Hes). simpl. by rewrite <-(assoc_L (++)).
Qed.

Lemma path_Clean_proper es : es ≠ [] → Forall proper es →
  path_Clean (slash :: join_bytes slash es) = slash :: join_bytes slash es.
Proof.
  intros Hne Hes. unfold path_Clean. cbn [split_bytes]. rewrite bool_decide_true by done.
  rewrite split_join; [|done|eapply Forall_impl; [exact Hes|by intros e []]].
  cbn [foldl]. unfold clean_element at 2. rewrite bool_decide_true by done. cbn [orb].
  rewrite clean_proper by done. by rewrite app_nil_r, rev_involutive.
Qed.

Lemma last_join es : es ≠ [] → Forall proper es → ∃ b, last (join_bytes slash es) = Some b ∧ b ≠ slash.
Proof.
  induction es as [|e es IH]; [done|]. intros _ [(Hs & H0 & _) Hes]%Forall_cons.
  destruct es as [|e' es].
  - simpl. destruct (last e) as [b|] eqn:Hb; [|by apply last_None in Hb].
    exists b. split; [done|]. intros ->. apply Hs. by apply last_Some_elem_of.
  - destruct (IH ltac:(done) Hes) as (b & Hb & Hne). exists b. split; [|done].
    change (join_bytes slash (e :: e' :: es)) with (e ++ slash :: join_bytes slash (e' :: es)).
    rewrite last_app, last_cons, Hb. done.
Qed.

Lemma cleanPath_proper es : es ≠ [] → Forall proper es →
  cleanPath (slash :: join_bytes slash es) = slash :: join_bytes slash es.
Proof.
  intros Hne Hes. unfold cleanPath. rewrite (bool_decide_true (slash = slash)) by done. cbv zeta.
  rewrite path_Clean_proper by done. destruct (last_join es Hne Hes) as (b & Hb & Hb').
  rewrite last_cons, Hb. rewrite (bool_decide_false (Some b = Some slash)) by congruence. done.
Qed.

Lemma percent_proper bs : bs ≠ [] → proper (percent bs).
Proof.
  intros Hne. split; [apply percent_no_slash|]. destruct bs as [|b bs]; [done|].
  change (percent (b :: bs)) with (escaped_byte b ++ percent bs). done.
Qed.

(** ** Matching *)

Section matching.
Context {H : Type}.
Implicit Types (node : list (list segment * pattern H)) (pats : list (pattern H)).

Lemma matchPath_no_patterns segs found : matchPath (H:=H) segs [] found = None.
Proof.
  revert found. induction segs as [|[seg from] segs IH]; intros found; [done|].
  cbn [matchPath]. change (below ?s []) with (@nil (list segment * pattern H)). rewrite !IH.
  by destruct (bool_decide _).
Qed.

(** A node with nothing but the rest of the path to match. *)
Lemma matchPath_multi seg from segs p found :
  matchPath (H:=H) ((seg, from) :: segs) [([Multi], p)] found = Some (p, found ++ [pathUnescape from]).
Proof.
  cbn [matchPath]. change (below (Literal seg) [([Multi], p)]) with (@nil (list segment * pattern H)).
  change (below Wildcard [([Multi], p)]) with (@nil (list segment * pattern H)).
  rewrite !matchPath_no_patterns. by destruct (bool_decide _).
Qed.

Lemma matchPath_literal seg from segs node found r :
  matchPath (H:=H) segs (below (Literal seg) node) found = Some r →
  matchPath ((seg, from) :: segs) node found = Some r.
Proof. intros Hm. cbn [matchPath]. by rewrite Hm. Qed.

Lemma matchPath_wildcard seg from segs node found r : seg ≠ [slash] →
  below (Literal seg) node = [] → matchPath (H:=H) segs (below Wildcard node) (found ++ [seg]) = Some r →
  matchPath ((seg, from) :: segs) node found = Some r.
Proof.
  intros Hne Hl Hm. cbn [matchPath]. by rewrite Hl, matchPath_no_patterns, bool_decide_false, Hm.
Qed.
End matching.

Lemma join_split sep bs : join_bytes sep (split_bytes sep bs) = bs.
Proof.
  induction bs as [|b bs IH]; [done|]. cbn [split_bytes].
  destruct (bool_decide_reflect (b = sep)) as [->|Hb].
  - destruct (split_bytes sep bs) as [|p ps] eqn:Hs; [|simpl; by rewrite <-IH].
    exfalso. clear -Hs. destruct bs as [|c bs]; [done|]. simpl in Hs.
    destruct (bool_decide _); [done|]. by destruct (split_bytes sep bs).
  - destruct (split_bytes sep bs) as [|p [|q ps]]; simpl in *; [by rewrite <-IH|by rewrite IH|by rewrite <-IH].
Qed.

Lemma split_not_nil sep bs : split_bytes sep bs ≠ [].
Proof.
  destruct bs as [|c bs]; [done|]. simpl. destruct (bool_decide _); [done|].
  by destruct (split_bytes sep bs).
Qed.

(** The segments of the rest of a path start with one whose rest is all of it. *)
Lemma path_segments_from bs : ∃ seg segs, path_segments (split_bytes slash bs) = (seg, bs) :: segs.
Proof.
  pose proof (join_split slash bs) as Hj. pose proof (split_not_nil slash bs) as Hne.
  destruct (split_bytes slash bs) as [|p [|q ps]]; [done|..].
  - simpl in *. subst p. by eexists _, _.
  - cbn [path_segments]. rewrite Hj. by eexists _, _.
Qed.

(** ** What a match is *)

(** The segments of a pattern match those of a path, with these values for the
    wildcards. *)
Inductive matches : list segment → list (list byte * list byte) → list (list byte) → Prop :=
  | matches_end : matches [] [] []
  | matches_literal s from ss segs vs : matches ss segs vs →
      matches (Literal s :: ss) ((s, from) :: segs) vs
  | matches_wildcard seg from ss segs vs : seg ≠ [slash] → matches ss segs vs →
      matches (Wildcard :: ss) ((seg, from) :: segs) (seg :: vs)
  | matches_multi seg from segs ss :
      matches (Multi :: ss) ((seg, from) :: segs) [pathUnescape from].

Lemma matches_nil_inv segs vs : matches [] segs vs → segs = [] ∧ vs = [].
Proof. by inversion 1. Qed.

Lemma matches_literal_inv s ss segs vs : matches (Literal s :: ss) segs vs →
  ∃ from segs', segs = (s, from) :: segs' ∧ matches ss segs' vs.
Proof. inversion 1; subst; eauto. Qed.

Lemma matches_wildcard_inv ss segs vs : matches (Wildcard :: ss) segs vs →
  ∃ seg from segs' vs', segs = (seg, from) :: segs' ∧ vs = seg :: vs' ∧ seg ≠ [slash] ∧
    matches ss segs' vs'.
Proof. inversion 1; subst; eauto 9. Qed.

Section match_spec.
Context {H : Type}.
Implicit Types (node : list (list segment * pattern H)).

Lemma elem_of_below s ss p node : (ss, p) ∈ below s node ↔ (s :: ss, p) ∈ node.
Proof.
  unfold below. rewrite list_elem_of_omap. split.
  - intros ([ss' p'] & Hin & Hs). destruct ss' as [|s' ss']; [done|].
    destruct (bool_decide_reflect (s' = s)) as [->|]; [|done]. by injection Hs as -> ->.
  - intros Hin. exists (s :: ss, p). split; [done|]. by rewrite bool_decide_true.
Qed.

(** What is found is a pattern of the node that matches. *)
Lemma matchPath_sound segs node found p found' : matchPath segs node found = Some (p, found') →
  ∃ ss vs, (ss, p) ∈ node ∧ matches ss segs vs ∧ found' = found ++ vs.
Proof.
  revert node found. induction segs as [|[seg from] segs IH]; intros node found; cbn [matchPath].
  - destruct (List.find _ node) as [[ss q]|] eqn:Hf; [|done]. intros [= -> <-].
    apply find_some in Hf as [Hin Hss%bool_decide_eq_true]. subst ss.
    exists [], []. rewrite app_nil_r. split; [by apply list_elem_of_In|]. split; [constructor|done].
  - destruct (matchPath segs (below (Literal seg) node) found) as [[q fs]|] eqn:Hl.
    { intros [= -> ->]. apply IH in Hl as (ss & vs & Hin%elem_of_below & Hm & ->).
      eexists _, _. split; [exact Hin|]. split; [by constructor|done]. }
    destruct (bool_decide_reflect (seg = [slash])) as [->|Hs].
    2: destruct (matchPath segs (below Wildcard node) (found ++ [seg])) as [[q fs]|] eqn:Hw.
    2: { intros [= -> ->]. apply IH in Hw as (ss & vs & Hin%elem_of_below & Hm & ->).
         exists (Wildcard :: ss), (seg :: vs). split; [exact Hin|]. split; [by constructor|].
         by rewrite <-(assoc_L (++)). }
    all: destruct (below Multi node) as [|[ss q] rest] eqn:Hb; [done|]; intros [= -> <-];
      exists (Multi :: ss), [pathUnescape from]; (split; [|split; [constructor|done]]);
      apply elem_of_below; rewrite Hb; by left.
Qed.

(** Something is found when a pattern of the node matches. *)
Lemma matchPath_complete segs ss vs : matches ss segs vs → ∀ node p found,
  (ss, p) ∈ node → is_Some (matchPath segs node found).
Proof.
  induction 1 as [|s from ss segs vs Hm IH|seg from ss segs vs Hs Hm IH|seg from segs ss];
    intros node p found Hin; cbn [matchPath].
  - destruct (List.find _ node) as [[ss q]|] eqn:Hf; [by eexists|].
    exfalso. by apply list_elem_of_In, (find_none _ _ Hf) in Hin.
  - apply elem_of_below in Hin. destruct (IH _ p found Hin) as [r ->]. by eexists.
  - apply elem_of_below in Hin. rewrite bool_decide_false by done.
    destruct (IH _ p (found ++ [seg]) Hin) as [r ->].
    destruct (matchPath segs _ found); by eexists.
  - apply elem_of_below in Hin. destruct (matchPath segs _ found); [by eexists|].
    destruct (if bool_decide _ then None else _); [by eexists|].
    destruct (below Multi node) as [|[? ?] ?]; [by apply elem_of_nil in Hin|by eexists].
Qed.
End match_spec.

(** ** Paths that are clean *)

Lemma split_no_sep sep bs : Forall (λ p, sep ∉ p) (split_bytes sep bs).
Proof.
  induction bs as [|b bs IH]; simpl; [constructor; [apply not_elem_of_nil|constructor]|].
  destruct (bool_decide_reflect (b = sep)) as [->|Hb]; [constructor; [apply not_elem_of_nil|done]|].
  destruct (split_bytes sep bs) as [|p ps]; [constructor; [|done]|].
  - rewrite list_elem_of_singleton. congruence.
  - apply Forall_cons in IH as [Hp Hps]. constructor; [|done]. rewrite elem_of_cons. naive_solver.
Qed.

Lemma clean_elements_proper es kept : Forall (λ p, slash ∉ p) es → Forall proper kept →
  Forall proper (foldl clean_element kept es).
Proof.
  revert kept. induction es as [|e es IH]; intros kept Hes Hk; [done|].
  apply Forall_cons in Hes as [He Hes]. apply IH; [done|]. unfold clean_element.
  destruct (bool_decide_reflect (e = [])); [done|].
  destruct (bool_decide_reflect (e = [x2e])); [done|]. cbn [orb].
  destruct (bool_decide_reflect (e = [x2e; x2e])); [by apply Forall_tail|]. by constructor.
Qed.

Lemma cleanPath_shape p : ∃ es, Forall proper es ∧
  (cleanPath p = slash :: join_bytes slash es ∨
   es ≠ [] ∧ cleanPath p = slash :: join_bytes slash es ++ [slash]).
Proof.
  unfold cleanPath. destruct p as [|b p]; [by exists []; split; [|left]|].
  set (q := if bool_decide (b = slash) then _ else _). cbv zeta.
  exists (rev (foldl clean_element [] (split_bytes slash q))).
  assert (Forall proper (foldl clean_element [] (split_bytes slash q))) as Hp
    by (apply clean_elements_proper; [apply split_no_sep|constructor]).
  split; [by apply Forall_rev|]. change (path_Clean q) with
    (slash :: join_bytes slash (rev (foldl clean_element [] (split_bytes slash q)))).
  destruct (rev (foldl _ _ _)) as [|e es]; [left; by rewrite andb_false_r|].
  destruct (_ && _); [by right|by left].
Qed.

Lemma path_segments_cons p parts : p ≠ [] → Forall (λ s, s.1 ≠ []) (path_segments parts) →
  Forall (λ s, s.1 ≠ []) (path_segments (p :: parts)).
Proof.
  intros Hp Hps. assert (pathUnescape p ≠ []) as Hu by (intros Hn; by apply Hp, pathUnescape_nil).
  destruct parts as [|q parts]; cbn [path_segments].
  - rewrite bool_decide_false by done. by constructor.
  - by constructor.
Qed.

Lemma path_segments_nonempty parts : Forall (λ p, p ≠ []) parts →
  Forall (λ s, s.1 ≠ []) (path_segments parts) ∧
  Forall (λ s, s.1 ≠ []) (path_segments (parts ++ [[]])).
Proof.
  induction 1 as [|p parts Hp Hps [IH1 IH2]]; [by split; repeat constructor|].
  split; [|cbn [app]]; by apply path_segments_cons.
Qed.

Lemma join_slash es : es ≠ [] → join_bytes slash es ++ [slash] = join_bytes slash (es ++ [[]]).
Proof.
  induction es as [|e es IH]; [done|]. intros _. destruct es as [|e' es]; [done|].
  change (join_bytes slash ((e :: e' :: es) ++ [[]]))
    with (e ++ slash :: join_bytes slash ((e' :: es) ++ [[]])).
  rewrite <-IH by done. simpl. by rewrite <-(assoc_L (++)).
Qed.

Lemma proper_no_slash es : Forall proper es → Forall (λ p, slash ∉ p) es.
Proof. intros Hes. eapply Forall_impl; [exact Hes|by intros e []]. Qed.

(** The segments of a clean path, without and with a slash at the end. *)
Lemma segments_proper es : es ≠ [] → Forall proper es →
  segments_of (slash :: join_bytes slash es) = path_segments es ∧
  segments_of (slash :: join_bytes slash es ++ [slash]) = path_segments (es ++ [[]]).
Proof.
  intros Hne Hes%proper_no_slash. unfold segments_of. rewrite join_slash by done.
  rewrite !split_join; [done|by destruct es| |done|done].
  apply Forall_app. split; [done|]. constructor; [apply not_elem_of_nil|constructor].
Qed.

(** A clean path has no empty segments. *)
Lemma clean_segments path : cleanPath path = path → Forall (λ s, s.1 ≠ []) (segments_of path).
Proof.
  destruct (cleanPath_shape path) as (es & Hes & Hp). intros <-.
  assert (Forall (λ p, p ≠ []) es) as Hne by (eapply Forall_impl; [exact Hes|by intros e (_ & ? & _)]).
  destruct (path_segments_nonempty es Hne) as [H1 H2].
  destruct es as [|e es]; [destruct Hp as [->|[? _]]; [by repeat constructor|done]|].
  destruct (segments_proper (e :: es) ltac:(done) Hes) as [Hs1 Hs2].
  destruct Hp as [->|[_ ->]]; by rewrite ?Hs1, ?Hs2.
Qed.

Lemma ends_slash bs : ends_with_slash (bs ++ [slash]) = true.
Proof. unfold ends_with_slash. rewrite last_snoc. by apply bool_decide_true. Qed.

Definition slashes (path : list byte) : nat := length (List.filter (λ b, bool_decide (b = slash)) path).

Lemma slashes_app p q : slashes (p ++ q) = (slashes p + slashes q)%nat.
Proof. unfold slashes. by rewrite List.filter_app, length_app. Qed.

Lemma slashes_none p : slash ∉ p → slashes p = 0%nat.
Proof.
  unfold slashes. induction p as [|b p IH]; [done|]. intros [Hb Hp]%not_elem_of_cons. simpl.
  rewrite bool_decide_false by congruence. by apply IH.
Qed.

(** ** Queries *)

Lemma cut_byte_app sep k v : sep ∉ k → cut_byte sep (k ++ sep :: v) = (k, v).
Proof.
  intros Hk. unfold cut_byte. rewrite split_app by done. pose proof (join_split sep v) as Hj.
  pose proof (split_not_nil sep v). destruct (split_bytes sep v) as [|p ps]; [done|]. by rewrite Hj.
Qed.

Lemma ParseQuery_cons pair rest : x26 ∉ pair →
  ParseQuery (pair ++ x26 :: rest) =
    match query_pair pair with Some kv => kv :: ParseQuery rest | None => ParseQuery rest end.
Proof. intros Hp. unfold ParseQuery. rewrite split_app by done. done. Qed.

Lemma ParseQuery_one pair : x26 ∉ pair →
  ParseQuery pair = match query_pair pair with Some kv => [kv] | None => [] end.
Proof. intros Hp. unfold ParseQuery. by rewrite split_none. Qed.

(** The pair of a name without special bytes and a value. *)
Lemma query_pair_value k v : x3d ∉ k → x3b ∉ k → QueryUnescape k = Some k →
  query_pair (k ++ x3d :: v) =
    if bool_decide (x3b ∈ v) then None else (λ v, (k, v)) <$> QueryUnescape v.
Proof.
  intros H1 H2 Hk. unfold query_pair. rewrite (bool_decide_false (k ++ x3d :: v = [])) by by destruct k.
  cbn [orb]. assert (bool_decide (x3b ∈ k ++ x3d :: v) = bool_decide (x3b ∈ v)) as ->.
  { apply bool_decide_ext. rewrite elem_of_app, elem_of_cons. naive_solver. }
  destruct (bool_decide (x3b ∈ v)); [done|]. rewrite cut_byte_app, Hk by done. cbn [mbind option_bind].
  by destruct (QueryUnescape v).
Qed.

(** A plus sign is a space. *)
Lemma unescape_plus v u : x2b ∈ v → QueryUnescape v = Some u → x20 ∈ u.
Proof.
  unfold QueryUnescape. remember (length v) as n eqn:Hn. revert v u Hn.
  induction n as [n IH] using lt_wf_ind. intros v u -> Hin.
  destruct v as [|a r]; [by apply elem_of_nil in Hin|]. cbn [unescape_url].
  destruct (bool_decide_reflect (a = x25)) as [->|Ha].
  - destruct r as [|h1 [|h2 r]]; try done. destruct (is_hex h1 && is_hex h2) eqn:Hh; [|done].
    apply andb_true_iff in Hh as [Hh1 Hh2]. intros (u' & Hu & [= <-])%bind_Some. right.
    eapply (IH (length r)); [simpl; lia|done| |done].
    apply elem_of_cons in Hin as [Hin|Hin]; [discriminate|].
    apply elem_of_cons in Hin as [Hin|Hin]; [by subst|].
    apply elem_of_cons in Hin as [Hin|Hin]; [by subst|done].
  - intros (u' & Hu & [= <-])%bind_Some. apply elem_of_cons in Hin as [<-|Hin]; [by left|].
    right. eapply (IH (length r)); [simpl; lia|done..].
Qed.
