(* ===== verification/GoFilepath.v ===== *)
(** * File paths ([path/filepath] on Unix)

    [filepath.Clean] and [filepath.Dir], which the program uses to find the
    directory of its database file.  Rooted paths are cleaned as in [Http];
    a relative one keeps the [..] elements that lead out of it. *)

From S2P Require Export GoStrings Http.

(** The elements of a relative path that [Clean] keeps; last first. *)
Definition clean_relative (kept : list (list byte)) (e : list byte) : list (list byte) :=
  if bool_decide (e = []) || bool_decide (e = [x2e]) then kept
  else if bool_decide (e = [x2e; x2e]) then
    match kept with
    | k :: ks => if bool_decide (k = [x2e; x2e]) then e :: kept else ks
    | [] => [e]
    end
  else e :: kept.

Definition Clean_bytes (p : list byte) : list byte :=
  match p with
  | b :: _ =>
      if bool_decide (b = slash) then path_Clean p
      else match rev (foldl clean_relative [] (split_bytes slash p)) with
      | [] => [x2e]
      | es => join_bytes slash es
      end
  | [] => [x2e]
  end.

(** The path up to its last slash, and with it. *)
Fixpoint dir_prefix (p : list byte) : list byte :=
  match p with
  | [] => []
  | b :: rest =>
      if bool_decide (slash ∈ p) then b :: dir_prefix rest else []
  end.

Definition Clean (p : string) : string := string_of (Clean_bytes (bytes_of p)).
Definition Dir (p : string) : string := string_of (Clean_bytes (dir_prefix (bytes_of p))).

Example Dir_ex : Dir "./data/broker.db" = "data"%string ∧ Dir "broker.db" = "."%string ∧
  Dir "/var/lib//broker/../mqtt/edge.db" = "/var/lib/mqtt"%string ∧ Dir "../../a/../edge.db" = "../.."%string ∧
  Dir ":memory:" = "."%string ∧ Dir "/edge.db" = "/"%string.
Proof. vm_compute. done. Qed.

(** ** The directory of a file *)

Lemma dir_prefix_none f : slash ∉ f → dir_prefix f = [].
Proof. destruct f as [|b f]; [done|]. intros Hf. cbn [dir_prefix]. by rewrite bool_decide_false. Qed.

Lemma dir_prefix_slash p f : slash ∉ f → dir_prefix (p ++ slash :: f) = p ++ [slash].
Proof.
  intros Hf. induction p as [|b p IH]; cbn [app dir_prefix].
  - rewrite bool_decide_true by by left. by rewrite dir_prefix_none.
  - rewrite bool_decide_true by (right; apply elem_of_app; right; by left). by rewrite IH.
Qed.

Lemma split_snoc es : Forall (λ e, slash ∉ e) es → es ≠ [] →
  split_bytes slash (join_bytes slash es ++ [slash]) = es ++ [[]].
Proof.
  intros Hes Hne.
  assert (join_bytes slash es ++ [slash] = join_bytes slash (es ++ [[]])) as ->.
  { induction Hes as [|e es He Hes IH]; [done|]. destruct es as [|e' es].
    - done.
    - change (join_bytes slash (e :: e' :: es)) with (e ++ slash :: join_bytes slash (e' :: es)).
      change (join_bytes slash ((e :: e' :: es) ++ [[]])) with
        (e ++ slash :: join_bytes slash ((e' :: es) ++ [[]])).
      rewrite <-IH by done. by rewrite <-(assoc_L (++)). }
  apply split_join; [by destruct es|]. apply Forall_app. split; [done|].
  apply Forall_singleton. apply not_elem_of_nil.
Qed.

Lemma clean_relative_proper es kept : Forall proper es →
  foldl clean_relative kept es = rev es ++ kept.
Proof.
  intros Hes. revert kept. induction Hes as [|e es (_ & H0 & H1 & H2) _ IH]; intros kept; [done|].
  cbn [foldl]. unfold clean_relative at 2. rewrite !bool_decide_false by done. cbn [orb].
  rewrite IH. simpl. by rewrite <-(assoc_L (++)).
Qed.

(** The directory of a clean relative path of more than one element is the
    path without its last element. *)
Theorem Dir_relative es f : es ≠ [] → Forall proper es → slash ∉ f →
  Clean_bytes (dir_prefix (join_bytes slash es ++ slash :: f)) = join_bytes slash es.
Proof.
  intros Hne Hes Hf. rewrite dir_prefix_slash by done.
  assert (Forall (λ e, slash ∉ e) es) as Hns by (eapply Forall_impl; [exact Hes|by intros e []]).
  assert (∃ b q, join_bytes slash es = b :: q ∧ b ≠ slash) as (b & q & Hb & Hns').
  { destruct es as [|e es]; [done|]. apply Forall_cons in Hes as [(He & H0 & _) _].
    destruct e as [|b e]; [done|]. exists b. destruct es; eexists; (split; [reflexivity|]);
      intros ->; apply He; by left. }
  pose proof (split_snoc es Hns Hne) as Hsp. rewrite Hb in *. cbn [app] in *. unfold Clean_bytes.
  rewrite (bool_decide_false (b = slash)) by done. rewrite Hsp, foldl_app, (clean_relative_proper es) by done.
  cbn [foldl]. unfold clean_relative. rewrite (bool_decide_true ([] = [])) by done. cbn [orb].
  rewrite app_nil_r, rev_involutive, <-Hb. by destruct es.
Qed.

(** And of a rooted one. *)
Theorem Dir_rooted es f : es ≠ [] → Forall proper es → slash ∉ f →
  Clean_bytes (dir_prefix (slash :: join_bytes slash es ++ slash :: f)) = slash :: join_bytes slash es.
Proof.
  intros Hne Hes Hf.
  transitivity (Clean_bytes (slash :: join_bytes slash es ++ [slash])).
  { f_equal. exact (dir_prefix_slash (slash :: join_bytes slash es) f Hf). }
  assert (Forall (λ e, slash ∉ e) es) as Hns by (eapply Forall_impl; [exact Hes|by intros e []]).
  unfold Clean_bytes, path_Clean. rewrite (bool_decide_true (slash = slash)) by done.
  cbn [split_bytes]. rewrite (bool_decide_true (slash = slash)) by done.
  rewrite split_snoc by done. cbn [foldl]. unfold clean_element at 2.
  rewrite (bool_decide_true ([] = [])) by done. cbn [orb].
  rewrite foldl_app, (clean_proper es) by done. cbn [foldl]. unfold clean_element.
  rewrite (bool_decide_true ([] = [])) by done. cbn [orb]. by rewrite app_nil_r, rev_involutive.
Qed.
