(* ===== verification/GoFloat.v ===== *)
(** * IEEE 754 binary64 ([float64])

    Floats are [spec_float], the standard library's specification of
    binary64: conversions from integers round to nearest, ties to even, as
    Go's do, and so do multiplication and division.  Conversion to an integer
    truncates.  The lemmas give the results that are exact. *)

From Stdlib Require Export Floats.SpecFloat.
From S2P Require Export Prelude.

Local Open Scope Z_scope.

Definition prec : Z := 53.
Definition emax : Z := 1024.

(** [float64(z)] for an integer [z]. *)
Definition Float64 (z : Z) : spec_float := binary_normalize prec emax z 0 false.

Definition Fmul : spec_float → spec_float → spec_float := SFmul prec emax.
Definition Fdiv : spec_float → spec_float → spec_float := SFdiv prec emax.
(** [x > y]. *)
Definition Fgt (x y : spec_float) : bool := SFltb y x.

Definition Fzero : spec_float := S754_zero false.
Definition Fone : spec_float := S754_finite false 4503599627370496 (-52).
(** The constant 1.5. *)
Definition Fone_half : spec_float := S754_finite false 6755399441055744 (-52).

(** [int64(f)] for a finite [f]: truncation toward zero. *)
Definition Trunc (f : spec_float) : Z :=
  match f with
  | S754_finite s m e =>
      let v := if 0 <=? e then Zpos m * 2 ^ e else Zpos m / 2 ^ (- e) in
      if s then - v else v
  | _ => 0
  end.

Example Fone_ok : Float64 1 = Fone.
Proof. vm_compute. reflexivity. Qed.
Example Fone_half_ok : Fmul Fone_half (Float64 2) = Float64 3.
Proof. vm_compute. reflexivity. Qed.

(** ** Digits *)

Definition digits (p : positive) : Z := Zpos (digits2_pos p).

Lemma digits_bounds p : 2 ^ (digits p - 1) ≤ Zpos p < 2 ^ digits p.
Proof.
  unfold digits. induction p as [p IH|p IH|]; simpl digits2_pos; [..|by vm_compute];
    rewrite ?Pos2Z.inj_succ, ?Pos2Z.inj_xI, ?(Pos2Z.inj_xO p), ?Z.pow_succ_r by lia;
    replace (Z.succ (Zpos (digits2_pos p)) - 1) with (Z.succ (Zpos (digits2_pos p) - 1)) by lia;
    rewrite Z.pow_succ_r by lia; lia.
Qed.

Lemma digits_le p n : Zpos p < 2 ^ n → 0 ≤ n → digits p ≤ n.
Proof.
  intros Hp Hn. pose proof (digits_bounds p) as [Hd _].
  destruct (Z.le_gt_cases (digits p) n); [done|].
  assert (2 ^ n ≤ 2 ^ (digits p - 1)) by (apply Z.pow_le_mono_r; lia). lia.
Qed.

(** [p] followed by [k] zero bits. *)
Definition shift (p : positive) (k : nat) : positive := Nat.iter k xO p.

Lemma shift_value p k : Zpos (shift p k) = Zpos p * 2 ^ Z.of_nat k.
Proof.
  induction k as [|k IH]; simpl shift; [lia|].
  rewrite Pos2Z.inj_xO, IH, Nat2Z.inj_succ, Z.pow_succ_r by lia. lia.
Qed.

Lemma digits_shift p k : digits (shift p k) = digits p + Z.of_nat k.
Proof.
  unfold digits. induction k as [|k IH]; [simpl shift; lia|].
  change (digits2_pos (shift p (S k))) with (Pos.succ (digits2_pos (shift p k))). lia.
Qed.

(** ** Shifts that lose nothing *)

Lemma iter_pos_nat {A} (f : A → A) n x : SpecFloat.iter_pos f n x = Nat.iter (Pos.to_nat n) f x.
Proof.
  revert x. induction n as [n IH|n IH|]; intros x; simpl SpecFloat.iter_pos; [..|done];
    rewrite !IH.
  - rewrite Pos2Nat.inj_xI. replace (S (2 * _))%nat with (Pos.to_nat n + (Pos.to_nat n + 1))%nat by lia.
    by rewrite !Nat.iter_add.
  - rewrite Pos2Nat.inj_xO. replace (2 * _)%nat with (Pos.to_nat n + Pos.to_nat n)%nat by lia.
    by rewrite Nat.iter_add.
Qed.

Definition exact (m : Z) : shr_record := {| shr_m := m; shr_r := false; shr_s := false |}.

Lemma shr_shift p k j e : (j ≤ k)%nat →
  shr (exact (Zpos (shift p k))) e (Z.of_nat j) = (exact (Zpos (shift p (k - j))), e + Z.of_nat j).
Proof.
  intros Hj. destruct j as [|j]; [simpl; by rewrite Nat.sub_0_r, Z.add_0_r|].
  unfold shr. change (Z.of_nat (S j)) with (Zpos (Pos.of_succ_nat j)).
  cbv beta iota. rewrite iter_pos_nat, SuccNat2Pos.id_succ. f_equal.
  revert Hj. generalize (S j) as n. clear j. induction n as [|n IH]; intros Hn.
  - simpl. by rewrite Nat.sub_0_r.
  - simpl Nat.iter. rewrite IH by lia. replace (k - n)%nat with (S (k - S n)) by lia. done.
Qed.

(** Rounding an integer of at most 53 digits, followed by zero bits, is exact. *)
Lemma round_exact s p k e :
  let d := digits p in
  d ≤ prec → prec ≤ d + Z.of_nat k → -1000 ≤ d + Z.of_nat k + e ≤ 1000 →
  binary_round_aux prec emax s (Zpos (shift p k)) e loc_Exact =
  S754_finite s (shift p (Z.to_nat (prec - d))) (d + Z.of_nat k + e - prec).
Proof.
  intros d Hd Hk He. unfold prec in *.
  assert (∀ j x, d + Z.of_nat j + x = d + Z.of_nat k + e →
    fexp 53 emax (Zdigits2 (Zpos (shift p j)) + x) = d + Z.of_nat k + e - 53) as Hf.
  { intros j x Hx. unfold fexp, emin, emax, Zdigits2. fold (digits (shift p j)).
    rewrite digits_shift. fold d. lia. }
  unfold binary_round_aux, shr_fexp. rewrite Hf by done.
  replace (d + Z.of_nat k + e - 53 - e) with (Z.of_nat (Z.to_nat (d + Z.of_nat k - 53))) by lia.
  change (shr_record_of_loc ?m loc_Exact) with (exact m).
  rewrite shr_shift by lia.
  replace (k - Z.to_nat (d + Z.of_nat k - 53))%nat with (Z.to_nat (53 - d)) by lia.
  cbn [shr_m exact loc_of_shr_record round_nearest_even].
  rewrite Hf by lia.
  replace (d + Z.of_nat k + e - 53 - (e + Z.of_nat (Z.to_nat (d + Z.of_nat k - 53))))
    with (Z.of_nat 0) by lia.
  change (shr_record_of_loc ?m loc_Exact) with (exact m).
  rewrite shr_shift by lia. rewrite Nat.sub_0_r. cbn [shr_m exact].
  destruct (Z.leb_spec (e + Z.of_nat (Z.to_nat (d + Z.of_nat k - 53)) + Z.of_nat 0) (emax - 53))
    as [|Hbig]; [|unfold emax in Hbig; lia].
  f_equal. lia.
Qed.

(** ** Exact conversions and products *)

Lemma iter_xO p d : Pos.iter xO p d = shift p (Pos.to_nat d).
Proof. unfold shift. apply Pos2Nat.inj_iter. Qed.

Lemma Float64_pos p : Zpos p < 2 ^ 53 →
  Float64 (Zpos p) = S754_finite false (shift p (Z.to_nat (prec - digits p))) (digits p - prec).
Proof.
  intros Hp. assert (digits p ≤ 53) as Hd by (apply digits_le; lia).
  assert (1 ≤ digits p) by (unfold digits; lia).
  unfold Float64, binary_normalize, binary_round, shl_align, prec in *.
  fold (digits p). rewrite Z.add_0_r.
  replace (fexp 53 emax (digits p)) with (digits p - 53) by (unfold fexp, emin, emax; lia).
  rewrite Z.sub_0_r. destruct (digits p - 53) as [|n|n] eqn:Hn; [|lia|].
  - change p with (shift p 0) at 1. rewrite round_exact by (unfold prec; lia).
    f_equal; unfold prec; f_equal; lia.
  - rewrite iter_xO, round_exact by (unfold prec; lia). unfold prec. f_equal; lia.
Qed.

Lemma shift_mul p q j k : (shift p j * shift q k)%positive = shift (p * q) (j + k).
Proof.
  apply Pos2Z.inj. rewrite Pos2Z.inj_mul, !shift_value, Pos2Z.inj_mul, Nat2Z.inj_add,
    Z.pow_add_r by lia. lia.
Qed.

(** [float64(z) * 1.5], truncated, is half of [3 * z] for integers far beyond
    the 16-bit values it is used on. *)
Lemma Trunc_one_half z : 0 ≤ z < 2 ^ 50 → Trunc (Fmul (Float64 z) Fone_half) = 3 * z / 2.
Proof.
  intros [Hz Hz']. destruct z as [|p|p]; [done| |lia].
  assert (digits p ≤ 50) by (apply digits_le; lia).
  assert (digits (p * 3) ≤ 52) by (apply digits_le; lia).
  assert (1 ≤ digits p) by (unfold digits; lia).
  assert (digits p ≤ digits (p * 3)).
  { apply Z.lt_succ_r, (Z.pow_lt_mono_r_iff 2); [lia|unfold digits; lia|].
    pose proof (digits_bounds p). pose proof (digits_bounds (p * 3)).
    assert (2 ^ Z.succ (digits (p * 3)) = 2 * 2 ^ digits (p * 3))
      by (apply Z.pow_succ_r; unfold digits; lia).
    assert (2 ^ digits p = 2 * 2 ^ (digits p - 1))
      by (rewrite <-Z.pow_succ_r by lia; f_equal; lia). lia. }
  rewrite Float64_pos by lia.
  unfold Fone_half. change 6755399441055744%positive with (shift 3 51).
  unfold Fmul, SFmul. rewrite shift_mul. cbn [xorb].
  rewrite round_exact by (unfold prec; lia). unfold Trunc, prec.
  destruct (Z.leb_spec 0 (digits (p * 3) +
    Z.of_nat (Z.to_nat (53 - digits p) + 51) + (digits p - 53 + -52) - 53)); [lia|].
  rewrite shift_value, Pos2Z.inj_mul, Z2Nat.id by lia.
  set (D := digits (p * 3)) in *.
  replace (- _) with (Z.succ (53 - D)) by lia.
  rewrite Z.pow_succ_r by lia. rewrite (Z.mul_comm 2).
  rewrite (Z.mul_comm _ 2), Z.div_mul_cancel_r by lia. f_equal. lia.
Qed.

(** ** Floats that are not negative *)

(** Zero, a positive number or infinity. *)
Definition nonneg (f : spec_float) : Prop :=
  match f with
  | S754_zero false | S754_infinity false | S754_finite false _ _ => True
  | _ => False
  end.

Lemma shr_1_m r : 0 ≤ shr_m r → shr_m (shr_1 r) = shr_m r / 2.
Proof.
  destruct r as [[|[p|p|]|p] b c]; simpl; intros; try done; try lia.
  - rewrite Pos2Z.inj_xI, Z.mul_comm, Z.div_add_l by lia. change (1 / 2) with 0. lia.
  - rewrite Pos2Z.inj_xO, Z.mul_comm, Z.div_mul; lia.
Qed.

Lemma shr_iter_m n r : 0 ≤ shr_m r → shr_m (Nat.iter n shr_1 r) = shr_m r / 2 ^ Z.of_nat n.
Proof.
  intros Hr. induction n as [|n IH]; [by rewrite Z.div_1_r|].
  simpl Nat.iter. rewrite shr_1_m, IH by (rewrite IH; apply Z.div_pos; lia).
  rewrite Z.div_div by lia. f_equal. rewrite Nat2Z.inj_succ, Z.pow_succ_r by lia. lia.
Qed.

Lemma shr_value r e n : 0 ≤ shr_m r →
  shr_m (shr r e n).1 = shr_m r / 2 ^ Z.max 0 n ∧ (shr r e n).2 = e + Z.max 0 n.
Proof.
  intros Hr. destruct n as [|n|n]; cbn [shr fst snd].
  1,3: replace (Z.max 0 _) with 0 by lia; rewrite Z.pow_0_r, Z.div_1_r; lia.
  - replace (Z.max 0 (Zpos n)) with (Zpos n) by lia. rewrite iter_pos_nat, shr_iter_m, positive_nat_Z by done. split; [done|lia].
Qed.

Lemma shr_record_of_loc_m m l : shr_m (shr_record_of_loc m l) = m.
Proof. by destruct l as [|[]]. Qed.

Lemma round_nearest_even_range m l : m ≤ round_nearest_even m l ≤ m + 1.
Proof. destruct l as [|[]]; simpl; [lia|destruct (Z.even m)|..]; lia. Qed.

Lemma round_aux_nonneg m e l : 0 ≤ m → nonneg (binary_round_aux prec emax false m e l).
Proof.
  intros Hm. unfold binary_round_aux, shr_fexp.
  match goal with |- context [shr ?r e ?n] => pose proof (shr_value r e n) as H1;
    destruct (shr r e n) as [r1 e1] end.
  rewrite shr_record_of_loc_m in H1. destruct (H1 Hm) as [H1m _]. simpl in H1m.
  assert (0 ≤ shr_m r1) by (rewrite H1m; apply Z.div_pos; lia).
  match goal with |- context [round_nearest_even ?a ?b] =>
    pose proof (round_nearest_even_range a b); generalize dependent (round_nearest_even a b) end.
  intros m2 Hm2.
  match goal with |- context [shr ?r e1 ?n] => pose proof (shr_value r e1 n) as H2;
    destruct (shr r e1 n) as [r2 e2] end.
  simpl in H2. destruct H2 as [H2m _]; [lia|].
  assert (0 ≤ shr_m r2) by (rewrite H2m; apply Z.div_pos; lia).
  destruct (shr_m r2); [done|by destruct (_ <=? _)|lia].
Qed.

(** The conversion of a positive [int64] is a positive number. *)
Lemma Float64_positive z : 0 < z < 2 ^ 63 → ∃ m e, Float64 z = S754_finite false m e.
Proof.
  intros [Hz Hz']. destruct z as [|p|p]; [lia| |lia].
  assert (digits p ≤ 63) as Hd by (apply digits_le; lia).
  destruct (Z.lt_ge_cases (Zpos p) (2 ^ 53)) as [|Hbig]; [by rewrite Float64_pos by done; eauto|].
  pose proof (digits_bounds p) as [Hlo Hhi].
  assert (53 < digits p) by (apply (Z.pow_lt_mono_r_iff 2); unfold digits in *; lia).
  unfold Float64, binary_normalize, binary_round, shl_align. fold (digits p).
  rewrite Z.add_0_r.
  replace (fexp prec emax (digits p)) with (digits p - 53) by (unfold fexp, emin, emax, prec; lia).
  destruct (digits p - 53 - 0) as [|n|n] eqn:Hn; [lia| |lia].
  unfold binary_round_aux, shr_fexp. simpl Zdigits2. fold (digits p). rewrite Z.add_0_r.
  replace (fexp prec emax (digits p)) with (digits p - 53) by (unfold fexp, emin, emax, prec; lia).
  rewrite Hn. pose proof (shr_value (exact (Zpos p)) 0 (Zpos n) ltac:(simpl; lia)) as [H1 H1e].
  change (shr_record_of_loc (Zpos p) loc_Exact) with (exact (Zpos p)).
  destruct (shr (exact (Zpos p)) 0 (Zpos n)) as [r1 e1]. simpl shr_m in H1. simpl in H1e.
  replace (Z.max 0 (Zpos n)) with (digits p - 53) in H1 by lia.
  assert (2 ^ 52 ≤ shr_m r1 < 2 ^ 53) as Hr1.
  { rewrite H1. split.
    - apply Z.div_le_lower_bound; [apply Z.pow_pos_nonneg; lia|].
      rewrite <-Z.pow_add_r by lia. by replace (digits p - 53 + 52) with (digits p - 1) by lia.
    - apply Z.div_lt_upper_bound; [apply Z.pow_pos_nonneg; lia|].
      rewrite <-Z.pow_add_r by lia. by replace (digits p - 53 + 53) with (digits p) by lia. }
  match goal with |- context [round_nearest_even ?a ?b] =>
    pose proof (round_nearest_even_range a b) as Hr; generalize dependent (round_nearest_even a b) end.
  intros m2 Hm2. destruct m2 as [|q|q]; [lia| |lia]. simpl Zdigits2. fold (digits q).
  pose proof (digits_bounds q) as [Hqlo Hqhi].
  assert (digits q ≤ 54) by (apply digits_le; lia).
  assert (52 < digits q) by (apply (Z.pow_lt_mono_r_iff 2); unfold digits in *; lia).
  replace (fexp prec emax (digits q + e1) - e1) with (digits q - 53)
    by (unfold fexp, emin, emax, prec; lia).
  pose proof (shr_value (exact (Zpos q)) e1 (digits q - 53) ltac:(simpl; lia)) as [Hs2 Hs2e].
  change (shr_record_of_loc (Zpos q) loc_Exact) with (exact (Zpos q)).
  destruct (shr (exact (Zpos q)) e1 (digits q - 53)) as [r2 e2]. simpl shr_m in Hs2. simpl in Hs2e.
  assert (0 < shr_m r2).
  { rewrite Hs2. apply Z.div_str_pos. split; [apply Z.pow_pos_nonneg; lia|].
    transitivity (2 ^ 1); [apply Z.pow_le_mono_r; lia|lia]. }
  simpl fst. simpl snd. destruct (shr_m r2) as [|m|m]; [lia| |lia].
  destruct (Z.leb_spec e2 (emax - prec)) as [|Hbad]; [eauto|unfold emax, prec in Hbad; lia].
Qed.

Lemma Fdiv_nonneg m e m' e' :
  nonneg (Fdiv (S754_finite false m e) (S754_finite false m' e')).
Proof.
  unfold Fdiv, SFdiv. destruct (SFdiv_core_binary prec emax (Zpos m) e (Zpos m') e')
    as [[q e2] l] eqn:Hq.
  apply round_aux_nonneg. unfold SFdiv_core_binary in Hq.
  match type of Hq with context [Z.div_eucl ?a ?b] => assert (0 ≤ a) as Ha end.
  { destruct (_ - _ - _); [lia|apply Z.shiftl_nonneg; lia|lia]. }
  match type of Hq with context [Z.div_eucl ?a ?b] =>
    pose proof (Z.div_pos a b Ha ltac:(lia)) as Hpos; unfold Z.div in Hpos;
    destruct (Z.div_eucl a b) as [q' r'] end.
  by injection Hq as <- <- <-.
Qed.

(** The quotient of a positive number by itself is one. *)
Lemma Fdiv_self m e : Fdiv (S754_finite false m e) (S754_finite false m e) = Fone.
Proof.
  unfold Fdiv, SFdiv, SFdiv_core_binary. rewrite !Z.sub_diag.
  replace (Z.min (fexp prec emax 0) 0) with (-53) by (unfold fexp, emin, emax, prec; lia).
  change (0 - -53) with 53. cbv beta iota zeta. rewrite Z.shiftl_mul_pow2 by lia.
  assert (Z.div_eucl (Zpos m * 2 ^ 53) (Zpos m) = (2 ^ 53, 0)) as ->.
  { pose proof (Z.div_mul (2 ^ 53) (Zpos m) ltac:(lia)) as Hd.
    pose proof (Z.mod_mul (2 ^ 53) (Zpos m) ltac:(lia)) as Hm.
    rewrite Z.mul_comm in Hd, Hm. unfold Z.div, Z.modulo in Hd, Hm.
    destruct (Z.div_eucl _ _). by subst. }
  replace (new_location (Zpos m) 0) with loc_Exact
    by (unfold new_location, new_location_even, new_location_odd; by destruct (Z.even _)).
  vm_compute. reflexivity.
Qed.

(** What is not negative and not above one is at most one. *)
Lemma nonneg_compare f : nonneg f → Fgt f Fone = false →
  SFleb Fzero f = true ∧ SFleb f Fone = true.
Proof.
  unfold Fgt, SFltb, SFleb, Fone, Fzero. intros Hf.
  destruct f as [[]|[]| |[] m e]; try contradiction; [done|discriminate|].
  generalize 4503599627370496%positive as c, (-52) as ec. intros c ec.
  cbn [SFcompare]. rewrite (Z.compare_antisym e). destruct (e ?= ec); [|done..].
  pose proof (Pos.compare_cont_antisym m c Eq) as Hc. cbn [CompOpp] in *.
  rewrite <-Hc. by destruct (Pos.compare_cont Eq m c).
Qed.

(** ** Floats that fit *)

(** The mantissa and exponent of a finite [float64]. *)
Definition finite_float (m e : Z) : Prop := 0 < m < 2 ^ 53 ∧ -1074 ≤ e ≤ 971.

Lemma digits_div p n : 0 ≤ n → match Zpos p / 2 ^ n with
  | Zpos q => digits q = digits p - n
  | _ => True
  end.
Proof.
  intros Hn. destruct (Zpos p / 2 ^ n) as [|q|q] eqn:Hq; [done| |done].
  pose proof (digits_bounds p) as [Hlo Hhi]. pose proof (digits_bounds q) as [Hqlo Hqhi].
  assert (0 < 2 ^ n) as H2 by (apply Z.pow_pos_nonneg; lia).
  pose proof (Z.div_mod (Zpos p) (2 ^ n) ltac:(lia)) as Hdm. rewrite Hq in Hdm.
  pose proof (Z.mod_pos_bound (Zpos p) (2 ^ n) H2) as Hmod.
  assert (0 < digits p ∧ 0 < digits q) as [Hdp Hdq] by (unfold digits; lia).
  assert (digits q + n - 1 < digits p).
  { apply (Z.pow_lt_mono_r_iff 2); [lia|lia|].
    replace (digits q + n - 1) with (n + (digits q - 1)) by lia. rewrite Z.pow_add_r by lia. nia. }
  assert (digits p - 1 < digits q + n).
  { apply (Z.pow_lt_mono_r_iff 2); [lia|lia|]. rewrite Z.pow_add_r by lia. nia. }
  lia.
Qed.

(** What [shr_fexp] leaves fits the mantissa, and its exponent is not too
    small. *)
Lemma shr_fexp_fits m e l : 0 ≤ m →
  let r := shr_fexp prec emax m e l in
  0 ≤ shr_m r.1 ∧ (0 < shr_m r.1 → shr_m r.1 < 2 ^ 53 ∧ -1074 ≤ r.2).
Proof.
  intros Hm r. unfold r, shr_fexp. clear r.
  match goal with |- context [shr ?r e ?n] => pose proof (shr_value r e n) as H1;
    destruct (shr r e n) as [r1 e1] end.
  rewrite shr_record_of_loc_m in H1. destruct (H1 Hm) as [Hr He]. cbn [fst snd] in *. clear H1.
  set (n := fexp prec emax (Zdigits2 m + e) - e) in *.
  assert (0 ≤ shr_m r1) as H0 by (rewrite Hr; apply Z.div_pos; lia).
  split; [done|]. intros Hpos. destruct m as [|p|p]; [rewrite Z.div_0_l in Hr; lia| |lia].
  cbn [Zdigits2] in n. change (Zpos (digits2_pos p)) with (digits p) in n.
  pose proof (digits_div p (Z.max 0 n) ltac:(lia)) as Hd. rewrite <-Hr in Hd.
  destruct (shr_m r1) as [|q|q]; [lia| |lia].
  assert (digits q ≤ 53 ∧ -1074 ≤ e1) as [Hq Hmin].
  { unfold n, fexp, emin, emax, prec in *. lia. }
  split; [|done]. pose proof (digits_bounds q) as [_ Hhi].
  assert (2 ^ digits q ≤ 2 ^ 53) by (apply Z.pow_le_mono_r; lia). lia.
Qed.

(** Rounding gives a finite [float64], an infinity or a zero. *)
Lemma round_aux_fits s m e l : 0 ≤ m →
  match binary_round_aux prec emax s m e l with
  | S754_finite _ m e => finite_float (Zpos m) e
  | S754_nan => False
  | _ => True
  end.
Proof.
  intros Hm. unfold binary_round_aux.
  destruct (shr_fexp_fits m e l Hm) as [H1 _]. destruct (shr_fexp prec emax m e l) as [r1 e1]. cbn [fst] in H1.
  match goal with |- context [round_nearest_even ?a ?b] =>
    pose proof (round_nearest_even_range a b) as Hrange; generalize dependent (round_nearest_even a b) end.
  intros m2 Hm2. destruct (shr_fexp_fits m2 e1 loc_Exact ltac:(lia)) as [H2 H3].
  destruct (shr_fexp prec emax m2 e1 loc_Exact) as [r2 e2]. cbn [fst snd] in *.
  destruct (shr_m r2) as [|q|q]; [done| |lia].
  destruct (Z.leb_spec e2 (emax - prec)) as [Hle|]; [|done].
  unfold finite_float, emax, prec in *. destruct H3; lia.
Qed.

Definition finite (f : spec_float) : Prop :=
  match f with
  | S754_zero _ => True
  | S754_finite _ m e => finite_float (Zpos m) e
  | _ => False
  end.

Lemma Fdiv_fits m e m' e' :
  let f := Fdiv (S754_finite false m e) (S754_finite false m' e') in f = S754_infinity false ∨ finite f.
Proof.
  intros f. pose proof (Fdiv_nonneg m e m' e') as Hnn. fold f in Hnn.
  unfold f, Fdiv, SFdiv in *. clear f.
  destruct (SFdiv_core_binary prec emax (Zpos m) e (Zpos m') e') as [[q e2] l] eqn:Hq.
  assert (0 ≤ q) as Hq0.
  { unfold SFdiv_core_binary in Hq.
    match type of Hq with context [Z.div_eucl ?a ?b] => assert (0 ≤ a) as Ha end.
    { destruct (_ - _ - _); [lia|apply Z.shiftl_nonneg; lia|lia]. }
    match type of Hq with context [Z.div_eucl ?a ?b] =>
      pose proof (Z.div_pos a b Ha ltac:(lia)) as Hpos; unfold Z.div in Hpos;
      destruct (Z.div_eucl a b) as [q' r'] end.
    by injection Hq as <- <- <-. }
  pose proof (round_aux_fits (xorb false false) q e2 l Hq0) as Hf.
  cbn [xorb] in *. destruct (binary_round_aux prec emax false q e2 l) as [|[]| |]; auto.
Qed.
