(* ===== verification/GoFormatFloat.v ===== *)
(** * Floats as text ([strconv.AppendFloat], [encoding/json])

    A [float64] as [encoding/json] writes it: the decimal with the fewest
    digits that is read back as the float (the nearest of them), in the form
    0.25, or 2.5e-7 below 1e-6 and from 1e21 on.

    Seventeen digits always suffice ([shortest_exists]); what is found lies in
    the interval that rounds to the float, and nothing shorter does
    ([shortest_spec]); and the text is a JSON number ([float_text_number]). *)

From Stdlib Require Import DecimalString.
From S2P Require Export GoFloat Json.

Local Open Scope Z_scope.

(** ** The shortest decimal

    The float [m * 2 ^ e] is [4 * m] quarters of its last place; the interval
    that rounds to it is [lower m e .. upper m] quarters, with its ends when
    [m] is even. *)

Definition emin : Z := -1074.
Definition upper (m : Z) : Z := 4 * m + 2.
Definition lower (m e : Z) : Z :=
  if bool_decide (m = 2 ^ 52) && (emin <? e) then 4 * m - 1 else 4 * m - 2.

(** [q] quarters are compared with [x * 10 ^ s] as [q * num e s] with
    [x * den e s]. *)
Definition num (e s : Z) : Z := 2 ^ Z.max (e - 2) 0 * 10 ^ Z.max (- s) 0.
Definition den (e s : Z) : Z := 2 ^ Z.max (2 - e) 0 * 10 ^ Z.max s 0.

(** The float has [k] digits before the point: [10 ^ (k-1) <= m * 2 ^ e < 10 ^ k]. *)
Definition has_magnitude (m e k : Z) : bool :=
  (den e (k - 1) <=? 4 * m * num e (k - 1)) && (4 * m * num e k <? den e k).
Definition magnitudes : list Z := (λ i, Z.of_nat i - 330) <$> seq 0 650.
(** An estimate is tried first. *)
Definition magnitude (m e : Z) : option Z :=
  let g := (Z.log2 m + e) * 30103 / 100000 in
  List.find (has_magnitude m e) ([g; g + 1; g + 2] ++ magnitudes).

(** [x * 10 ^ s] lies in the interval. *)
Definition rounds (m e s x : Z) : bool :=
  if Z.even m then (lower m e * num e s <=? x * den e s) && (x * den e s <=? upper m * num e s)
  else (lower m e * num e s <? x * den e s) && (x * den e s <? upper m * num e s).

(** The decimal with last digit at [10 ^ s], of the two next to the float. *)
Definition shortest_at (m e s : Z) : option Z :=
  let v := 4 * m * num e s in
  let q := v / den e s in
  let r := v mod den e s in
  if r =? 0 then Some q
  else match rounds m e s q, rounds m e s (q + 1) with
  | true, true =>
      Some (if 2 * r <? den e s then q else if den e s <? 2 * r then q + 1
            else if Z.even q then q else q + 1)
  | true, false => Some q
  | false, true => Some (q + 1)
  | false, false => None
  end.

(** The digits, their number, and how many are before the point. *)
Record decimal := { dec_value : Z; dec_count : nat; dec_point : Z }.

Fixpoint shortest_from (m e k : Z) (n : nat) (todo : nat) : option decimal :=
  match todo with
  | O => None
  | S todo =>
      match shortest_at m e (k - Z.of_nat n) with
      | Some x =>
          Some (if bool_decide (x = 10 ^ Z.of_nat n)
                then {| dec_value := 1; dec_count := 1; dec_point := k + 1 |}
                else {| dec_value := x; dec_count := n; dec_point := k |})
      | None => shortest_from m e k (S n) todo
      end
  end.

Definition shortest (m e : Z) : option decimal := k ← magnitude m e; shortest_from m e k 1 17.

(** ** The text *)

Definition dec_digits (d : decimal) : list byte := GoRfc3339.digits (dec_count d) (dec_value d).
Definition zeros (n : Z) : list byte := replicate (Z.to_nat n) x30.

(** [%f] with as many decimals as it takes. *)
Definition format_f (d : decimal) : list byte :=
  let ds := dec_digits d in
  let p := dec_point d in
  let n := Z.of_nat (dec_count d) in
  (if 0 <? p then take (Z.to_nat p) ds ++ zeros (p - n) else [x30]) ++
  (if p <? n then x2e :: zeros (- p) ++ drop (Z.to_nat p) ds else []).

(** [%e], with the exponent cleaned up. *)
Definition format_e (d : decimal) : list byte :=
  let exp := dec_point d - 1 in
  take 1 (dec_digits d) ++
  (if bool_decide (dec_count d = 1%nat) then [] else x2e :: drop 1 (dec_digits d)) ++
  x65 :: (if exp <? 0 then x2d else x2b) :: bytes_of (Itoa (Z.abs exp)).

(** Below 1e-6 or from 1e21 on. *)
Definition exponent_form (m e : Z) : bool :=
  (4 * m * num e (-6) <? den e (-6)) || (den e 21 <=? 4 * m * num e 21).

(** What [floatEncoder] writes; [None] for infinities and NaN. *)
Definition float_text (f : spec_float) : option (list byte) :=
  match f with
  | S754_zero s => Some ((if s then [x2d] else []) ++ [x30])
  | S754_finite s m e =>
      d ← shortest (Zpos m) e;
      Some ((if s then [x2d] else []) ++ if exponent_form (Zpos m) e then format_e d else format_f d)
  | _ => None
  end.

Example float_text_ex :
  string_of <$> float_text (Fdiv (Float64 1) (Float64 3)) = Some "0.3333333333333333"%string ∧
  string_of <$> float_text Fone = Some "1"%string ∧
  string_of <$> float_text (Fdiv (Float64 7) (Float64 8)) = Some "0.875"%string ∧
  string_of <$> float_text (Fdiv (Float64 25) (Float64 100000000)) = Some "2.5e-7"%string ∧
  string_of <$> float_text (Fdiv (Float64 2) (Float64 3)) = Some "0.6666666666666666"%string ∧
  string_of <$> float_text (Float64 1234567890123456789) = Some "1234567890123456800"%string ∧
  string_of <$> float_text (S754_finite false 1 (-1074)) = Some "5e-324"%string ∧
  string_of <$> float_text (S754_finite false 9007199254740991 971) = Some "1.7976931348623157e+308"%string.
Proof. split_and!; vm_compute; reflexivity. Qed.

(** ** Magnitudes *)

Lemma num_pos e s : 0 < num e s.
Proof. unfold num. apply Z.mul_pos_pos; apply Z.pow_pos_nonneg; lia. Qed.
Lemma den_pos e s : 0 < den e s.
Proof. unfold den. apply Z.mul_pos_pos; apply Z.pow_pos_nonneg; lia. Qed.

(** Moving the point. *)
Lemma scale_shift e s j : 0 ≤ j → den e (s + j) * num e s = 10 ^ j * den e s * num e (s + j).
Proof.
  intros Hj. unfold num, den.
  assert (10 ^ Z.max (s + j) 0 * 10 ^ Z.max (- s) 0 = 10 ^ j * 10 ^ Z.max s 0 * 10 ^ Z.max (- (s + j)) 0) as H10.
  { rewrite <-!Z.pow_add_r by lia. f_equal. lia. }
  set (a := 2 ^ Z.max (2 - e) 0). set (b := 2 ^ Z.max (e - 2) 0).
  transitivity (a * b * (10 ^ Z.max (s + j) 0 * 10 ^ Z.max (- s) 0)); [ring|]. rewrite H10. ring.
Qed.

Lemma magnitude_bounds m e k n : has_magnitude m e k = true → 1 ≤ n →
  10 ^ (n - 1) * den e (k - n) ≤ 4 * m * num e (k - n) < 10 ^ n * den e (k - n).
Proof.
  intros [Hlo%Z.leb_le Hhi%Z.ltb_lt]%andb_true_iff Hn.
  pose proof (scale_shift e (k - n) (n - 1) ltac:(lia)) as H1.
  pose proof (scale_shift e (k - n) n ltac:(lia)) as H2.
  replace (k - n + (n - 1)) with (k - 1) in H1 by lia. replace (k - n + n) with k in H2 by lia.
  pose proof (num_pos e (k - 1)). pose proof (num_pos e k). pose proof (num_pos e (k - n)).
  split.
  - apply (Z.mul_le_mono_pos_r _ _ (num e (k - 1))); [done|]. rewrite <-H1.
    replace (4 * m * num e (k - n) * num e (k - 1)) with (4 * m * num e (k - 1) * num e (k - n)) by ring.
    by apply Z.mul_le_mono_pos_r.
  - apply (Z.mul_lt_mono_pos_r (num e k)); [done|]. rewrite <-H2.
    replace (4 * m * num e (k - n) * num e k) with (4 * m * num e k * num e (k - n)) by ring.
    by apply Z.mul_lt_mono_pos_r.
Qed.

(** A property that fails at [a] and holds at [b] begins to hold in between. *)
Lemma first_holds (P : Z → bool) a n : P a = false → P (a + Z.of_nat n) = true →
  ∃ k, a < k ≤ a + Z.of_nat n ∧ P (k - 1) = false ∧ P k = true.
Proof.
  intros Ha. induction n as [|n IH]; intros Hb; [rewrite Z.add_0_r in Hb; congruence|].
  destruct (P (a + Z.of_nat n)) eqn:Hn.
  - destruct (IH eq_refl) as (k & Hk & Hp). exists k. split; [lia|done].
  - exists (a + Z.of_nat (S n)). split; [lia|]. split; [|done]. rewrite <-Hn. f_equal. lia.
Qed.

Lemma smallest_power : 2 ^ 1076 ≤ 10 ^ 331.
Proof. apply Z.leb_le. vm_compute. reflexivity. Qed.
Lemma largest_power : 2 ^ 1024 < 10 ^ 319.
Proof. apply Z.ltb_lt. vm_compute. reflexivity. Qed.

Lemma below_all m e : finite_float m e → den e (-331) ≤ 4 * m * num e (-331).
Proof.
  intros [Hm He]. unfold den, num. change (Z.max (-331) 0) with 0. change (Z.max (- -331) 0) with 331.
  pose proof smallest_power as Hp.
  assert (2 ^ Z.max (2 - e) 0 ≤ 2 ^ 1076) as Hle by (apply Z.pow_le_mono_r; lia).
  assert (0 < 2 ^ Z.max (e - 2) 0) as Hpos by (apply Z.pow_pos_nonneg; lia).
  assert (0 < 10 ^ 331) as H10 by (apply Z.pow_pos_nonneg; lia).
  revert Hp Hle Hpos H10. generalize (2 ^ Z.max (2 - e) 0), (2 ^ Z.max (e - 2) 0), (2 ^ 1076), (10 ^ 331).
  intros a b c t Hp Hle Hpos H10.
  assert (1 ≤ 4 * m * b) as H1 by (clear -Hm Hpos; nia).
  assert (t * 1 ≤ t * (4 * m * b)) by (apply Z.mul_le_mono_nonneg_l; lia). lia.
Qed.

Lemma above_all m e : finite_float m e → 4 * m * num e 319 < den e 319.
Proof.
  intros [Hm He]. unfold den, num. change (Z.max 319 0) with 319. change (Z.max (- (319)) 0) with 0.
  pose proof largest_power as Hp.
  assert (4 * m * 2 ^ Z.max (e - 2) 0 < 2 ^ 1024) as Hlt.
  { assert (2 ^ Z.max (e - 2) 0 ≤ 2 ^ 969) as Hle by (apply Z.pow_le_mono_r; lia).
    change (2 ^ 1024) with (4 * 2 ^ 53 * 2 ^ 969).
    assert (0 < 2 ^ Z.max (e - 2) 0) by (apply Z.pow_pos_nonneg; lia).
    generalize dependent (2 ^ Z.max (e - 2) 0). generalize (2 ^ 969). intros. clear Hp. nia. }
  assert (1 ≤ 2 ^ Z.max (2 - e) 0) by (apply (Z.pow_le_mono_r 2 0); lia).
  assert (0 < 10 ^ 319) as H10 by (apply Z.pow_pos_nonneg; lia).
  revert Hlt H Hp H10. generalize (2 ^ Z.max (e - 2) 0), (2 ^ Z.max (2 - e) 0), (2 ^ 1024), (10 ^ 319).
  intros a b c t Hlt H1 Hp H10. assert (1 * t ≤ b * t) by (apply Z.mul_le_mono_nonneg_r; lia). lia.
Qed.

Lemma magnitude_exists m e : finite_float m e → ∃ k, magnitude m e = Some k ∧ has_magnitude m e k = true.
Proof.
  intros Hf. unfold magnitude. destruct (List.find _ _) as [k|] eqn:Hk.
  { exists k. split; [done|]. by apply find_some in Hk as [_ Hk]. }
  exfalso. destruct (first_holds (λ k, 4 * m * num e k <? den e k) (-331) 650) as (k & Hk1 & Hp1 & Hp2).
  - apply Z.ltb_ge. by apply below_all.
  - apply Z.ltb_lt. by apply above_all.
  - assert (has_magnitude m e k = true) as Hh.
    { unfold has_magnitude. by rewrite Z.leb_antisym, Hp1, Hp2. }
    assert (has_magnitude m e k = false) as Hh'; [|congruence].
    apply (find_none _ _ Hk), in_app_iff. right. unfold magnitudes.
    apply list_elem_of_In, list_elem_of_fmap. exists (Z.to_nat (k + 330)). split; [lia|].
    apply elem_of_seq. lia.
Qed.

(** ** Seventeen digits *)

(** What is found lies in the interval. *)
Lemma shortest_at_rounds m e s x : 0 < m → shortest_at m e s = Some x → rounds m e s x = true.
Proof.
  intros Hm. unfold shortest_at. cbv zeta. destruct (Z.eqb_spec (4 * m * num e s mod den e s) 0) as [Hr|Hr].
  - intros [= <-]. pose proof (num_pos e s) as Hn.
    assert (4 * m * num e s / den e s * den e s = 4 * m * num e s) as Hq
      by (pose proof (Z.div_mod (4 * m * num e s) (den e s)); pose proof (den_pos e s); lia).
    assert (lower m e * num e s < 4 * m * num e s) as Hlo.
    { apply Z.mul_lt_mono_pos_r; [done|]. unfold lower. destruct (_ && _); lia. }
    assert (4 * m * num e s < upper m * num e s) as Hhi.
    { apply Z.mul_lt_mono_pos_r; [done|]. unfold upper. lia. }
    unfold rounds. rewrite Hq. destruct (Z.even m); apply andb_true_iff; split;
      first [apply Z.leb_le; lia|apply Z.ltb_lt; lia].
  - destruct (rounds m e s (4 * m * num e s / den e s)) eqn:H1,
      (rounds m e s (4 * m * num e s / den e s + 1)) eqn:H2; try (by intros [= <-]).
    destruct (_ <? _); [by intros [= <-]|]. destruct (_ <? _); [by intros [= <-]|].
    destruct (Z.even _); by intros [= <-].
Qed.

(** The nearer of the two neighbours of a float of 17 digits rounds to it. *)
Lemma seventeen m e s : finite_float m e →
  10 ^ 16 * den e s ≤ 4 * m * num e s → is_Some (shortest_at m e s).
Proof.
  intros [Hm _] H16. unfold shortest_at. cbv zeta.
  pose proof (num_pos e s) as Hn. pose proof (den_pos e s) as Hd.
  pose proof (Z.div_mod (4 * m * num e s) (den e s) ltac:(lia)) as Hv.
  pose proof (Z.mod_pos_bound (4 * m * num e s) (den e s) Hd) as Hr.
  set (q := 4 * m * num e s / den e s) in *. set (r := 4 * m * num e s mod den e s) in *.
  destruct (Z.eqb_spec r 0) as [|Hr0]; [by eexists|].
  assert (∀ x, lower m e * num e s < x * den e s → x * den e s < upper m * num e s →
    rounds m e s x = true) as Hin.
  { intros x H1 H2. unfold rounds. destruct (Z.even m); apply andb_true_iff; split;
      first [apply Z.leb_le; lia|apply Z.ltb_lt; lia]. }
  assert (10 ^ 16 = 10000000000000000) as H10 by reflexivity.
  assert (2 ^ 53 = 9007199254740992) as H53 by reflexivity. rewrite H10 in H16. rewrite H53 in Hm.
  destruct (Z.lt_ge_cases (2 * r) (den e s)) as [Hlt|Hge].
  - assert (rounds m e s q = true) as ->; [|destruct (rounds m e s (q + 1)); by eexists].
    apply Hin; [|unfold upper; nia].
    unfold lower. destruct (bool_decide_reflect (m = 2 ^ 52)) as [H52|]; simpl; [|nia].
    change (2 ^ 52) with 4503599627370496 in H52. destruct (emin <? e); nia.
  - assert (rounds m e s (q + 1) = true) as ->; [|destruct (rounds m e s q); by eexists].
    apply Hin; [|unfold upper; nia]. unfold lower. destruct (_ && _); nia.
Qed.

(** *** The decimal *)

(** [n] digits, the first of which is not zero. *)
Definition proper_decimal (d : decimal) : Prop :=
  (1 ≤ dec_count d)%nat ∧ 10 ^ (Z.of_nat (dec_count d) - 1) ≤ dec_value d < 10 ^ Z.of_nat (dec_count d).

Lemma shortest_at_range m e k n x : 1 ≤ n → has_magnitude m e k = true →
  shortest_at m e (k - n) = Some x → 10 ^ (n - 1) ≤ x ≤ 10 ^ n.
Proof.
  intros Hn Hk Hx. pose proof (magnitude_bounds m e k n Hk Hn) as [Hlo Hhi].
  pose proof (den_pos e (k - n)) as Hd. unfold shortest_at in Hx. cbv zeta in Hx.
  set (v := 4 * m * num e (k - n)) in *.
  assert (10 ^ (n - 1) ≤ v / den e (k - n)) by (apply Z.div_le_lower_bound; lia).
  assert (v / den e (k - n) < 10 ^ n) by (apply Z.div_lt_upper_bound; lia).
  assert (x = v / den e (k - n) ∨ x = v / den e (k - n) + 1) as [-> | ->]; [|lia|lia].
  revert Hx. repeat case_match; intros [= <-]; auto.
Qed.

Lemma shortest_from_Some m e k n todo : has_magnitude m e k = true → (1 ≤ n)%nat →
  (∃ j, (n ≤ j < n + todo)%nat ∧ is_Some (shortest_at m e (k - Z.of_nat j))) →
  ∃ d, shortest_from m e k n todo = Some d ∧ proper_decimal d.
Proof.
  intros Hk. revert n. induction todo as [|todo IH]; intros n Hn (j & Hj & Hs); [lia|].
  cbn [shortest_from]. destruct (shortest_at m e (k - Z.of_nat n)) as [x|] eqn:Hx.
  - pose proof (shortest_at_range m e k (Z.of_nat n) x ltac:(lia) Hk Hx).
    destruct (bool_decide_reflect (x = 10 ^ Z.of_nat n)); eexists; (split; [reflexivity|]);
      (split; simpl; [lia|]); [by vm_compute|lia].
  - apply IH; [lia|]. exists j. split; [|done]. destruct (decide (j = n)) as [->|]; [|lia].
    rewrite Hx in Hs. by destruct Hs.
Qed.

(** Seventeen digits suffice for every finite float. *)
Lemma shortest_exists m e : finite_float m e → ∃ d, shortest m e = Some d ∧ proper_decimal d.
Proof.
  intros Hf. unfold shortest. destruct (magnitude_exists m e Hf) as (k & -> & Hk). cbn [mbind option_bind].
  apply shortest_from_Some; [done|lia|]. exists 17%nat. split; [lia|]. apply seventeen; [done|].
  exact (proj1 (magnitude_bounds m e k 17 Hk ltac:(lia))).
Qed.

(** The decimal lies in the interval that rounds to the float, and no decimal
    with fewer digits after the same magnitude does. *)
Lemma shortest_from_spec m e k n todo d : 0 < m →
  shortest_from m e k n todo = Some d →
  ∃ j x, (n ≤ j < n + todo)%nat ∧ rounds m e (k - Z.of_nat j) x = true ∧
    (dec_value d = x ∧ dec_count d = j ∧ dec_point d = k ∨
     x = 10 ^ Z.of_nat j ∧ dec_value d = 1 ∧ dec_count d = 1%nat ∧ dec_point d = k + 1) ∧
    ∀ i, (n ≤ i < j)%nat → shortest_at m e (k - Z.of_nat i) = None.
Proof.
  intros Hm. revert n. induction todo as [|todo IH]; intros n; [done|]. cbn [shortest_from].
  destruct (shortest_at m e (k - Z.of_nat n)) as [x|] eqn:Hx.
  - intros Hd. exists n, x. split; [lia|]. split; [by apply shortest_at_rounds|].
    split; [|lia]. destruct (bool_decide_reflect (x = 10 ^ Z.of_nat n)); injection Hd as <-; auto.
  - intros Hd. apply IH in Hd as (j & x & Hj & Hr & Hd & Hnone). exists j, x.
    split; [lia|]. split; [done|]. split; [done|]. intros i Hi.
    destruct (decide (i = n)) as [->|]; [done|]. apply Hnone. lia.
Qed.

(** Nothing found means that nothing is there. *)
Lemma shortest_at_None m e s x : 0 < m → shortest_at m e s = None → rounds m e s x = false.
Proof.
  intros Hm Hn. destruct (rounds m e s x) eqn:Hx; [|done]. exfalso.
  pose proof (num_pos e s) as Hnum. pose proof (den_pos e s) as Hd.
  unfold shortest_at in Hn. cbv zeta in Hn.
  pose proof (Z.div_mod (4 * m * num e s) (den e s) ltac:(lia)) as Hv.
  pose proof (Z.mod_pos_bound (4 * m * num e s) (den e s) Hd) as Hr.
  set (q := 4 * m * num e s / den e s) in *. set (r := 4 * m * num e s mod den e s) in *.
  destruct (Z.eqb_spec r 0) as [|Hr0]; [done|].
  destruct (rounds m e s q) eqn:H1, (rounds m e s (q + 1)) eqn:H2; try discriminate.
  assert (lower m e * num e s < 4 * m * num e s) as Hlo.
  { apply Z.mul_lt_mono_pos_r; [done|]. unfold lower. destruct (_ && _); lia. }
  assert (4 * m * num e s < upper m * num e s) as Hhi.
  { apply Z.mul_lt_mono_pos_r; [done|]. unfold upper. lia. }
  assert (x ≤ q ∨ q + 1 ≤ x) as [Hle|Hge] by lia.
  - assert (x * den e s ≤ q * den e s) by (apply Z.mul_le_mono_nonneg_r; lia).
    unfold rounds in *. destruct (Z.even m); bool_simpl; nia.
  - assert ((q + 1) * den e s ≤ x * den e s) by (apply Z.mul_le_mono_nonneg_r; lia).
    unfold rounds in *. destruct (Z.even m); bool_simpl; nia.
Qed.

(** What is written for a float is read back as it: the decimal lies in the
    interval that rounds to it; and no number of fewer digits does. *)
Lemma shortest_spec m e : finite_float m e → ∃ d k j x,
  shortest m e = Some d ∧ proper_decimal d ∧ has_magnitude m e k = true ∧ (1 ≤ j ≤ 17)%nat ∧
  rounds m e (k - Z.of_nat j) x = true ∧
  (dec_value d = x ∧ dec_count d = j ∧ dec_point d = k ∨
   x = 10 ^ Z.of_nat j ∧ dec_value d = 1 ∧ dec_count d = 1%nat ∧ dec_point d = k + 1) ∧
  ∀ i y, (1 ≤ i < j)%nat → rounds m e (k - Z.of_nat i) y = false.
Proof.
  intros Hf. destruct (shortest_exists m e Hf) as (d & Hd & Hp).
  destruct (magnitude_exists m e Hf) as (k & Hk & Hmag). destruct Hf as [[Hm _] _].
  pose proof Hd as Hd'. unfold shortest in Hd'. rewrite Hk in Hd'. cbn [mbind option_bind] in Hd'.
  apply shortest_from_spec in Hd' as (j & x & Hj & Hr & Hx & Hnone); [|done].
  exists d, k, j, x. split_and!; try done; try lia.
  intros i y Hi. apply shortest_at_None; [done|]. by apply Hnone.
Qed.

(** ** The text is a number *)

Lemma number_run_app n n' a b : number_run n a = Some n' → number_run n (a ++ b) = number_run n' b.
Proof.
  revert n. induction a as [|x a IH]; intros n; [by intros [= ->]|].
  intros (n1 & H1 & H2)%bind_Some. cbn [app number_run]. rewrite H1. by apply IH.
Qed.

Lemma zeros_digits n : Forall (λ b, is_digit b = true) (zeros n).
Proof. unfold zeros. apply Forall_replicate. done. Qed.

(** The digits of a decimal: some, and not a zero first. *)
Lemma dec_digits_head d : proper_decimal d → ∃ b bs,
  dec_digits d = b :: bs ∧ number_start b = Some Num1 ∧
  Forall (λ b, is_digit b = true) (b :: bs) ∧ length (b :: bs) = dec_count d.
Proof.
  intros [Hn Hx]. unfold dec_digits.
  assert (0 ≤ dec_value d) as H0.
  { assert (0 < 10 ^ (Z.of_nat (dec_count d) - 1)) by (apply Z.pow_pos_nonneg; lia). lia. }
  pose proof (digits_are (dec_count d) (dec_value d) H0) as Hd.
  pose proof (length_digits (dec_count d) (dec_value d)) as Hl.
  pose proof (value_digits (dec_count d) (dec_value d) ltac:(lia)) as Hv.
  destruct (GoRfc3339.digits _ _) as [|b bs]; [simpl in Hl; lia|].
  exists b, bs. split; [done|]. split; [|done].
  apply Forall_cons in Hd as [Hb Hbs].
  assert (b ≠ x30) as Hne.
  { intros ->. change (x30 :: bs) with ([x30] ++ bs) in Hv. rewrite value_app, value_one in Hv.
    pose proof (value_range bs (is_digits_forallb _ Hbs)) as Hr.
    replace (Z.of_nat (length bs)) with (Z.of_nat (dec_count d) - 1) in Hr by (simpl in Hl; lia).
    change (uint8 x30 - 48) with 0 in Hv. lia. }
  unfold number_start. rewrite (bool_decide_false (b = x2d)) by (by intros ->).
  by rewrite (bool_decide_false (b = x30)), Hb.
Qed.

Lemma run_digits n bs : n = Num1 ∨ n = NumDot0 ∨ n = NumE0 → Forall (λ b, is_digit b = true) bs →
  number_run n bs = Some n.
Proof. intros Hn. apply number_run_digits; by destruct Hn as [->|[->| ->]]. Qed.

(** Decimals behind the point, or an exponent. *)
Lemma run_some_digits n n' bs : (n = NumDot ∧ n' = NumDot0) ∨ (n = NumESign ∧ n' = NumE0) →
  bs ≠ [] → Forall (λ b, is_digit b = true) bs → number_run n bs = Some n'.
Proof.
  intros Hn Hne Hbs. destruct Hbs as [|b bs Hb Hbs]; [done|]. cbn [number_run].
  destruct Hn as [[-> ->]|[-> ->]]; cbn [number_step]; rewrite Hb; cbn [mbind option_bind];
    apply run_digits; auto.
Qed.

Definition ends_number (n : number_state) (bs : list byte) : Prop :=
  ∃ n', number_run n bs = Some n' ∧ number_ends n' = true.

Lemma format_f_text d : proper_decimal d → ∃ b bs n,
  format_f d = b :: bs ∧ number_start b = Some n ∧ (n = Num0 ∨ n = Num1) ∧ ends_number n bs.
Proof.
  intros Hd. destruct (dec_digits_head d Hd) as (b & bs & Hds & Hb & Hdig & Hl).
  unfold format_f. rewrite Hds. set (p := dec_point d). rewrite <-Hl.
  destruct (Z.ltb_spec 0 p) as [Hp|Hp].
  - assert (take (Z.to_nat p) (b :: bs) = b :: take (Z.to_nat p - 1) bs) as ->
      by (destruct (Z.to_nat p) eqn:Hn; [lia|]; simpl; by rewrite Nat.sub_0_r).
    exists b, ((take (Z.to_nat p - 1) bs ++ zeros (p - Z.of_nat (length (b :: bs)))) ++
      (if p <? Z.of_nat (length (b :: bs)) then x2e :: zeros (- p) ++ drop (Z.to_nat p) (b :: bs) else [])), Num1.
    split; [done|]. split; [done|]. split; [by right|]. unfold ends_number.
    apply Forall_cons in Hdig as [Hdb Hdbs].
    rewrite (number_run_app Num1 Num1); [|apply run_digits; [by left|];
      apply Forall_app; split; [by apply Forall_take|apply zeros_digits]].
    destruct (Z.ltb_spec p (Z.of_nat (length (b :: bs)))) as [Hlt|]; [|by exists Num1].
    exists NumDot0. split; [|done]. cbn [number_run number_step]. cbn [mbind option_bind].
    apply run_some_digits; [by left|..].
    + intros Hnil%app_nil. destruct Hnil as [_ Hnil]. apply (f_equal length) in Hnil.
      rewrite length_drop in Hnil. simpl in *. lia.
    + apply Forall_app. split; [apply zeros_digits|]. apply Forall_drop. by constructor.
  - exists x30, (if p <? Z.of_nat (length (b :: bs)) then x2e :: zeros (- p) ++ drop (Z.to_nat p) (b :: bs) else []), Num0.
    split; [done|]. split; [done|]. split; [by left|]. unfold ends_number.
    destruct (Z.ltb_spec p (Z.of_nat (length (b :: bs)))) as [Hlt|]; [|simpl in *; lia].
    exists NumDot0. split; [|done]. cbn [number_run number_step]. cbn [mbind option_bind].
    replace (Z.to_nat p) with 0%nat by lia. apply run_some_digits; [by left|..].
    + intros Hnil%app_nil. by destruct Hnil.
    + apply Forall_app. split; [apply zeros_digits|done].
Qed.

Lemma Itoa_digits x : 0 ≤ x → bytes_of (Itoa x) ≠ [] ∧ Forall (λ b, is_digit b = true) (bytes_of (Itoa x)).
Proof.
  intros Hx. unfold Itoa. destruct (Z.to_int x) as [u|u] eqn:Hu.
  - split; [by destruct u|]. change (NilZero.string_of_int (Decimal.Pos u)) with (NilZero.string_of_uint u).
    unfold NilZero.string_of_uint. destruct u; [by repeat constructor|..]; apply is_digit_uint.
  - exfalso. destruct x; [discriminate|discriminate|lia].
Qed.

Lemma format_e_text d : proper_decimal d → ∃ b bs,
  format_e d = b :: bs ∧ number_start b = Some Num1 ∧ ends_number Num1 bs.
Proof.
  intros Hd. destruct (dec_digits_head d Hd) as (b & bs & Hds & Hb & Hdig & Hl).
  unfold format_e. rewrite Hds. change (take 1 (b :: bs)) with [b]. change (drop 1 (b :: bs)) with bs. cbn [app].
  exists b. eexists. split; [reflexivity|]. split; [done|]. unfold ends_number.
  apply Forall_cons in Hdig as [Hdb Hdbs].
  destruct (Itoa_digits (Z.abs (dec_point d - 1)) ltac:(lia)) as [Hne Hexp].
  assert (∃ n, number_run Num1 (if bool_decide (dec_count d = 1%nat) then [] else x2e :: bs) = Some n ∧
    number_step n x65 = Some NumE) as (n & Hn & Hs).
  { destruct (bool_decide_reflect (dec_count d = 1%nat)) as [|H1]; [by exists Num1|].
    exists NumDot0. split; [|done]. cbn [number_run number_step]. cbn [mbind option_bind].
    apply run_some_digits; [by left| |done]. intros ->. simpl in Hl. lia. }
  rewrite (number_run_app _ _ _ _ Hn). exists NumE0. split; [|done].
  cbn [number_run]. rewrite Hs. cbn [mbind option_bind].
  assert (number_step NumE (if dec_point d - 1 <? 0 then x2d else x2b) = Some NumESign) as ->
    by by destruct (_ <? _).
  cbn [mbind option_bind]. apply run_some_digits; [by right|done..].
Qed.

Lemma signed_number s b bs n : number_start b = Some n → n = Num0 ∨ n = Num1 → ends_number n bs →
  number_text ((if s : bool then [x2d] else []) ++ b :: bs).
Proof.
  intros Hb Hn (n' & Hr & He). destruct s; [|by exists b, bs, n, n'].
  exists x2d, (b :: bs), NumNeg, n'. split_and!; [done|done| |done].
  assert (number_step NumNeg b = Some n) as Hs; [|cbn [number_run]; by rewrite Hs].
  revert Hb. unfold number_start. cbn [number_step].
  destruct (bool_decide_reflect (b = x2d)) as [->|]; [destruct Hn as [-> | ->]; discriminate|].
  destruct (bool_decide (b = x30)); [done|]. by destruct (is_digit b).
Qed.

Lemma shortest_from_proper m e k n todo d : has_magnitude m e k = true → (1 ≤ n)%nat →
  shortest_from m e k n todo = Some d → proper_decimal d.
Proof.
  intros Hk. revert n. induction todo as [|todo IH]; intros n Hn; [done|]. cbn [shortest_from].
  destruct (shortest_at m e (k - Z.of_nat n)) as [x|] eqn:Hx; [|apply IH; lia].
  pose proof (shortest_at_range m e k (Z.of_nat n) x ltac:(lia) Hk Hx).
  destruct (bool_decide_reflect (x = 10 ^ Z.of_nat n)); intros [= <-]; (split; simpl; [lia|]);
    [by vm_compute|lia].
Qed.

Lemma shortest_proper m e d : shortest m e = Some d → proper_decimal d.
Proof.
  unfold shortest, magnitude. destruct (List.find _ _) as [k|] eqn:Hk; [|done].
  apply find_some in Hk as [_ Hk]. apply shortest_from_proper; [done|lia].
Qed.

(** What is written is a number. *)
Lemma float_text_Some f text : float_text f = Some text → number_text text.
Proof.
  destruct f as [s|s| |s m e]; try done.
  - intros [= <-]. apply (signed_number s x30 [] Num0); [done|by left|by exists Num0].
  - unfold float_text. destruct (shortest _ _) as [d|] eqn:Hd; [|done]. apply shortest_proper in Hd as Hp.
    intros [= <-]. destruct (exponent_form _ _).
    + destruct (format_e_text d Hp) as (b & bs & -> & Hb & He). eapply signed_number; eauto.
    + destruct (format_f_text d Hp) as (b & bs & n & -> & Hb & Hn & He). eapply signed_number; eauto.
Qed.

(** Every finite float has a text. *)
Lemma float_text_number f : finite f → ∃ text, float_text f = Some text ∧ number_text text.
Proof.
  intros Hf. assert (∃ text, float_text f = Some text) as [text Ht].
  { destruct f as [s|s| |s m e]; try done; [by eexists|].
    destruct (shortest_exists _ _ Hf) as (d & Hd & _). unfold float_text. rewrite Hd. by eexists. }
  exists text. split; [done|]. by eapply float_text_Some.
Qed.
