(* ===== verification/GoDuration.v ===== *)
(** * [time.ParseDuration]

    The texts of durations ([300ms], [-1.5h], [2h45m]): an optional sign and a
    sequence of decimal numbers, each with a unit.  Whole numbers are computed
    in [uint64], fractions in [float64] ([leadingFraction]).

    A duration that is parsed is an [int64] ([ParseDuration_int64]); a whole
    number of a unit is parsed as it is meant ([ParseDuration_unit]), so every
    duration has a text ([ParseDuration_Itoa]). *)

From Stdlib Require Import DecimalString DecimalZ.
From S2P Require Export GoTime GoStrconv GoRfc3339 GoFloat.

Local Open Scope Z_scope.

(** ** Numbers *)

Definition digit_value (c : byte) : Z := uint8 c - 48.

(** [leadingInt]: the digits in front; [None] when they say more than 2^63. *)
Fixpoint leadingInt (x : Z) (s : list byte) : option (Z * list byte) :=
  match s with
  | [] => Some (x, [])
  | c :: rest =>
      if is_digit c then
        if 2 ^ 63 / 10 <? x then None
        else let y := x * 10 + digit_value c in
          if 2 ^ 63 <? y then None else leadingInt y rest
      else Some (x, s)
  end.

(** [leadingFraction]: digits that no longer fit are dropped. *)
Fixpoint leadingFraction (x : Z) (scale : spec_float) (overflow : bool) (s : list byte) :
    Z * spec_float * list byte :=
  match s with
  | [] => (x, scale, [])
  | c :: rest =>
      if is_digit c then
        if overflow || ((2 ^ 63 - 1) / 10 <? x) then leadingFraction x scale true rest
        else let y := x * 10 + digit_value c in
          if 2 ^ 63 <? y then leadingFraction x scale true rest
          else leadingFraction y (Fmul scale (Float64 10)) false rest
      else (x, scale, s)
  end.

(** ** Units *)

Definition Microsecond : Z := 1000.
Definition Millisecond : Z := 1000 * Microsecond.
Definition Hour : Z := 60 * Minute.

Definition unitMap : list (list byte * Z) := [
  (bytes_of "ns", 1); (bytes_of "us", Microsecond);
  ([xc2; xb5; x73], Microsecond);               (* U+00B5, the micro sign *)
  ([xce; xbc; x73], Microsecond);               (* U+03BC, the Greek letter *)
  (bytes_of "ms", Millisecond); (bytes_of "s", Second);
  (bytes_of "m", Minute); (bytes_of "h", Hour)].

Definition find_unit (u : list byte) : option Z :=
  snd <$> List.find (λ p, bool_decide (p.1 = u)) unitMap.

Definition dot : byte := x2e.

(** The letters up to a dot or a digit, and the rest. *)
Fixpoint unit_text (s : list byte) : list byte * list byte :=
  match s with
  | [] => ([], [])
  | c :: rest =>
      if bool_decide (c = dot) || is_digit c then ([], s)
      else let '(u, rest) := unit_text rest in (c :: u, rest)
  end.

(** ** The loop *)

(** One number with its unit, in nanoseconds, and the rest. *)
Definition parse_part (s : list byte) : option (Z * list byte) :=
  '(v, s1) ← leadingInt 0 s;
  let pre := bool_decide (length s1 ≠ length s) in
  let '(f, scale, s2, post) :=
    match s1 with
    | c :: rest =>
        if bool_decide (c = dot) then
          let '(f, scale, s2) := leadingFraction 0 Fone false rest in
          (f, scale, s2, bool_decide (length s2 ≠ length rest))
        else (0, Fone, s1, false)
    | [] => (0, Fone, s1, false)
    end in
  if negb (pre || post) then None
  else
    let '(u, s3) := unit_text s2 in
    unit ← find_unit u;
    if 2 ^ 63 / unit <? v then None
    else
      let v := v * unit in
      if 0 <? f then
        let v := v + Trunc (Fmul (Float64 f) (Fdiv (Float64 unit) scale)) in
        if 2 ^ 63 <? v then None else Some (v, s3)
      else Some (v, s3).

(** [for s != ""]; the sum is a [uint64].  Every round consumes a byte, so the
    length of the text is fuel enough ([parse_parts_fuel]). *)
Fixpoint parse_parts (fuel : nat) (d : Z) (s : list byte) : option Z :=
  match s, fuel with
  | [], _ => Some d
  | _, O => None
  | _, S fuel =>
      '(v, rest) ← parse_part s;
      let d := (d + v) mod 2 ^ 64 in
      if 2 ^ 63 <? d then None else parse_parts fuel d rest
  end.

Definition cut_sign (s : list byte) : bool * list byte :=
  match s with
  | c :: rest =>
      if bool_decide (c = x2d) then (true, rest)
      else if bool_decide (c = x2b) then (false, rest) else (false, s)
  | [] => (false, s)
  end.

(** [None] is an error. *)
Definition ParseDuration (s : string) : option Z :=
  let '(neg, bs) := cut_sign (bytes_of s) in
  if bool_decide (bs = [x30]) then Some 0
  else if bool_decide (bs = []) then None
  else
    d ← parse_parts (length bs) 0 bs;
    if neg then Some (wrap64 (- wrap64 d))
    else if 2 ^ 63 - 1 <? d then None else Some d.

Example parsed_durations : ParseDuration <$> ["300ms"; "-1.5h"; "2h45m"; "0"; "+5s"; ".5s"; "1"; "s"; ""; "1d"]%string =
  [Some 300000000; Some (-5400 * Second); Some (9900 * Second); Some 0; Some (5 * Second);
   Some 500000000; None; None; None; None].
Proof. vm_compute. reflexivity. Qed.

Example parsed_limits : ParseDuration <$> ["9223372036854775807ns"; "-9223372036854775808ns";
    "9223372036854775808ns"; "2562047h47m16.854775807s"; "3000000h"]%string =
  [Some int64_max; Some int64_min; None; Some int64_max; None].
Proof. vm_compute. reflexivity. Qed.

(** ** Digits *)

Lemma is_digit_value c : is_digit c = true → 0 ≤ digit_value c ≤ 9.
Proof. unfold is_digit, digit_value. lia. Qed.

Definition number_of (a : Z) (bs : list byte) : Z := foldl (λ x c, x * 10 + digit_value c) a bs.

Lemma number_cons a c s v : digit_value (Ascii.byte_of_ascii c) = v →
  number_of a (bytes_of (String c s)) = number_of (a * 10 + v) (bytes_of s).
Proof. by intros <-. Qed.

Lemma number_of_acc d a : number_of (Zpos a) (bytes_of (NilEmpty.string_of_uint d)) = Zpos (Pos.of_uint_acc d a).
Proof.
  revert a. induction d as [|d IH|d IH|d IH|d IH|d IH|d IH|d IH|d IH|d IH|d IH]; intros a; [done|..];
    cbn [Pos.of_uint_acc NilEmpty.string_of_uint]; rewrite <-IH; erewrite number_cons
      by (match goal with |- ?x = _ => let v := eval vm_compute in x in exact (eq_refl : x = v) end);
    f_equal; lia.
Qed.

Lemma number_of_uint d : number_of 0 (bytes_of (NilEmpty.string_of_uint d)) = Z.of_uint d.
Proof.
  unfold Z.of_uint. induction d as [|d IH|d IH|d IH|d IH|d IH|d IH|d IH|d IH|d IH|d IH]; [done|exact IH|..];
    cbn [Pos.of_uint Z.of_N]; rewrite <-number_of_acc; reflexivity.
Qed.

Lemma digits_of_uint d : Forall (λ c, is_digit c = true) (bytes_of (NilEmpty.string_of_uint d)).
Proof. induction d; constructor; done. Qed.

(** The text of a number that is not negative: digits, with its value. *)
Lemma Itoa_number n : 0 ≤ n →
  bytes_of (Itoa n) ≠ [] ∧ Forall (λ c, is_digit c = true) (bytes_of (Itoa n)) ∧
  number_of 0 (bytes_of (Itoa n)) = n.
Proof.
  intros Hn. unfold Itoa. pose proof (DecimalZ.of_to n) as Hof. destruct (Z.to_int n) as [d|d] eqn:Hd.
  - change (NilZero.string_of_int (Decimal.Pos d)) with (NilZero.string_of_uint d).
    change (Z.of_int (Decimal.Pos d)) with (Z.of_uint d) in Hof. rewrite <-number_of_uint in Hof.
    unfold NilZero.string_of_uint. destruct d;
      [split; [done|]; split; [by repeat constructor|exact Hof]
      |split; [done|]; split; [apply digits_of_uint|exact Hof]..].
  - exfalso. destruct n; [discriminate|discriminate|lia].
Qed.

Lemma number_of_grows a bs : 0 ≤ a → Forall (λ c, is_digit c = true) bs → a ≤ number_of a bs.
Proof.
  intros Ha Hbs. revert a Ha. induction Hbs as [|c bs Hc _ IH]; intros a Ha; [done|].
  apply is_digit_value in Hc. unfold number_of. simpl. etrans; [|apply IH]; lia.
Qed.

Lemma leadingInt_digits a bs rest : 0 ≤ a → Forall (λ c, is_digit c = true) bs →
  number_of a bs ≤ 2 ^ 63 → (∀ c rest', rest = c :: rest' → is_digit c = false) →
  leadingInt a (bs ++ rest) = Some (number_of a bs, rest).
Proof.
  intros Ha Hbs. revert a Ha. induction Hbs as [|c bs Hc Hbs IH]; intros a Ha Hle Hrest.
  - cbn [app]. destruct rest as [|c rest]; [done|]. cbn [leadingInt]. by rewrite (Hrest c rest).
  - cbn [app leadingInt]. rewrite Hc. apply is_digit_value in Hc.
    unfold number_of in *. cbn [foldl] in *.
    pose proof (number_of_grows (a * 10 + digit_value c) bs ltac:(lia) Hbs) as Hg. unfold number_of in Hg.
    destruct (Z.ltb_spec (2 ^ 63 / 10) a) as [Hlt|_].
    + exfalso. change (2 ^ 63 / 10) with 922337203685477580 in Hlt. lia.
    + destruct (Z.ltb_spec (2 ^ 63) (a * 10 + digit_value c)); [lia|]. apply IH; [lia|done|done].
Qed.

(** ** Properties *)

Lemma bytes_of_app s1 s2 : bytes_of (s1 +:+ s2) = bytes_of s1 ++ bytes_of s2.
Proof. induction s1 as [|c s1 IH]; [done|]. change (bytes_of (String c (s1 +:+ s2)) = bytes_of (String c s1) ++ bytes_of s2). cbn. by f_equal. Qed.

Lemma unit_text_all u : Forall (λ c, bool_decide (c = dot) || is_digit c = false) u → unit_text u = (u, []).
Proof.
  induction 1 as [|c u Hc _ IH]; [done|]. cbn [unit_text]. by rewrite Hc, IH.
Qed.

Lemma find_unit_known u unit : find_unit u = Some unit →
  (u ≠ [] ∧ Forall (λ c, bool_decide (c = dot) || is_digit c = false) u) ∧ 0 < unit.
Proof.
  unfold find_unit. intros ([u' v] & Hf & ->)%fmap_Some. apply find_some in Hf as [Hin Hu].
  apply bool_decide_eq_true in Hu. simpl in Hu |- *. subst u'.
  split; repeat (destruct Hin as [[= <- <-]|Hin]; [split; try done; repeat constructor|]); done || by destruct Hin.
Qed.

Lemma parse_part_unit n u unit : 0 ≤ n → find_unit u = Some unit → n * unit ≤ 2 ^ 63 →
  parse_part (bytes_of (Itoa n) ++ u) = Some (n * unit, []).
Proof.
  intros Hn Hu Hle. destruct (find_unit_known u unit Hu) as [[Hne Hus] Hpos].
  destruct (Itoa_number n Hn) as (Hne' & Hds & Hval). destruct u as [|c u]; [done|].
  pose proof (Forall_inv Hus) as [Hc Hd]%orb_false_iff.
  assert (number_of 0 (bytes_of (Itoa n)) ≤ 2 ^ 63) as Hmax by (rewrite Hval; nia).
  unfold parse_part. rewrite leadingInt_digits; [|done|done|done|by intros ? ? [= <- _]].
  rewrite Hval. cbn [mbind option_bind]. rewrite Hc.
  rewrite (bool_decide_true (length (c :: u) ≠ _)).
  2: { rewrite length_app. destruct (bytes_of (Itoa n)); [done|simpl; lia]. }
  cbn [orb negb]. rewrite (unit_text_all (c :: u)) by done. rewrite Hu. cbn [mbind option_bind].
  destruct (Z.ltb_spec (2 ^ 63 / unit) n) as [Hlt|_]; [|done].
  exfalso. apply Z.lt_nge in Hlt. apply Hlt, Z.div_le_lower_bound; lia.
Qed.

Lemma Itoa_neg n : n < 0 → bytes_of (Itoa n) = x2d :: bytes_of (Itoa (- n)).
Proof. by destruct n. Qed.

Lemma cut_sign_digits n u : 0 ≤ n → cut_sign (bytes_of (Itoa n) ++ u) = (false, bytes_of (Itoa n) ++ u).
Proof.
  intros Hn. destruct (Itoa_number n Hn) as (Hne & Hds & _).
  destruct (bytes_of (Itoa n)) as [|c bs]; [done|]. apply Forall_inv in Hds. cbn [app cut_sign].
  rewrite !bool_decide_false; [done|by intros ->..].
Qed.

(** A whole number of a unit. *)
Lemma ParseDuration_unit n u unit : find_unit (bytes_of u) = Some unit → is_int64 (n * unit) →
  ParseDuration (Itoa n +:+ u) = Some (n * unit).
Proof.
  intros Hu Hr. pose proof (find_unit_known _ _ Hu) as [[Hne _] Hpos].
  unfold is_int64, int64_min, int64_max in Hr.
  assert (∀ k, 0 ≤ k → k * unit ≤ 2 ^ 63 → let bs := bytes_of (Itoa k) ++ bytes_of u in
    bs ≠ [x30] ∧ bs ≠ [] ∧ parse_parts (length bs) 0 bs = Some (k * unit)) as Hparts.
  { intros k Hk Hle bs. destruct (Itoa_number k Hk) as (Hk1 & _ & _).
    destruct (bytes_of (Itoa k)) as [|c cs] eqn:Hcs; [done|]. unfold bs. split; [|split; [done|]].
    - intros [= _ Hnil]. apply app_eq_nil in Hnil. by destruct Hnil.
    - cbn [app length parse_parts]. change (c :: cs ++ bytes_of u) with ((c :: cs) ++ bytes_of u).
      rewrite <-Hcs, (parse_part_unit k _ unit) by done. cbn [mbind option_bind].
      rewrite Z.mod_small by lia. destruct (Z.ltb_spec (2 ^ 63) (0 + k * unit)); [lia|].
      rewrite Z.add_0_l. by destruct (length _). }
  assert (bytes_of (Itoa n +:+ u) = bytes_of (Itoa n) ++ bytes_of u) as Hb by apply bytes_of_app.
  unfold ParseDuration. rewrite Hb. destruct (Z.ltb_spec n 0) as [Hn|Hn].
  - rewrite Itoa_neg by done. cbn [app cut_sign]. rewrite (bool_decide_true (x2d = x2d)) by done.
    destruct (Hparts (- n) ltac:(lia) ltac:(lia)) as (H1 & H2 & ->).
    rewrite !bool_decide_false by done. cbn [mbind option_bind].
    f_equal. unfold wrap64. destruct (decide (n * unit = - 2 ^ 63)) as [He|He].
    + replace (- n * unit) with (2 ^ 63) by lia. rewrite He. reflexivity.
    + rewrite !Z.mod_small; lia || (rewrite !Z.mod_small; lia).
  - rewrite cut_sign_digits by done.
    destruct (Hparts n ltac:(lia) ltac:(lia)) as (H1 & H2 & ->).
    rewrite !bool_decide_false by done. cbn [mbind option_bind].
    destruct (Z.ltb_spec (2 ^ 63 - 1) (n * unit)); [lia|done].
Qed.

(** A text of every duration. *)
Lemma ParseDuration_Itoa d : is_int64 d → ParseDuration (Itoa d +:+ "ns") = Some d.
Proof.
  intros Hd. rewrite <-(Z.mul_1_r d) at 2. apply ParseDuration_unit; [done|]. by rewrite Z.mul_1_r.
Qed.

Lemma parse_parts_range fuel d s x : 0 ≤ d ≤ 2 ^ 63 → parse_parts fuel d s = Some x → 0 ≤ x ≤ 2 ^ 63.
Proof.
  revert d s. induction fuel as [|fuel IH]; intros d s Hd; destruct s as [|c s]; cbn [parse_parts];
    [intros [= <-]; done|done|intros [= <-]; done|].
  intros ([v rest] & _ & Hx)%bind_Some. destruct (Z.ltb_spec (2 ^ 63) ((d + v) mod 2 ^ 64)); [done|].
  revert Hx. apply IH. pose proof (Z.mod_pos_bound (d + v) (2 ^ 64)). lia.
Qed.

(** What is parsed fits a [Duration]. *)
Lemma ParseDuration_int64 s d : ParseDuration s = Some d → is_int64 d.
Proof.
  unfold ParseDuration. destruct (cut_sign _) as [neg bs].
  destruct (bool_decide _); [by intros [= <-]|]. destruct (bool_decide _); [done|].
  intros (x & Hx & Hd)%bind_Some. apply parse_parts_range in Hx; [|lia].
  destruct neg; [injection Hd as <-; apply wrap64_is_int64|].
  destruct (Z.ltb_spec (2 ^ 63 - 1) x); [done|]. injection Hd as <-.
  unfold is_int64, int64_min, int64_max. lia.
Qed.

(** ** The fuel *)

Lemma leadingInt_shorter a s v rest : leadingInt a s = Some (v, rest) → (length rest ≤ length s)%nat.
Proof.
  revert a. induction s as [|c s IH]; intros a; cbn [leadingInt]; [by intros [= _ <-]|].
  destruct (is_digit c); [|by intros [= _ <-]]. repeat (case_match; [done|]).
  intros Hr%IH. simpl. lia.
Qed.

Lemma leadingFraction_shorter a sc o s : (length (leadingFraction a sc o s).2 ≤ length s)%nat.
Proof.
  revert a sc o. induction s as [|c s IH]; intros a sc o; cbn [leadingFraction]; [done|].
  destruct (is_digit c); [|done]. repeat case_match; (etrans; [apply IH|simpl; lia]).
Qed.

Lemma unit_text_split s : s = (unit_text s).1 ++ (unit_text s).2.
Proof.
  induction s as [|c s IH]; [done|]. cbn [unit_text]. destruct (_ || _); [done|].
  destruct (unit_text s) as [u rest]. simpl in *. by rewrite <-IH.
Qed.

(** Every round consumes its unit. *)
Lemma parse_part_shorter s v rest : parse_part s = Some (v, rest) → (length rest < length s)%nat.
Proof.
  unfold parse_part. intros ([x s1] & Hl%leadingInt_shorter & Hp)%bind_Some. revert Hp.
  destruct (match s1 with [] => _ | c :: rest => _ end) as [[[f scale] s2] post] eqn:Hs2.
  assert (length s2 ≤ length s1)%nat as Hl2.
  { destruct s1 as [|c s1]; [by injection Hs2 as _ _ <- _|].
    destruct (bool_decide (c = dot)); [|by injection Hs2 as _ _ <- _].
    pose proof (leadingFraction_shorter 0 Fone false s1) as Hf.
    destruct (leadingFraction _ _ _ _) as [[f' scale'] s2']. injection Hs2 as <- <- <- <-. simpl in *. lia. }
  destruct (negb _); [done|]. pose proof (unit_text_split s2) as Hu.
  destruct (unit_text s2) as [u s3]. cbn [fst snd] in Hu.
  intros (unit & Hf & Hp)%bind_Some. apply find_unit_known in Hf as [[Hne _] _].
  assert (length s3 < length s2)%nat as Hl3.
  { rewrite Hu, length_app. destruct u; [done|]. simpl. lia. }
  destruct (_ <? _); [done|]. destruct (_ <? _); [destruct (_ <? _); [done|]|];
    apply (inj Some) in Hp; injection Hp as _ <-; lia.
Qed.

Lemma parse_parts_fuel n m d s : (length s ≤ n)%nat → (length s ≤ m)%nat →
  parse_parts n d s = parse_parts m d s.
Proof.
  revert m d s. induction n as [|n IH]; intros m d s Hn Hm.
  - destruct s; [by destruct m|simpl in Hn; lia].
  - destruct s as [|c s]; [by destruct m|]. destruct m as [|m]; [simpl in Hm; lia|].
    cbn [parse_parts]. destruct (parse_part (c :: s)) as [[v rest]|] eqn:Hp; [|done].
    apply parse_part_shorter in Hp. cbn [mbind option_bind length] in *.
    destruct (_ <? _); [done|]. apply IH; lia.
Qed.
