(* ===== verification/Io.v ===== *)
(** * Byte streams and readers

    [io.Reader] as the broker uses it: a source that delivers some bytes and
    then fails (end of file, expired deadline, closed connection), read with
    [io.ReadFull].  A function of a reader is a value of [io E A], and
    [Format] is the interface between a reading function and the bytes it
    accepts: the decoders are proved against it. *)

From S2P Require Export GoLib.

(** ** Readers *)

Inductive io_error :=
  | EOF                 (* io.EOF *)
  | ErrUnexpectedEOF    (* io.ErrUnexpectedEOF *)
  | ErrTimeout          (* the connection's deadline expired *)
  | ErrClosed.          (* the connection was closed or reset *)

#[export] Instance io_error_eq_dec : EqDecision io_error.
Proof. solve_decision. Defined.

(** The bytes a source will still deliver, and how it ends after them. *)
Record reader := Reader { buffered : list byte; ending : io_error }.

(** [bytes.NewReader(data)] and [reader.Len()]. *)
Definition NewReader (data : list byte) : reader := Reader data EOF.
Definition Len (r : reader) : nat := length (buffered r).

(** Bytes in front of a reader. *)
Definition push (bs : list byte) (r : reader) : reader :=
  Reader (bs ++ buffered r) (ending r).

Lemma push_nil r : push [] r = r.
Proof. by destruct r. Qed.
Lemma push_app bs bs' r : push (bs ++ bs') r = push bs (push bs' r).
Proof. unfold push; simpl. by rewrite (assoc_L (++)). Qed.
Lemma NewReader_push data : NewReader data = push data (NewReader []).
Proof. unfold push; simpl. by rewrite (right_id_L [] (++)). Qed.
Lemma Len_push bs r : Len (push bs r) = (length bs + Len r)%nat.
Proof. unfold Len; simpl. apply length_app. Qed.

(** ** The monad of functions that read *)

Definition io (E A : Type) : Type := reader → result E A * reader.

#[export] Instance io_ret {E} : MRet (io E) := λ A a r, (Ok a, r).
#[export] Instance io_bind {E} : MBind (io E) := λ A B f m r,
  match m r with
  | (Ok a, r') => f a r'
  | (Err e, r') => (Err e, r')
  end.
Definition throw {E A} (e : E) : io E A := λ r, (Err e, r).

(** [if err != nil { return wrap(err) }]. *)
Definition wrap_err {E E' A} (f : E → E') (m : io E A) : io E' A := λ r,
  let '(x, r') := m r in (map_err f x, r').

(** [io.ReadFull(reader, buf)] with [len(buf) = n]. *)
Definition ReadFull (n : nat) : io io_error (list byte) := λ r,
  if decide (n ≤ Len r)%nat then
    (Ok (take n (buffered r)), Reader (drop n (buffered r)) (ending r))
  else
    (Err (match buffered r, ending r with
          | _ :: _, EOF => ErrUnexpectedEOF
          | _, e => e
          end), Reader [] (ending r)).

(** [buf := make([]byte, 1); io.ReadFull(reader, buf)] and then [buf[0]]. *)
Definition ReadByte : io io_error byte :=
  buf ← ReadFull 1; mret (nth 0 buf x00).

(** ** What a reading function accepts *)

(** [Format m valid print]: [m] succeeds exactly on a reader that starts with
    the bytes [print a] of a valid [a], returns that [a] and consumes exactly
    those bytes. *)
Class Format {E A} (m : io E A) (valid : A → Prop) (print : A → list byte) : Prop :=
  format_spec : ∀ r a r', m r = (Ok a, r') ↔ valid a ∧ r = push (print a) r'.

(** [m] never un-reads: used for the loops that consume a stream. *)
Class Consumes {E A} (n : nat) (m : io E A) : Prop :=
  consumes : ∀ r a r', m r = (Ok a, r') → (n + Len r' ≤ Len r)%nat.

Section format.
Context {E : Type}.

Lemma bind_format {A B valid print} (m : io E A) `{!Format m valid print}
    (k : A → io E B) r b r' :
  (m ≫= k) r = (Ok b, r') ↔
  ∃ a r1, valid a ∧ r = push (print a) r1 ∧ k a r1 = (Ok b, r').
Proof.
  unfold mbind, io_bind. split.
  - destruct (m r) as [[a|e] r1] eqn:Hm; [|done].
    intros Hk. apply format_spec in Hm as [? ?]. eauto 10.
  - intros (a & r1 & Hv & Hr & Hk).
    assert (m r = (Ok a, r1)) as -> by by apply format_spec.
    done.
Qed.

Lemma ret_Ok {A} (a b : A) r r' : (mret a : io E A) r = (Ok b, r') ↔ a = b ∧ r = r'.
Proof. unfold mret, io_ret. naive_solver. Qed.

Lemma throw_Ok {A} (e : E) (b : A) r r' : throw e r = (Ok b, r') ↔ False.
Proof. unfold throw. naive_solver. Qed.

Lemma if_Ok {A} (c : bool) (m m' : io E A) r b r' :
  (if c then m else m') r = (Ok b, r') ↔
  (c = true ∧ m r = (Ok b, r')) ∨ (c = false ∧ m' r = (Ok b, r')).
Proof. destruct c; naive_solver. Qed.

Lemma format_push {A valid print} (m : io E A) `{!Format m valid print} a r :
  valid a → m (push (print a) r) = (Ok a, r).
Proof. intros. by apply format_spec. Qed.

Lemma format_consumes {A valid print} (m : io E A) `{!Format m valid print} r a r' :
  m r = (Ok a, r') → Len r = (length (print a) + Len r')%nat.
Proof. intros [_ ->]%format_spec. apply Len_push. Qed.

#[export] Instance wrap_err_format {E' A valid print} (f : E → E') (m : io E A)
  `{!Format m valid print} : Format (wrap_err f m) valid print.
Proof.
  intros r a r'. rewrite <-(format_spec (m := m) r a r').
  unfold wrap_err. destruct (m r) as [[]]; simpl; naive_solver.
Qed.
End format.

#[export] Instance ReadFull_format n :
  Format (ReadFull n) (λ bs, length bs = n) id.
Proof.
  intros [bs e] a [bs' e']. unfold ReadFull, push, Len; simpl. case_decide; split.
  - intros [= <- <- <-]. rewrite length_take, take_drop. split; [lia|done].
  - intros [<- [= -> ->]]. by rewrite take_app_exact, drop_app_exact.
  - done.
  - intros [<- [= -> ->]]. rewrite length_app in *. lia.
Qed.

#[export] Instance ReadByte_format : Format ReadByte (λ _, True) (λ b, [b]).
Proof.
  intros r b r'. unfold ReadByte. rewrite (bind_format (ReadFull 1)). setoid_rewrite ret_Ok. split.
  - intros (a & r1 & Ha & -> & <- & ->). by destruct a as [|? []].
  - intros [_ ->]. by eexists [b], r'.
Qed.

(** ** Combinators of formats *)

Section combinators.
Context {E : Type}.

(** An optional field: read under a flag, a default value without it. *)
#[export] Instance if_format {A valid print} (c : bool) (m : io E A) (d : A)
  `{!Format m valid print} :
  Format (if c then m else mret d) (λ a, if c then valid a else a = d)
    (λ a, if c then print a else []).
Proof.
  intros r a r'. destruct c; [apply format_spec|].
  rewrite ret_Ok, push_nil. naive_solver.
Qed.

(** Two fields in a row. *)
#[export] Instance pair_format {A B valid print valid' print'} (m : io E A) (m' : io E B)
  `{!Format m valid print, !Format m' valid' print'} :
  Format (a ← m; b ← m'; mret (a, b)) (λ ab, valid ab.1 ∧ valid' ab.2)
    (λ ab, print ab.1 ++ print' ab.2).
Proof.
  intros r [a b] r'. rewrite (bind_format m). split.
  - intros (a0 & r1 & ? & -> & H). revert H. rewrite (bind_format m').
    setoid_rewrite ret_Ok. intros (b0 & r2 & ? & -> & [= <- <-] & <-).
    by rewrite push_app.
  - simpl. rewrite push_app. intros ([??] & ->). eexists a, _. do 2 (split; [done|]).
    rewrite (bind_format m'). setoid_rewrite ret_Ok. eauto 10.
Qed.

(** A field followed by a conversion that can be undone. *)
Lemma map_format {A B valid print} (m : io E A) (f : A → B) (g : B → A) (ok : B → Prop)
  `{!Format m valid print} :
  (∀ a, valid a → ok (f a) ∧ g (f a) = a) → (∀ b, ok b → valid (g b) ∧ f (g b) = b) →
  Format (a ← m; mret (f a)) ok (λ b, print (g b)).
Proof.
  intros Hf Hg r b r'. rewrite (bind_format m). setoid_rewrite ret_Ok. split.
  - intros (a & r1 & Ha & -> & <- & ->). destruct (Hf a Ha) as [? ->]. done.
  - intros [Hb ->]. destruct (Hg b Hb). eauto 10.
Qed.
End combinators.

(** The 16-bit integer of two bytes. *)
#[export] Instance Uint16_format {E} (m : io E (list byte))
    `{!Format m (λ bs, length bs = 2%nat) id} :
  Format (buf ← m; mret (Uint16 buf)) is_uint16 PutUint16.
Proof.
  apply (map_format (print := id) m Uint16 PutUint16 is_uint16).
  - intros [|b0 [|b1 []]] [=]. split; [apply Uint16_range|apply PutUint16_Uint16].
  - intros z Hz. by rewrite Uint16_PutUint16.
Qed.

#[export] Hint Rewrite @ret_Ok @throw_Ok @if_Ok : io_ok.

(** Replaces "this sequence of reads succeeds" by what its first read consumed. *)
Ltac read_step :=
  match goal with
  | |- context [(mbind ?k ?m) ?r = (Ok ?b, ?r')] => rewrite (bind_format m k r b r')
  end.

(** ** Truncated input *)

(** [bs] stops before the end of [full]. *)
Definition cut_of (bs full : list byte) : Prop := ∃ b more, full = bs ++ b :: more.

(** No format accepts a cut of what it accepts. *)
Lemma format_cut {E A valid print} (m : io E A) `{!Format m valid print} a bs :
  valid a → cut_of bs (print a) → ∃ e r', m (NewReader bs) = (Err e, r').
Proof.
  intros Ha (c & more & Hcut). destruct (m (NewReader bs)) as [[b|e] r'] eqn:Hm; [|eauto].
  exfalso. apply format_spec in Hm as [Hb Heq].
  assert (m (push (print b) (push (c :: more) r')) = (Ok b, push (c :: more) r')) as Hb'
    by by apply (format_push m).
  assert (m (push (print a) (NewReader [])) = (Ok a, NewReader [])) as Ha'
    by by apply (format_push m).
  destruct r' as [rest e]. injection Heq as -> <-. rewrite Hcut in Ha'.
  assert (m (push (print b) (NewReader (rest ++ c :: more))) =
    (Ok b, NewReader (rest ++ c :: more))) as Hb'' by by apply (format_push m).
  revert Ha' Hb''. unfold push, NewReader; simpl.
  rewrite (right_id_L [] (++)), <-(assoc_L (++)). intros -> [= _ Hnil].
  by destruct rest.
Qed.

(** Every failure of [m] is [err]. *)
Class OnlyErr {E A} (err : E) (m : io E A) : Prop :=
  only_err : ∀ r e r', m r = (Err e, r') → e = err.

Section only_err.
Context {E : Type} (err : E).

#[export] Instance wrap_err_only {E' A} (m : io E' A) : OnlyErr err (wrap_err (λ _, err) m).
Proof. intros r e r'. unfold wrap_err. by destruct (m r) as [[]]; intros [=]. Qed.
#[export] Instance ret_only {A} (a : A) : OnlyErr err (mret a : io E A).
Proof. intros r e r' [=]. Qed.
#[export] Instance if_only {A} (c : bool) (m m' : io E A) :
  OnlyErr err m → OnlyErr err m' → OnlyErr err (if c then m else m').
Proof. by destruct c. Qed.
#[export] Instance bind_only {A B} (m : io E A) (k : A → io E B) :
  OnlyErr err m → (∀ a, OnlyErr err (k a)) → OnlyErr err (m ≫= k).
Proof.
  intros Hm Hk r e r'. unfold mbind, io_bind. destruct (m r) as [[a|e'] r1] eqn:Hr.
  - apply Hk.
  - intros [= <- <-]. by eapply Hm.
Qed.

(** A cut of a field followed by [rest] stops inside the field or inside
    [rest]. *)
Lemma cut_bind {A B valid print} (m : io E A) `{!Format m valid print} `{!OnlyErr err m}
    (k : A → io E B) a rest bs :
  valid a → cut_of bs (print a ++ rest) →
  (∀ bs', cut_of bs' rest → (k a (NewReader bs')).1 = Err err) →
  ((m ≫= k) (NewReader bs)).1 = Err err.
Proof.
  intros Ha (c & more & Hcut) Hk. unfold mbind, io_bind.
  apply app_eq_inv in Hcut as [(k1 & Hp & Hk1)|(k1 & -> & ->)].
  - destruct k1 as [|c' k1].
    + rewrite (right_id_L [] (++)) in Hp. subst bs.
      rewrite NewReader_push, (format_push m) by done. apply Hk. by exists c, more.
    + destruct (format_cut m a bs Ha) as (e & r' & Hm).
      { by exists c', k1. }
      rewrite Hm. by apply only_err in Hm as ->.
  - rewrite NewReader_push, push_app, (format_push m) by done.
    rewrite <-NewReader_push. apply Hk. by exists c, more.
Qed.
End only_err.
