(* ===== verification/Packet.v ===== *)
(** * MQTT control packets

    [internal/modules/broker/protocol/packet.go] and [errors.go]: packet
    types, return codes, the fixed header, the parsed packets and the flag
    accessors of CONNECT. *)

From S2P Require Export Io.

Local Open Scope Z_scope.

(** ** Errors (errors.go)

    An error is kept up to [errors.Is]: the sentinel a caller can test for,
    or the I/O error of the underlying reader; message texts are dropped. *)
Inductive error :=
  | ErrIO (e : io_error)
  | ErrMalformedRemainingLength
  | ErrInvalidProtocol
  | ErrInvalidPacketType
  | ErrInvalidQoS
  | ErrEmptyPayload
  | ErrTruncatedData
  | ErrInvalidReservedBit
  | ErrEmptyTopicName.

#[export] Instance error_eq_dec : EqDecision error.
Proof. solve_decision. Defined.

(** [fmt.Errorf("%w: ...: %v", ErrTruncatedData, err)]. *)
Definition truncated {A} (m : io io_error A) : io error A :=
  wrap_err (λ _, ErrTruncatedData) m.

(** ** Packet types (packet.go) *)

Inductive PacketType :=
  | Reserved1 | CONNECT | CONNACK | PUBLISH | PUBACK | PUBREC | PUBREL | PUBCOMP
  | SUBSCRIBE | SUBACK | UNSUBSCRIBE | UNSUBACK | PINGREQ | PINGRESP | DISCONNECT
  | Reserved15.

#[export] Instance PacketType_eq_dec : EqDecision PacketType.
Proof. solve_decision. Defined.

(** The wire value of a packet type, and the conversion [PacketType(b >> 4)]
    of a 4-bit value. *)
Definition packet_types : list PacketType :=
  [Reserved1; CONNECT; CONNACK; PUBLISH; PUBACK; PUBREC; PUBREL; PUBCOMP;
   SUBSCRIBE; SUBACK; UNSUBSCRIBE; UNSUBACK; PINGREQ; PINGRESP; DISCONNECT; Reserved15].

Definition packet_type_code (p : PacketType) : Z :=
  match p with
  | Reserved1 => 0 | CONNECT => 1 | CONNACK => 2 | PUBLISH => 3 | PUBACK => 4
  | PUBREC => 5 | PUBREL => 6 | PUBCOMP => 7 | SUBSCRIBE => 8 | SUBACK => 9
  | UNSUBSCRIBE => 10 | UNSUBACK => 11 | PINGREQ => 12 | PINGRESP => 13
  | DISCONNECT => 14 | Reserved15 => 15
  end.

Definition packet_type_of (z : Z) : PacketType :=
  nth (Z.to_nat z) packet_types Reserved15.

(** [PacketType.String]. *)
Definition PacketType_String (p : PacketType) : string :=
  match p with
  | CONNECT => "CONNECT" | CONNACK => "CONNACK" | PUBLISH => "PUBLISH"
  | PUBACK => "PUBACK" | PUBREC => "PUBREC" | PUBREL => "PUBREL"
  | PUBCOMP => "PUBCOMP" | SUBSCRIBE => "SUBSCRIBE" | SUBACK => "SUBACK"
  | UNSUBSCRIBE => "UNSUBSCRIBE" | UNSUBACK => "UNSUBACK" | PINGREQ => "PINGREQ"
  | PINGRESP => "PINGRESP" | DISCONNECT => "DISCONNECT"
  | Reserved1 | Reserved15 => "RESERVED"
  end.

(** ** CONNACK return codes *)

Inductive ConnackReturnCode :=
  | ConnAccepted | ConnRefusedProtocol | ConnRefusedIdentifier
  | ConnRefusedUnavailable | ConnRefusedBadAuth | ConnRefusedNotAuth.

Definition return_code_byte (c : ConnackReturnCode) : byte :=
  match c with
  | ConnAccepted => x00 | ConnRefusedProtocol => x01 | ConnRefusedIdentifier => x02
  | ConnRefusedUnavailable => x03 | ConnRefusedBadAuth => x04 | ConnRefusedNotAuth => x05
  end.

(** ** Parsed packets *)

Record FixedHeader := {
  Type_ : PacketType;           (* field PacketType *)
  Flags : Z;                    (* the low four bits of the first byte *)
  RemainingLength : Z;
}.

Record ConnectPacket := {
  ProtocolName : string;
  ProtocolLevel : byte;
  ConnectFlags : byte;
  KeepAlive : Z;
  ClientID : string;
  WillTopic : string;
  WillMessage : list byte;
  Username : string;
  Password : list byte;
}.

Record PublishPacket := {
  DUP : bool;
  QoS : Z;
  Retain : bool;
  TopicName : string;
  PacketID : Z;
  Payload : list byte;
}.

Record Subscription := {
  TopicFilter : string;
  SubQoS : Z;                   (* field QoS *)
}.

Record SubscribePacket := {
  SubPacketID : Z;              (* field PacketID *)
  Subscriptions : list Subscription;
}.

(** ** Flag accessors of CONNECT *)

(** [flags & mask != 0]. *)
Definition has_bits (flags : byte) (mask : Z) : bool :=
  negb (Z.land (uint8 flags) mask =? 0).

Definition HasUsername (p : ConnectPacket) : bool := has_bits (ConnectFlags p) 0x80.
Definition HasPassword (p : ConnectPacket) : bool := has_bits (ConnectFlags p) 0x40.
Definition WillRetain (p : ConnectPacket) : bool := has_bits (ConnectFlags p) 0x20.
Definition WillQoS (p : ConnectPacket) : Z :=
  Z.land (Z.shiftr (uint8 (ConnectFlags p)) 3) 0x03.
Definition HasWill (p : ConnectPacket) : bool := has_bits (ConnectFlags p) 0x04.
Definition IsCleanSession (p : ConnectPacket) : bool := has_bits (ConnectFlags p) 0x02.

(** ** The first byte of a packet *)

Definition first_byte (t : PacketType) (flags : Z) : byte :=
  byte_of (Z.lor (Z.shiftl (packet_type_code t) 4) flags).

(** Splitting a byte into packet type and flags loses nothing. *)
Lemma first_byte_split (b : byte) :
  first_byte (packet_type_of (Z.shiftr (uint8 b) 4)) (Z.land (uint8 b) 0x0F) = b.
Proof. revert b. apply (byte_forall _). by vm_compute. Qed.

Lemma flags_cases (P : Z → Prop) :
  Forall P (Z.of_nat <$> seq 0 16) → ∀ flags, 0 ≤ flags < 16 → P flags.
Proof.
  rewrite Forall_forall. intros HP flags ?. apply HP. apply list_elem_of_fmap.
  exists (Z.to_nat flags). split; [lia|]. apply elem_of_seq. lia.
Qed.

Lemma first_byte_join (t : PacketType) (flags : Z) : 0 ≤ flags < 16 →
  packet_type_of (Z.shiftr (uint8 (first_byte t flags)) 4) = t ∧
  Z.land (uint8 (first_byte t flags)) 0x0F = flags.
Proof.
  revert flags. apply (flags_cases (λ flags, _ ∧ _)).
  by destruct t; repeat constructor.
Qed.

Lemma land_flags_range (b : byte) : 0 ≤ Z.land (uint8 b) 0x0F < 16.
Proof.
  change 0x0F with (Z.ones 4). rewrite Z.land_ones by lia.
  apply Z.mod_pos_bound. lia.
Qed.
