(* ===== verification/Codec.v ===== *)
(** * Variable-length integers, strings and binary fields

    [internal/modules/broker/protocol/codec.go]: the Remaining Length
    encoding of MQTT, and the length-prefixed strings and byte fields.

    - [DecodeRemainingLength] and [EncodeRemainingLength] are inverse on
      0..268435455, longer encodings are refused, and the decoder agrees with
      a reference definition on every stream;
    - [ReadUTF8String] and [ReadBinaryData] accept exactly what
      [WriteUTF8String] writes for a field shorter than 65536 bytes. *)

From Equations Require Import Equations.
From S2P Require Export Packet.

Local Open Scope Z_scope.

(** ** Remaining Length *)

(** The loop of [DecodeRemainingLength]: each round reads one byte with
    [io.ReadFull], so it is a recursion on the bytes the reader still has. *)
Fixpoint decode_loop (buf : list byte) (fin : io_error) (multiplier value : Z) :
    result error Z * reader :=
  match buf with
  | [] => (Err (ErrIO fin), Reader [] fin)
  | encodedByte :: rest =>
      let value := value + Z.land (uint8 encodedByte) 0x7F * multiplier in
      let multiplier := multiplier * 128 in
      if multiplier >? 128 * 128 * 128 * 128 then
        (Err ErrMalformedRemainingLength, Reader rest fin)
      else if Z.land (uint8 encodedByte) 0x80 =? 0 then
        (Ok value, Reader rest fin)
      else decode_loop rest fin multiplier value
  end.

Definition DecodeRemainingLength : io error Z := λ r,
  decode_loop (buffered r) (ending r) 1 0.

(** The recursion is the source's loop over [io.ReadFull(reader, buf)]. *)
Lemma decode_loop_ReadFull r multiplier value :
  decode_loop (buffered r) (ending r) multiplier value =
  match ReadFull 1 r with
  | (Err e, r') => (Err (ErrIO e), r')
  | (Ok buf, r') =>
      let encodedByte := nth 0 buf x00 in
      let value := value + Z.land (uint8 encodedByte) 0x7F * multiplier in
      let multiplier := multiplier * 128 in
      if multiplier >? 128 * 128 * 128 * 128 then (Err ErrMalformedRemainingLength, r')
      else if Z.land (uint8 encodedByte) 0x80 =? 0 then (Ok value, r')
      else decode_loop (buffered r') (ending r') multiplier value
  end.
Proof. destruct r as [[|b rest] e]; [by destruct e|done]. Qed.

(** One byte of the encoding: the low seven bits, and the continuation bit
    when something remains. *)
Definition encoded_byte (length remaining : Z) : byte :=
  let encodedByte := byte_of (Z.rem length 128) in
  if remaining >? 0 then byte_of (Z.lor (uint8 encodedByte) 0x80) else encodedByte.

Lemma quot_log2_lt n : Z.quot n 128 ≠ 0 →
  (Z.to_nat (Z.log2 (Z.abs (Z.quot n 128))) < Z.to_nat (Z.log2 (Z.abs n)))%nat.
Proof.
  intros Hq. assert (Z.abs (Z.quot n 128) = Z.abs n / 128) as ->
    by (Z.to_euclidean_division_equations; lia).
  assert (128 ≤ Z.abs n) by (Z.to_euclidean_division_equations; lia).
  change 128 with (2 ^ 7). rewrite <-Z.shiftr_div_pow2, Z.log2_shiftr by lia.
  assert (7 ≤ Z.log2 (Z.abs n)) by (apply (Z.log2_le_mono 128); lia). lia.
Qed.

Equations? EncodeRemainingLength (length : Z) : list byte
    by wf (Z.to_nat (Z.log2 (Z.abs length))) lt :=
  EncodeRemainingLength length with Z_zerop (Z.quot length 128) := {
    | left _ => [encoded_byte length (Z.quot length 128)]
    | right _ => encoded_byte length (Z.quot length 128) ::
                 EncodeRemainingLength (Z.quot length 128) }.
Proof. by apply quot_log2_lt. Qed.

(** ** Strings and binary data *)

(** [ReadUTF8String]: a two-byte length and the bytes. *)
Definition ReadUTF8String : io io_error string :=
  lenBuf ← ReadFull 2;
  let length := Uint16 lenBuf in
  if length =? 0 then mret ""%string
  else
    strBuf ← ReadFull (Z.to_nat length);
    mret (string_of strBuf).

Definition ReadBinaryData : io io_error (list byte) :=
  lenBuf ← ReadFull 2;
  let length := Uint16 lenBuf in
  if length =? 0 then mret []
  else
    data ← ReadFull (Z.to_nat length);
    mret data.

(** [uint16(len(s))] followed by the bytes of the string. *)
Definition WriteUTF8String (s : string) : list byte :=
  PutUint16 (len (bytes_of s) mod 65536) ++ bytes_of s.

#[global] Arguments WriteUTF8String : simpl never.

(** ** Bits of a byte *)

Lemma land_7f b : Z.land (uint8 b) 0x7F = uint8 b mod 128.
Proof. change 0x7F with (Z.ones 7). by rewrite Z.land_ones. Qed.

Lemma land_80 b : (Z.land (uint8 b) 0x80 =? 0) = (uint8 b <? 128).
Proof. revert b. apply (byte_forall _). by vm_compute. Qed.

Lemma low_byte d : 0 ≤ d < 128 → uint8 (byte_of d) = d.
Proof. intros. rewrite uint8_byte_of. apply Z.mod_small. lia. Qed.

Lemma lor_80 b : uint8 b < 128 → uint8 (byte_of (Z.lor (uint8 b) 0x80)) = uint8 b + 128.
Proof. revert b. apply (byte_forall (λ b, _ → _)). by vm_compute. Qed.

Lemma high_byte d : 0 ≤ d < 128 → uint8 (byte_of (Z.lor (uint8 (byte_of d)) 0x80)) = d + 128.
Proof. intros. rewrite lor_80; by rewrite low_byte; lia. Qed.

(** ** The encoder *)

(** On lengths the encoder is the base-128 expansion, low digit first. *)
Lemma EncodeRemainingLength_digits n : 0 ≤ n →
  EncodeRemainingLength n =
    if n <? 128 then [byte_of n]
    else byte_of (n mod 128 + 128) :: EncodeRemainingLength (n / 128).
Proof.
  intros Hn. rewrite EncodeRemainingLength_equation_1.
  unfold EncodeRemainingLength_unfold_clause_1.
  unfold encoded_byte. rewrite !Z.quot_div_nonneg, Z.rem_mod_nonneg by lia.
  destruct (Z_zerop (n / 128)) as [Hq|Hq]; rewrite Z.gtb_ltb.
  - apply Z.div_small_iff in Hq; [|lia].
    destruct (Z.ltb_spec n 128); [|lia].
    rewrite Z.div_small, Z.mod_small by lia. done.
  - assert (0 ≤ n / 128) by (apply Z.div_pos; lia).
    destruct (Z.ltb_spec n 128) as [Hlt|]; [by rewrite Z.div_small in Hq by lia|].
    destruct (Z.ltb_spec 0 (n / 128)); [|lia].
    f_equal. apply uint8_inj. pose proof (Z.mod_pos_bound n 128).
    rewrite high_byte, uint8_byte_of by lia. symmetry. apply Z.mod_small. lia.
Qed.

(** ** The decoder against a reference definition *)

(** A byte with the continuation bit set. *)
Definition continues (b : byte) : bool := 128 <=? uint8 b.

(** The value of a field: base 128, low digit first, high bits ignored. *)
Fixpoint field_value (field : list byte) : Z :=
  match field with
  | [] => 0
  | b :: rest => uint8 b mod 128 + 128 * field_value rest
  end.

Lemma field_value_nonneg field : 0 ≤ field_value field.
Proof.
  induction field as [|b field IH]; simpl; [lia|].
  pose proof (Z.mod_pos_bound (uint8 b) 128). lia.
Qed.

(** How many bytes with the continuation bit lead the buffer. *)
Fixpoint leading (buf : list byte) : nat :=
  match buf with
  | b :: rest => if continues b then S (leading rest) else O
  | [] => O
  end.

(** The field is [leading + 1] bytes long, and at most four: with four
    continuation bytes it is malformed, which is seen on a fifth byte. *)
Definition remaining_length_spec (i : nat) (value : Z) (buf : list byte) (fin : io_error) :
    result error Z * reader :=
  let n := leading buf in
  if decide (4 ≤ i + n)%nat then
    if decide (4 - i < length buf)%nat then
      (Err ErrMalformedRemainingLength, Reader (drop (5 - i) buf) fin)
    else (Err (ErrIO fin), Reader [] fin)
  else if decide (n < length buf)%nat then
    (Ok (value + 128 ^ Z.of_nat i * field_value (take (S n) buf)), Reader (drop (S n) buf) fin)
  else (Err (ErrIO fin), Reader [] fin).

Lemma decode_loop_last buf fin value :
  decode_loop buf fin (128 ^ 4) value = remaining_length_spec 4 value buf fin.
Proof.
  destruct buf as [|b buf]; [done|]. unfold remaining_length_spec.
  rewrite decide_True by lia. rewrite decide_True by (simpl; lia). done.
Qed.

Lemma decode_loop_spec i value buf fin : (i ≤ 4)%nat →
  decode_loop buf fin (128 ^ Z.of_nat i) value = remaining_length_spec i value buf fin.
Proof.
  revert i value. induction buf as [|b buf IH]; intros i value Hi.
  { unfold remaining_length_spec; simpl. by repeat case_decide; try lia. }
  destruct (decide (i = 4%nat)) as [->|]; [apply decode_loop_last|].
  cbn [decode_loop]. rewrite land_7f, land_80.
  replace (128 ^ Z.of_nat i * 128) with (128 ^ Z.of_nat (S i))
    by (rewrite Nat2Z.inj_succ, Z.pow_succ_r; lia).
  assert (128 ^ Z.of_nat (S i) ≤ 128 ^ 4) by (apply Z.pow_le_mono_r; lia).
  destruct (Z.gtb_spec (128 ^ Z.of_nat (S i)) (128 * 128 * 128 * 128)); [lia|].
  unfold remaining_length_spec. simpl leading. unfold continues.
  destruct (Z.ltb_spec (uint8 b) 128).
  - destruct (Z.leb_spec 128 (uint8 b)); [lia|].
    rewrite !decide_False, decide_True by (simpl; lia). simpl. do 2 f_equal. lia.
  - destruct (Z.leb_spec 128 (uint8 b)); [|lia].
    rewrite IH by lia. unfold remaining_length_spec. cbn [length].
    replace (5 - i)%nat with (S (5 - S i)) by lia. cbn [drop].
    repeat case_decide; try lia; try done.
    cbn [take field_value]. do 2 f_equal.
    rewrite Nat2Z.inj_succ, Z.pow_succ_r by lia. lia.
Qed.

(** ** Encoding and decoding *)

Definition max_remaining_length : Z := 268435455.

Lemma decode_encode_step i value n buf fin : (i ≤ 3)%nat → 0 ≤ n →
  decode_loop (EncodeRemainingLength n ++ buf) fin (128 ^ Z.of_nat i) value =
  if n <? 128 then (Ok (value + n * 128 ^ Z.of_nat i), Reader buf fin)
  else decode_loop (EncodeRemainingLength (n / 128) ++ buf) fin (128 ^ Z.of_nat (S i))
         (value + n mod 128 * 128 ^ Z.of_nat i).
Proof.
  intros Hi Hn. rewrite EncodeRemainingLength_digits by done.
  assert (128 ^ Z.of_nat (S i) ≤ 128 ^ 4) by (apply Z.pow_le_mono_r; lia).
  assert (128 ^ Z.of_nat i * 128 = 128 ^ Z.of_nat (S i))
    by (rewrite Nat2Z.inj_succ, Z.pow_succ_r; lia).
  pose proof (Z.mod_pos_bound n 128 ltac:(lia)).
  destruct (Z.ltb_spec n 128); cbn [app decode_loop]; rewrite land_7f, land_80;
    (destruct (Z.gtb_spec (128 ^ Z.of_nat i * 128) (128 * 128 * 128 * 128)); [lia|]).
  - rewrite low_byte by lia. destruct (Z.ltb_spec n 128); [|lia].
    by rewrite (Z.mod_small n) by lia.
  - rewrite uint8_byte_of, (Z.mod_small (_ + _) 256) by lia.
    destruct (Z.ltb_spec (n mod 128 + 128) 128); [lia|].
    f_equal; [lia|]. do 2 f_equal.
    rewrite <-Zplus_mod_idemp_r, Z.mod_same, Z.add_0_r by lia. apply Z.mod_mod. lia.
Qed.

Lemma decode_encode_loop i value n buf fin : (i ≤ 3)%nat →
  0 ≤ n < 128 ^ Z.of_nat (4 - i) →
  decode_loop (EncodeRemainingLength n ++ buf) fin (128 ^ Z.of_nat i) value =
  (Ok (value + n * 128 ^ Z.of_nat i), Reader buf fin).
Proof.
  remember (3 - i)%nat as k eqn:Hk. revert i value n Hk.
  induction k as [|k IH]; intros i value n Hk Hi Hn;
    rewrite decode_encode_step by lia; destruct (Z.ltb_spec n 128); try done.
  - replace (4 - i)%nat with 1%nat in Hn by lia. lia.
  - assert (0 ≤ n / 128 < 128 ^ Z.of_nat (4 - S i)) as Hq.
    { assert (128 ^ Z.of_nat (4 - i) = 128 * 128 ^ Z.of_nat (4 - S i)) as Hp.
      { replace (4 - i)%nat with (S (4 - S i)) by lia.
        rewrite Nat2Z.inj_succ, Z.pow_succ_r; lia. }
      split; [apply Z.div_pos; lia|]. apply Z.div_lt_upper_bound; lia. }
    rewrite (IH (S i)) by lia. do 2 f_equal.
    rewrite Nat2Z.inj_succ, Z.pow_succ_r by lia.
    rewrite (Z.div_mod n 128) at 3 by lia. lia.
Qed.

Lemma decode_encode_long i value n buf fin : (i ≤ 3)%nat →
  128 ^ Z.of_nat (4 - i) ≤ n →
  ∃ r, decode_loop (EncodeRemainingLength n ++ buf) fin (128 ^ Z.of_nat i) value =
       (Err ErrMalformedRemainingLength, r).
Proof.
  remember (3 - i)%nat as k eqn:Hk. revert i value n Hk.
  induction k as [|k IH]; intros i value n Hk Hi Hn;
    assert (0 < 128 ^ Z.of_nat (4 - i)) by (apply Z.pow_pos_nonneg; lia);
    rewrite decode_encode_step by lia.
  - replace i with 3%nat in * by lia. simpl in Hn.
    destruct (Z.ltb_spec n 128); [lia|]. rewrite decode_loop_last.
    rewrite EncodeRemainingLength_digits by (apply Z.div_pos; lia).
    unfold remaining_length_spec. rewrite decide_True by lia.
    rewrite decide_True by (case_match; simpl; lia). eauto.
  - assert (128 ^ Z.of_nat (4 - i) = 128 * 128 ^ Z.of_nat (4 - S i)) as Hp.
    { replace (4 - i)%nat with (S (4 - S i)) by lia.
      rewrite Nat2Z.inj_succ, Z.pow_succ_r; lia. }
    assert (1 ≤ 128 ^ Z.of_nat (4 - S i)).
    { pose proof (Z.pow_pos_nonneg 128 (Z.of_nat (4 - S i))). lia. }
    destruct (Z.ltb_spec n 128); [lia|]. apply IH; [lia..|].
    apply Z.div_le_lower_bound; lia.
Qed.

Lemma DecodeRemainingLength_push n r : 0 ≤ n ≤ max_remaining_length →
  DecodeRemainingLength (push (EncodeRemainingLength n) r) = (Ok n, r).
Proof.
  intros Hn. unfold DecodeRemainingLength. destruct r as [buf fin]. simpl.
  rewrite (decode_encode_loop 0) by (unfold max_remaining_length in Hn; simpl; lia).
  do 2 f_equal. lia.
Qed.

(** Number of bytes of an encoded length. *)
Lemma length_EncodeRemainingLength k n : 0 ≤ n < 128 ^ Z.of_nat (S k) →
  (length (EncodeRemainingLength n) ≤ S k)%nat.
Proof.
  revert n. induction k as [|k IH]; intros n Hn;
    rewrite EncodeRemainingLength_digits by lia; destruct (Z.ltb_spec n 128) as [|Hge].
  - simpl. lia.
  - change (128 ^ Z.of_nat 1) with 128 in Hn. lia.
  - simpl. lia.
  - apply le_n_S, IH. rewrite Nat2Z.inj_succ, Z.pow_succ_r in Hn by lia.
    split; [apply Z.div_pos; lia|]. apply Z.div_lt_upper_bound; lia.
Qed.

Lemma EncodeRemainingLength_nonempty n : 0 ≤ n → EncodeRemainingLength n ≠ [].
Proof. intros. rewrite EncodeRemainingLength_digits by done. by case_match. Qed.

(** ** Properties of the Remaining Length *)

(** C33: an encoded Remaining Length is decoded to the same value with the rest
    of the stream left in place, and takes one to four bytes, for every length
    up to 268435455; the encoding of any greater length is refused as
    malformed. *)
Theorem remaining_length_roundtrip n r :
  0 ≤ n →
  if decide (n ≤ max_remaining_length) then
    DecodeRemainingLength (push (EncodeRemainingLength n) r) = (Ok n, r) ∧
    (1 ≤ length (EncodeRemainingLength n) ≤ 4)%nat
  else
    (DecodeRemainingLength (push (EncodeRemainingLength n) r)).1 = Err ErrMalformedRemainingLength.
Proof.
  intros Hn. case_decide as Hmax.
  - split; [by apply DecodeRemainingLength_push|].
    pose proof (EncodeRemainingLength_nonempty n Hn).
    pose proof (length_EncodeRemainingLength 3 n).
    unfold max_remaining_length in Hmax. change (128 ^ Z.of_nat 4) with 268435456 in *.
    destruct (EncodeRemainingLength n); [done|]. simpl in *. lia.
  - unfold DecodeRemainingLength; simpl. change 1 with (128 ^ Z.of_nat 0).
    destruct (decode_encode_long 0 0 n (buffered r) (ending r)) as [r' Hr'];
      [lia| |by rewrite Hr'].
    unfold max_remaining_length in Hmax. simpl. lia.
Qed.

Lemma remaining_length_roundtrip_witness :
  0 ≤ 321 ∧ DecodeRemainingLength (push (EncodeRemainingLength 321) (NewReader [x30])) =
    (Ok 321, NewReader [x30]).
Proof. split; [lia|]. by apply (remaining_length_roundtrip 321 (NewReader [x30])). Defined.

(** on every stream, well-formed or not, [DecodeRemainingLength] is the
    reference decoder: the field ends at its first byte without continuation
    bit, its value is the little-endian base-128 number of the low seven bits
    (leading zero digits are accepted), exactly the field is consumed, and
    four continuation bytes followed by another byte are malformed; a stream
    that stops inside the field yields the stream's own error. *)
Theorem DecodeRemainingLength_spec r :
  DecodeRemainingLength r = remaining_length_spec 0 0 (buffered r) (ending r).
Proof. apply (decode_loop_spec 0). lia. Qed.

(** ** Length-prefixed fields *)

(** A field that a two-byte length can announce. *)
Definition short (bs : list byte) : Prop := len bs < 65536.

Definition binary_field (data : list byte) : list byte :=
  PutUint16 (len data mod 65536) ++ data.

Lemma Uint16_field lenBuf : length lenBuf = 2%nat →
  is_uint16 (Uint16 lenBuf) ∧ PutUint16 (Uint16 lenBuf) = lenBuf.
Proof.
  destruct lenBuf as [|b0 [|b1 []]]; try done. intros _.
  split; [apply Uint16_range|apply PutUint16_Uint16].
Qed.

#[export] Instance ReadBinaryData_format : Format ReadBinaryData short binary_field.
Proof.
  intros r data r'. unfold ReadBinaryData, binary_field, short. read_step. split.
  - intros (lenBuf & r1 & [Hu Hp]%Uint16_field & -> & H). unfold is_uint16 in Hu.
    destruct (Z.eqb_spec (Uint16 lenBuf) 0) as [Hz|Hz].
    + apply ret_Ok in H as [<- ->]. unfold len. simpl.
      by rewrite <-Hp, Hz.
    + revert H. read_step. setoid_rewrite ret_Ok.
      intros (bs & r2 & Hlen & -> & <- & ->). unfold len. rewrite Hlen, Z2Nat.id by lia.
      rewrite Z.mod_small, Hp, push_app by lia. split; [lia|done].
  - intros [Hs ->]. unfold len in *. rewrite Z.mod_small by lia.
    eexists (PutUint16 (Z.of_nat (length data))), (push data r').
    rewrite push_app, Uint16_PutUint16 by (unfold is_uint16; lia).
    do 2 (split; [done|]). destruct (Z.eqb_spec (Z.of_nat (length data)) 0).
    + destruct data; [by rewrite push_nil|simpl in *; lia].
    + read_step. exists data, r'. rewrite Nat2Z.id. done.
Qed.

Lemma ReadUTF8String_binary r :
  ReadUTF8String r = (let '(x, r') := ReadBinaryData r in (string_of <$> x, r')).
Proof.
  unfold ReadUTF8String, ReadBinaryData, mbind, io_bind, mret, io_ret.
  destruct (ReadFull 2 r) as [[lenBuf|] r1]; [|done].
  destruct (_ =? 0); [done|]. by destruct (ReadFull _ r1) as [[]].
Qed.

#[export] Instance ReadUTF8String_format :
  Format ReadUTF8String (λ s, short (bytes_of s)) WriteUTF8String.
Proof.
  intros r s r'. rewrite ReadUTF8String_binary.
  change (WriteUTF8String s) with (binary_field (bytes_of s)).
  rewrite <-(format_spec (m := ReadBinaryData)).
  destruct (ReadBinaryData r) as [[data|e] r1]; simpl; split; intros [=]; subst; try done.
  - by rewrite bytes_of_string_of.
  - by rewrite string_of_bytes_of.
Qed.

Lemma length_WriteUTF8String s :
  length (WriteUTF8String s) = (2 + length (bytes_of s))%nat.
Proof. done. Qed.
