(* ===== verification/Decoder.v ===== *)
(** * Decoding CONNECT, PUBLISH and SUBSCRIBE

    [internal/modules/broker/protocol/decoder.go].  Each decoder is proved
    against the wire format of the packet: it succeeds exactly on the bytes
    the format prescribes and returns the fields they carry.  PUBLISH errors
    are classified completely; a truncated CONNECT is always reported as
    truncated. *)

From Equations Require Import Equations.
From S2P Require Export Codec.

Local Open Scope Z_scope.

(** ** CONNECT *)

(** The packet after the variable header, before its payload is read. *)
Definition connect_header (name : string) (level flags : byte) (keepAlive : Z) : ConnectPacket :=
  {| ProtocolName := name; ProtocolLevel := level; ConnectFlags := flags;
     KeepAlive := keepAlive; ClientID := ""; WillTopic := ""; WillMessage := [];
     Username := ""; Password := [] |}.

(** The payload fields, read under the flags of the variable header. *)
Definition connect_payload (pkt : ConnectPacket) : io error ConnectPacket :=
  clientID ← truncated ReadUTF8String;
  will ← (if HasWill pkt then
            willTopic ← truncated ReadUTF8String;
            willMsg ← truncated ReadBinaryData;
            mret (willTopic, willMsg)
          else mret (""%string, []));
  username ← (if HasUsername pkt then truncated ReadUTF8String else mret ""%string);
  password ← (if HasPassword pkt then truncated ReadBinaryData else mret []);
  mret {| ProtocolName := ProtocolName pkt; ProtocolLevel := ProtocolLevel pkt;
          ConnectFlags := ConnectFlags pkt; KeepAlive := KeepAlive pkt;
          ClientID := clientID; WillTopic := will.1; WillMessage := will.2;
          Username := username; Password := password |}.

Definition connect_body : io error ConnectPacket :=
  name ← truncated ReadUTF8String;
  if bool_decide (name ≠ "MQTT"%string) then throw ErrInvalidProtocol else
  level ← truncated ReadByte;
  if bool_decide (level ≠ x04) then throw ErrInvalidProtocol else
  flags ← truncated ReadByte;
  if has_bits flags 0x01 then throw ErrInvalidReservedBit else
  keepAlive ← (keepAliveBuf ← truncated (ReadFull 2); mret (Uint16 keepAliveBuf));
  connect_payload (connect_header name level flags keepAlive).

Definition DecodeConnect (data : list byte) : result error ConnectPacket :=
  (connect_body (NewReader data)).1.

(** ** PUBLISH *)

(** [remaining := reader.Len()] bytes, when there are any. *)
Definition read_rest : io error (list byte) := λ r,
  if decide (0 < Len r)%nat then truncated (ReadFull (Len r)) r else (Ok [], r).

Definition publish_body (dup : bool) (qos : Z) (retain : bool) : io error PublishPacket :=
  topicName ← truncated ReadUTF8String;
  if bool_decide (topicName = ""%string) then throw ErrEmptyTopicName else
  packetID ← (if qos >? 0 then pidBuf ← truncated (ReadFull 2); mret (Uint16 pidBuf)
              else mret 0);
  payload ← read_rest;
  mret {| DUP := dup; QoS := qos; Retain := retain; TopicName := topicName;
          PacketID := packetID; Payload := payload |}.

Definition DecodePublish (header : FixedHeader) (data : list byte) : result error PublishPacket :=
  let dup := negb (Z.land (Flags header) 0x08 =? 0) in
  let qos := Z.land (Z.shiftr (Flags header) 1) 0x03 in
  let retain := negb (Z.land (Flags header) 0x01 =? 0) in
  if qos =? 3 then Err ErrInvalidQoS
  else (publish_body dup qos retain (NewReader data)).1.

(** ** SUBSCRIBE *)

(** One topic filter and its requested QoS. *)
Definition read_subscription : io error Subscription :=
  topicFilter ← truncated ReadUTF8String;
  qosByte ← truncated ReadByte;
  let qos := Z.land (uint8 qosByte) 0x03 in
  if uint8 qosByte >? 2 then throw ErrInvalidQoS
  else mret {| TopicFilter := topicFilter; SubQoS := qos |}.

Definition inspect {A} (a : A) : { b | a = b } := exist _ a eq_refl.

Definition subscription_bytes (s : Subscription) : list byte :=
  WriteUTF8String (TopicFilter s) ++ [byte_of (SubQoS s)].

Definition valid_subscription (s : Subscription) : Prop :=
  short (bytes_of (TopicFilter s)) ∧ 0 ≤ SubQoS s ≤ 2.

Lemma subscription_qos b : (uint8 b >? 2) = false →
  0 ≤ Z.land (uint8 b) 0x03 ≤ 2 ∧ byte_of (Z.land (uint8 b) 0x03) = b.
Proof. revert b. apply (byte_forall (λ b, _ → _)). by vm_compute. Qed.

Lemma subscription_qos_byte q : 0 ≤ q ≤ 2 →
  (uint8 (byte_of q) >? 2) = false ∧ Z.land (uint8 (byte_of q)) 0x03 = q.
Proof. intros. assert (q = 0 ∨ q = 1 ∨ q = 2) as [->|[->| ->]] by lia; done. Qed.

#[export] Instance read_subscription_format :
  Format read_subscription valid_subscription subscription_bytes.
Proof.
  intros r [t q] r'. unfold read_subscription, subscription_bytes, valid_subscription. cbn [TopicFilter SubQoS].
  rewrite push_app. read_step. split.
  - intros (t' & r1 & ? & -> & H). revert H. read_step.
    intros (b & r2 & _ & -> & H). destruct (uint8 b >? 2) eqn:Hq; [done|].
    apply subscription_qos in Hq as [? Hb]. apply ret_Ok in H as [[= -> <-] ->].
    by rewrite Hb.
  - intros ([??] & ->). eexists t, _. do 2 (split; [done|]).
    read_step. eexists (byte_of q), _. do 2 (split; [done|]).
    by destruct (subscription_qos_byte q) as [-> ->].
Qed.

Lemma read_subscription_shrinks r s r' :
  read_subscription r = (Ok s, r') → (Len r' < Len r)%nat.
Proof.
  intros H. rewrite (format_consumes read_subscription _ _ _ H).
  unfold subscription_bytes. rewrite length_app, length_WriteUTF8String. simpl. lia.
Qed.

(** [for reader.Len() > 0 { ... }]. *)
Equations? subscriptions_loop (r : reader) (subs : list Subscription) :
    result error (list Subscription) by wf (Len r) lt :=
  subscriptions_loop r subs with decide (0 < Len r)%nat := {
    | right _ => Ok subs
    | left _ with inspect (read_subscription r) := {
      | exist _ (Err e, _) _ => Err e
      | exist _ (Ok sub, r') Hr => subscriptions_loop r' (subs ++ [sub]) } }.
Proof. by eapply read_subscription_shrinks. Qed.

Definition DecodeSubscribe (data : list byte) : result error SubscribePacket :=
  if len data <? 5 then Err ErrEmptyPayload
  else
    match truncated (ReadFull 2) (NewReader data) with
    | (Err e, _) => Err e
    | (Ok pidBuf, r) =>
        subs ← subscriptions_loop r [];
        match subs with
        | [] => Err ErrEmptyPayload
        | _ => Ok {| SubPacketID := Uint16 pidBuf; Subscriptions := subs |}
        end
    end.

Example decode_subscribe_ex :
  DecodeSubscribe [x00; x0a; x00; x01; x61; x01] =
  Ok {| SubPacketID := 10; Subscriptions := [{| TopicFilter := "a"; SubQoS := 1 |}] |}.
Proof. vm_compute. reflexivity. Qed.

(** ** The wire format of CONNECT *)

Definition when {A} (c : bool) (bs : list A) : list A := if c then bs else [].

Definition connect_payload_wire (p : ConnectPacket) : list byte :=
  WriteUTF8String (ClientID p) ++
  when (HasWill p) (WriteUTF8String (WillTopic p) ++ binary_field (WillMessage p)) ++
  when (HasUsername p) (WriteUTF8String (Username p)) ++
  when (HasPassword p) (binary_field (Password p)).

Definition connect_wire (p : ConnectPacket) : list byte :=
  WriteUTF8String "MQTT" ++ [x04] ++ [ConnectFlags p] ++ PutUint16 (KeepAlive p) ++
  connect_payload_wire p.

(** The optional fields are present exactly under their flags. *)
Definition valid_payload (p : ConnectPacket) : Prop :=
  short (bytes_of (ClientID p)) ∧
  (if HasWill p then short (bytes_of (WillTopic p)) ∧ short (WillMessage p)
   else (WillTopic p, WillMessage p) = (""%string, [])) ∧
  (if HasUsername p then short (bytes_of (Username p)) else Username p = ""%string) ∧
  (if HasPassword p then short (Password p) else Password p = []).

Definition valid_connect (p : ConnectPacket) : Prop :=
  ProtocolName p = "MQTT"%string ∧ ProtocolLevel p = x04 ∧
  has_bits (ConnectFlags p) 0x01 = false ∧ is_uint16 (KeepAlive p) ∧ valid_payload p.

Definition same_header (p q : ConnectPacket) : Prop :=
  ProtocolName p = ProtocolName q ∧ ProtocolLevel p = ProtocolLevel q ∧
  ConnectFlags p = ConnectFlags q ∧ KeepAlive p = KeepAlive q.

Lemma connect_payload_spec pkt r p r' :
  connect_payload pkt r = (Ok p, r') ↔
  same_header p pkt ∧ valid_payload p ∧ r = push (connect_payload_wire p) r'.
Proof.
  unfold connect_payload, valid_payload, connect_payload_wire, same_header, when. split.
  - read_step. intros (cid & r1 & ? & -> & H). revert H.
    read_step. intros ([wt wm] & r2 & ? & -> & H). revert H.
    read_step. intros (user & r3 & ? & -> & H). revert H.
    read_step. intros (pass & r4 & ? & -> & H). apply ret_Ok in H as [<- ->].
    unfold HasWill, HasUsername, HasPassword in *; cbn in *. rewrite !push_app. done.
  - destruct pkt, p as [pn pl pf pk cid wt wm un pw]; cbn.
    intros ((-> & -> & -> & ->) & (? & ? & ? & ?) & ->).
    unfold HasWill, HasUsername, HasPassword in *; cbn in *. rewrite !push_app.
    read_step. exists cid. eexists. do 2 (split; [done|]).
    read_step. exists (wt, wm). eexists. do 2 (split; [done|]).
    read_step. exists un. eexists. do 2 (split; [done|]).
    read_step. exists pw. eexists. do 2 (split; [done|]).
    by apply ret_Ok.
Qed.

Lemma connect_body_spec r p r' :
  connect_body r = (Ok p, r') ↔ valid_connect p ∧ r = push (connect_wire p) r'.
Proof.
  unfold connect_body, valid_connect, connect_wire. split.
  - read_step. intros (name & r1 & ? & -> & H). revert H. case_bool_decide as Hn; [done|].
    subst name. read_step. intros (level & r2 & _ & -> & H). revert H.
    case_bool_decide as Hl; [done|]. subst level. read_step.
    intros (flags & r3 & _ & -> & H). revert H. destruct (has_bits flags _) eqn:Hf; [done|].
    read_step. intros (ka & r4 & ? & -> & ((? & ? & ? & ?) & ? & ->)%connect_payload_spec).
    destruct p; cbn in *; subst. rewrite !push_app. done.
  - intros ((Hname & Hlevel & Hf & Hka & Hp) & ->). rewrite !push_app.
    read_step. eexists "MQTT"%string, _. do 2 (split; [done|]).
    rewrite bool_decide_eq_false_2 by tauto.
    read_step. eexists x04, _. do 2 (split; [done|]).
    rewrite bool_decide_eq_false_2 by tauto.
    read_step. eexists (ConnectFlags p), _. do 2 (split; [done|]). rewrite Hf.
    read_step. eexists (KeepAlive p), _. do 2 (split; [done|]).
    apply connect_payload_spec. destruct p; cbn in *; subst. done.
Qed.


Lemma DecodeConnect_accepts p tail : valid_connect p →
  DecodeConnect (connect_wire p ++ tail) = Ok p.
Proof.
  intros Hp. unfold DecodeConnect.
  assert (connect_body (NewReader (connect_wire p ++ tail)) = (Ok p, NewReader tail)) as ->
    by by apply connect_body_spec.
  done.
Qed.

(** C31: [DecodeConnect] succeeds exactly on the CONNECT wire format: it
    returns a packet [p] iff the data is the encoding of [p], with protocol
    "MQTT" level 4, reserved bit 0 and the optional fields present exactly
    under their flags, followed by any bytes (which are ignored). *)
Theorem DecodeConnect_spec data p :
  DecodeConnect data = Ok p ↔ valid_connect p ∧ ∃ tail, data = connect_wire p ++ tail.
Proof.
  unfold DecodeConnect. split.
  - destruct (connect_body _) as [x r'] eqn:H; simpl. intros ->.
    apply connect_body_spec in H as [? [= ->]]. eauto.
  - intros (Hp & tail & ->). by apply DecodeConnect_accepts.
Qed.

(** ** Truncated CONNECT packets *)

#[export] Instance connect_payload_only pkt : OnlyErr ErrTruncatedData (connect_payload pkt).
Proof. unfold connect_payload, truncated. apply _. Qed.

Lemma connect_payload_format pkt :
  Format (connect_payload pkt) (λ p, same_header p pkt ∧ valid_payload p) connect_payload_wire.
Proof. intros r p r'. rewrite connect_payload_spec. tauto. Qed.

(** every CONNECT packet whose data stops before its last field is
    complete is refused with [ErrTruncatedData], wherever it stops. *)
Theorem DecodeConnect_truncated p data :
  valid_connect p → cut_of data (connect_wire p) →
  DecodeConnect data = Err ErrTruncatedData.
Proof.
  intros (Hname & Hlevel & Hf & Hka & Hp) Hcut. unfold DecodeConnect, connect_body.
  eapply (cut_bind _ (truncated ReadUTF8String)); [|exact Hcut|]; [done|].
  intros bs1 Hcut1. rewrite bool_decide_eq_false_2 by tauto.
  eapply (cut_bind _ (truncated ReadByte)); [|exact Hcut1|]; [done|].
  intros bs2 Hcut2. rewrite bool_decide_eq_false_2 by tauto.
  eapply (cut_bind _ (truncated ReadByte)); [|exact Hcut2|]; [done|].
  intros bs3 Hcut3. rewrite Hf.
  eapply (cut_bind _ (keepAliveBuf ← truncated (ReadFull 2); mret (Uint16 keepAliveBuf)));
    [|exact Hcut3|]; [done|].
  intros bs4 Hcut4.
  pose proof (connect_payload_format (connect_header "MQTT" x04 (ConnectFlags p) (KeepAlive p))).
  destruct (format_cut (connect_payload _) p bs4) as (e & r' & He); [|exact Hcut4|].
  { split; [done|exact Hp]. }
  rewrite He. by apply only_err in He as ->.
Qed.

Definition sample_connect : ConnectPacket :=
  {| ProtocolName := "MQTT"; ProtocolLevel := x04; ConnectFlags := xc2; KeepAlive := 60;
     ClientID := "m1"; WillTopic := ""; WillMessage := []; Username := "u"; Password := [x70] |}.

Lemma DecodeConnect_truncated_witness :
  DecodeConnect (take 15 (connect_wire sample_connect)) = Err ErrTruncatedData.
Proof.
  apply (DecodeConnect_truncated sample_connect).
  - vm_compute. repeat split; discriminate.
  - exists x01, (drop 16 (connect_wire sample_connect)). vm_compute. reflexivity.
Defined.

(** ** The wire format of PUBLISH *)

Definition publish_wire (p : PublishPacket) : list byte :=
  WriteUTF8String (TopicName p) ++ when (QoS p >? 0) (PutUint16 (PacketID p)) ++ Payload p.

Definition publish_flags (p : PublishPacket) : Z :=
  8 * Z.b2z (DUP p) + 2 * QoS p + Z.b2z (Retain p).

Definition valid_publish (p : PublishPacket) : Prop :=
  0 ≤ QoS p ≤ 2 ∧ TopicName p ≠ ""%string ∧ short (bytes_of (TopicName p)) ∧
  (if QoS p >? 0 then is_uint16 (PacketID p) else PacketID p = 0).

#[export] Instance read_rest_format_E : OnlyErr ErrTruncatedData read_rest.
Proof.
  intros r e r'. unfold read_rest. case_decide; [|done].
  apply (only_err (m := truncated _)).
Qed.

Lemma read_rest_run data : read_rest (NewReader data) = (Ok data, NewReader []).
Proof.
  unfold read_rest. case_decide as Hd.
  - apply (format_spec (m := truncated (ReadFull _))). by rewrite <-NewReader_push.
  - destruct data; [done|]. unfold Len in Hd; simpl in Hd. lia.
Qed.

Lemma publish_body_spec dup qos retain data p :
  (publish_body dup qos retain (NewReader data)).1 = Ok p ↔
  DUP p = dup ∧ QoS p = qos ∧ Retain p = retain ∧ TopicName p ≠ ""%string ∧
  short (bytes_of (TopicName p)) ∧
  (if qos >? 0 then is_uint16 (PacketID p) else PacketID p = 0) ∧ data = publish_wire p.
Proof.
  unfold publish_wire, when. split.
  - destruct (publish_body _ _ _ _) as [x r'] eqn:H; simpl. intros ->. revert H.
    unfold publish_body. read_step. intros (t & r1 & ? & Hr & Hrest). revert Hrest.
    case_bool_decide; [done|]. read_step. intros (id & [rest e] & ? & -> & Hrest).
    rewrite <-push_app in Hr. injection Hr as -> <-. revert Hrest.
    change (Reader rest EOF) with (NewReader rest).
    unfold mbind at 1, io_bind. rewrite (read_rest_run rest), ret_Ok.
    intros [<- _]. simpl. by rewrite (assoc_L (++)).
  - destruct p as [d q rt t id pl]; cbn. intros (-> & -> & -> & ? & ? & Hid & ->).
    assert (∃ r', publish_body dup qos retain
      (NewReader (WriteUTF8String t ++ (if qos >? 0 then PutUint16 id else []) ++ pl)) =
      (Ok {| DUP := dup; QoS := qos; Retain := retain; TopicName := t;
             PacketID := id; Payload := pl |}, r')) as [r' ->]; [|done].
    exists (NewReader []). unfold publish_body. rewrite NewReader_push, !push_app.
    read_step. exists t. eexists. do 2 (split; [done|]).
    rewrite bool_decide_eq_false_2 by done.
    read_step. exists id. eexists. do 2 (split; [done|]).
    rewrite <-NewReader_push. unfold mbind, io_bind. by rewrite read_rest_run.
Qed.

Definition publish_qos (header : FixedHeader) : Z := Z.land (Z.shiftr (Flags header) 1) 0x03.

Lemma publish_flags_split flags : 0 ≤ flags < 16 →
  flags = 8 * Z.b2z (negb (Z.land flags 0x08 =? 0)) +
          2 * Z.land (Z.shiftr flags 1) 0x03 + Z.b2z (negb (Z.land flags 0x01 =? 0)) ∧
  0 ≤ Z.land (Z.shiftr flags 1) 0x03 ≤ 3.
Proof. revert flags. apply (flags_cases (λ flags, _ ∧ _)). repeat constructor; done. Qed.

Lemma DecodePublish_accepts header p : 0 ≤ Flags header < 16 →
  valid_publish p → Flags header = publish_flags p → DecodePublish header (publish_wire p) = Ok p.
Proof.
  intros [Hsplit Hqos]%publish_flags_split (? & ? & ? & ?) Hf.
  unfold DecodePublish, publish_flags in *.
  set (q := Z.land (Z.shiftr (Flags header) 1) 3) in *.
  set (d := negb (Z.land (Flags header) 8 =? 0)) in *.
  set (t := negb (Z.land (Flags header) 1 =? 0)) in *. clearbody q d t.
  rewrite Hf in Hsplit.
  assert (QoS p = q ∧ DUP p = d ∧ Retain p = t) as (<- & <- & <-)
    by (destruct d, t, (DUP p), (Retain p); simpl in *; split_and!; lia || done).
  destruct (Z.eqb_spec (QoS p) 3); [lia|]. by apply publish_body_spec.
Qed.

(** C32: [DecodePublish] succeeds exactly on the PUBLISH wire format: it
    returns [p] iff the four header flags encode [p]'s DUP, QoS and RETAIN,
    [p] has a QoS of 0, 1 or 2 and a non-empty topic, carries a packet
    identifier exactly when its QoS is positive, and the data is the topic,
    that identifier and the payload. *)
Theorem DecodePublish_spec header data p :
  0 ≤ Flags header < 16 →
  DecodePublish header data = Ok p ↔
  valid_publish p ∧ Flags header = publish_flags p ∧ data = publish_wire p.
Proof.
  intros Hflags. split; [|intros (? & ? & ->); by apply DecodePublish_accepts].
  apply publish_flags_split in Hflags as [Hsplit Hqos].
  unfold DecodePublish, publish_flags, valid_publish.
  destruct (Z.eqb_spec (Z.land (Z.shiftr (Flags header) 1) 3) 3); [done|].
  rewrite publish_body_spec. intros (-> & Hq & -> & ? & ? & ? & ?). rewrite <-Hq in *.
  repeat split; done || lia.
Qed.

Lemma DecodePublish_spec_witness :
  let header := {| Type_ := PUBLISH; Flags := 2; RemainingLength := 6 |} in
  let p := {| DUP := false; QoS := 1; Retain := false; TopicName := "a"; PacketID := 7;
              Payload := [x31] |} in
  DecodePublish header [x00; x01; x61; x00; x07; x31] = Ok p ∧
  publish_wire p = [x00; x01; x61; x00; x07; x31].
Proof.
  intros header p. split; [|vm_compute; reflexivity].
  apply (DecodePublish_spec header); [simpl; lia|].
  split; [|split; [reflexivity|vm_compute; reflexivity]].
  split; [simpl; lia|]. split; [discriminate|]. split; [reflexivity|]. simpl. unfold is_uint16. lia.
Defined.

(** ** PUBLISH errors *)

Lemma ReadUTF8String_run data :
  let n := Z.to_nat (Uint16 (take 2 data)) in
  if decide (2 ≤ length data ∧ 2 + n ≤ length data)%nat then
    ReadUTF8String (NewReader data) =
      (Ok (string_of (take n (drop 2 data))), NewReader (drop (2 + n) data))
  else ∃ e r', ReadUTF8String (NewReader data) = (Err e, r').
Proof.
  intros n. case_decide as Hd.
  - rewrite <-(take_drop 2 data) at 1. rewrite <-(take_drop n (drop 2 data)) at 1.
    rewrite drop_drop. set (lenBuf := take 2 data) in *.
    assert (length lenBuf = 2%nat) as [Hu Hp]%Uint16_field by (unfold lenBuf; rewrite length_take; lia).
    apply format_spec. unfold short, WriteUTF8String, len. rewrite bytes_of_string_of.
    rewrite length_take, length_drop, Nat.min_l by lia. unfold n, is_uint16 in *.
    rewrite Z2Nat.id, Z.mod_small, Hp by lia. split; [lia|].
    unfold push, NewReader; simpl. by rewrite (assoc_L (++)).
  - destruct (ReadUTF8String _) as [[s|e] r'] eqn:H; [|eauto]. exfalso.
    apply format_spec in H as [Hs Hdata%(f_equal buffered)]. apply Hd.
    change (data = WriteUTF8String s ++ buffered r') in Hdata.
    unfold short, len in Hs. unfold WriteUTF8String, len in Hdata.
    rewrite Z.mod_small, <-(assoc_L (++)) in Hdata by lia.
    assert (Uint16 (take 2 data) = Z.of_nat (length (bytes_of s))) as Hu.
    { rewrite Hdata, take_app_exact' by done. apply Uint16_PutUint16. unfold is_uint16. lia. }
    unfold n. rewrite Hu, Nat2Z.id, Hdata, !length_app, length_PutUint16. lia.
Qed.

(** the errors of [DecodePublish], completely: QoS 3 is an invalid QoS;
    otherwise data that stops inside the topic, or inside the packet
    identifier that a positive QoS requires, is truncated data, and a topic of
    length 0 is an empty topic name. *)
Theorem DecodePublish_errors header data e :
  DecodePublish header data = Err e ↔
  if decide (publish_qos header = 3) then e = ErrInvalidQoS
  else
    let n := Uint16 (take 2 data) in
    if decide (len data < 2 ∨ len data < 2 + n) then e = ErrTruncatedData
    else if decide (n = 0) then e = ErrEmptyTopicName
    else 0 < publish_qos header ∧ len data < 4 + n ∧ e = ErrTruncatedData.
Proof.
  unfold DecodePublish, publish_qos. set (q := Z.land (Z.shiftr (Flags header) 1) 3).
  destruct (Z.eqb_spec q 3) as [->|Hq].
  { rewrite decide_True by done. naive_solver. }
  rewrite decide_False by done. cbn zeta.
  pose proof (ReadUTF8String_run data) as Hrun. cbn zeta in Hrun.
  set (n := Uint16 (take 2 data)) in *. unfold publish_body, len, mbind, io_bind.
  assert (Hn : len data < 2 ∨ 0 ≤ n).
  { destruct data as [|b0 [|b1 rest]]; [by left|by left|right]. apply Uint16_range. }
  unfold len in Hn. unfold truncated at 1, wrap_err at 1.
  case_decide as Hd.
  - rewrite Hrun. rewrite decide_False by lia. simpl.
    assert (length (take (Z.to_nat n) (drop 2 data)) = Z.to_nat n) as Hlen
      by (rewrite length_take, length_drop; lia).
    case_bool_decide as Hs.
    + apply (f_equal bytes_of) in Hs. rewrite bytes_of_string_of in Hs.
      rewrite Hs in Hlen. simpl in Hlen. rewrite decide_True by lia.
      unfold throw. simpl. naive_solver.
    + rewrite decide_False.
      2: { intros ->. apply Hs. by rewrite (nil_length_inv _ Hlen). }
      rewrite Z.gtb_ltb. destruct (Z.ltb_spec 0 q) as [Hpos|Hneg].
      * unfold truncated, wrap_err, ReadFull at 1, Len; simpl. rewrite length_drop.
        case_decide as H2; simpl.
        -- change (Reader ?l EOF) with (NewReader l). rewrite read_rest_run. simpl.
           split; [done|]. intros (_ & ? & _). lia.
        -- split; [|naive_solver]. intros [= <-]. split_and!; [done|lia|done].
      * simpl. rewrite read_rest_run. simpl. split; [done|]. intros. lia.
  - destruct Hrun as (e' & r' & ->). rewrite decide_True by lia. simpl. naive_solver.
Qed.

(** ** The wire format of SUBSCRIBE *)

Definition subscriptions_wire (subs : list Subscription) : list byte :=
  concat (subscription_bytes <$> subs).

Lemma length_subscriptions_wire subs : subs ≠ [] → (3 ≤ length (subscriptions_wire subs))%nat.
Proof.
  destruct subs as [|s subs]; [done|]. intros _.
  change (subscriptions_wire (s :: subs)) with (subscription_bytes s ++ subscriptions_wire subs).
  unfold subscription_bytes. rewrite !length_app, length_WriteUTF8String. simpl. lia.
Qed.

Definition subscribe_wire (p : SubscribePacket) : list byte :=
  PutUint16 (SubPacketID p) ++ subscriptions_wire (Subscriptions p).

Lemma subscriptions_loop_eq r subs :
  subscriptions_loop r subs =
  if decide (0 < Len r)%nat then
    match read_subscription r with
    | (Ok sub, r') => subscriptions_loop r' (subs ++ [sub])
    | (Err e, _) => Err e
    end
  else Ok subs.
Proof.
  rewrite subscriptions_loop_equation_1. case_decide as Hd; [|done].
  unfold subscriptions_loop_unfold_clause_1.
  destruct (inspect (read_subscription r)) as [[[sub|e] r'] Hr]; cbn; by rewrite Hr.
Qed.

Lemma subscriptions_loop_spec data subs subs' :
  subscriptions_loop (NewReader data) subs = Ok subs' ↔
  ∃ new, subs' = subs ++ new ∧ Forall valid_subscription new ∧ data = subscriptions_wire new.
Proof.
  remember (length data) as k eqn:Hk. revert data Hk subs.
  induction k as [k IH] using lt_wf_ind. intros data -> subs.
  rewrite subscriptions_loop_eq. case_decide as Hd; unfold Len in Hd; simpl in Hd.
  - destruct (read_subscription _) as [[sub|e] r'] eqn:Hr.
    + pose proof (read_subscription_shrinks _ _ _ Hr) as Hlt. unfold Len in Hlt; simpl in Hlt.
      apply format_spec in Hr as [Hsub Hr]. destruct r' as [rest e].
      pose proof (f_equal ending Hr) as He. simpl in He. subst e.
      apply (f_equal buffered) in Hr. change (data = subscription_bytes sub ++ rest) in Hr.
      change (Reader rest EOF) with (NewReader rest). rewrite (IH (length rest)) by done. split.
      * intros (new & -> & ? & ->). exists (sub :: new). rewrite <-(assoc_L (++)).
        split_and!; [done|by constructor|exact Hr].
      * intros ([|sub' new] & -> & Hnew & Hdata).
        { rewrite Hdata in Hd. simpl in Hd. lia. }
        apply Forall_cons in Hnew as [Hsub' Hnew].
        change (data = subscription_bytes sub' ++ subscriptions_wire new) in Hdata.
        assert (read_subscription (NewReader data) = (Ok sub', NewReader (subscriptions_wire new)))
          as H1 by (apply format_spec; by rewrite Hdata).
        assert (read_subscription (NewReader data) = (Ok sub, NewReader rest))
          as H2 by (apply format_spec; by rewrite Hr).
        rewrite H1 in H2. injection H2 as -> <-.
        exists new. by rewrite <-(assoc_L (++)).
    + split; [done|]. intros ([|sub new] & -> & Hnew & Hdata).
      { rewrite Hdata in Hd. simpl in Hd. lia. }
      apply Forall_cons in Hnew as [Hsub Hnew].
      assert (read_subscription (NewReader data) = (Ok sub, NewReader (subscriptions_wire new)))
        as H1 by (apply format_spec; by rewrite Hdata).
      by rewrite H1 in Hr.
  - destruct data; [|simpl in Hd; lia]. split.
    + intros [= <-]. exists []. by rewrite (right_id_L [] (++)).
    + intros ([|sub new] & -> & _ & Hdata); [by rewrite (right_id_L [] (++))|done].
Qed.

Lemma DecodeSubscribe_sound data p : DecodeSubscribe data = Ok p →
  is_uint16 (SubPacketID p) ∧ Forall valid_subscription (Subscriptions p) ∧
  Subscriptions p ≠ [] ∧ data = subscribe_wire p.
Proof.
  unfold DecodeSubscribe, subscribe_wire.
  destruct (len data <? 5); [done|].
  destruct (truncated _ _) as [[pidBuf|e] r] eqn:Hr; [|done]. rewrite bind_Ok.
  apply format_spec in Hr as [[Hu Hp]%Uint16_field Hr]. destruct r as [rest e].
  pose proof (f_equal ending Hr) as He. simpl in He. subst e.
  apply (f_equal buffered) in Hr. change (data = pidBuf ++ rest) in Hr.
  change (Reader rest EOF) with (NewReader rest).
  intros (subs & Hsubs & Hok). apply subscriptions_loop_spec in Hsubs as (new & -> & ? & ->).
  simpl in Hok. destruct new as [|sub new]; [done|]. injection Hok as <-.
  cbn. rewrite Hp. done.
Qed.

Lemma DecodeSubscribe_accepts p : is_uint16 (SubPacketID p) →
  Forall valid_subscription (Subscriptions p) → Subscriptions p ≠ [] →
  DecodeSubscribe (subscribe_wire p) = Ok p.
Proof.
  unfold DecodeSubscribe, subscribe_wire.
  remember (PutUint16 (SubPacketID p) ++ subscriptions_wire (Subscriptions p)) as data eqn:Hdata.
  destruct p as [pid subs]; cbn in *. intros Hpid Hsubs Hne.
  destruct (Z.ltb_spec (len data) 5) as [Hlen|_].
  { exfalso. apply length_subscriptions_wire in Hne. unfold len in Hlen.
    apply (f_equal length) in Hdata. rewrite length_app, length_PutUint16 in Hdata.
    unfold subscriptions_wire in Hne. lia. }
  assert (truncated (ReadFull 2) (NewReader data) =
    (Ok (PutUint16 pid), NewReader (subscriptions_wire subs))) as ->
    by (apply format_spec; by rewrite Hdata).
  apply bind_Ok. exists subs. split; [apply subscriptions_loop_spec; by exists subs|].
  destruct subs; [done|]. by rewrite Uint16_PutUint16.
Qed.

(** [DecodeSubscribe] succeeds exactly on the SUBSCRIBE wire format: it
    returns [p] iff [p] has at least one subscription, each with a topic
    filter shorter than 65536 bytes and a QoS of at most 2, and the data is
    the packet identifier followed by the filters and QoS bytes, with nothing
    left over. *)
Theorem DecodeSubscribe_spec data p :
  DecodeSubscribe data = Ok p ↔
  is_uint16 (SubPacketID p) ∧ Forall valid_subscription (Subscriptions p) ∧
  Subscriptions p ≠ [] ∧ data = subscribe_wire p.
Proof.
  split; [apply DecodeSubscribe_sound|].
  intros (? & ? & ? & ->). by apply DecodeSubscribe_accepts.
Qed.
