(* ===== verification/Framing.v ===== *)
(** * Encoding replies and reading packets off a connection

    [internal/modules/broker/protocol/encoder.go] and [reader.go], and the
    packet builders of [internal/common/testutil/mqtt_packets.go].  A packet
    framed as MQTT prescribes is read back whole, and leaves the rest of the
    stream untouched. *)

From S2P Require Export Decoder.

Local Open Scope Z_scope.

(** ** Encoders (encoder.go) *)

Definition EncodeConnack (sessionPresent : bool) (returnCode : ConnackReturnCode) : list byte :=
  let sp := if sessionPresent then x01 else x00 in
  [x20; x02; sp; return_code_byte returnCode].

Definition EncodePuback (packetID : Z) : list byte :=
  [x40; x02; byte_of (Z.shiftr packetID 8); byte_of (Z.land packetID 0xFF)].

Definition EncodeSuback (packetID : Z) (returnCodes : list byte) : list byte :=
  let remainingLength := 2 + len returnCodes in
  [x90] ++ EncodeRemainingLength remainingLength ++
  [byte_of (Z.shiftr packetID 8); byte_of (Z.land packetID 0xFF)] ++ returnCodes.

Definition EncodePingresp : list byte := [xd0; x00].

(** ** ReadPacket (reader.go) *)

Definition io_read {A} (m : io io_error A) : io error A := wrap_err ErrIO m.

Definition ReadPacket : io error (FixedHeader * list byte) :=
  firstByte ← io_read ReadByte;
  let packetType := packet_type_of (Z.shiftr (uint8 firstByte) 4) in
  let flags := Z.land (uint8 firstByte) 0x0F in
  if bool_decide (packetType = Reserved1) || bool_decide (packetType = Reserved15) then
    throw ErrInvalidPacketType
  else
    remainingLength ← DecodeRemainingLength;
    let header := {| Type_ := packetType; Flags := flags;
                     RemainingLength := remainingLength |} in
    if remainingLength >? 0 then
      data ← io_read (ReadFull (Z.to_nat remainingLength));
      mret (header, data)
    else mret (header, []).

(** ** Packet builders (testutil/mqtt_packets.go) *)

Definition BuildConnectPacket (clientID username password : string) (keepAlive : Z) : list byte :=
  let payload :=
    [x00; x04; x4d; x51; x54; x54] ++ [x04] ++ [xc2] ++
    [byte_of (Z.shiftr keepAlive 8); byte_of (Z.land keepAlive 0xFF)] ++
    WriteUTF8String clientID ++ WriteUTF8String username ++
    [byte_of (Z.shiftr (len (bytes_of password)) 8);
     byte_of (Z.land (len (bytes_of password)) 0xFF)] ++
    bytes_of password in
  [x10] ++ EncodeRemainingLength (len payload) ++ payload.

Definition BuildPublishPacket (topic : string) (payload : list byte) (qos : byte)
    (packetID : Z) : list byte :=
  let data := WriteUTF8String topic ++
    (if uint8 qos >? 0 then
       [byte_of (Z.shiftr packetID 8); byte_of (Z.land packetID 0xFF)] else []) ++
    payload in
  let flags := byte_of (Z.shiftl (uint8 qos) 1) in
  [byte_of (Z.lor 0x30 (uint8 flags))] ++ EncodeRemainingLength (len data) ++ data.

(** [topics] and [qos] are read in step: [qos[i]] panics when it is shorter. *)
Definition BuildSubscribePacket (packetID : Z) (topics : list (string * byte)) : list byte :=
  let data := [byte_of (Z.shiftr packetID 8); byte_of (Z.land packetID 0xFF)] ++
    concat ((λ tq, WriteUTF8String tq.1 ++ [tq.2]) <$> topics) in
  [x82] ++ EncodeRemainingLength (len data) ++ data.

(** ** Frames *)

Definition frame (t : PacketType) (flags : Z) (data : list byte) : list byte :=
  [first_byte t flags] ++ EncodeRemainingLength (len data) ++ data.

Definition frame_header (t : PacketType) (flags : Z) (data : list byte) : FixedHeader :=
  {| Type_ := t; Flags := flags; RemainingLength := len data |}.

Definition reserved (t : PacketType) : Prop := t = Reserved1 ∨ t = Reserved15.
#[export] Instance reserved_dec t : Decision (reserved t).
Proof. unfold reserved. apply _. Defined.

Lemma reserved_test t :
  bool_decide (t = Reserved1) || bool_decide (t = Reserved15) = bool_decide (reserved t).
Proof. by destruct t. Qed.

(** A packet type, flags and data that fit in one packet. *)
Definition frameable (t : PacketType) (flags : Z) (data : list byte) : Prop :=
  ¬ reserved t ∧ 0 ≤ flags < 16 ∧ len data ≤ max_remaining_length.

Lemma frame_read t flags data r : frameable t flags data →
  ReadPacket (push (frame t flags data) r) = (Ok (frame_header t flags data, data), r).
Proof.
  intros (Ht & Hf & Hd). unfold ReadPacket, frame, io_read. rewrite !push_app.
  read_step. exists (first_byte t flags). eexists. do 2 (split; [done|]).
  destruct (first_byte_join t flags Hf) as [-> ->].
  rewrite reserved_test, bool_decide_eq_false_2 by done.
  assert (0 ≤ len data) by (unfold len; lia).
  unfold mbind at 1, io_bind at 1. rewrite DecodeRemainingLength_push by lia.
  rewrite Z.gtb_ltb. destruct (Z.ltb_spec 0 (len data)).
  - read_step. exists data, r. unfold len. by rewrite Nat2Z.id.
  - destruct data; [|unfold len in *; simpl in *; lia]. by rewrite push_nil.
Qed.

(** What a successful read consumed. *)
Lemma ReadPacket_Ok r header data r' :
  ReadPacket r = (Ok (header, data), r') →
  ∃ field, ending r = ending r' ∧
    buffered r = [first_byte (Type_ header) (Flags header)] ++ field ++ data ++ buffered r' ∧
    (1 ≤ length field ≤ 4)%nat ∧ field_value field = RemainingLength header ∧
    RemainingLength header = len data ∧ ¬ reserved (Type_ header) ∧ 0 ≤ Flags header < 16.
Proof.
  unfold ReadPacket. unfold io_read at 1. read_step.
  intros (b & r1 & _ & -> & H). revert H. rewrite reserved_test.
  case_bool_decide as Hres; [done|]. unfold mbind at 1, io_bind at 1.
  unfold DecodeRemainingLength. rewrite (decode_loop_spec 0) by lia.
  unfold remaining_length_spec. destruct r1 as [buf fin]; cbn [buffered ending].
  case_decide as Hn; [case_decide; done|]. case_decide as Hl; [|done].
  rewrite Z.mul_1_l. cbn zeta. set (field := take (S (leading buf)) buf).
  set (rest := drop (S (leading buf)) buf).
  assert (buf = field ++ rest) as Hbuf by (symmetry; apply take_drop).
  assert (length field = S (leading buf)) as Hfield by (unfold field; rewrite length_take; lia).
  clearbody field rest. rewrite Z.add_0_l. pose proof (field_value_nonneg field).
  pose proof (first_byte_split b). pose proof (land_flags_range b).
  rewrite Z.gtb_ltb. destruct (Z.ltb_spec 0 (field_value field)).
  - read_step. setoid_rewrite ret_Ok. intros (data' & r2 & Hlen & Hr & [= <- <-] & <-).
    destruct r2 as [rest' fin']. injection Hr as -> ->.
    exists field. simpl. unfold len. rewrite Hlen, Z2Nat.id by lia.
    split_and!; subst; try done; try lia. simpl. by f_equal.
  - rewrite ret_Ok. intros [[= <- <-] <-]. exists field. simpl.
    split_and!; subst; try done; try lia; [by f_equal|unfold len; simpl; lia].
Qed.

(** C30: reading a framed packet returns its type, flags, length and data and
    leaves the following bytes of the stream untouched; a reserved packet
    type is refused, and so is data longer than 268435455 bytes. *)
Theorem ReadPacket_frame t flags data r :
  0 ≤ flags < 16 →
  if decide (reserved t) then (ReadPacket (push (frame t flags data) r)).1 = Err ErrInvalidPacketType
  else if decide (len data ≤ max_remaining_length) then
    ReadPacket (push (frame t flags data) r) = (Ok (frame_header t flags data, data), r)
  else (ReadPacket (push (frame t flags data) r)).1 = Err ErrMalformedRemainingLength.
Proof.
  intros Hf.
  assert (io_read ReadByte (push (frame t flags data) r) = (Ok (first_byte t flags),
    push (EncodeRemainingLength (len data)) (push data r))) as Hbyte.
  { unfold io_read. apply format_spec. unfold frame. by rewrite <-!push_app. }
  destruct (first_byte_join t flags Hf) as [Ht Hfl].
  case_decide as Hres; [|case_decide as Hlen; [by apply frame_read|]].
  - unfold ReadPacket, mbind, io_bind. rewrite Hbyte, Ht, reserved_test.
    by rewrite bool_decide_eq_true_2 by done.
  - unfold ReadPacket, mbind, io_bind. rewrite Hbyte, Ht, reserved_test.
    rewrite bool_decide_eq_false_2 by done. unfold DecodeRemainingLength; simpl. change 1 with (128 ^ Z.of_nat 0).
    destruct (decode_encode_long 0 0 (len data) (data ++ buffered r) (ending r)) as [r' Hr'];
      [lia| |by rewrite Hr'].
    unfold max_remaining_length in Hlen. simpl. lia.
Qed.

Lemma ReadPacket_frame_witness :
  0 ≤ 2 < 16 ∧ ReadPacket (push (frame SUBSCRIBE 2 [x00; x0a]) (NewReader [x30])) =
    (Ok (frame_header SUBSCRIBE 2 [x00; x0a], [x00; x0a]), NewReader [x30]).
Proof.
  split; [lia|].
  pose proof (ReadPacket_frame SUBSCRIBE 2 [x00; x0a] (NewReader [x30]) ltac:(lia)) as H.
  rewrite decide_False in H by (intros []; discriminate).
  rewrite decide_True in H by (vm_compute; discriminate). exact H.
Defined.

(** what [ReadPacket] returns is what the stream held: the bytes it
    consumed are the packet's type and flags, a length field of at most four
    bytes whose value is the number of data bytes, and the data; nothing else
    is consumed, and no reserved type is returned. *)
Theorem ReadPacket_sound r header data r' :
  ReadPacket r = (Ok (header, data), r') →
  ∃ field, r = push ([first_byte (Type_ header) (Flags header)] ++ field ++ data) r' ∧
    (1 ≤ length field ≤ 4)%nat ∧ field_value field = len data ∧
    RemainingLength header = len data ∧ ¬ reserved (Type_ header) ∧ 0 ≤ Flags header < 16.
Proof.
  intros (field & He & Hb & Hl & Hv & Hr & Hres & Hf)%ReadPacket_Ok. exists field.
  split_and!; try done; try lia. destruct r, r'; simpl in *. subst.
  unfold push; simpl. by rewrite <-(assoc_L (++)).
Qed.

Lemma ReadPacket_sound_witness :
  ∃ field, NewReader [xc0; x80; x00; x30] = push ([xc0] ++ field ++ []) (NewReader [x30]) ∧
    field_value field = 0.
Proof.
  destruct (ReadPacket_sound (NewReader [xc0; x80; x00; x30]) (frame_header PINGREQ 0 []) []
    (NewReader [x30])) as (field & Hr & _ & Hv & _).
  - vm_compute. reflexivity.
  - exists field. split; [exact Hr|exact Hv].
Defined.

Lemma ReadPacket_shrinks r header data r' :
  ReadPacket r = (Ok (header, data), r') → (2 + length data + Len r' ≤ Len r)%nat.
Proof.
  intros (field & _ & Hb & Hl & _)%ReadPacket_Ok. unfold Len. rewrite Hb.
  rewrite !length_app. simpl. lia.
Qed.

(** ** Replies *)

Lemma EncodeConnack_frame sp rc :
  EncodeConnack sp rc = frame CONNACK 0 [if sp then x01 else x00; return_code_byte rc].
Proof. by destruct sp, rc. Qed.

Lemma EncodePuback_frame id : EncodePuback id = frame PUBACK 0 (PutUint16 id).
Proof. done. Qed.

Lemma EncodeSuback_frame id codes :
  EncodeSuback id codes = frame SUBACK 0 (PutUint16 id ++ codes).
Proof.
  unfold EncodeSuback, frame, len. rewrite length_app, length_PutUint16.
  by rewrite Nat2Z.inj_add.
Qed.

Lemma EncodePingresp_frame : EncodePingresp = frame PINGRESP 0 [].
Proof. done. Qed.

(** every reply the broker writes is one well-formed MQTT packet: a client
    that reads it with the same framing gets a CONNACK, PUBACK, SUBACK or
    PINGRESP carrying the return code, the packet identifier and the
    subscription return codes, and the stream continues right after it. *)
Theorem replies_framed sp rc id codes r :
  2 + len codes ≤ max_remaining_length →
  ReadPacket (push (EncodeConnack sp rc) r) =
    (Ok (frame_header CONNACK 0 [if sp then x01 else x00; return_code_byte rc],
         [if sp then x01 else x00; return_code_byte rc]), r) ∧
  ReadPacket (push (EncodePuback id) r) =
    (Ok (frame_header PUBACK 0 (PutUint16 id), PutUint16 id), r) ∧
  ReadPacket (push (EncodeSuback id codes) r) =
    (Ok (frame_header SUBACK 0 (PutUint16 id ++ codes), PutUint16 id ++ codes), r) ∧
  ReadPacket (push EncodePingresp r) = (Ok (frame_header PINGRESP 0 [], []), r).
Proof.
  intros Hlen. rewrite EncodeConnack_frame, EncodePuback_frame, EncodeSuback_frame,
    EncodePingresp_frame.
  assert (∀ t data, ¬ reserved t → len data ≤ max_remaining_length → frameable t 0 data) as Hok
    by (intros; split_and!; done || lia).
  split_and!; apply frame_read, Hok; unfold reserved, len, max_remaining_length in *;
    rewrite ?length_app, ?length_PutUint16; simpl in *; try lia; by intros [].
Qed.

Lemma replies_framed_witness :
  2 + len [x00; x80] ≤ max_remaining_length ∧
  ReadPacket (push (EncodeSuback 10 [x00; x80]) (NewReader [x30])) =
    (Ok (frame_header SUBACK 0 (PutUint16 10 ++ [x00; x80]), [x00; x0a; x00; x80]),
     NewReader [x30]).
Proof.
  split; [vm_compute; discriminate|].
  apply (replies_framed false ConnAccepted 10 [x00; x80] (NewReader [x30])).
  vm_compute; discriminate.
Defined.

(** ** Built packets *)

Lemma BuildPublishPacket_frame topic payload qos id : uint8 qos ≤ 2 →
  BuildPublishPacket topic payload qos id =
  frame PUBLISH (2 * uint8 qos)
    (publish_wire {| DUP := false; QoS := uint8 qos; Retain := false; TopicName := topic;
                     PacketID := id; Payload := payload |}).
Proof.
  intros Hq. unfold BuildPublishPacket, frame, publish_wire, when; cbn [QoS TopicName PacketID Payload].
  f_equal. f_equal. revert Hq. revert qos.
  apply (byte_forall (λ qos, _ → _)). by vm_compute.
Qed.

Lemma BuildConnectPacket_frame id user pass keepAlive : is_uint16 keepAlive →
  short (bytes_of pass) →
  let p := {| ProtocolName := "MQTT"; ProtocolLevel := x04; ConnectFlags := xc2;
              KeepAlive := keepAlive; ClientID := id; WillTopic := ""; WillMessage := [];
              Username := user; Password := bytes_of pass |} in
  BuildConnectPacket id user pass keepAlive = frame CONNECT 0 (connect_wire p).
Proof.
  intros Hka Hpass p. unfold BuildConnectPacket, frame.
  assert (Hpay : [x00; x04; x4d; x51; x54; x54] ++ [x04] ++ [xc2] ++
    [byte_of (Z.shiftr keepAlive 8); byte_of (Z.land keepAlive 255)] ++
    WriteUTF8String id ++ WriteUTF8String user ++
    [byte_of (Z.shiftr (len (bytes_of pass)) 8); byte_of (Z.land (len (bytes_of pass)) 255)] ++
    bytes_of pass = connect_wire p).
  { unfold connect_wire, connect_payload_wire, p, binary_field; cbn -[app WriteUTF8String].
    unfold short, len in *.
    rewrite (Z.mod_small (Z.of_nat (length (bytes_of pass)))) by lia. done. }
  by rewrite Hpay.
Qed.

Definition built_subscription (tq : string * byte) : Subscription :=
  {| TopicFilter := tq.1; SubQoS := uint8 tq.2 |}.

Lemma BuildSubscribePacket_frame id topics :
  BuildSubscribePacket id topics =
  frame SUBSCRIBE 2 (subscribe_wire {| SubPacketID := id;
    Subscriptions := built_subscription <$> topics |}).
Proof.
  unfold BuildSubscribePacket, frame, subscribe_wire, subscriptions_wire; cbn [SubPacketID Subscriptions].
  assert ((λ tq : string * byte, WriteUTF8String tq.1 ++ [tq.2]) <$> topics =
    subscription_bytes <$> (built_subscription <$> topics)) as ->; [|done].
  rewrite <-list_fmap_compose. apply list_fmap_ext. intros i [t q] _; simpl.
  unfold subscription_bytes; simpl. by rewrite byte_of_uint8.
Qed.

Lemma length_connect_payload_wire p : valid_payload p →
  len (connect_payload_wire p) ≤ 5 * 65537.
Proof.
  unfold valid_payload, connect_payload_wire, short, len, binary_field, when.
  destruct (HasWill p), (HasUsername p), (HasPassword p); intros (? & ? & ? & ?);
    rewrite ?length_app, ?length_WriteUTF8String, ?length_PutUint16; simpl;
      lia.
Qed.

(** The packets the builders stand for. *)
Definition built_connect (id user pass : string) (keepAlive : Z) : ConnectPacket :=
  {| ProtocolName := "MQTT"; ProtocolLevel := x04; ConnectFlags := xc2; KeepAlive := keepAlive;
     ClientID := id; WillTopic := ""; WillMessage := []; Username := user;
     Password := bytes_of pass |}.

Definition built_publish (topic : string) (payload : list byte) (qos : byte) (id : Z) :
    PublishPacket :=
  {| DUP := false; QoS := uint8 qos; Retain := false; TopicName := topic;
     PacketID := if uint8 qos >? 0 then id else 0; Payload := payload |}.

Lemma BuildConnectPacket_decodes id user pass ka r : is_uint16 ka → short (bytes_of id) →
  short (bytes_of user) → short (bytes_of pass) →
  ∃ header data, ReadPacket (push (BuildConnectPacket id user pass ka) r) = (Ok (header, data), r) ∧
    Type_ header = CONNECT ∧ DecodeConnect data = Ok (built_connect id user pass ka).
Proof.
  unfold max_remaining_length. intros Hka Hid Huser Hpass. rewrite BuildConnectPacket_frame by done.
  set (p := Build_ConnectPacket _ _ _ _ _ _ _ _ _).
  assert (valid_connect p) as Hp by done.
  eexists _, _. split; [apply frame_read|split; [done|]].
  + split_and!; [by intros []|lia|lia|]. destruct Hp as (_ & _ & _ & _ & Hp%length_connect_payload_wire).
    unfold connect_wire, len, max_remaining_length in *.
    rewrite !length_app, length_PutUint16. simpl (length (WriteUTF8String "MQTT")).
    simpl (length [_]). lia.
  + rewrite <-(right_id_L [] (++) (connect_wire p)). by apply DecodeConnect_accepts.
Qed.

Lemma BuildPublishPacket_decodes topic payload qos id r : topic ≠ ""%string →
  short (bytes_of topic) → uint8 qos ≤ 2 → is_uint16 id →
  len payload ≤ max_remaining_length - 65540 →
  ∃ header data, ReadPacket (push (BuildPublishPacket topic payload qos id) r) =
      (Ok (header, data), r) ∧ Type_ header = PUBLISH ∧
    DecodePublish header data = Ok (built_publish topic payload qos id).
Proof.
  unfold max_remaining_length. intros Ht Hs Hq Hid Hlen. rewrite BuildPublishPacket_frame by done.
  pose proof (uint8_range qos).
  eexists _, _. split; [apply frame_read|split; [done|]].
  + split_and!; [by intros []|lia|lia|]. unfold publish_wire, when, short, len, max_remaining_length in *; simpl.
    destruct (uint8 qos >? 0); rewrite ?length_app, ?length_WriteUTF8String, ?length_PutUint16; simpl;
    lia.
  + match goal with |- DecodePublish _ (publish_wire ?p) = Ok ?p' =>
      replace (publish_wire p) with (publish_wire p')
        by (unfold publish_wire, when; simpl; by destruct (uint8 qos >? 0)) end.
    apply DecodePublish_accepts; [simpl; lia| |by unfold publish_flags; simpl; lia].
    unfold valid_publish; simpl. rewrite Z.gtb_ltb.
    destruct (Z.ltb_spec 0 (uint8 qos)); simpl; split_and!; done || lia.
Qed.

Lemma BuildSubscribePacket_decodes id topics r : is_uint16 id → topics ≠ [] →
  Forall (λ tq, short (bytes_of tq.1) ∧ uint8 tq.2 ≤ 2) topics →
  len (subscriptions_wire (built_subscription <$> topics)) ≤ max_remaining_length - 2 →
  ∃ header data, ReadPacket (push (BuildSubscribePacket id topics) r) = (Ok (header, data), r) ∧
    Type_ header = SUBSCRIBE ∧
    DecodeSubscribe data = Ok {| SubPacketID := id;
                                 Subscriptions := built_subscription <$> topics |}.
Proof.
  unfold max_remaining_length. intros Hid Hne Hall Hlen. rewrite BuildSubscribePacket_frame.
  eexists _, _. split; [apply frame_read|split; [done|]].
  + split_and!; [by intros []|lia|lia|].
    unfold subscribe_wire, len, max_remaining_length in *; simpl. lia.
  + apply DecodeSubscribe_accepts; simpl; [done| |by destruct topics].
    apply Forall_fmap. eapply Forall_impl; [exact Hall|]. intros [t q] [??]; simpl.
    pose proof (uint8_range q). simpl in *. by split; [|simpl; lia].
Qed.

(** the CONNECT, PUBLISH and SUBSCRIBE packets a client builds are read
    off the connection and decoded to the values they were built from, with
    the rest of the stream left in place. *)
Theorem built_packets_decode r :
  (∀ id user pass keepAlive, is_uint16 keepAlive → short (bytes_of id) →
    short (bytes_of user) → short (bytes_of pass) →
    ∃ header data, ReadPacket (push (BuildConnectPacket id user pass keepAlive) r) =
      (Ok (header, data), r) ∧ Type_ header = CONNECT ∧
      DecodeConnect data = Ok (built_connect id user pass keepAlive)) ∧
  (∀ topic payload qos id, topic ≠ ""%string → short (bytes_of topic) → uint8 qos ≤ 2 →
    is_uint16 id → len payload ≤ max_remaining_length - 65540 →
    ∃ header data, ReadPacket (push (BuildPublishPacket topic payload qos id) r) =
      (Ok (header, data), r) ∧ Type_ header = PUBLISH ∧
      DecodePublish header data = Ok (built_publish topic payload qos id)) ∧
  (∀ id topics, is_uint16 id → topics ≠ [] →
    Forall (λ tq, short (bytes_of tq.1) ∧ uint8 tq.2 ≤ 2) topics →
    len (subscriptions_wire (built_subscription <$> topics)) ≤ max_remaining_length - 2 →
    ∃ header data, ReadPacket (push (BuildSubscribePacket id topics) r) =
      (Ok (header, data), r) ∧ Type_ header = SUBSCRIBE ∧
      DecodeSubscribe data = Ok {| SubPacketID := id;
        Subscriptions := built_subscription <$> topics |}).
Proof.
  split_and!; intros.
  - by apply BuildConnectPacket_decodes.
  - by apply BuildPublishPacket_decodes.
  - by apply BuildSubscribePacket_decodes.
Qed.
