(* ===== verification/TopicRegistry.v ===== *)
(** * Topic registry

    [internal/modules/broker/topic/registry.go]: the allowed topics and the
    client that owns each one.  Operations are atomic (the source holds the
    registry's mutex in each of them).

    - the owned topics are always allowed topics;
    - [Claim] and [Release] on every branch;
    - mutual exclusion: over any sequence of operations, ownership of a topic
      passes from one client to another only through a release. *)

From S2P Require Export GoStrings.

(** ** Data *)

Inductive topic_error :=
  | ErrInvalidTopicCount
  | ErrEmptyTopic               (* ErrEmptyTopicName of package topic *)
  | ErrTopicOwnedByAnother
  | ErrTopicNotAllowed.

#[export] Instance topic_error_eq_dec : EqDecision topic_error.
Proof. solve_decision. Defined.

Record TopicRegistry := {
  allowed : gset string;
  owners : gmap string string;      (* topic to client ID *)
}.

(** ** Operations *)

(** The loop of [NewTopicRegistry] over the configured names. *)
Fixpoint add_topics (topics : list string) (acc : gset string) : result topic_error (gset string) :=
  match topics with
  | [] => Ok acc
  | t :: topics =>
      let t := TrimSpace t in
      if bool_decide (t = ""%string) then Err ErrEmptyTopic
      else add_topics topics ({[t]} ∪ acc)
  end.

Definition NewTopicRegistry (topics : list string) : result topic_error TopicRegistry :=
  if (length topics =? 0) || (5 <? length topics) then Err ErrInvalidTopicCount
  else
    al ← add_topics topics ∅;
    Ok {| allowed := al; owners := ∅ |}.

Definition IsAllowed (r : TopicRegistry) (topic : string) : bool :=
  bool_decide (topic ∈ allowed r).

Definition Claim (r : TopicRegistry) (topic clientID : string) :
    result topic_error unit * TopicRegistry :=
  if IsAllowed r topic then
    match owners r !! topic with
    | Some owner =>
        if bool_decide (owner ≠ clientID) then (Err ErrTopicOwnedByAnother, r)
        else (Ok (), {| allowed := allowed r; owners := <[topic := clientID]> (owners r) |})
    | None => (Ok (), {| allowed := allowed r; owners := <[topic := clientID]> (owners r) |})
    end
  else (Err ErrTopicNotAllowed, r).

(** [for topic, owner := range r.owners { ... delete(r.owners, topic) }], in
    the order [todo] of the iteration. *)
Fixpoint release_loop (clientID : string) (todo : list (string * string))
    (m : gmap string string) : gmap string string :=
  match todo with
  | [] => m
  | (topic, owner) :: todo =>
      release_loop clientID todo (if bool_decide (owner = clientID) then delete topic m else m)
  end.

Definition Release (r : TopicRegistry) (clientID : string) : TopicRegistry :=
  {| allowed := allowed r;
     owners := release_loop clientID (map_to_list (owners r)) (owners r) |}.

(** [r.owners[topic]]: the empty string when the topic has no owner. *)
Definition Owner (r : TopicRegistry) (topic : string) : string :=
  default ""%string (owners r !! topic).

Definition Topics (r : TopicRegistry) : list string := elements (allowed r).

(** ** Invariant *)

Definition wf_registry (r : TopicRegistry) : Prop := dom (owners r) ⊆ allowed r.

Lemma add_topics_Ok topics acc al :
  add_topics topics acc = Ok al ↔
  Forall (λ t, TrimSpace t ≠ ""%string) topics ∧
  al = acc ∪ list_to_set (TrimSpace <$> topics).
Proof.
  revert acc. induction topics as [|t topics IH]; intros acc; simpl.
  - split; [intros [= <-]|intros [_ ->]]; [split; [done|]|f_equal]; set_solver.
  - case_bool_decide as Ht; [rewrite Forall_cons; naive_solver|].
    rewrite IH, Forall_cons. split; intros [? ->]; split_and?; try done; try tauto; set_solver.
Qed.

(** The loop's result does not depend on the order of the iteration. *)
Lemma release_loop_lookup clientID todo m topic :
  NoDup todo.*1 → (∀ t o, (t, o) ∈ todo → m !! t = Some o) →
  release_loop clientID todo m !! topic =
  if bool_decide ((topic, clientID) ∈ todo) then None else m !! topic.
Proof.
  revert m. induction todo as [|[t o] todo IH]; intros m; simpl; [done|].
  intros [Ht Hnd]%NoDup_cons Hm. rewrite IH; [|done|].
  - destruct (decide (o = clientID)) as [->|Ho].
    + rewrite (bool_decide_eq_true_2 (clientID = clientID)) by done.
      destruct (decide (topic = t)) as [->|Hne].
      * rewrite lookup_delete_eq, (bool_decide_eq_true_2 ((t, clientID) ∈ (t, clientID) :: todo))
          by left.
        by case_bool_decide.
      * rewrite lookup_delete_ne by done.
        by rewrite (bool_decide_ext ((topic, clientID) ∈ (t, clientID) :: todo)
          ((topic, clientID) ∈ todo)) by (rewrite elem_of_cons; naive_solver).
    + rewrite (bool_decide_eq_false_2 (o = clientID)) by done.
      by rewrite (bool_decide_ext ((topic, clientID) ∈ (t, o) :: todo)
        ((topic, clientID) ∈ todo)) by (rewrite elem_of_cons; naive_solver).
  - intros t' o' Hin. assert (t' ≠ t).
    { intros ->. apply Ht. apply list_elem_of_fmap. by exists (t, o'). }
    destruct (bool_decide_reflect (o = clientID)).
    + rewrite lookup_delete_ne by done. apply Hm; by right.
    + apply Hm; by right.
Qed.

Lemma lookup_Release r clientID topic :
  owners (Release r clientID) !! topic =
  (o ← owners r !! topic; if decide (o = clientID) then None else Some o).
Proof.
  simpl. rewrite release_loop_lookup.
  - case_bool_decide as Hin; rewrite elem_of_map_to_list in Hin.
    + rewrite Hin; simpl. by rewrite decide_True.
    + destruct (owners r !! topic) as [o|] eqn:Ho; simpl; [|done].
      rewrite decide_False by congruence. done.
  - apply NoDup_fst_map_to_list.
  - intros t o. apply elem_of_map_to_list.
Qed.

(** What a successful or refused claim leaves. *)
Lemma Claim_Ok r topic clientID r' :
  Claim r topic clientID = (Ok (), r') ↔
  topic ∈ allowed r ∧ (owners r !! topic = None ∨ owners r !! topic = Some clientID) ∧
  allowed r' = allowed r ∧ owners r' = <[topic := clientID]> (owners r).
Proof.
  unfold Claim, IsAllowed. destruct r' as [al' ow']; simpl.
  destruct (bool_decide_reflect (topic ∈ allowed r)); [|naive_solver].
  destruct (owners r !! topic) as [o|]; [|naive_solver].
  destruct (bool_decide_reflect (o ≠ clientID)); [naive_solver|].
  destruct (decide (o = clientID)); naive_solver.
Qed.

Lemma Claim_Err r topic clientID e r' :
  Claim r topic clientID = (Err e, r') ↔
  r' = r ∧ (((¬ topic ∈ allowed r) ∧ e = ErrTopicNotAllowed) ∨
            (topic ∈ allowed r ∧ e = ErrTopicOwnedByAnother ∧
             ∃ o, owners r !! topic = Some o ∧ o ≠ clientID)).
Proof.
  unfold Claim, IsAllowed.
  destruct (bool_decide_reflect (topic ∈ allowed r)); [|naive_solver].
  destruct (owners r !! topic) as [o|]; [|naive_solver].
  destruct (bool_decide_reflect (o ≠ clientID)); naive_solver.
Qed.

(** ** Sequences of operations *)

Inductive topic_op :=
  | OpClaim (topic clientID : string)
  | OpRelease (clientID : string).

#[export] Instance topic_op_eq_dec : EqDecision topic_op.
Proof. solve_decision. Defined.

Definition apply_op (r : TopicRegistry) (op : topic_op) : TopicRegistry :=
  match op with
  | OpClaim topic clientID => (Claim r topic clientID).2
  | OpRelease clientID => Release r clientID
  end.

Definition apply_ops (r : TopicRegistry) (ops : list topic_op) : TopicRegistry :=
  foldl apply_op r ops.

Lemma apply_op_allowed r op : allowed (apply_op r op) = allowed r.
Proof.
  destruct op as [t c|c]; simpl; [|done].
  destruct (Claim r t c) as [[[]|e] r'] eqn:H; simpl.
  - apply Claim_Ok in H. tauto.
  - apply Claim_Err in H as [-> _]. done.
Qed.

Lemma apply_op_wf r op : wf_registry r → wf_registry (apply_op r op).
Proof.
  unfold wf_registry. rewrite apply_op_allowed. intros Hwf. destruct op as [t c|c]; simpl.
  - destruct (Claim r t c) as [[[]|e] r'] eqn:H; simpl.
    + apply Claim_Ok in H as (? & _ & _ & ->). rewrite dom_insert_L. set_solver.
    + by apply Claim_Err in H as [-> _].
  - intros t Ht. apply Hwf. rewrite elem_of_dom in *. destruct Ht as [o Ho].
    change (owners (Release r c) !! t = Some o) in Ho. rewrite lookup_Release in Ho.
    destruct (owners r !! t); [done|done].
Qed.

(** An owner stays until it releases. *)
Lemma apply_op_owner r op topic o :
  owners r !! topic = Some o → op ≠ OpRelease o → owners (apply_op r op) !! topic = Some o.
Proof.
  intros Ho Hop. destruct op as [t c|c].
  - simpl. destruct (Claim r t c) as [[[]|e] r'] eqn:H; simpl.
    + apply Claim_Ok in H as (_ & Hfree & _ & ->).
      destruct (decide (t = topic)) as [->|]; [|by rewrite lookup_insert_ne].
      rewrite lookup_insert_eq. destruct Hfree; congruence.
    + by apply Claim_Err in H as [-> _].
  - change (owners (Release r c) !! topic = Some o). rewrite lookup_Release, Ho. simpl.
    by rewrite decide_False by congruence.
Qed.

Lemma apply_ops_owner r ops topic o :
  owners r !! topic = Some o → OpRelease o ∉ ops → owners (apply_ops r ops) !! topic = Some o.
Proof.
  revert r. induction ops as [|op ops IH]; intros r Ho; simpl; [done|].
  rewrite not_elem_of_cons. intros [??]. apply IH; [by apply apply_op_owner|done].
Qed.

Lemma apply_ops_wf r ops : wf_registry r → wf_registry (apply_ops r ops).
Proof. revert r. induction ops; simpl; eauto using apply_op_wf. Qed.

Lemma apply_ops_allowed r ops : allowed (apply_ops r ops) = allowed r.
Proof.
  revert r. induction ops as [|op ops IH]; intros r; simpl; [done|].
  by rewrite IH, apply_op_allowed.
Qed.

(** ** Properties *)

(** [NewTopicRegistry] accepts exactly one to five names none of which is
    blank, and yields the trimmed names as allowed topics with no owner; from
    there on, whatever claims and releases follow, the allowed topics never
    change and only allowed topics have an owner. *)
Theorem NewTopicRegistry_spec topics r ops :
  NewTopicRegistry topics = Ok r →
  (1 ≤ length topics ≤ 5)%nat ∧ Forall (λ t, TrimSpace t ≠ ""%string) topics ∧
  allowed r = list_to_set (TrimSpace <$> topics) ∧ owners r = ∅ ∧
  allowed (apply_ops r ops) = allowed r ∧
  (∀ topic, Owner (apply_ops r ops) topic ≠ ""%string → IsAllowed r topic = true).
Proof.
  unfold NewTopicRegistry. destruct (Nat.eqb_spec (length topics) 0); [done|].
  destruct (Nat.ltb_spec 5 (length topics)); [done|]. simpl. rewrite bind_Ok.
  intros (al & [Hne ->]%add_topics_Ok & [= <-]).
  rewrite apply_ops_allowed. split_and!; [lia|lia|done|set_solver|done|done|].
  intros t. unfold Owner, IsAllowed. intros Ht. apply bool_decide_eq_true.
  set (r := Build_TopicRegistry _ _) in *.
  assert (wf_registry (apply_ops r ops)) as Hwf.
  { apply apply_ops_wf. unfold wf_registry. simpl. set_solver. }
  unfold wf_registry in Hwf. rewrite apply_ops_allowed in Hwf. apply Hwf, elem_of_dom.
  destruct (owners (apply_ops r ops) !! t); [eauto|done].
Qed.

Lemma NewTopicRegistry_spec_witness :
  Owner (apply_ops {| allowed := {["a"%string]}; owners := ∅ |} [OpClaim "a" "c1"]) "a" = "c1"%string ∧
  IsAllowed {| allowed := {["a"%string]}; owners := ∅ |} "a" = true.
Proof.
  split; [vm_compute; reflexivity|].
  eapply (NewTopicRegistry_spec [" a "%string] {| allowed := {["a"%string]}; owners := ∅ |}
    [OpClaim "a" "c1"]).
  - vm_compute. reflexivity.
  - vm_compute. discriminate.
Defined.

(** the outcome of a claim on every branch: it succeeds exactly on an
    allowed topic that is free or already the client's, and then makes the
    client its owner and touches no other topic; otherwise the registry is
    unchanged and the error says whether the topic is not allowed or has
    another owner. *)
Theorem Claim_spec r topic clientID :
  let '(res, r') := Claim r topic clientID in
  match res with
  | Ok _ => IsAllowed r topic = true ∧
      (owners r !! topic = None ∨ owners r !! topic = Some clientID) ∧
      Owner r' topic = clientID ∧ (∀ t, t ≠ topic → Owner r' t = Owner r t)
  | Err ErrTopicNotAllowed => IsAllowed r topic = false ∧ r' = r
  | Err ErrTopicOwnedByAnother => IsAllowed r topic = true ∧ r' = r ∧
      ∃ o, owners r !! topic = Some o ∧ o ≠ clientID
  | Err _ => False
  end.
Proof.
  destruct (Claim r topic clientID) as [[[]|e] r'] eqn:H.
  - apply Claim_Ok in H as (? & ? & _ & Ho). unfold IsAllowed, Owner. rewrite Ho.
    rewrite lookup_insert_eq. split_and!; [by apply bool_decide_eq_true|done|done|].
    intros t Ht. by rewrite lookup_insert_ne.
  - unfold IsAllowed. apply Claim_Err in H as [-> [[? ->]|(? & -> & ?)]].
    + by rewrite bool_decide_eq_false_2.
    + by rewrite bool_decide_eq_true_2.
Qed.

(** mutual exclusion on a topic: if one client claims a topic and later,
    after any operations, a different client claims the same topic, then the
    first client was released in between. *)
Theorem Claim_exclusive r topic c1 c2 r1 r2 ops :
  Claim r topic c1 = (Ok (), r1) → Claim (apply_ops r1 ops) topic c2 = (Ok (), r2) →
  c1 ≠ c2 → OpRelease c1 ∈ ops.
Proof.
  intros (_ & _ & _ & H1)%Claim_Ok (_ & Hfree & _)%Claim_Ok Hne.
  destruct (decide (OpRelease c1 ∈ ops)) as [|Hno]; [done|]. exfalso.
  assert (owners (apply_ops r1 ops) !! topic = Some c1) as Ho.
  { apply apply_ops_owner; [|done]. rewrite H1. apply lookup_insert_eq. }
  destruct Hfree; congruence.
Qed.

Lemma Claim_exclusive_witness :
  let r := {| allowed := {["a"%string]}; owners := ∅ |} in
  OpRelease "c1" ∈ [OpClaim "a" "c2"; OpRelease "c1"].
Proof.
  intros r. eapply (Claim_exclusive r "a" "c1" "c2").
  - vm_compute. reflexivity.
  - vm_compute. reflexivity.
  - discriminate.
Defined.

(** releasing a client frees exactly the topics it owned, in whatever
    order the iteration over the owners map visits them. *)
Theorem Release_spec r clientID order :
  order ≡ₚ map_to_list (owners r) →
  release_loop clientID order (owners r) = owners (Release r clientID) ∧
  ∀ topic, owners (Release r clientID) !! topic =
    (if decide (owners r !! topic = Some clientID) then None else owners r !! topic).
Proof.
  intros Horder. split.
  - apply map_eq. intros topic. rewrite lookup_Release, release_loop_lookup.
    + destruct (bool_decide_reflect ((topic, clientID) ∈ order)) as [Hin|Hin];
        rewrite Horder, elem_of_map_to_list in Hin.
      * rewrite Hin. simpl. by rewrite decide_True.
      * destruct (owners r !! topic); simpl; [|done]. by rewrite decide_False by congruence.
    + rewrite Horder. apply NoDup_fst_map_to_list.
    + intros t o. rewrite Horder. apply elem_of_map_to_list.
  - intros topic. rewrite lookup_Release. destruct (owners r !! topic) as [o|]; simpl.
    + destruct (decide (o = clientID)), (decide (Some o = Some clientID)); congruence.
    + done.
Qed.

Lemma Release_spec_witness :
  let r := {| allowed := {["a"%string; "b"%string]};
              owners := {["a"%string := "c1"%string; "b"%string := "c2"%string]} |} in
  owners (Release r "c1") = {["b"%string := "c2"%string]} ∧
  release_loop "c1" (rev (map_to_list (owners r))) (owners r) = owners (Release r "c1").
Proof.
  split; [vm_compute; reflexivity|].
  apply (Release_spec _ "c1" (rev (map_to_list _))). symmetry. apply Permutation_rev.
Defined.
