(* ===== verification/Chan.v ===== *)
(** * Go channels and messages

    A buffered channel as a FIFO queue with a capacity, with the two
    operations that can block, and the message that travels through the
    broker's channels ([internal/common/message/message.go]).  An unbuffered
    channel (capacity 0), whose sends meet a waiting receiver, is not
    covered. *)

From S2P Require Export GoTime.

Local Open Scope Z_scope.


(** ** Messages *)

Record Message := {
  MsgClientID : string;         (* field ClientID *)
  MsgTopic : string;            (* field Topic *)
  MsgPayload : list byte;       (* field Payload *)
  Timezone : string;
  Timestamp : Z;
}.

#[export] Instance Message_eq_dec : EqDecision Message.
Proof. solve_decision. Defined.

(** ** Channels *)

Record chan (A : Type) := Chan { capacity : nat; queued : list A }.
Arguments Chan {A} capacity queued.
Arguments capacity {A} c.
Arguments queued {A} c.

Section chan.
Context {A : Type}.
Implicit Types (c : chan A) (x : A).

(** [make(chan A, n)]. *)
Definition make_chan (n : nat) : chan A := Chan n [].

Definition has_room (c : chan A) : bool := bool_decide (length (queued c) < capacity c)%nat.

(** [c <- x] and [<-c]: [None] while the operation blocks. *)
Definition send (x : A) (c : chan A) : option (chan A) :=
  if has_room c then Some (Chan (capacity c) (queued c ++ [x])) else None.

Definition recv (c : chan A) : option (A * chan A) :=
  match queued c with
  | [] => None
  | x :: rest => Some (x, Chan (capacity c) rest)
  end.

Definition chan_ok (c : chan A) : Prop := (length (queued c) ≤ capacity c)%nat.

Lemma send_Some x c c' : send x c = Some c' ↔
  (length (queued c) < capacity c)%nat ∧ c' = Chan (capacity c) (queued c ++ [x]).
Proof. unfold send, has_room. case_bool_decide; naive_solver. Qed.

Lemma recv_Some x c c' : recv c = Some (x, c') ↔
  queued c = x :: queued c' ∧ capacity c' = capacity c.
Proof.
  unfold recv. destruct c as [n [|y q]], c' as [n' q']; simpl; naive_solver.
Qed.

Lemma send_ok x c c' : send x c = Some c' → chan_ok c'.
Proof. intros [? ->]%send_Some. unfold chan_ok; simpl. rewrite length_app; simpl. lia. Qed.

Lemma recv_ok x c c' : chan_ok c → recv c = Some (x, c') → chan_ok c'.
Proof. unfold chan_ok. intros Hc [Hq ->]%recv_Some. rewrite Hq in Hc. simpl in Hc. lia. Qed.
End chan.
