(* ===== verification/ClientManager.v ===== *)
(** * Clients and the client manager

    [internal/modules/broker/connection/client] and [client_manager]: the
    clients with an accepted CONNECT, by client ID, with a limit on their
    number.  Operations are atomic (the source holds the manager's mutex).

    A [*Client] is identified with the connection it was created on: every
    connection creates at most one client.

    - [Add] on every branch, [Remove], [CloseAll];
    - the number of clients stays within the limit under any sequence of
      operations;
    - the deadline [ResetDeadline] sets. *)

From S2P Require Export Chan GoFloat.

Local Open Scope Z_scope.

(** ** Clients (client.go, new_client.go) *)

Definition conn_id := nat.

Record Client := {
  ID : string;
  Conn : conn_id;
  ClientKeepAlive : Z;          (* field KeepAlive *)
  CreatedAt : Z;
  LastSeen : Z;
}.

Definition NewClient (id : string) (conn : conn_id) (keepAlive now : Z) : Client :=
  {| ID := id; Conn := conn; ClientKeepAlive := keepAlive; CreatedAt := now; LastSeen := now |}.

(** [time.Duration(float64(c.KeepAlive)*1.5) * time.Second]. *)
Definition keep_alive_timeout (keepAlive : Z) : Z :=
  wrap64 (Trunc (Fmul (Float64 keepAlive) Fone_half) * Second).

(** [ResetDeadline] with [now] and [now'] the two readings of the clock: the
    client and the deadline it sets on its connection, if any. *)
Definition ResetDeadline (c : Client) (now now' : Z) : Client * option Z :=
  ({| ID := ID c; Conn := Conn c; ClientKeepAlive := ClientKeepAlive c;
      CreatedAt := CreatedAt c; LastSeen := now |},
   if ClientKeepAlive c >? 0 then Some (now' + keep_alive_timeout (ClientKeepAlive c)) else None).

(** ** The manager (client_manager.go, new_client_manager.go) *)

Inductive client_error :=
  | ErrMaxClientsReached
  | ErrClientAlreadyExists
  | ErrConnectionTimeout.

#[export] Instance client_error_eq_dec : EqDecision client_error.
Proof. solve_decision. Defined.

Record ClientManager := {
  clients : gmap string conn_id;
  maxClients : Z;
}.

Definition NewClientManager (maxClients : Z) : ClientManager :=
  {| clients := ∅; maxClients := maxClients |}.

Definition Count (cm : ClientManager) : Z := Z.of_nat (size (clients cm)).

Definition CanAccept (cm : ClientManager) : bool := Count cm <? maxClients cm.

(** [Add] also says which connection [existing.Close()] closed. *)
Definition Add (cm : ClientManager) (c : Client) :
    result client_error unit * ClientManager * option conn_id :=
  if (Count cm >=? maxClients cm) && bool_decide (clients cm !! ID c = None) then
    (Err ErrMaxClientsReached, cm, None)
  else
    (Ok (), {| clients := <[ID c := Conn c]> (clients cm); maxClients := maxClients cm |},
     clients cm !! ID c).

Definition Remove (cm : ClientManager) (clientID : string) : ClientManager :=
  {| clients := delete clientID (clients cm); maxClients := maxClients cm |}.

Definition Get (cm : ClientManager) (clientID : string) : option conn_id :=
  clients cm !! clientID.

(** The loop of [CloseAll], in the order [todo] of the iteration: the
    connections it closes and the entries that are left. *)
Fixpoint close_loop (todo : list (string * conn_id)) (m : gmap string conn_id) :
    list conn_id * gmap string conn_id :=
  match todo with
  | [] => ([], m)
  | (id, c) :: todo =>
      let '(closed, m) := close_loop todo (delete id m) in (c :: closed, m)
  end.

Definition CloseAll (cm : ClientManager) : list conn_id * ClientManager :=
  let '(closed, m) := close_loop (map_to_list (clients cm)) (clients cm) in
  (closed, {| clients := m; maxClients := maxClients cm |}).

(** ** Lemmas *)

Lemma Add_Ok cm c cm' closed :
  Add cm c = (Ok (), cm', closed) ↔
  (Count cm < maxClients cm ∨ is_Some (clients cm !! ID c)) ∧
  clients cm' = <[ID c := Conn c]> (clients cm) ∧ maxClients cm' = maxClients cm ∧
  closed = clients cm !! ID c.
Proof.
  unfold Add. destruct cm' as [m' max']; simpl. rewrite Z.geb_leb.
  destruct (Z.leb_spec (maxClients cm) (Count cm)), (clients cm !! ID c) eqn:Hc; simpl;
    repeat case_bool_decide; try done; unfold is_Some; naive_solver lia.
Qed.

Lemma Add_Err cm c e cm' closed :
  Add cm c = (Err e, cm', closed) ↔
  maxClients cm ≤ Count cm ∧ clients cm !! ID c = None ∧
  e = ErrMaxClientsReached ∧ cm' = cm ∧ closed = None.
Proof.
  unfold Add. rewrite Z.geb_leb.
  destruct (Z.leb_spec (maxClients cm) (Count cm)), (clients cm !! ID c) eqn:Hc; simpl;
    repeat case_bool_decide; try done; naive_solver lia.
Qed.

Lemma close_loop_all todo m :
  close_loop todo m = (todo.*2, foldl (λ (m : gmap string conn_id) (id : string), delete id m) m todo.*1).
Proof.
  revert m. induction todo as [|[id c] todo IH]; intros m; simpl; [done|]. by rewrite IH.
Qed.

Lemma foldl_delete_lookup (todo : list string) (m : gmap string conn_id) id :
  foldl (λ (m : gmap string conn_id) (id : string), delete id m) m todo !! id =
  if bool_decide (id ∈ todo) then None else m !! id.
Proof.
  revert m. induction todo as [|id' todo IH]; intros m; simpl; [done|]. rewrite IH.
  destruct (decide (id = id')) as [->|Hne].
  - rewrite lookup_delete_eq. rewrite (bool_decide_eq_true_2 (id' ∈ id' :: _)) by left.
    by case_bool_decide.
  - rewrite lookup_delete_ne by done.
    by rewrite (bool_decide_ext (id ∈ id' :: todo) (id ∈ todo))
      by (rewrite elem_of_cons; naive_solver).
Qed.

(** ** The limit *)

Inductive client_op :=
  | OpAdd (c : Client)
  | OpRemove (clientID : string)
  | OpCloseAll.

Definition apply_client_op (cm : ClientManager) (op : client_op) : ClientManager :=
  match op with
  | OpAdd c => (Add cm c).1.2
  | OpRemove id => Remove cm id
  | OpCloseAll => (CloseAll cm).2
  end.

Definition within_limit (cm : ClientManager) : Prop := Count cm ≤ maxClients cm.

Lemma CloseAll_clients cm : clients (CloseAll cm).2 = ∅ ∧ maxClients (CloseAll cm).2 = maxClients cm.
Proof.
  unfold CloseAll. rewrite close_loop_all; simpl. split; [|done].
  apply map_eq. intros id. rewrite foldl_delete_lookup, lookup_empty.
  destruct (bool_decide_reflect (id ∈ (map_to_list (clients cm)).*1)) as [|Hin]; [done|].
  apply eq_None_not_Some. intros [c Hc]. apply Hin, list_elem_of_fmap.
  exists (id, c). by rewrite elem_of_map_to_list.
Qed.

Lemma apply_client_op_limit cm op :
  maxClients (apply_client_op cm op) = maxClients cm ∧
  (0 ≤ maxClients cm → within_limit cm → within_limit (apply_client_op cm op)).
Proof.
  unfold within_limit. destruct op as [c|id|]; simpl.
  - destruct (Add cm c) as [[[[]|e] cm'] closed] eqn:HA; simpl.
    + apply Add_Ok in HA as (Hroom & Hc & Hmax & _). split; [done|]. intros _ Hcm.
      unfold Count in *. rewrite Hc, Hmax, map_size_insert.
      destruct Hroom as [|[? Hsome]]; [|by rewrite Hsome].
      destruct (clients cm !! ID c); simpl; lia.
    + apply Add_Err in HA as (_ & _ & _ & -> & _). done.
  - split; [done|]. intros _. unfold Count; simpl. rewrite map_size_delete.
    destruct (clients cm !! id); simpl; lia.
  - destruct (CloseAll_clients cm) as [Hc Hm]. split; [done|].
    unfold Count. rewrite Hc, Hm, map_size_empty. lia.
Qed.

(** ** The keep-alive timeout *)

Lemma keep_alive_timeout_eq k : is_uint16 k → keep_alive_timeout k = 3 * k / 2 * Second.
Proof.
  unfold is_uint16, keep_alive_timeout. intros Hk. rewrite Trunc_one_half by lia.
  apply wrap64_id. unfold is_int64, int64_min, int64_max, Second.
  pose proof (Z.div_pos (3 * k) 2).
  assert (3 * k / 2 ≤ 98303) by (apply Z.div_le_upper_bound; lia). lia.
Qed.

(** ** Properties *)

(** the outcome of [Add] on every branch: a client is refused exactly when
    the limit is reached and its ID is not connected yet, and then nothing
    changes; otherwise it takes the slot of its ID, every other client keeps
    its slot, and the connection that held the slot before, if any, is
    closed. *)
Theorem Add_spec cm c :
  let '(res, cm', closed) := Add cm c in
  maxClients cm' = maxClients cm ∧
  (∀ id, id ≠ ID c → Get cm' id = Get cm id) ∧
  match res with
  | Ok _ => (CanAccept cm = true ∨ is_Some (Get cm (ID c))) ∧
      Get cm' (ID c) = Some (Conn c) ∧ closed = Get cm (ID c)
  | Err e => e = ErrMaxClientsReached ∧ CanAccept cm = false ∧ Get cm (ID c) = None ∧
      cm' = cm ∧ closed = None
  end.
Proof.
  unfold Get, CanAccept. destruct (Add cm c) as [[[[]|e] cm'] closed] eqn:HA.
  - apply Add_Ok in HA as (? & Hc & ? & ?). rewrite Hc, Z.ltb_lt, lookup_insert_eq.
    split_and!; try done. intros id ?. by rewrite lookup_insert_ne.
  - apply Add_Err in HA as (? & ? & ? & -> & ?). rewrite Z.ltb_ge. split_and!; done.
Qed.

(** whatever sequence of additions, removals and shutdowns a new manager
    sees, it never holds more clients than its limit, the limit never
    changes, and it can accept another one exactly when it is below it. *)
Theorem clients_limited max ops :
  0 ≤ max →
  let cm := foldl apply_client_op (NewClientManager max) ops in
  Count cm ≤ max ∧ maxClients cm = max ∧ (CanAccept cm = true ↔ Count cm < max).
Proof.
  intros Hmax cm. unfold CanAccept.
  assert (maxClients cm = max ∧ within_limit cm) as [Hm Hl].
  { unfold cm. assert (maxClients (NewClientManager max) = max ∧
      within_limit (NewClientManager max)) as H0 by done.
    revert H0. generalize (NewClientManager max). induction ops as [|op ops IH]; intros cm0 [? ?]; simpl.
    - done.
    - apply IH. destruct (apply_client_op_limit cm0 op) as [-> ?]. split; [done|]. subst. auto. }
  unfold within_limit in Hl. rewrite Hm in *. by rewrite Z.ltb_lt.
Qed.

Lemma clients_limited_witness :
  let c n := NewClient n 0%nat 60 0 in
  Count (foldl apply_client_op (NewClientManager 1) [OpAdd (c "a"%string); OpAdd (c "b"%string)]) ≤ 1.
Proof. intros c. apply (clients_limited 1). lia. Defined.

(** the deadline of a connection with a positive keep-alive [k] lies
    [k + k/2] whole seconds in the future: one and a half times the
    keep-alive, rounded down to a second, without overflow for any 16-bit
    keep-alive; with keep-alive 0 none is set. *)
Theorem ResetDeadline_spec c now now' :
  is_uint16 (ClientKeepAlive c) →
  (ResetDeadline c now now').2 =
  (if decide (ClientKeepAlive c = 0) then None
   else Some (now' + (3 * ClientKeepAlive c / 2) * Second)).
Proof.
  unfold ResetDeadline. cbn [snd]. intros Hk. rewrite Z.gtb_ltb, keep_alive_timeout_eq by done.
  unfold is_uint16 in Hk.
  case_decide as Hz; destruct (Z.ltb_spec 0 (ClientKeepAlive c)); done || lia.
Qed.

Lemma ResetDeadline_spec_witness :
  (ResetDeadline (NewClient "a" 0%nat 1 0) 5 5).2 = Some (5 + 1 * Second).
Proof. apply (ResetDeadline_spec (NewClient "a" 0%nat 1 0) 5 5). vm_compute. split; [discriminate|reflexivity]. Defined.
