(* ===== verification/Config.v ===== *)
(** * Configuration ([cmd/broker/config/config.go])

    [Load] reads the environment, applies defaults and validates.  The
    environment is a function from names to values ([os.Getenv]: the empty
    string when a variable is not set).  [Load_valid] is what the rest of the broker can rely on, and
    why a configuration is refused; [Load_environ] that every configuration of
    that kind can be written down. *)

From S2P Require Export GoDuration.

Local Open Scope Z_scope.

Record Config := {
  Host : string;
  Port : Z;
  HTTPPort : Z;
  CfgUsername : string;         (* field Username *)
  CfgPassword : string;         (* field Password *)
  CfgTopics : list string;      (* field Topics *)
  MaxClients : Z;
  QueueBufferSize : Z;
  DBPath : string;
  CfgTimezone : string;         (* field Timezone *)
  OEEEnabled : bool;
  OEEStateTopic : string;
  OEETickInterval : Z;
  OEEWSEnabled : bool;
  OEEShiftsPath : string;
}.

Inductive config_error :=
  | ErrTopicsEmpty
  | ErrMaxClientsRange
  | ErrUsernameEmpty
  | ErrPasswordEmpty
  | ErrOEEStateTopicNotInTopics.

#[export] Instance config_error_eq_dec : EqDecision config_error.
Proof. solve_decision. Defined.

(** [fmt.Sprintf("%s:%d", host, port)]. *)
Definition Address (c : Config) : string := Host c ++ ":" ++ Itoa (Port c).
Definition HTTPAddress (c : Config) : string := Host c ++ ":" ++ Itoa (HTTPPort c).

Definition containsTopic (topics : list string) (target : string) : bool :=
  existsb (λ t, bool_decide (t = target)) topics.

Definition parseTopics (raw : string) : list string :=
  List.filter (λ t, negb (bool_decide (t = ""))) (TrimSpace <$> Split raw comma).

Definition validate (c : Config) : option config_error :=
  if bool_decide (CfgTopics c = []) then Some ErrTopicsEmpty
  else if (MaxClients c <? 1) || (5 <? MaxClients c) then Some ErrMaxClientsRange
  else if bool_decide (CfgUsername c = "") then Some ErrUsernameEmpty
  else if bool_decide (CfgPassword c = "") then Some ErrPasswordEmpty
  else if OEEEnabled c && negb (containsTopic (CfgTopics c) (OEEStateTopic c))
  then Some ErrOEEStateTopicNotInTopics
  else None.

Section load.
Variable Getenv : string → string.

(** [v := strings.TrimSpace(os.Getenv(key))]; the fallback when it is empty or
    cannot be parsed. *)
Definition env_parsed {A} (parse : string → option A) (key : string) (fallback : A) : A :=
  let v := TrimSpace (Getenv key) in
  if bool_decide (v = "") then fallback else default fallback (parse v).

Definition envOrDefault : string → string → string := env_parsed Some.
Definition envIntOrDefault : string → Z → Z := env_parsed Atoi.
Definition envBoolOrDefault : string → bool → bool := env_parsed ParseBool.
Definition envDurationOrDefault : string → Z → Z := env_parsed ParseDuration.

Definition Load : result config_error Config :=
  let cfg := {|
    Host := envOrDefault "BROKER_HOST" "0.0.0.0";
    Port := envIntOrDefault "BROKER_PORT" 1883;
    HTTPPort := envIntOrDefault "BROKER_HTTP_PORT" 8080;
    CfgUsername := TrimSpace (Getenv "BROKER_USERNAME");
    CfgPassword := TrimSpace (Getenv "BROKER_PASSWORD");
    MaxClients := envIntOrDefault "BROKER_MAX_CLIENTS" 5;
    QueueBufferSize := envIntOrDefault "BROKER_QUEUE_BUFFER_SIZE" 10000;
    DBPath := envOrDefault "BROKER_DB_PATH" "./data/broker.db";
    CfgTimezone := envOrDefault "BROKER_TIMEZONE" "UTC";
    OEEEnabled := envBoolOrDefault "BROKER_OEE_ENABLED" false;
    OEEStateTopic := envOrDefault "BROKER_OEE_STATE_TOPIC" "machine/state";
    OEETickInterval := envDurationOrDefault "BROKER_OEE_TICK_INTERVAL" Second;
    OEEWSEnabled := envBoolOrDefault "BROKER_OEE_WS_ENABLED" true;
    OEEShiftsPath := TrimSpace (Getenv "BROKER_OEE_SHIFTS_PATH");
    CfgTopics := parseTopics (Getenv "BROKER_TOPICS")
  |} in
  match validate cfg with
  | Some e => Err e
  | None => Ok cfg
  end.
End load.

(** ** What a loaded configuration promises *)

Definition trimmed (s : string) : Prop := TrimSpace s = s.

(** A topic that can be listed: no blank, no surrounding white space, no comma. *)
Definition listed (t : string) : Prop := trimmed t ∧ t ≠ ""%string ∧ comma ∉ bytes_of t.

#[export] Instance listed_dec t : Decision (listed t).
Proof. unfold listed, trimmed. apply _. Defined.

Record valid (c : Config) : Prop := {
  valid_host : trimmed (Host c) ∧ Host c ≠ ""%string;
  valid_ports : is_int64 (Port c) ∧ is_int64 (HTTPPort c);
  valid_credentials : trimmed (CfgUsername c) ∧ CfgUsername c ≠ ""%string ∧
    trimmed (CfgPassword c) ∧ CfgPassword c ≠ ""%string;
  valid_topics : CfgTopics c ≠ [] ∧ Forall listed (CfgTopics c);
  valid_limits : 1 ≤ MaxClients c ≤ 5 ∧ is_int64 (QueueBufferSize c);
  valid_paths : (trimmed (DBPath c) ∧ DBPath c ≠ ""%string) ∧ trimmed (OEEShiftsPath c);
  valid_zone : trimmed (CfgTimezone c) ∧ CfgTimezone c ≠ ""%string;
  valid_oee : (trimmed (OEEStateTopic c) ∧ OEEStateTopic c ≠ ""%string) ∧
    (OEEEnabled c = true → OEEStateTopic c ∈ CfgTopics c);
  valid_tick : is_int64 (OEETickInterval c);
}.

(** Why a configuration is refused. *)
Definition refused_for (Getenv : string → string) (e : config_error) : Prop :=
  match e with
  | ErrTopicsEmpty =>
      Forall (λ p, TrimSpace p = ""%string) (Split (Getenv "BROKER_TOPICS") comma)
  | ErrMaxClientsRange => ∃ n, Atoi (TrimSpace (Getenv "BROKER_MAX_CLIENTS")) = Some n ∧
      ¬ (1 ≤ n ≤ 5)
  | ErrUsernameEmpty => TrimSpace (Getenv "BROKER_USERNAME") = ""%string
  | ErrPasswordEmpty => TrimSpace (Getenv "BROKER_PASSWORD") = ""%string
  | ErrOEEStateTopicNotInTopics =>
      ParseBool (TrimSpace (Getenv "BROKER_OEE_ENABLED")) = Some true ∧
      Forall (λ p, TrimSpace p ≠ envOrDefault Getenv "BROKER_OEE_STATE_TOPIC" "machine/state")
        (Split (Getenv "BROKER_TOPICS") comma)
  end.

(** *** Trimming and splitting *)

Lemma trimmed_TrimSpace s : trimmed (TrimSpace s).
Proof. apply TrimSpace_idem. Qed.

Lemma split_bytes_no_sep sep bs : Forall (λ p, sep ∉ p) (split_bytes sep bs).
Proof.
  induction bs as [|b bs IH]; simpl; [repeat constructor; set_solver|].
  destruct (bool_decide_reflect (b = sep)); [constructor; [set_solver|done]|].
  destruct (split_bytes sep bs) as [|p ps]; [repeat constructor; set_solver|].
  apply Forall_cons in IH as [Hp Hps]. constructor; [set_solver|done].
Qed.

Lemma TrimSpace_incl b s : b ∈ bytes_of (TrimSpace s) → b ∈ bytes_of s.
Proof.
  unfold TrimSpace. rewrite bytes_of_string_of. intros Hb.
  destruct (trim_suffix space1 space2 space3 (bytes_of s)) as [k ->].
  destruct (trim_right_prefix (trim_left (bytes_of s))) as [k' Hk'].
  apply elem_of_app. right. change (trim space1 space2 space3) with trim_left.
  rewrite Hk'. apply elem_of_app. by left.
Qed.

Lemma elem_of_parseTopics t raw :
  t ∈ parseTopics raw ↔ t ≠ ""%string ∧ ∃ p, p ∈ Split raw comma ∧ t = TrimSpace p.
Proof.
  unfold parseTopics. rewrite list_elem_of_In, filter_In, <-list_elem_of_In, list_elem_of_fmap,
    negb_true_iff, bool_decide_eq_false. naive_solver.
Qed.

Lemma parseTopics_listed raw : Forall listed (parseTopics raw).
Proof.
  apply Forall_forall. intros t (Hne & p & Hp & ->)%elem_of_parseTopics.
  split; [apply trimmed_TrimSpace|split; [done|]]. intros Hc%TrimSpace_incl.
  unfold Split in Hp. apply list_elem_of_fmap in Hp as (bs & -> & Hbs).
  rewrite bytes_of_string_of in Hc. by eapply Forall_forall in Hbs; [|apply split_bytes_no_sep].
Qed.

Lemma containsTopic_true topics t : containsTopic topics t = true ↔ t ∈ topics.
Proof.
  unfold containsTopic. rewrite existsb_exists, list_elem_of_In. split.
  - by intros (u & Hu & ->%bool_decide_eq_true).
  - intros Ht. exists t. split; [done|]. by apply bool_decide_eq_true.
Qed.

(** A topic that is not configured was not listed. *)
Lemma parseTopics_missing raw t : t ≠ ""%string → t ∉ parseTopics raw →
  Forall (λ p, TrimSpace p ≠ t) (Split raw comma).
Proof.
  intros Ht Hnot. apply Forall_forall. intros p Hp Heq. apply Hnot, elem_of_parseTopics. eauto.
Qed.

Lemma parseTopics_nil raw : parseTopics raw = [] →
  Forall (λ p, TrimSpace p = ""%string) (Split raw comma).
Proof.
  intros Hnil. apply Forall_forall. intros p Hp. destruct (decide (TrimSpace p = ""%string)); [done|].
  assert (TrimSpace p ∈ parseTopics raw) as Hin by (apply elem_of_parseTopics; eauto).
  rewrite Hnil in Hin. by apply elem_of_nil in Hin.
Qed.

Lemma parseTopics_Join topics : topics ≠ [] → Forall listed topics →
  parseTopics (GoStrconv.Join topics comma) = topics.
Proof.
  intros Hne Hall. unfold parseTopics. rewrite Split_Join; [|done|].
  - clear Hne. induction Hall as [|t ts (Ht & Hne & _) _ IH]; [done|]. csimpl.
    rewrite Ht, bool_decide_false by done. simpl. by rewrite IH.
  - eapply Forall_impl; [exact Hall|]. by intros t (_ & _ & ?).
Qed.

(** *** Reading variables *)

Section env.
Variable Getenv : string → string.

Lemma env_parsed_ind {A} (P : A → Prop) parse key fallback :
  P fallback → (∀ a, parse (TrimSpace (Getenv key)) = Some a → P a) →
  P (env_parsed Getenv parse key fallback).
Proof.
  intros Hf Hp. unfold env_parsed. case_bool_decide; [done|].
  destruct (parse (TrimSpace (Getenv key))) eqn:Ha; simpl; auto.
Qed.

Lemma env_parsed_set {A} (parse : string → option A) key fallback a :
  trimmed (Getenv key) → Getenv key ≠ ""%string → parse (Getenv key) = Some a →
  env_parsed Getenv parse key fallback = a.
Proof. intros Ht Hne Ha. unfold env_parsed. rewrite Ht, bool_decide_false, Ha; done. Qed.

Lemma envOrDefault_set key fallback :
  trimmed (Getenv key) → Getenv key ≠ ""%string →
  envOrDefault Getenv key fallback = Getenv key.
Proof. intros. by apply env_parsed_set. Qed.

Lemma env_text key fallback : trimmed fallback ∧ fallback ≠ ""%string →
  trimmed (envOrDefault Getenv key fallback) ∧ envOrDefault Getenv key fallback ≠ ""%string.
Proof.
  intros Hf. unfold envOrDefault, env_parsed. case_bool_decide; [done|].
  split; [apply trimmed_TrimSpace|done].
Qed.

Lemma env_int key fallback : is_int64 fallback → is_int64 (envIntOrDefault Getenv key fallback).
Proof.
  intros Hf. unfold envIntOrDefault. apply (env_parsed_ind is_int64); eauto using Atoi_int64.
Qed.

Lemma Itoa_set key n fallback : is_int64 n → Getenv key = Itoa n →
  envIntOrDefault Getenv key fallback = n.
Proof.
  intros Hn Hk. apply env_parsed_set; rewrite Hk.
  - apply TrimSpace_plain, Itoa_plain.
  - intros He. pose proof (Atoi_Itoa n Hn) as Ha. by rewrite He in Ha.
  - by apply Atoi_Itoa.
Qed.
End env.

(** *** [Load] *)

Section Load.
Variable Getenv : string → string.

(** The configuration before its validation. *)
Lemma Load_cases : ∃ cfg,
  Load Getenv = match validate cfg with Some e => Err e | None => Ok cfg end ∧
  CfgTopics cfg = parseTopics (Getenv "BROKER_TOPICS") ∧
  MaxClients cfg = envIntOrDefault Getenv "BROKER_MAX_CLIENTS" 5 ∧
  CfgUsername cfg = TrimSpace (Getenv "BROKER_USERNAME") ∧
  CfgPassword cfg = TrimSpace (Getenv "BROKER_PASSWORD") ∧
  OEEEnabled cfg = envBoolOrDefault Getenv "BROKER_OEE_ENABLED" false ∧
  OEEStateTopic cfg = envOrDefault Getenv "BROKER_OEE_STATE_TOPIC" "machine/state" ∧
  (validate cfg = None → valid cfg).
Proof.
  unfold Load. eexists. split; [reflexivity|]. do 6 (split; [reflexivity|]).
  unfold validate. cbn [CfgTopics MaxClients CfgUsername CfgPassword OEEEnabled OEEStateTopic].
  destruct (bool_decide_reflect (parseTopics (Getenv "BROKER_TOPICS") = [])); [done|].
  destruct (_ || _) eqn:Hr; [done|].
  destruct (bool_decide_reflect (TrimSpace (Getenv "BROKER_USERNAME") = ""%string)); [done|].
  destruct (bool_decide_reflect (TrimSpace (Getenv "BROKER_PASSWORD") = ""%string)); [done|]. apply orb_false_iff in Hr as [Hr1%Z.ltb_ge Hr2%Z.ltb_ge].
  destruct (_ && _) eqn:Hoee; [done|]. intros _.
  split; cbn [Host Port HTTPPort CfgUsername CfgPassword CfgTopics MaxClients QueueBufferSize
    DBPath CfgTimezone OEEEnabled OEEStateTopic OEETickInterval OEEShiftsPath].
  - by apply env_text.
  - split; by apply env_int.
  - split_and!; done || apply trimmed_TrimSpace.
  - split; [done|apply parseTopics_listed].
  - split; [lia|by apply env_int].
  - split; [by apply env_text|apply trimmed_TrimSpace].
  - by apply env_text.
  - split; [by apply env_text|]. intros Hen. rewrite Hen in Hoee. simpl in Hoee.
    by apply negb_false_iff, containsTopic_true in Hoee.
  - unfold envDurationOrDefault. apply (env_parsed_ind Getenv is_int64); [by vm_compute|]. intros d. apply ParseDuration_int64.
Qed.

Lemma Load_Ok c : Load Getenv = Ok c → valid c.
Proof.
  destruct Load_cases as (c' & -> & _ & _ & _ & _ & _ & _ & Hval).
  destruct (validate c'); [done|]. intros [= <-]. by apply Hval.
Qed.
End Load.

(** ** Configurations as environments *)

Definition bool_text (b : bool) : string := if b then "true" else "false".

(** An environment that says [c]. *)
Definition variables (c : Config) : list (string * string) := [
  ("BROKER_HOST", Host c); ("BROKER_PORT", Itoa (Port c)); ("BROKER_HTTP_PORT", Itoa (HTTPPort c));
  ("BROKER_USERNAME", CfgUsername c); ("BROKER_PASSWORD", CfgPassword c);
  ("BROKER_TOPICS", GoStrconv.Join (CfgTopics c) comma); ("BROKER_MAX_CLIENTS", Itoa (MaxClients c));
  ("BROKER_QUEUE_BUFFER_SIZE", Itoa (QueueBufferSize c)); ("BROKER_DB_PATH", DBPath c);
  ("BROKER_TIMEZONE", CfgTimezone c); ("BROKER_OEE_ENABLED", bool_text (OEEEnabled c));
  ("BROKER_OEE_STATE_TOPIC", OEEStateTopic c); ("BROKER_OEE_TICK_INTERVAL", Itoa (OEETickInterval c) ++ "ns");
  ("BROKER_OEE_WS_ENABLED", bool_text (OEEWSEnabled c)); ("BROKER_OEE_SHIFTS_PATH", OEEShiftsPath c)
]%string.

Fixpoint getenv_in (vars : list (string * string)) (key : string) : string :=
  match vars with
  | [] => ""
  | (k, v) :: vars => if String.eqb k key then v else getenv_in vars key
  end.

Lemma bool_set Getenv key b fallback : Getenv key = bool_text b →
  envBoolOrDefault Getenv key fallback = b.
Proof.
  intros Hk. apply env_parsed_set; rewrite Hk; destruct b; vm_compute; done.
Qed.

Lemma duration_set Getenv key d fallback : is_int64 d → Getenv key = (Itoa d +:+ "ns")%string →
  envDurationOrDefault Getenv key fallback = d.
Proof.
  intros Hd Hk. apply env_parsed_set; rewrite Hk; [..|by apply ParseDuration_Itoa].
  - apply TrimSpace_plain. rewrite bytes_of_app. apply Forall_app.
    split; [apply Itoa_plain|by repeat constructor].
  - intros He. apply (f_equal bytes_of) in He. rewrite bytes_of_app in He. by apply app_nil in He as [_ ?].
Qed.

Lemma validate_valid c : valid c → validate c = None.
Proof.
  intros [_ _ (_ & Hu & _ & Hp) [Ht _] [Hm _] _ _ [_ Hoee] _]. unfold validate.
  rewrite !bool_decide_false by done.
  destruct (Z.ltb_spec (MaxClients c) 1), (Z.ltb_spec 5 (MaxClients c)); try lia. simpl.
  destruct (OEEEnabled c); simpl; [|done].
  by rewrite (proj2 (containsTopic_true _ _) (Hoee eq_refl)).
Qed.

(** C26: What [Load] returns is a configuration the rest of the broker can rely
    on: one to five clients, credentials and topics that are not blank, topics
    without surrounding white space or commas, and, with OEE enabled, a state
    topic that is one of them.  And it fails only for the reason it gives. *)
Theorem Load_valid Getenv :
  match Load Getenv with
  | Ok c => valid c
  | Err e => refused_for Getenv e
  end.
Proof.
  destruct (Load_cases Getenv) as (c & -> & Ht & Hm & Hu & Hp & Hen & Hst & Hval).
  destruct (validate c) as [e|] eqn:Hv; [|by apply Hval]. clear Hval. revert Hv. unfold validate.
  destruct (bool_decide_reflect (CfgTopics c = [])) as [Hnil|_].
  { intros [= <-]. apply parseTopics_nil. by rewrite <-Ht. }
  destruct (_ || _) eqn:Hr.
  { intros [= <-]. simpl. revert Hr. rewrite Hm.
    apply (env_parsed_ind _ (λ n, (n <? 1) || (5 <? n) = true → _)); [done|].
    intros n Hn Hr. exists n. split; [done|].
    destruct (Z.ltb_spec n 1), (Z.ltb_spec 5 n); simpl in Hr; lia || done. }
  destruct (bool_decide_reflect (CfgUsername c = ""%string)) as [He|_];
    [intros [= <-]; simpl; congruence|].
  destruct (bool_decide_reflect (CfgPassword c = ""%string)) as [He|_];
    [intros [= <-]; simpl; congruence|].
  destruct (OEEEnabled c && _) eqn:Hoee; [|done]. intros [= <-]. simpl.
  apply andb_true_iff in Hoee as [Hon Hno]. rewrite Hen in Hon. split.
  - revert Hon. by apply (env_parsed_ind _ (λ b, b = true → _)); [|intros ? ? ->].
  - apply parseTopics_missing; [by apply env_text|]. rewrite <-Ht, <-Hst.
    intros Hin%containsTopic_true. by rewrite Hin in Hno.
Qed.

(** Every such configuration can be given: from an environment that spells
    it out [Load] returns it, field by field. *)
Theorem Load_environ c : valid c → Load (getenv_in (variables c)) = Ok c.
Proof.
  intros Hc. pose proof (validate_valid c Hc) as Hval.
  destruct Hc as [[] [] (? & ? & ? & ?) [] [? ?] [[] Hsh] [] [[] ?] ?]. unfold Load.
  assert (is_int64 (MaxClients c)) by (unfold is_int64, int64_min, int64_max; lia).
  rewrite !(envOrDefault_set (getenv_in (variables c))) by done.
  rewrite (Itoa_set _ "BROKER_PORT" (Port c)), (Itoa_set _ "BROKER_HTTP_PORT" (HTTPPort c)),
    (Itoa_set _ "BROKER_MAX_CLIENTS" (MaxClients c)),
    (Itoa_set _ "BROKER_QUEUE_BUFFER_SIZE" (QueueBufferSize c)) by done.
  rewrite (bool_set _ "BROKER_OEE_ENABLED" (OEEEnabled c)),
    (bool_set _ "BROKER_OEE_WS_ENABLED" (OEEWSEnabled c)) by done.
  rewrite (duration_set _ "BROKER_OEE_TICK_INTERVAL" (OEETickInterval c)) by done.
  cbn [getenv_in variables String.eqb Ascii.eqb Bool.eqb].
  rewrite parseTopics_Join by done.
  repeat match goal with Ht : trimmed _ |- _ => rewrite Ht; clear Ht end.
  by destruct c; simpl in *; rewrite Hval.
Qed.

Definition sample_config : Config := {|
  Host := "0.0.0.0"; Port := 1883; HTTPPort := 8080; CfgUsername := "admin";
  CfgPassword := "secret"; CfgTopics := ["machine/state"; "line a/temp"]; MaxClients := 2;
  QueueBufferSize := 8; DBPath := "broker.db"; CfgTimezone := "America/Sao_Paulo";
  OEEEnabled := true; OEEStateTopic := "machine/state"; OEETickInterval := 5 * Second;
  OEEWSEnabled := false; OEEShiftsPath := ""
|}.

Lemma sample_config_valid : valid sample_config.
Proof.
  split; simpl; unfold is_int64, int64_min, int64_max, trimmed; split_and?;
    try done; try (vm_compute; reflexivity); try lia.
  - apply (bool_decide_unpack _). vm_compute. exact I.
  - intros _. left.
Qed.

Lemma Load_environ_witness :
  Load (getenv_in (variables sample_config)) = Ok sample_config.
Proof. apply Load_environ, sample_config_valid.
Defined.
