(* ===== verification/Listener.v ===== *)
(** * The accept loop

    [internal/modules/broker/connection/server/server.go]: [ListenAndServe]
    as a state machine over what its listener and its context do, and
    [Close].  What an accepted connection then does is [Broker]'s part. *)

From S2P Require Export ClientManager.

Local Open Scope Z_scope.

(** The state the loop depends on. *)
Record listener := {
  listening : bool;             (* the net.Listener is not closed *)
  cancelled : bool;             (* ctx is done *)
  returned : bool;              (* ListenAndServe has returned nil *)
  errors_logged : nat;
  spawned : list conn_id;       (* go s.handleConnection(ctx, conn) *)
  refused : list conn_id;       (* conn.Close() without serving *)
}.

Definition listen : listener :=
  {| listening := true; cancelled := false; returned := false; errors_logged := 0;
     spawned := []; refused := [] |}.

Inductive listener_event :=
  | EvCancel                                      (* the context is cancelled *)
  | EvWatcher                                     (* the goroutine waiting for ctx.Done() *)
  | EvClose                                       (* Server.Close() *)
  | EvConnect (c : conn_id) (canAccept : bool)    (* Accept returns a connection *)
  | EvAcceptError.                                (* Accept fails: the listener is closed *)

#[export] Instance listener_event_eq_dec : EqDecision listener_event.
Proof. solve_decision. Defined.

(** One iteration of the loop for what [Accept] returned: [None] is an error. *)
Definition accept_iteration (conn : option (conn_id * bool)) (l : listener) : listener :=
  match conn with
  | None =>
      if cancelled l then
        {| listening := listening l; cancelled := true; returned := true;
           errors_logged := errors_logged l; spawned := spawned l; refused := refused l |}
      else
        {| listening := listening l; cancelled := false; returned := returned l;
           errors_logged := S (errors_logged l); spawned := spawned l; refused := refused l |}
  | Some (c, canAccept) =>
      if canAccept then
        {| listening := listening l; cancelled := cancelled l; returned := returned l;
           errors_logged := errors_logged l; spawned := spawned l ++ [c]; refused := refused l |}
      else
        {| listening := listening l; cancelled := cancelled l; returned := returned l;
           errors_logged := errors_logged l; spawned := spawned l; refused := refused l ++ [c] |}
  end.

(** [s.listener.Close()]. *)
Definition stop_listening (l : listener) : listener :=
  {| listening := false; cancelled := cancelled l; returned := returned l;
     errors_logged := errors_logged l; spawned := spawned l; refused := refused l |}.

(** [None] when the event cannot happen in this state. *)
Definition listen_step (ev : listener_event) (l : listener) : option listener :=
  match ev with
  | EvCancel =>
      Some {| listening := listening l; cancelled := true; returned := returned l;
              errors_logged := errors_logged l; spawned := spawned l; refused := refused l |}
  | EvWatcher => if cancelled l then Some (stop_listening l) else None
  | EvClose => Some (stop_listening l)
  | EvConnect c canAccept =>
      if listening l && negb (returned l) then Some (accept_iteration (Some (c, canAccept)) l)
      else None
  | EvAcceptError =>
      if negb (listening l) && negb (returned l) then Some (accept_iteration None l) else None
  end.

Fixpoint listen_all (evs : list listener_event) (l : listener) : option listener :=
  match evs with
  | [] => Some l
  | ev :: evs => l ← listen_step ev l; listen_all evs l
  end.

Lemma listen_all_cancelled evs l l' : listen_all evs l = Some l' →
  (cancelled l' = true ↔ cancelled l = true ∨ EvCancel ∈ evs) ∧
  (listening l' = true → listening l = true ∧ EvClose ∉ evs) ∧
  (returned l' = true → returned l = true ∨ cancelled l' = true).
Proof.
  revert l. induction evs as [|ev evs IH]; intros l; simpl.
  { intros [= <-]. set_solver. }
  destruct (listen_step ev l) as [l1|] eqn:Hl; simpl; [|done].
  intros Hevs. destruct (IH l1 Hevs) as (IH1 & IH2 & IH3).
  destruct ev; simpl in Hl; repeat case_match; simplify_eq; bool_simpl;
    unfold accept_iteration in *; repeat case_match; simpl in *;
    rewrite ?elem_of_cons; naive_solver.
Qed.

Lemma accept_errors_spin n l :
  listening l = false → cancelled l = false → returned l = false →
  ∃ l', listen_all (replicate n EvAcceptError) l = Some l' ∧
    returned l' = false ∧ errors_logged l' = (errors_logged l + n)%nat.
Proof.
  revert l. induction n as [|n IH]; intros [li ca re er sp rf]; simpl; intros -> -> ->.
  { eexists. split_and!; [done|done|simpl; lia]. }
  destruct (IH {| listening := false; cancelled := false; returned := false;
    errors_logged := S er; spawned := sp; refused := rf |}) as (l' & Hl' & ? & He); [done..|].
  exists l'. simpl in He. split_and!; [done|done|lia].
Qed.

(** the accept loop returns only after its context was cancelled.  Once
    the context is cancelled and the listener closed, its next iteration
    returns; but when [Close] stops the listener and the context is never
    cancelled, as at shutdown, the loop spins: every further iteration logs
    an error and none returns. *)
Theorem accept_loop_exit evs l :
  listen_all evs listen = Some l →
  (returned l = true → EvCancel ∈ evs) ∧
  (EvCancel ∈ evs → listening l = false → returned l = false →
    ∃ l', listen_step EvAcceptError l = Some l' ∧ returned l' = true) ∧
  (EvClose ∈ evs → EvCancel ∉ evs → ∀ n, ∃ l',
    listen_all (replicate n EvAcceptError) l = Some l' ∧
    returned l' = false ∧ errors_logged l' = (errors_logged l + n)%nat).
Proof.
  intros (Hc & Hl & Hr)%listen_all_cancelled; simpl in *. split_and!.
  - intros H%Hr. destruct H as [|[|]%Hc]; done.
  - intros Hcancel Hlis Hret. rewrite Hlis, Hret. simpl.
    rewrite (proj2 Hc (or_intror Hcancel)). eauto.
  - intros Hclose Hno n.
    assert (cancelled l = false) as Hfalse.
    { destruct (cancelled l); [|done]. destruct (proj1 Hc eq_refl); done. }
    apply accept_errors_spin; [|done|].
    + destruct (listening l); [|done]. by destruct (Hl eq_refl).
    + destruct (returned l); [|done]. destruct (Hr eq_refl); congruence.
Qed.

Lemma accept_loop_exit_witness :
  ∃ l', listen_all (replicate 3 EvAcceptError)
    {| listening := false; cancelled := false; returned := false; errors_logged := 0;
       spawned := [0%nat]; refused := [] |} = Some l' ∧
    returned l' = false ∧ errors_logged l' = 3%nat.
Proof.
  destruct (accept_loop_exit [EvConnect 0%nat true; EvClose]
    {| listening := false; cancelled := false; returned := false; errors_logged := 0;
       spawned := [0%nat]; refused := [] |}) as (_ & _ & Hspin).
  - vm_compute. reflexivity.
  - apply Hspin.
    + apply elem_of_cons. right. apply list_elem_of_singleton. reflexivity.
    + intros H. repeat (apply elem_of_cons in H as [H|H]; [discriminate H|]).
      apply elem_of_nil in H. exact H.
Defined.
