(* ===== verification/Auth.v ===== *)
(** * Authentication

    [internal/modules/auth]: the interface the server authenticates against,
    and the authenticator configured from the environment. *)

From S2P Require Export Prelude.

(** ** The interface (domain/authenticator.go) *)

Class Authenticator (T : Type) := Authenticate : T → string → string → bool.

(** ** Configured credentials (env_authenticator.go) *)

Record EnvAuthenticator := {
  auth_username : string;       (* field username *)
  auth_password : string;       (* field password *)
}.

Definition NewEnvAuthenticator (username password : string) : EnvAuthenticator :=
  {| auth_username := username; auth_password := password |}.

Definition EnvAuthenticate (a : EnvAuthenticator) (username password : string) : bool :=
  if bool_decide (username = ""%string) || bool_decide (password = ""%string) then false
  else bool_decide (username = auth_username a) && bool_decide (password = auth_password a).

#[export] Instance EnvAuthenticator_Authenticator : Authenticator EnvAuthenticator :=
  EnvAuthenticate.

(** Exactly the configured, non-empty credentials are accepted. *)
Lemma EnvAuthenticate_true a username password :
  EnvAuthenticate a username password = true ↔
  username = auth_username a ∧ password = auth_password a ∧
  auth_username a ≠ ""%string ∧ auth_password a ≠ ""%string.
Proof.
  unfold EnvAuthenticate. repeat case_bool_decide; simpl; naive_solver.
Qed.
