(* ===== verification/Prog.v ===== *)
(** * Programs of a connection's goroutine

    The code that serves a connection is a program over the calls it makes to
    what it shares with the other goroutines: its own connection, the client
    manager, the topic registry, the message channel and the clock.  A program
    is a tree that branches on the result of every call, so that each handler
    is written as in the source and says nothing yet about what the other
    goroutines do between two calls.  [follows] states that a program respects
    an automaton over its calls, whatever the calls return. *)

From S2P Require Export Framing TopicRegistry ClientManager.

Local Open Scope Z_scope.

(** ** Calls *)

(** The result of [protocol.ReadPacket(conn)] on what the connection will
    still deliver: an error, or a packet and the shorter rest. *)
Inductive read_outcome (r : reader) : Type :=
  | ReadErr (e : error)
  | ReadOk (header : FixedHeader) (data : list byte) (r' : reader)
      (H : (2 + length data + Len r' ≤ Len r)%nat).
Arguments ReadErr {r} e.
Arguments ReadOk {r} header data r' H.

Inductive call :=
  | CallNow                              (* time.Now() *)
  | CallSetDeadline (t : Z)              (* conn.SetDeadline(t) *)
  | CallRead (r : reader)                (* protocol.ReadPacket(conn) *)
  | CallWrite (data : list byte)         (* conn.Write(data), cl.Write(data) *)
  | CallClose                            (* conn.Close() *)
  | CallAdd (c : Client)                 (* s.connMgr.Add(cl) *)
  | CallRemove (clientID : string)       (* s.connMgr.Remove(cl.ID) *)
  | CallClaim (topic clientID : string)  (* s.topics.Claim(topic, cl.ID) *)
  | CallIsAllowed (topic : string)       (* s.topics.IsAllowed(filter) *)
  | CallRelease (clientID : string)      (* s.topics.Release(cl.ID) *)
  | CallSend (msg : Message).            (* the select over s.msgChan <- msg and ctx.Done() *)

(** What a call returns.  [CallSend] tells whether the message was sent or
    the context was done; the errors of [SetDeadline], [Write] and [Close]
    are ignored by every caller. *)
Definition res (c : call) : Type :=
  match c with
  | CallNow => Z
  | CallRead r => read_outcome r
  | CallAdd _ => result client_error unit
  | CallClaim _ _ => result topic_error unit
  | CallIsAllowed _ | CallSend _ => bool
  | _ => unit
  end.

(** ** Programs *)

Inductive prog (A : Type) : Type :=
  | Ret (a : A)
  | Do (c : call) (k : res c → prog A).
Arguments Ret {A} a.
Arguments Do {A} c k.

Fixpoint prog_bind {A B} (p : prog A) (f : A → prog B) : prog B :=
  match p with
  | Ret a => f a
  | Do c k => Do c (λ x, prog_bind (k x) f)
  end.

#[export] Instance prog_ret : MRet prog := λ A a, Ret a.
#[export] Instance prog_mbind : MBind prog := λ A B f p, prog_bind p f.

Definition invoke (c : call) : prog (res c) := Do c Ret.

Lemma bind_invoke {B} c (f : res c → prog B) : (x ← invoke c; f x) = Do c f.
Proof. done. Qed.

(** ** Protocols of calls *)

(** A call with its result. *)
Definition event : Type := { c : call & res c }.
Abbreviation Event c x := (@existT call res c x).

(** An automaton over calls: [None] forbids the call, otherwise the next state
    depends on the result. *)
Definition automaton (S : Type) : Type := S → ∀ c : call, option (res c → S).

Section follows.
Context {S : Type} (next : automaton S).

(** Every run of the program takes only allowed calls, whatever they return,
    and ends as [post] says. *)
Fixpoint follows {A} (s : S) (p : prog A) (post : A → S → Prop) : Prop :=
  match p with
  | Ret a => post a s
  | Do c k =>
      match next s c with
      | None => False
      | Some s' => ∀ x, follows (s' x) (k x) post
      end
  end.

Lemma follows_bind {A B} s (p : prog A) (f : A → prog B) post :
  follows s (p ≫= f) post ↔ follows s p (λ a s', follows s' (f a) post).
Proof.
  revert s. induction p as [a|c k IH]; intros s; [done|]. simpl.
  destruct (next s c); [|done]. by setoid_rewrite IH.
Qed.

Lemma follows_mono {A} s (p : prog A) (post post' : A → S → Prop) :
  follows s p post → (∀ a s', post a s' → post' a s') → follows s p post'.
Proof.
  intros Hp Himp. revert s Hp. induction p as [a|c k IH]; intros s; simpl; [apply Himp|].
  destruct (next s c); [|done]. intros Hp x. by apply IH.
Qed.

(** The state after a sequence of events, if they are all allowed. *)
Fixpoint after (s : S) (evs : list event) : option S :=
  match evs with
  | [] => Some s
  | existT c x :: evs => s' ← next s c; after (s' x) evs
  end.

Lemma after_app s evs evs' : after s (evs ++ evs') = (s' ← after s evs; after s' evs').
Proof.
  revert s. induction evs as [|[c x] evs IH]; intros s; simpl; [done|].
  destruct (next s c); simpl; [apply IH|done].
Qed.
End follows.

(** ** Bounded programs *)

(** No run takes more than [n] calls. *)
Fixpoint at_most {A} (n : nat) (p : prog A) {struct p} : Prop :=
  match p with
  | Ret _ => True
  | Do c k => match n with O => False | S n => ∀ x, at_most n (k x) end
  end.

Lemma at_most_le {A} n m (p : prog A) : at_most n p → (n ≤ m)%nat → at_most m p.
Proof.
  revert n m. induction p as [a|c k IH]; intros n m; simpl; [done|].
  intros Hp ?. destruct n as [|n]; [done|]. destruct m as [|m]; [lia|]. intros x. apply (IH x n); [done|lia].
Qed.

Lemma at_most_bind {A B} n m (p : prog A) (f : A → prog B) :
  at_most n p → (∀ a, at_most m (f a)) → at_most (n + m) (p ≫= f).
Proof.
  intros Hp Hf. revert n Hp. induction p as [a|c k IH]; intros n Hp; simpl.
  - eapply at_most_le; [apply Hf|lia].
  - destruct n as [|n]; [done|]. intros x. by apply IH.
Qed.
