(* ===== verification/Server.v ===== *)
(** * The MQTT server's connection handlers

    [internal/modules/broker/connection/server]: [handleConnection],
    [readLoop], [handlePublish] and [handleSubscribe], as programs over the
    calls of [Prog].  Log calls are left out.

    - every connection respects the session protocol, whatever bytes it
      receives and whatever the other goroutines do: nothing happens before
      an authenticated CONNECT, messages are sent only on topics claimed by
      the session and under its own client ID, and the topics, the slot and
      the connection are given back in that order;
    - every connection is served in a bounded number of calls. *)

From Equations Require Import Equations.
From S2P Require Export Prog Auth.

Local Open Scope Z_scope.

(** The fields of [Server] that do not change; the client manager, the
    registry and the channel it also holds are the state the calls act on. *)
Record Server (T : Type) := {
  auth : T;
  timezone : string;
}.
Arguments auth {T} s.
Arguments timezone {T} s.

Definition connectTimeout : Z := 5 * Second.

Section server.
Context {T : Type} `{Authenticator T} (s : Server T).

(** [cl.ResetDeadline()]. *)
Definition resetDeadline (cl : Client) : prog Client :=
  now ← invoke CallNow;
  now' ← invoke CallNow;
  let '(cl, deadline) := ResetDeadline cl now now' in
  match deadline with
  | Some t => invoke (CallSetDeadline t);; mret cl
  | None => mret cl
  end.

Definition handlePublish (cl : Client) (header : FixedHeader) (data : list byte) : prog unit :=
  match DecodePublish header data with
  | Err _ => mret ()
  | Ok pkt =>
      claimed ← invoke (CallClaim (TopicName pkt) (ID cl));
      match claimed with
      | Err _ =>
          if QoS pkt =? 1 then invoke (CallWrite (EncodePuback (PacketID pkt))) else mret ()
      | Ok _ =>
          now ← invoke CallNow;
          let msg := {| MsgClientID := ID cl; MsgTopic := TopicName pkt;
                        MsgPayload := Payload pkt; Timezone := timezone s;
                        Timestamp := now |} in
          sent ← invoke (CallSend msg);
          match sent with
          | false => mret ()
          | true =>
              if QoS pkt =? 1 then invoke (CallWrite (EncodePuback (PacketID pkt))) else mret ()
          end
      end
  end.

(** [returnCodes[i]] for each subscription. *)
Fixpoint return_codes (subs : list Subscription) : prog (list byte) :=
  match subs with
  | [] => mret []
  | sub :: subs =>
      ok ← invoke (CallIsAllowed (TopicFilter sub));
      let code := if (ok : bool) then byte_of (SubQoS sub) else x80 in
      codes ← return_codes subs;
      mret (code :: codes)
  end.

Definition handleSubscribe (cl : Client) (data : list byte) : prog unit :=
  match DecodeSubscribe data with
  | Err _ => mret ()
  | Ok pkt =>
      returnCodes ← return_codes (Subscriptions pkt);
      invoke (CallWrite (EncodeSuback (SubPacketID pkt) returnCodes))
  end.

(** The body of the [switch] for the packet types that do not end the loop. *)
Definition handlePacket (cl : Client) (header : FixedHeader) (data : list byte) : prog unit :=
  match Type_ header with
  | PUBLISH => handlePublish cl header data
  | SUBSCRIBE => handleSubscribe cl data
  | PINGREQ => invoke (CallWrite EncodePingresp)
  | _ => mret ()
  end.

(** The loop ends because every packet read leaves a shorter stream. *)
Equations? readLoop (cl : Client) (r : reader) : prog unit by wf (Len r) lt :=
  readLoop cl r :=
    cl ← resetDeadline cl;
    x ← invoke (CallRead r);
    match x with
    | ReadErr _ => mret ()
    | ReadOk header data r' _ =>
        if decide (Type_ header = DISCONNECT) then mret ()
        else
          handlePacket cl header data;;
          readLoop cl r'
    end.
Proof. lia. Qed.

(** [defer s.topics.Release(cl.ID)] runs before [defer s.connMgr.Remove(cl.ID)]. *)
Definition serveClient (cl : Client) (r : reader) : prog unit :=
  invoke (CallWrite (EncodeConnack false ConnAccepted));;
  readLoop cl r;;
  invoke (CallRelease (ID cl));;
  invoke (CallRemove (ID cl)).

(** [handleConnection] without [defer conn.Close()]. *)
Definition handleConnect (conn : conn_id) (r : reader) : prog unit :=
  now ← invoke CallNow;
  invoke (CallSetDeadline (now + connectTimeout));;
  x ← invoke (CallRead r);
  match x with
  | ReadErr _ => mret ()
  | ReadOk header data r _ =>
      if bool_decide (Type_ header ≠ CONNECT) then mret () else
      match DecodeConnect data with
      | Err _ => mret ()
      | Ok connectPkt =>
          if negb (HasUsername connectPkt) ||
             negb (Authenticate (auth s) (Username connectPkt) (string_of (Password connectPkt)))
          then invoke (CallWrite (EncodeConnack false ConnRefusedBadAuth))
          else
            now ← invoke CallNow;
            let cl := NewClient (ClientID connectPkt) conn (KeepAlive connectPkt) now in
            added ← invoke (CallAdd cl);
            match added with
            | Err _ => invoke (CallWrite (EncodeConnack false ConnRefusedUnavailable))
            | Ok _ => serveClient cl r
            end
      end
  end.

Definition handleConnection (conn : conn_id) (r : reader) : prog unit :=
  handleConnect conn r;;
  invoke CallClose.

(** ** The session protocol *)

(** What a connection has done so far. *)
Inductive session :=
  | Opened                                        (* nothing received *)
  | Greeted (header : FixedHeader) (data : list byte)   (* the first packet *)
  | Full (* refused by the client manager *)
  | Rejected                                      (* only the close is left *)
  | Registered (id : string)                        (* registered, CONNACK not written yet *)
  | Serving (id : string) (claimed : gset string)
  | Leaving (id : string)                         (* no more packets *)
  | Released (id : string)
  | Removed
  | Closed.

(** The CONNECT packet of a client whose credentials are accepted. *)
Definition accepted (header : FixedHeader) (data : list byte) : option ConnectPacket :=
  if bool_decide (Type_ header = CONNECT) then
    match DecodeConnect data with
    | Ok p => if HasUsername p && Authenticate (auth s) (Username p) (string_of (Password p))
              then Some p else None
    | Err _ => None
    end
  else None.

(** The client that a CONNECT packet may register. *)
Definition admits (conn : conn_id) (p : ConnectPacket) (cl : Client) : bool :=
  bool_decide (ID cl = ClientID p) && bool_decide (Conn cl = conn) &&
  bool_decide (ClientKeepAlive cl = KeepAlive p).

(** The replies to the packets of a session. *)
Definition is_reply (data : list byte) : bool :=
  match data with
  | b :: _ => bool_decide (b ∈ [x40; x90; xd0])
  | [] => false
  end.

Definition may_send (id : string) (claimed : gset string) (msg : Message) : bool :=
  bool_decide (MsgClientID msg = id) && bool_decide (MsgTopic msg ∈ claimed) &&
  bool_decide (Timezone msg = timezone s).

Definition session_next (conn : conn_id) : automaton session := λ st c,
  match st, c with
  | Opened, (CallNow | CallSetDeadline _) => Some (λ _, Opened)
  | Opened, CallRead r => Some (λ x : read_outcome r,
      match x with ReadErr _ => Rejected | ReadOk header data _ _ => Greeted header data end)
  | Greeted header data, CallNow => Some (λ _, Greeted header data)
  | Greeted header data, CallWrite bs =>
      if bool_decide (accepted header data = None) &&
         bool_decide (bs = EncodeConnack false ConnRefusedBadAuth)
      then Some (λ _, Rejected) else None
  | Greeted header data, CallAdd cl =>
      match accepted header data with
      | Some p => if admits conn p cl then Some (λ x : result client_error unit,
                    match x with Ok _ => Registered (ID cl) | Err _ => Full end) else None
      | None => None
      end
  | Full, CallWrite bs =>
      if bool_decide (bs = EncodeConnack false ConnRefusedUnavailable)
      then Some (λ _, Rejected) else None
  | Registered id, CallWrite bs =>
      if bool_decide (bs = EncodeConnack false ConnAccepted)
      then Some (λ _, Serving id ∅) else None
  | Serving id ts, (CallNow | CallSetDeadline _ | CallIsAllowed _) => Some (λ _, Serving id ts)
  | Serving id ts, CallRead r => Some (λ x : read_outcome r,
      match x with
      | ReadErr _ => Leaving id
      | ReadOk header _ _ _ =>
          if bool_decide (Type_ header = DISCONNECT) then Leaving id else Serving id ts
      end)
  | Serving id ts, CallWrite bs => if is_reply bs then Some (λ _, Serving id ts) else None
  | Serving id ts, CallClaim topic id' =>
      if bool_decide (id' = id) then Some (λ x : result topic_error unit,
        match x with Ok _ => Serving id ({[topic]} ∪ ts) | Err _ => Serving id ts end) else None
  | Serving id ts, CallSend msg =>
      if may_send id ts msg then Some (λ _, Serving id ts) else None
  | Leaving id, CallRelease id' => if bool_decide (id' = id) then Some (λ _, Released id) else None
  | Released id, CallRemove id' => if bool_decide (id' = id) then Some (λ _, Removed) else None
  | Greeted header data, CallClose =>
      if bool_decide (accepted header data = None) then Some (λ _, Closed) else None
  | (Rejected | Removed), CallClose => Some (λ _, Closed)
  | _, _ => None
  end.

(** *** The handlers of a session that is being served *)

(** Being served under [id], whatever topics are claimed. *)
Definition serving (id : string) (st : session) : Prop := ∃ ts, st = Serving id ts.

Lemma serving_intro id ts : serving id (Serving id ts).
Proof. by exists ts. Qed.

Lemma follows_write {A} conn id ts bs (k : unit → prog A) post :
  is_reply bs = true → follows (session_next conn) (Serving id ts) (k ()) post →
  follows (session_next conn) (Serving id ts) (Do (CallWrite bs) k) post.
Proof. intros Hr Hk. simpl. rewrite Hr. by intros []. Qed.

Lemma resetDeadline_follows conn id ts cl :
  follows (session_next conn) (Serving id ts) (resetDeadline cl)
    (λ cl' st, st = Serving id ts ∧ ID cl' = ID cl).
Proof. intros now now'. simpl. destruct (_ >? 0); simpl; done. Qed.

Lemma puback_follows conn id ts q pid :
  follows (session_next conn) (Serving id ts)
    (if q =? 1 then invoke (CallWrite (EncodePuback pid)) else mret ()) (λ _, serving id).
Proof.
  destruct (q =? 1); [apply follows_write; [done|]|]; apply serving_intro.
Qed.

Lemma handlePublish_follows conn ts cl header data :
  follows (session_next conn) (Serving (ID cl) ts) (handlePublish cl header data)
    (λ _, serving (ID cl)).
Proof.
  unfold handlePublish. destruct (DecodePublish header data) as [pkt|]; [|apply serving_intro].
  simpl. rewrite bool_decide_eq_true_2 by done.
  intros [[]|e]; [|apply puback_follows]. intros now. cbn -[session_next may_send].
  unfold session_next at 1, may_send; cbn [MsgClientID MsgTopic Timezone].
  rewrite !bool_decide_eq_true_2 by (done || set_solver). intros [].
  - apply puback_follows.
  - apply serving_intro.
Qed.

Lemma return_codes_follows conn id ts subs post :
  (∀ codes, post codes (Serving id ts)) →
  follows (session_next conn) (Serving id ts) (return_codes subs) post.
Proof.
  intros Hpost. revert post Hpost. induction subs as [|sub subs IH]; intros post Hpost; [apply Hpost|].
  simpl. intros ok. apply follows_bind, IH. intros codes. apply Hpost.
Qed.

Lemma handleSubscribe_follows conn ts cl data :
  follows (session_next conn) (Serving (ID cl) ts) (handleSubscribe cl data)
    (λ _, serving (ID cl)).
Proof.
  unfold handleSubscribe. destruct (DecodeSubscribe data) as [pkt|]; [|apply serving_intro].
  apply follows_bind, return_codes_follows. intros codes.
  apply follows_write; [done|]. apply serving_intro.
Qed.

Lemma handlePacket_follows conn ts cl header data :
  follows (session_next conn) (Serving (ID cl) ts) (handlePacket cl header data)
    (λ _, serving (ID cl)).
Proof.
  unfold handlePacket. destruct (Type_ header); try apply serving_intro.
  - apply handlePublish_follows.
  - apply handleSubscribe_follows.
  - apply follows_write; [done|]. apply serving_intro.
Qed.

Lemma readLoop_follows conn ts cl r :
  follows (session_next conn) (Serving (ID cl) ts) (readLoop cl r)
    (λ _ st, st = Leaving (ID cl)).
Proof.
  remember (Len r) as n eqn:Hn. revert r Hn cl ts.
  induction n as [n IH] using lt_wf_ind. intros r -> cl ts.
  rewrite readLoop_equation_1. apply follows_bind.
  eapply follows_mono; [apply resetDeadline_follows|]. intros cl' _ [-> <-].
  simpl. intros [e|header data r' Hr]; [done|].
  case_decide as Hd; [by rewrite bool_decide_eq_true_2|].
  rewrite bool_decide_eq_false_2 by done. apply follows_bind.
  eapply follows_mono; [apply handlePacket_follows|]. intros [] st [ts' ->].
  apply (IH (Len r')); [lia|done].
Qed.

Lemma serveClient_follows conn cl r :
  follows (session_next conn) (Registered (ID cl)) (serveClient cl r) (λ _ st, st = Removed).
Proof.
  simpl. intros []. apply follows_bind.
  eapply follows_mono; [apply readLoop_follows|]. intros [] st ->. simpl.
  rewrite bool_decide_eq_true_2 by done. intros []. simpl.
  rewrite bool_decide_eq_true_2 by done. by intros [].
Qed.

Lemma handleConnection_follows conn r :
  follows (session_next conn) Opened (handleConnection conn r) (λ _ st, st = Closed).
Proof.
  unfold handleConnection. apply follows_bind. simpl. intros now [] [e|header data r' Hr].
  { simpl. by intros []. }
  case_bool_decide as Hty; simpl.
  { unfold accepted. rewrite (bool_decide_eq_false_2 (Type_ header = _)) by done. by intros []. }
  assert (Type_ header = CONNECT) as Ht by (by destruct (decide (Type_ header = CONNECT))).
  pose proof (eq_refl : accepted header data = accepted header data) as Hacc.
  unfold accepted in Hacc at 2. rewrite bool_decide_eq_true_2 in Hacc by done.
  destruct (DecodeConnect data) as [p|]; simpl; [|rewrite Hacc; by intros []].
  rewrite <-negb_andb. destruct (HasUsername p && _); cbn [negb];
    cbn [follows session_next invoke]; rewrite Hacc; [|by intros [] []].
  intros now'. unfold admits. simpl. rewrite !bool_decide_eq_true_2 by done. simpl.
  intros [[]|e]; [|by intros [] []].
  change (ClientID p) with (ID (NewClient (ClientID p) conn (KeepAlive p) now')).
  eapply follows_mono; [apply serveClient_follows|]. intros [] st ->. simpl. by intros [].
Qed.

(** ** Termination *)

Lemma DecodeSubscribe_count data pkt : DecodeSubscribe data = Ok pkt →
  (2 + 3 * length (Subscriptions pkt) ≤ length data)%nat.
Proof.
  intros (_ & _ & _ & ->)%DecodeSubscribe_sound. unfold subscribe_wire.
  rewrite length_app, length_PutUint16. apply le_n_S, le_n_S.
  induction (Subscriptions pkt) as [|sub subs IH]; [simpl; lia|].
  change (subscriptions_wire (sub :: subs)) with (subscription_bytes sub ++ subscriptions_wire subs).
  unfold subscription_bytes. rewrite !length_app, length_WriteUTF8String. simpl. lia.
Qed.

Lemma return_codes_calls subs : at_most (length subs) (return_codes subs).
Proof.
  induction subs as [|sub subs IH]; simpl; [done|]. intros ok.
  change (at_most (length subs) (codes ← return_codes subs;
    mret ((if ok then byte_of (SubQoS sub) else x80) :: codes))).
  rewrite <-(Nat.add_0_r (length subs)). by apply at_most_bind.
Qed.

Lemma handlePacket_calls cl header data :
  at_most (length data + 4) (handlePacket cl header data).
Proof.
  unfold handlePacket. destruct (Type_ header); try done.
  - eapply (at_most_le 4); [|lia].
    unfold handlePublish. destruct (DecodePublish header data) as [pkt|]; [|done].
    destruct (QoS pkt =? 1) eqn:Hq; intros [[]|e]; simpl; try (rewrite Hq); try done;
      intros now []; simpl; rewrite ?Hq; done.
  - unfold handleSubscribe. destruct (DecodeSubscribe data) as [pkt|] eqn:Hd; [|done].
    apply DecodeSubscribe_count in Hd.
    eapply at_most_le; [apply (at_most_bind (length (Subscriptions pkt)) 1)|lia];
      [apply return_codes_calls|done].
  - rewrite Nat.add_comm. done.
Qed.

Lemma readLoop_calls cl r : at_most (4 * Len r + 4) (readLoop cl r).
Proof.
  remember (Len r) as n eqn:Hn. revert r Hn cl.
  induction n as [n IH] using lt_wf_ind. intros r -> cl.
  rewrite readLoop_equation_1.
  eapply at_most_le; [apply (at_most_bind 3 (4 * Len r + 1))|lia].
  { intros now now'. simpl. by destruct (_ >? 0). }
  intros cl'. rewrite Nat.add_comm. intros [e|header data r' Hr]; [done|].
  change (at_most (4 * Len r) (if decide (Type_ header = DISCONNECT) then mret () else
    handlePacket cl' header data;; readLoop cl' r')).
  case_decide; [done|].
  eapply at_most_le; [apply (at_most_bind (length data + 4) (4 * Len r' + 4))|lia].
  - apply handlePacket_calls.
  - intros _. apply (IH (Len r')); [lia|done].
Qed.

(** C35: serving a connection terminates: whatever the calls return, a
    connection that delivers [n] bytes before its stream ends is finished,
    with its resources given back, after at most [4 * n + 5] calls. *)
Theorem handleConnection_terminates conn r :
  at_most (4 * Len r + 5) (handleConnection conn r).
Proof.
  unfold handleConnection.
  eapply at_most_le; [apply (at_most_bind (4 * Len r + 4) 1)|lia]; [|done].
  unfold handleConnect. replace (4 * Len r + 4)%nat with (1 + (1 + (1 + (4 * Len r + 1))))%nat by lia.
  apply (at_most_bind 1); [done|intros now]. apply (at_most_bind 1); [done|intros []].
  apply (at_most_bind 1); [done|]. intros [e|header data r' Hr]; [done|].
  case_bool_decide; [done|]. destruct (DecodeConnect data) as [p|]; [|done].
  replace (4 * Len r + 1)%nat with (1 + (1 + (1 + (4 * Len r - 2))))%nat by lia.
  destruct (_ || _); [done|]. intros now' [[]|e]; [|done]. intros [].
  change (at_most (4 * Len r - 2) (readLoop (NewClient (ClientID p) conn (KeepAlive p) now') r';;
    invoke (CallRelease (ClientID p));; invoke (CallRemove (ClientID p)))).
  eapply at_most_le; [apply (at_most_bind (4 * Len r' + 4) 2)|lia]; [apply readLoop_calls|done].
Qed.

End server.
