(* ===== verification/Broker.v ===== *)
(** * The broker: connections served concurrently

    The state shared by the connections' goroutines, what each call of [Prog]
    does to it, and the broker as a set of goroutines whose calls interleave
    in any order with new connections, the consumer of the message channel,
    the clock and the shutdown.  An execution is a list of actions and is
    computed by [execute].

    A connection is described by the bytes it will deliver and how they end;
    its deadline and its closing decide whether a read still sees them.  A
    write on a usable connection is taken to succeed at once.

    - in every execution each connection respects its session protocol;
    - the limits, the registry's invariant and the channel's bound hold in
      every reachable state;
    - the channel delivers exactly the messages that were sent, in order, each
      authorised by a claim of the session that sent it;
    - two executions show what goes wrong: the clean-up of a replaced
      connection, and the deadline of a client without keep-alive. *)

From S2P Require Export Server.

Local Open Scope Z_scope.

(** ** Shared state *)

Record conn_state := {
  is_open : bool;
  deadline : option Z;
  written : list byte;          (* what the peer was sent *)
}.

Record world := {
  connMgr : ClientManager;
  topics : TopicRegistry;
  msgChan : chan Message;
  conns : gmap conn_id conn_state;
  ctx_done : bool;              (* the context was cancelled *)
  clock : Z;
}.

Definition set_connMgr (cm : ClientManager) (w : world) : world :=
  {| connMgr := cm; topics := topics w; msgChan := msgChan w; conns := conns w;
     ctx_done := ctx_done w; clock := clock w |}.
Definition set_topics (r : TopicRegistry) (w : world) : world :=
  {| connMgr := connMgr w; topics := r; msgChan := msgChan w; conns := conns w;
     ctx_done := ctx_done w; clock := clock w |}.
Definition set_msgChan (ch : chan Message) (w : world) : world :=
  {| connMgr := connMgr w; topics := topics w; msgChan := ch; conns := conns w;
     ctx_done := ctx_done w; clock := clock w |}.
Definition set_conns (cs : gmap conn_id conn_state) (w : world) : world :=
  {| connMgr := connMgr w; topics := topics w; msgChan := msgChan w; conns := cs;
     ctx_done := ctx_done w; clock := clock w |}.
Definition set_done (w : world) : world :=
  {| connMgr := connMgr w; topics := topics w; msgChan := msgChan w; conns := conns w;
     ctx_done := true; clock := clock w |}.
Definition set_clock (t : Z) (w : world) : world :=
  {| connMgr := connMgr w; topics := topics w; msgChan := msgChan w; conns := conns w;
     ctx_done := ctx_done w; clock := t |}.

(** ** Connections *)

Definition opened : conn_state := {| is_open := true; deadline := None; written := [] |}.

Definition with_deadline (t : Z) (cs : conn_state) : conn_state :=
  {| is_open := is_open cs; deadline := Some t; written := written cs |}.

Definition closed (cs : conn_state) : conn_state :=
  {| is_open := false; deadline := deadline cs; written := written cs |}.

(** The error of a read or write on a connection, if it fails at once. *)
Definition conn_error (now : Z) (cs : conn_state) : option io_error :=
  if is_open cs then
    match deadline cs with
    | Some t => if t <=? now then Some ErrTimeout else None
    | None => None
    end
  else Some ErrClosed.

Definition write_conn (now : Z) (data : list byte) (cs : conn_state) : conn_state :=
  match conn_error now cs with
  | Some _ => cs
  | None => {| is_open := is_open cs; deadline := deadline cs; written := written cs ++ data |}
  end.

Definition close_conn (c : conn_id) (w : world) : world :=
  set_conns (alter closed c (conns w)) w.

Fixpoint close_conns (cs : list conn_id) (w : world) : world :=
  match cs with
  | [] => w
  | c :: cs => close_conns cs (close_conn c w)
  end.

(** [protocol.ReadPacket(conn)] on the bytes [r] the connection delivers. *)
Definition read_outcome_of (r : reader) (x : result error (FixedHeader * list byte) * reader) :
    ReadPacket r = x → read_outcome r :=
  match x with
  | (Ok (header, data), r') => λ H, ReadOk header data r' (ReadPacket_shrinks _ _ _ _ H)
  | (Err e, _) => λ _, ReadErr e
  end.
Definition read_packet (r : reader) : read_outcome r := read_outcome_of r (ReadPacket r) eq_refl.

Lemma read_packet_Ok r header data r' : ReadPacket r = (Ok (header, data), r') →
  ∃ H, read_packet r = ReadOk header data r' H.
Proof.
  cut (∀ x Hx, x = (Ok (header, data), r') → ∃ H, read_outcome_of r x Hx = ReadOk header data r' H).
  { intros Hcut. apply Hcut. }
  intros x Hx ->. simpl. eauto.
Qed.

(** ** What a call does *)

(** The possible results of a call of connection [me]; none while it blocks. *)
Definition exec (me : conn_id) (c : call) (w : world) : list (res c * world) :=
  match c return list (res c * world) with
  | CallNow => [(clock w, w)]
  | CallSetDeadline t => [((), set_conns (alter (with_deadline t) me (conns w)) w)]
  | CallRead r =>
      [(match cs ← conns w !! me; conn_error (clock w) cs with
        | Some e => ReadErr (ErrIO e)
        | None => read_packet r
        end, w)]
  | CallWrite data => [((), set_conns (alter (write_conn (clock w) data) me (conns w)) w)]
  | CallClose => [((), close_conn me w)]
  | CallAdd cl =>
      let '(x, cm, replaced) := ClientManager.Add (connMgr w) cl in
      [(x, set_connMgr cm (close_conns (option_list replaced) w))]
  | CallRemove id => [((), set_connMgr (Remove (connMgr w) id) w)]
  | CallClaim topic id =>
      let '(x, r) := Claim (topics w) topic id in [(x, set_topics r w)]
  | CallIsAllowed topic => [(IsAllowed (topics w) topic, w)]
  | CallRelease id => [((), set_topics (Release (topics w) id) w)]
  | CallSend msg =>
      match send msg (msgChan w) with
      | Some ch => [(true, set_msgChan ch w)]
      | None => []
      end ++ (if ctx_done w then [(false, w)] else [])
  end.

(** ** The broker *)

Record broker := {
  shared : world;
  running : gmap conn_id (prog unit);   (* one goroutine per accepted connection *)
}.

Inductive action :=
  | Accept (c : conn_id) (r : reader)   (* a connection that will deliver [r] *)
  | Run (c : conn_id) (i : nat)         (* the next call of [c], with its [i]-th result *)
  | Receive                             (* the pipeline takes a message *)
  | Tick (d : N)                        (* time passes *)
  | PeerReset (c : conn_id)               (* the peer resets the connection *)
  | Cancel                              (* the context is cancelled *)
  | Shutdown.                           (* CloseAll at shutdown *)

Inductive label :=
  | LCall (c : conn_id) (ev : event)
  | LReceive (msg : Message).

Section broker.
Context {T : Type} `{Authenticator T} (s : Server T).

(** The body of the accept loop of [ListenAndServe] for one connection. *)
Definition accept (c : conn_id) (r : reader) (b : broker) : broker :=
  let w := shared b in
  if CanAccept (connMgr w) then
    {| shared := set_conns (<[c := opened]> (conns w)) w;
       running := <[c := handleConnection s c r]> (running b) |}
  else
    {| shared := set_conns (<[c := closed opened]> (conns w)) w; running := running b |}.

Definition perform (a : action) (b : broker) : option (list label * broker) :=
  let w := shared b in
  match a with
  | Accept c r =>
      if bool_decide (conns w !! c = None) && negb (ctx_done w) then Some ([], accept c r b)
      else None
  | Run c i =>
      match running b !! c with
      | Some (Do cl k) =>
          '(x, w') ← exec c cl w !! i;
          Some ([LCall c (Event cl x)],
                {| shared := w'; running := <[c := k x]> (running b) |})
      | _ => None
      end
  | Receive =>
      '(msg, ch) ← recv (msgChan w);
      Some ([LReceive msg], {| shared := set_msgChan ch w; running := running b |})
  | Tick d =>
      Some ([], {| shared := set_clock (clock w + Z.of_N d) w; running := running b |})
  | PeerReset c => Some ([], {| shared := close_conn c w; running := running b |})
  | Cancel => Some ([], {| shared := set_done w; running := running b |})
  | Shutdown =>
      let '(cs, cm) := CloseAll (connMgr w) in
      Some ([], {| shared := set_connMgr cm (close_conns cs w); running := running b |})
  end.

#[local] Abbreviation perform_all := (execute perform).

(** [NewServer] over a new manager, the registry and an empty channel. *)
Definition init (max : Z) (r : TopicRegistry) (bufSize : nat) : broker :=
  {| shared := {| connMgr := NewClientManager max; topics := r; msgChan := make_chan bufSize;
                  conns := ∅; ctx_done := false; clock := 0 |};
     running := ∅ |}.

(** ** Executions *)

(** What one connection did. *)
Definition event_of (c : conn_id) (l : label) : option event :=
  match l with
  | LCall c' ev => if decide (c' = c) then Some ev else None
  | LReceive _ => None
  end.
Definition events_of (c : conn_id) (ls : list label) : list event := omap (event_of c) ls.

Lemma events_of_app c ls ls' : events_of c (ls ++ ls') = events_of c ls ++ events_of c ls'.
Proof. apply omap_app. Qed.

Lemma elem_of_events_of c ev ls : ev ∈ events_of c ls ↔ LCall c ev ∈ ls.
Proof.
  unfold events_of. rewrite list_elem_of_omap. split.
  - intros ([c' ev'|] & Hin & Hev); simpl in Hev; [|done]. case_decide; naive_solver.
  - intros Hin. exists (LCall c ev). simpl. by rewrite decide_True.
Qed.

(** *** Connections come and go only by [Accept] *)

Lemma dom_close_conns cs w : dom (conns (close_conns cs w)) = dom (conns w).
Proof.
  revert w. induction cs as [|c cs IH]; intros w; simpl; [done|].
  rewrite IH. simpl. apply dom_alter_L.
Qed.

Lemma exec_dom me c w x w' : (x, w') ∈ exec me c w → dom (conns w') = dom (conns w).
Proof.
  destruct c; simpl; rewrite ?elem_of_cons, ?elem_of_app; repeat case_match; simpl;
    rewrite ?elem_of_cons, ?elem_of_nil, ?elem_of_app; intros; destruct_or?; simplify_eq/=;
    try done; rewrite ?dom_alter_L, ?dom_close_conns; done.
Qed.

(** *** Each goroutine respects its protocol *)

Definition in_session (ls : list label) (b : broker) : Prop :=
  (∀ c, conns (shared b) !! c = None → running b !! c = None) ∧
  (∀ c, running b !! c = None → events_of c ls = []) ∧
  (∀ c p, running b !! c = Some p → ∃ st,
    after (session_next s c) Opened (events_of c ls) = Some st ∧
    follows (session_next s c) st p (λ _ st, st = Closed)).

Lemma in_session_same ls b ls' w' :
  in_session ls b → dom (conns w') = dom (conns (shared b)) →
  (∀ c, events_of c ls' = []) →
  in_session (ls ++ ls') {| shared := w'; running := running b |}.
Proof.
  intros (Hnew & Hnone & Hrun) Hdom Hls'. split_and!; simpl.
  - intros c Hc. apply Hnew, not_elem_of_dom. rewrite <-Hdom. by apply not_elem_of_dom.
  - intros c Hc. rewrite events_of_app, Hls', (right_id_L [] (++)). by apply Hnone.
  - intros c p Hp. rewrite events_of_app, Hls', (right_id_L [] (++)). by apply Hrun.
Qed.

Lemma in_session_accept ls c r b :
  conns (shared b) !! c = None → in_session ls b → in_session ls (accept c r b).
Proof.
  intros Hfree (Hnew & Hnone & Hrun). unfold accept.
  destruct (CanAccept _); split_and!; simpl; try done.
  - intros c' [Hc ?]%lookup_insert_None. rewrite lookup_insert_ne by done. by apply Hnew.
  - intros c' [Hc ?]%lookup_insert_None. by apply Hnone.
  - intros c' p [[<- <-]|[Hne Hp]]%lookup_insert_Some; [|by apply Hrun].
    exists Opened. rewrite Hnone by auto. split; [done|apply handleConnection_follows].
  - intros c' [Hc ?]%lookup_insert_None. by apply Hnew.
Qed.

Lemma in_session_run ls b c cl k x w' i :
  running b !! c = Some (Do cl k) → exec c cl (shared b) !! i = Some (x, w') →
  in_session ls b →
  in_session (ls ++ [LCall c (Event cl x)]) {| shared := w'; running := <[c := k x]> (running b) |}.
Proof.
  intros Hp Hx%list_elem_of_lookup_2 (Hnew & Hnone & Hrun). split_and!; simpl.
  - intros c' Hc%not_elem_of_dom. rewrite (exec_dom _ _ _ _ _ Hx) in Hc.
    apply not_elem_of_dom, Hnew in Hc. by rewrite lookup_insert_ne by congruence.
  - intros c' [Hc ?]%lookup_insert_None. rewrite events_of_app, Hnone by done.
    simpl. by rewrite decide_False.
  - intros c' p [[<- <-]|[Hne Hp']]%lookup_insert_Some; rewrite events_of_app; simpl.
    + rewrite decide_True by done. destruct (Hrun c _ Hp) as (st & Hst & Hf).
      simpl in Hf. rewrite after_app, Hst. simpl.
      destruct (session_next s c st cl) as [st'|]; [|done]. simpl. eauto.
    + rewrite decide_False by done. rewrite (right_id_L [] (++)). by apply Hrun.
Qed.

Lemma perform_in_session ls b a ls' b' :
  in_session ls b → perform a b = Some (ls', b') → in_session (ls ++ ls') b'.
Proof.
  intros Hb. destruct a; simpl.
  - case_bool_decide as Hfree; simpl; [|done]. destruct (ctx_done _); simpl; [done|].
    intros [= <- <-]. rewrite (right_id_L [] (++)). by apply in_session_accept.
  - destruct (running b !! c) as [[|cl k]|] eqn:Hp; try done.
    destruct (exec c cl (shared b) !! i) as [[x w']|] eqn:Hx; simpl; [|done].
    intros [= <- <-]. by eapply in_session_run.
  - destruct (recv _) as [[msg ch]|]; simpl; [|done]. intros [= <- <-].
    by apply in_session_same.
  - intros [= <- <-]. by apply in_session_same.
  - intros [= <- <-]. apply in_session_same; [done|simpl; apply dom_alter_L|done].
  - intros [= <- <-]. by apply in_session_same.
  - destruct (CloseAll _) as [cs cm]. intros [= <- <-].
    apply in_session_same; [done|simpl; apply dom_close_conns|done].
Qed.

Lemma init_in_session max r n : in_session [] (init max r n).
Proof. split_and!; simpl; [done|done|]. intros c p Hp. by rewrite lookup_empty in Hp. Qed.

Lemma reachable_in_session max r n acts ls b :
  perform_all acts (init max r n) = Some (ls, b) → in_session ls b.
Proof. apply (execute_ind perform); [apply init_in_session|apply perform_in_session]. Qed.

(** *** Messages *)

(** The message a call put into the channel, if any. *)
Definition sent_by (ev : event) : option Message :=
  let '(existT c x) := ev in
  match c return res c → option Message with
  | CallSend msg => λ ok : bool, if ok then Some msg else None
  | _ => λ _, None
  end x.

Definition sent (ls : list label) : list Message :=
  omap (λ l, match l with LCall _ ev => sent_by ev | LReceive _ => None end) ls.
Definition received (ls : list label) : list Message :=
  omap (λ l, match l with LReceive msg => Some msg | LCall _ _ => None end) ls.

Lemma close_conns_msgChan cs w : msgChan (close_conns cs w) = msgChan w.
Proof. revert w. induction cs as [|c cs IH]; intros w; simpl; [done|]. by rewrite IH. Qed.
Lemma close_conns_topics cs w : topics (close_conns cs w) = topics w.
Proof. revert w. induction cs as [|c cs IH]; intros w; simpl; [done|]. by rewrite IH. Qed.
Lemma close_conns_connMgr cs w : connMgr (close_conns cs w) = connMgr w.
Proof. revert w. induction cs as [|c cs IH]; intros w; simpl; [done|]. by rewrite IH. Qed.

Lemma exec_msgChan me c w x w' : (x, w') ∈ exec me c w →
  queued (msgChan w') = queued (msgChan w) ++ option_list (sent_by (Event c x)) ∧
  capacity (msgChan w') = capacity (msgChan w) ∧
  (chan_ok (msgChan w) → chan_ok (msgChan w')).
Proof.
  destruct c; simpl;
    try (rewrite list_elem_of_singleton; intros [= -> ->]; by rewrite app_nil_r).
  - destruct (ClientManager.Add _ _) as [[y cm] cl]. rewrite list_elem_of_singleton.
    intros [= -> ->]. simpl. by rewrite close_conns_msgChan, app_nil_r.
  - destruct (Claim _ _ _) as [y r]. rewrite list_elem_of_singleton. intros [= -> ->].
    by rewrite app_nil_r.
  - rewrite elem_of_app. intros [Hin|Hin].
    + destruct (send msg (msgChan w)) as [ch|] eqn:Hs; [|by apply elem_of_nil in Hin].
      apply list_elem_of_singleton in Hin as [= -> ->]. simpl.
      pose proof (send_ok _ _ _ Hs). by apply send_Some in Hs as [? ->].
    + destruct (ctx_done w); [|by apply elem_of_nil in Hin].
      apply list_elem_of_singleton in Hin as [= -> ->]. by rewrite app_nil_r.
Qed.

Definition delivered (n : nat) (ls : list label) (b : broker) : Prop :=
  sent ls = received ls ++ queued (msgChan (shared b)) ∧
  capacity (msgChan (shared b)) = n ∧ chan_ok (msgChan (shared b)).

Lemma perform_delivered n ls b a ls' b' :
  delivered n ls b → perform a b = Some (ls', b') → delivered n (ls ++ ls') b'.
Proof.
  unfold delivered, sent, received. intros (Hs & Hn & Hok). rewrite !omap_app, Hs.
  destruct a; simpl.
  - destruct (_ && _); [|done]. intros [= <- <-]. simpl. unfold accept.
    destruct (CanAccept _); simpl; by rewrite !(right_id_L [] (++)).
  - destruct (running b !! c) as [[|cl k]|]; try done.
    destruct (exec c cl (shared b) !! i) as [[x w']|] eqn:Hx; simpl; [|done].
    intros [= <- <-]. apply list_elem_of_lookup_2, exec_msgChan in Hx as (Hq & Hc & Hw).
    simpl. rewrite Hq, Hc, (right_id_L [] (++)), <-(assoc_L (++)).
    split_and!; [reflexivity|done|by apply Hw].
  - destruct (recv _) as [[msg ch]|] eqn:Hr; simpl; [|done]. intros [= <- <-]. simpl.
    pose proof (recv_ok _ _ _ Hok Hr). apply recv_Some in Hr as [-> ->].
    by rewrite (right_id_L [] (++)), <-(assoc_L (++)).
  - intros [= <- <-]. simpl. by rewrite !(right_id_L [] (++)).
  - intros [= <- <-]. simpl. by rewrite !(right_id_L [] (++)).
  - intros [= <- <-]. simpl. by rewrite !(right_id_L [] (++)).
  - destruct (CloseAll _) as [cs cm]. intros [= <- <-]. simpl.
    by rewrite close_conns_msgChan, !(right_id_L [] (++)).
Qed.

Lemma reachable_delivered max r n acts ls b :
  perform_all acts (init max r n) = Some (ls, b) → delivered n ls b.
Proof.
  apply (execute_ind perform); [|apply perform_delivered].
  split; [done|]. split; [done|]. unfold chan_ok; simpl. lia.
Qed.

(** *** Limits *)

Definition limits (max : Z) (r : TopicRegistry) (b : broker) : Prop :=
  maxClients (connMgr (shared b)) = max ∧ within_limit (connMgr (shared b)) ∧
  allowed (topics (shared b)) = allowed r ∧ wf_registry (topics (shared b)).

Lemma exec_manager me c w x w' : (x, w') ∈ exec me c w →
  connMgr w' = connMgr w ∨ ∃ op, connMgr w' = apply_client_op (connMgr w) op.
Proof.
  destruct c; simpl; rewrite ?list_elem_of_singleton; try (intros [= -> ->]; by left).
  - destruct (ClientManager.Add _ _) as [[y cm] cl] eqn:HA. rewrite list_elem_of_singleton.
    intros [= -> ->]. right. exists (OpAdd c). simpl. by rewrite HA.
  - intros [= -> ->]. right. by exists (ClientManager.OpRemove clientID).
  - destruct (Claim _ _ _) as [y r]. rewrite list_elem_of_singleton. intros [= -> ->]. by left.
  - rewrite elem_of_app. destruct (send _ _), (ctx_done w);
      rewrite ?list_elem_of_singleton, ?elem_of_nil; intros [Hin|Hin]; simplify_eq; by left.
Qed.

Lemma exec_registry me c w x w' : (x, w') ∈ exec me c w →
  topics w' = topics w ∨ ∃ op, topics w' = apply_op (topics w) op.
Proof.
  destruct c; simpl; rewrite ?list_elem_of_singleton; try (intros [= -> ->]; by left).
  - destruct (ClientManager.Add _ _) as [[y cm] cl] eqn:HA. rewrite list_elem_of_singleton.
    intros [= -> ->]. left. apply close_conns_topics.
  - destruct (Claim _ _ _) as [y r] eqn:HC. rewrite list_elem_of_singleton. intros [= -> ->].
    right. exists (OpClaim topic clientID). simpl. by rewrite HC.
  - intros [= -> ->]. right. by exists (OpRelease clientID).
  - rewrite elem_of_app. destruct (send _ _), (ctx_done w);
      rewrite ?list_elem_of_singleton, ?elem_of_nil; intros [Hin|Hin]; simplify_eq; by left.
Qed.

Lemma perform_limits max r b a ls b' : 0 ≤ max →
  limits max r b → perform a b = Some (ls, b') → limits max r b'.
Proof.
  intros Hmax (Hm & Hl & Ha & Hw). unfold limits. destruct a; simpl.
  - destruct (_ && _); [|done]. intros [= <- <-]. unfold accept. by destruct (CanAccept _).
  - destruct (running b !! c) as [[|cl k]|]; try done.
    destruct (exec c cl (shared b) !! i) as [[x w']|] eqn:Hx; simpl; [|done].
    intros [= <- <-]. apply list_elem_of_lookup_2 in Hx. simpl.
    assert (maxClients (connMgr w') = max ∧ within_limit (connMgr w')) as [??].
    { destruct (exec_manager _ _ _ _ _ Hx) as [->|[op ->]]; [done|].
      destruct (apply_client_op_limit (connMgr (shared b)) op) as [-> Hop].
      split; [done|]. apply Hop; [lia|done]. }
    split_and!; [done|done|..].
    + destruct (exec_registry _ _ _ _ _ Hx) as [->|[op ->]]; [done|]. by rewrite apply_op_allowed.
    + destruct (exec_registry _ _ _ _ _ Hx) as [->|[op ->]]; [done|]. by apply apply_op_wf.
  - destruct (recv _) as [[msg ch]|]; simpl; [|done]. by intros [= <- <-].
  - by intros [= <- <-].
  - by intros [= <- <-].
  - by intros [= <- <-].
  - destruct (apply_client_op_limit (connMgr (shared b)) OpCloseAll) as [Hm' Hop].
    simpl in Hm', Hop. destruct (CloseAll _) as [cs cm]. intros [= <- <-]. simpl in *.
    rewrite close_conns_topics. split_and!; try done; [congruence|apply Hop; [lia|done]].
Qed.

Lemma reachable_limits max r n acts ls b : 0 ≤ max → wf_registry r →
  perform_all acts (init max r n) = Some (ls, b) → limits max r b.
Proof.
  intros Hmax Hr. apply (execute_ind perform (λ _, limits max r)).
  - done.
  - intros. by eapply perform_limits.
Qed.

(** *** What a session's events say of a message *)

(** A client was registered under [id] after presenting accepted credentials. *)
Definition registered (id : string) (evs : list event) : Prop :=
  ∃ cl p, Event (CallAdd cl) (Ok ()) ∈ evs ∧ ID cl = id ∧ ClientID p = id ∧
    HasUsername p = true ∧
    Authenticate (auth s) (Username p) (string_of (Password p)) = true.

Definition session_inv (st : session) (evs : list event) : Prop :=
  match st with
  | Registered id | Leaving id | Released id => registered id evs
  | Serving id ts =>
      registered id evs ∧ ∀ t, t ∈ ts → Event (CallClaim t id) (Ok ()) ∈ evs
  | _ => True
  end.

Lemma registered_mono id evs evs' : registered id evs → registered id (evs ++ evs').
Proof. intros (cl & p & Hin & ?). exists cl, p. rewrite elem_of_app. naive_solver. Qed.

Lemma accepted_Some header data p : accepted s header data = Some p →
  HasUsername p = true ∧ Authenticate (auth s) (Username p) (string_of (Password p)) = true.
Proof.
  unfold accepted. destruct (bool_decide _); [|done]. destruct (DecodeConnect data) as [p'|]; [|done].
  destruct (HasUsername p' && _) eqn:Hp; [|done]. intros [= <-]. by apply andb_true_iff in Hp.
Qed.

Lemma serving_mono id ts evs evs' :
  session_inv (Serving id ts) evs → session_inv (Serving id ts) (evs ++ evs').
Proof.
  intros [Hr Hts]. split; [by apply registered_mono|].
  intros t Ht. apply elem_of_app. left. by apply Hts.
Qed.

Lemma session_inv_step conn st evs cl x f :
  session_inv st evs → session_next s conn st cl = Some f →
  session_inv (f x) (evs ++ [Event cl x]).
Proof.
  intros Hst Hf. destruct st as [|header data| | |id|id ts|id|id| |], cl;
    cbn [session_next] in Hf; try done;
    repeat match type of Hf with
      | (if ?c then _ else _) = _ => destruct c eqn:?
      | match ?m with _ => _ end = _ => destruct m eqn:?
      end; simplify_eq/=; bool_simpl; subst; try done; try (by apply serving_mono);
    try (by apply registered_mono).
  - by destruct x.
  - destruct x as [[]|]; simpl; [|done].
    destruct (accepted_Some _ _ _ ltac:(eassumption)) as [??]. unfold admits in *. bool_simpl.
    eexists c, _. rewrite elem_of_app, list_elem_of_singleton. split_and!; [by right|done|by symmetry|done..].
  - destruct Hst as [Hr Hts]. destruct x as [|header data r' Hx]; simpl; [by apply registered_mono|].
    case_bool_decide; [by apply registered_mono|by apply serving_mono].
  - destruct x as [[]|e]; simpl; [|by apply serving_mono]. destruct Hst as [Hr Hts].
    split; [by apply registered_mono|]. intros t. rewrite elem_of_app, elem_of_union.
    intros [->%elem_of_singleton|Ht]; [right; by apply list_elem_of_singleton|left; by apply Hts].
Qed.

Lemma after_session_inv conn evs st :
  after (session_next s conn) Opened evs = Some st → session_inv st evs.
Proof.
  revert st. induction evs as [|[cl x] evs IH] using rev_ind; intros st; [by intros [= <-]|].
  rewrite after_app. destruct (after _ Opened evs) as [st'|]; simpl; [|done].
  destruct (session_next s conn st' cl) as [f|] eqn:Hf; simpl; [|done]. intros [= <-].
  apply (session_inv_step conn st'); [by apply IH|done].
Qed.

(** The state of a session just before one of its events. *)
Lemma session_before ls b ls1 c cl x ls2 :
  in_session ls b → ls = ls1 ++ LCall c (Event cl x) :: ls2 →
  ∃ st, session_inv st (events_of c ls1) ∧ is_Some (session_next s c st cl).
Proof.
  intros (_ & Hnone & Hrun) ->.
  assert (events_of c (ls1 ++ LCall c (Event cl x) :: ls2) =
    events_of c ls1 ++ Event cl x :: events_of c ls2) as Hev.
  { rewrite events_of_app. simpl. by rewrite decide_True. }
  destruct (running b !! c) as [p|] eqn:Hp.
  - destruct (Hrun c p Hp) as (st & Hst & _). rewrite Hev, after_app in Hst.
    destruct (after _ Opened (events_of c ls1)) as [st1|] eqn:H1; simpl in Hst; [|done].
    exists st1. split; [by eapply after_session_inv|].
    by destruct (session_next s c st1 cl).
  - specialize (Hnone c Hp). rewrite Hev in Hnone. by destruct (events_of c ls1).
Qed.

(** The topic and client of a successful claim. *)
Definition claimed_by (ev : event) : option (string * string) :=
  let '(existT c x) := ev in
  match c return res c → option (string * string) with
  | CallClaim topic id => λ x, if is_ok x then Some (topic, id) else None
  | _ => λ _, None
  end x.

Lemma exec_claim me c w x w' t id :
  (x, w') ∈ exec me c w → claimed_by (Event c x) = Some (t, id) → t ∈ allowed (topics w).
Proof.
  destruct c; try done. simpl.
  destruct (Claim (topics w) topic clientID) as [[[]|e] r] eqn:HC;
    rewrite list_elem_of_singleton; intros [= -> ->]; [|done].
  intros [= -> ->]. by apply Claim_Ok in HC as [? _].
Qed.

(** Only allowed topics are ever claimed. *)
Definition claims_allowed (r : TopicRegistry) (ls : list label) : Prop :=
  ∀ c ev t id, LCall c ev ∈ ls → claimed_by ev = Some (t, id) → t ∈ allowed r.

Lemma perform_claims r b a ls b' :
  allowed (topics (shared b)) = allowed r → perform a b = Some (ls, b') → claims_allowed r ls.
Proof.
  intros Hr. unfold claims_allowed. destruct a; simpl.
  - destruct (_ && _); [|done]. intros [= <- <-] c' ev t id. by rewrite elem_of_nil.
  - destruct (running b !! c) as [[|cl k]|]; try done.
    destruct (exec c cl (shared b) !! i) as [[x w']|] eqn:Hx; simpl; [|done].
    intros [= <- <-] c' ev t id [= -> ->]%list_elem_of_singleton. rewrite <-Hr.
    by eapply exec_claim, list_elem_of_lookup_2.
  - destruct (recv _) as [[msg ch]|]; simpl; [|done].
    by intros [= <- <-] c ev t id ?%list_elem_of_singleton.
  - intros [= <- <-] c ev t id. by rewrite elem_of_nil.
  - intros [= <- <-] c' ev t id. by rewrite elem_of_nil.
  - intros [= <- <-] c ev t id. by rewrite elem_of_nil.
  - destruct (CloseAll _) as [cs cm]. intros [= <- <-] c ev t id. by rewrite elem_of_nil.
Qed.

Lemma reachable_claims max r n acts ls b : 0 ≤ max → wf_registry r →
  perform_all acts (init max r n) = Some (ls, b) → claims_allowed r ls.
Proof.
  intros Hmax Hr Hp.
  cut (limits max r b ∧ claims_allowed r ls); [by intros []|]. revert Hp.
  apply (execute_ind perform (λ ls b, limits max r b ∧ claims_allowed r ls)).
  - split; [done|]. intros c ev t id. by rewrite elem_of_nil.
  - intros ls0 b0 a ls1 b1 [Hl Hc] Ha. split; [by eapply perform_limits|].
    intros c ev t id. rewrite elem_of_app. intros [?|?]; [by eapply Hc|].
    eapply perform_claims; [|done..]. by destruct Hl as (_ & _ & ? & _).
Qed.

(** What entitles a session to send a message. *)
Lemma send_authorised max r n acts ls b ls1 c msg ls2 :
  0 ≤ max → wf_registry r → perform_all acts (init max r n) = Some (ls, b) →
  ls = ls1 ++ LCall c (Event (CallSend msg) true) :: ls2 →
  MsgTopic msg ∈ allowed r ∧ Timezone msg = timezone s ∧
  registered (MsgClientID msg) (events_of c ls1) ∧
  LCall c (Event (CallClaim (MsgTopic msg) (MsgClientID msg)) (Ok ())) ∈ ls1.
Proof.
  intros Hmax Hr Hp Hls.
  destruct (session_before ls b ls1 c (CallSend msg) true ls2) as (st & Hinv & [f Hf]);
    [by eapply reachable_in_session|done|].
  destruct st; try done. simpl in Hf. destruct (may_send _ _ _ _) eqn:Hm; [|done].
  unfold may_send in Hm. bool_simpl. subst id. destruct Hinv as [Hreg Hclaims].
  assert (LCall c (Event (CallClaim (MsgTopic msg) (MsgClientID msg)) (Ok ())) ∈ ls1) as Hcl
    by by apply elem_of_events_of, Hclaims.
  split_and!; [|done|done|done].
  apply (reachable_claims max r n acts ls b Hmax Hr Hp c
    (Event (CallClaim (MsgTopic msg) (MsgClientID msg)) (Ok ())) _ (MsgClientID msg)); [|done].
  rewrite Hls. apply elem_of_app. by left.
Qed.

(** ** Properties *)

(** C8: in every execution of the broker, however its connections interleave,
    each connection's calls form a run of the session protocol that may still
    end properly: nothing but a refusal happens before a CONNECT with accepted
    credentials; the client registered is the one of that CONNECT; every reply
    is a PUBACK, SUBACK or PINGRESP; claims and messages carry the session's
    own client ID, and a message is only sent on a topic the session has
    claimed.  A goroutine that has ended has gone through the whole protocol:
    its topics, its slot and its connection were given back, in this order. *)
Theorem sessions_respected max r n acts ls b c p :
  perform_all acts (init max r n) = Some (ls, b) → running b !! c = Some p →
  ∃ st, after (session_next s c) Opened (events_of c ls) = Some st ∧
    follows (session_next s c) st p (λ _ st', st' = Closed) ∧
    (p = Ret () → st = Closed).
Proof.
  intros (_ & _ & Hrun)%reachable_in_session Hp.
  destruct (Hrun c p Hp) as (st & Hst & Hf). exists st. split_and!; [done|done|].
  intros ->. exact Hf.
Qed.

(** C7: authorisation: a message that enters the message channel is on one of
    the configured topics, carries the server's time zone, and was sent by a
    session that before had registered the message's client ID with accepted
    credentials and had claimed the message's topic under that ID. *)
Theorem messages_authorised max r n acts ls b ls1 c msg ls2 :
  0 ≤ max → wf_registry r → perform_all acts (init max r n) = Some (ls, b) →
  ls = ls1 ++ LCall c (Event (CallSend msg) true) :: ls2 →
  IsAllowed r (MsgTopic msg) = true ∧ Timezone msg = timezone s ∧
  registered (MsgClientID msg) (events_of c ls1) ∧
  LCall c (Event (CallClaim (MsgTopic msg) (MsgClientID msg)) (Ok ())) ∈ ls1.
Proof.
  intros Hmax Hr Hp Hls.
  destruct (send_authorised max r n acts ls b ls1 c msg ls2) as (? & ? & ? & ?); try done.
  split_and!; [|done..]. by apply bool_decide_eq_true.
Qed.

(** the message channel loses, duplicates and reorders nothing: in every
    execution the messages taken by the pipeline followed by those still
    queued are exactly the messages the connections sent, in the order they
    were sent, and at most the channel's capacity are queued. *)
Theorem channel_fifo max r n acts ls b :
  perform_all acts (init max r n) = Some (ls, b) →
  sent ls = received ls ++ queued (msgChan (shared b)) ∧
  (length (queued (msgChan (shared b))) ≤ n)%nat.
Proof.
  intros (Hs & Hn & Hok)%reachable_delivered. split; [done|]. unfold chan_ok in Hok. lia.
Qed.

(** C10: in every reachable state the client manager holds at most its limit,
    the allowed topics are the configured ones, and only those have owners. *)
Theorem broker_limits max r n acts ls b :
  0 ≤ max → wf_registry r → perform_all acts (init max r n) = Some (ls, b) →
  Count (connMgr (shared b)) ≤ max ∧
  (∀ topic, IsAllowed (topics (shared b)) topic = IsAllowed r topic) ∧
  (∀ topic, Owner (topics (shared b)) topic ≠ ""%string → IsAllowed r topic = true).
Proof.
  intros Hmax Hr Hp. destruct (reachable_limits max r n acts ls b Hmax Hr Hp) as (Hm & Hl & Ha & Hw).
  unfold within_limit in Hl. rewrite Hm in Hl. unfold IsAllowed, Owner. rewrite Ha.
  split_and!; [done|done|]. intros topic Ho. apply bool_decide_eq_true. rewrite <-Ha.
  apply Hw, elem_of_dom. by destruct (owners _ !! topic).
Qed.

End broker.

Abbreviation perform_all s := (execute (perform s)).

(** ** A concrete execution *)

Definition sample_server : Server EnvAuthenticator :=
  {| auth := NewEnvAuthenticator "u" "p"; timezone := "UTC" |}.
Definition sample_topics : TopicRegistry :=
  {| allowed := {["a"%string; "b"%string]}; owners := ∅ |}.

(** A client that connects, publishes "1" on topic "a" with QoS 1 and stays. *)
Definition publisher (id : string) (keepAlive : Z) (more : list byte) : reader :=
  Reader (BuildConnectPacket id "u" "p" keepAlive ++ BuildPublishPacket "a" [x31] x01 7 ++ more)
    ErrClosed.

Definition runs (c : conn_id) (n : nat) : list action := replicate n (Run c 0).

(** It is accepted, publishes, and the pipeline takes the message. *)
Definition sample_actions : list action :=
  [Accept 0%nat (publisher "m1" 60 [])] ++ runs 0%nat 14 ++ [Receive].
Definition sample_run : option (list label * broker) :=
  perform_all sample_server sample_actions (init 2 sample_topics 8).

Definition sample_message : Message :=
  {| MsgClientID := "m1"; MsgTopic := "a"; MsgPayload := [x31]; Timezone := "UTC"; Timestamp := 0 |}.

Definition sample_labels : list label := from_option fst [] sample_run.
Definition sample_broker : broker := from_option snd (init 2 sample_topics 8) sample_run.

Lemma sample_run_eq : sample_run = Some (sample_labels, sample_broker).
Proof. apply (computed_run sample_run). vm_compute. reflexivity. Qed.

Lemma sample_topics_wf : wf_registry sample_topics.
Proof. unfold wf_registry. simpl. set_solver. Qed.

Lemma sessions_respected_witness :
  ∃ p st, running sample_broker !! 0%nat = Some p ∧
    after (session_next sample_server 0%nat) Opened (events_of 0%nat sample_labels) = Some st ∧
    follows (session_next sample_server 0%nat) st p (λ _ st', st' = Closed).
Proof.
  destruct (running sample_broker !! 0%nat) as [p|] eqn:Hp.
  - destruct (sessions_respected sample_server 2 sample_topics 8 _ _ _ 0%nat p sample_run_eq Hp)
      as (st & Hst & Hf & _).
    exists p, st. split; [reflexivity|]. split; [exact Hst|exact Hf].
  - exfalso. assert (is_ok (match running sample_broker !! 0%nat with
      Some x => Ok x | None => Err () end) = true) as Hr by (vm_compute; reflexivity).
    rewrite Hp in Hr. discriminate.
Defined.

Lemma sample_sent :
  sample_labels !! 12%nat = Some (LCall 0%nat (Event (CallSend sample_message) true)).
Proof. vm_compute. reflexivity. Qed.

Lemma messages_authorised_witness :
  IsAllowed sample_topics "a" = true ∧
  LCall 0%nat (Event (CallClaim "a" "m1") (Ok ())) ∈ take 12 sample_labels.
Proof.
  destruct (messages_authorised sample_server 2 sample_topics 8 sample_actions sample_labels sample_broker
    (take 12 sample_labels) 0%nat sample_message (drop 13 sample_labels)) as (? & _ & _ & ?).
  - lia.
  - apply sample_topics_wf.
  - apply sample_run_eq.
  - symmetry. apply take_drop_middle, sample_sent.
  - split; assumption.
Defined.

Lemma channel_fifo_witness :
  sent sample_labels = [sample_message] ∧
  sent sample_labels = received sample_labels ++ queued (msgChan (shared sample_broker)).
Proof.
  split; [vm_compute; reflexivity|].
  apply (channel_fifo sample_server 2 sample_topics 8 _ _ _ sample_run_eq).
Defined.

Lemma broker_limits_witness :
  Count (connMgr (shared sample_broker)) = 1 ∧ Count (connMgr (shared sample_broker)) ≤ 2.
Proof.
  split; [vm_compute; reflexivity|].
  eapply (broker_limits sample_server 2 sample_topics 8); [lia|apply sample_topics_wf|].
  apply sample_run_eq.
Defined.
