(* ===== verification/Session.v ===== *)
(** * A complete client session

    A connection whose goroutine is scheduled without interference, as a
    function ([solo]), its place among the broker's executions, and what a
    whole session does: a client that connects, publishes on its topics and
    disconnects gets all its messages into the message channel, in order, and
    leaves nothing behind. *)

From S2P Require Export Broker.

Local Open Scope Z_scope.

(** ** Running one connection by itself *)

(** Each call takes its first result; [None] when a call blocks. *)
Fixpoint solo {A} (me : conn_id) (p : prog A) (w : world) : option (A * world) :=
  match p with
  | Ret a => Some (a, w)
  | Do c k =>
      match exec me c w with
      | [] => None
      | (x, w') :: _ => solo me (k x) w'
      end
  end.

Lemma solo_bind {A B} me (p : prog A) (f : A → prog B) w :
  solo me (p ≫= f) w = (x ← solo me p w; solo me (f x.1) x.2).
Proof.
  revert w. induction p as [a|c k IH]; intros w; simpl; [done|].
  destruct (exec me c w) as [|[x w'] ?]; [done|]. apply IH.
Qed.

Lemma solo_step {A} me c (k : res c → prog A) w x w' rest :
  exec me c w = (x, w') :: rest → solo me (Do c k) w = solo me (k x) w'.
Proof. simpl. by intros ->. Qed.

Section session.
Context {T : Type} `{Authenticator T} (s : Server T).

(** Such a run is an execution of the broker. *)
Lemma solo_performs c p b w' :
  running b !! c = Some p → solo c p (shared b) = Some ((), w') →
  ∃ n ls, perform_all s (replicate n (Run c 0)) b =
    Some (ls, {| shared := w'; running := <[c := Ret ()]> (running b) |}).
Proof.
  intros Hp. revert b Hp. induction p as [[]|cl k IH]; intros b Hp; simpl.
  - intros [= <-]. exists 0%nat, []. simpl. rewrite insert_id by done. by destruct b.
  - destruct (exec c cl (shared b)) as [|[x w1] rest] eqn:Hx; [done|]. intros Hk.
    set (b1 := {| shared := w1; running := <[c := k x]> (running b) |}).
    destruct (IH x b1) as (n & ls & Hn); [apply lookup_insert_eq|done|].
    exists (S n), (LCall c (Event cl x) :: ls). simpl. rewrite Hp, Hx. simpl.
    fold b1. rewrite Hn. simpl. by rewrite insert_insert_eq.
Qed.

(** ** The client *)

Record publication := {
  pub_topic : string;
  pub_payload : list byte;
  pub_qos : byte;
  pub_id : Z;
}.

Definition pub_bytes (p : publication) : list byte :=
  BuildPublishPacket (pub_topic p) (pub_payload p) (pub_qos p) (pub_id p).

Definition valid_pub (p : publication) : Prop :=
  pub_topic p ≠ ""%string ∧ short (bytes_of (pub_topic p)) ∧ uint8 (pub_qos p) ≤ 2 ∧
  is_uint16 (pub_id p) ∧ len (pub_payload p) ≤ max_remaining_length - 65540.

(** DISCONNECT, and the bytes of a client that publishes and disconnects. *)
Definition disconnect : list byte := [xe0; x00].
Definition publish_stream (pubs : list publication) : list byte :=
  concat (pub_bytes <$> pubs) ++ disconnect.

(** ** What the session should do *)

Definition pub_message (id : string) (now : Z) (p : publication) : Message :=
  {| MsgClientID := id; MsgTopic := pub_topic p; MsgPayload := pub_payload p;
     Timezone := timezone s; Timestamp := now |}.

(** The acknowledgement a publication asks for. *)
Definition pub_ack (p : publication) : list byte :=
  if uint8 (pub_qos p) =? 1 then EncodePuback (pub_id p) else [].

Definition pub_claims (id : string) (pubs : list publication) : list topic_op :=
  (λ p, OpClaim (pub_topic p) id) <$> pubs.

(** The deadline after a keep-alive reset at [now]. *)
Definition kept_deadline (ka now : Z) (d : option Z) : option Z :=
  if ka >? 0 then Some (now + keep_alive_timeout ka) else d.

(** The shared state after the publications, at a constant time. *)
Definition after_pubs (c : conn_id) (cl : Client) (cs : conn_state) (pubs : list publication)
    (w : world) : world :=
  {| connMgr := connMgr w;
     topics := apply_ops (topics w) (pub_claims (ID cl) pubs);
     msgChan := Chan (capacity (msgChan w))
       (queued (msgChan w) ++ (pub_message (ID cl) (clock w) <$> pubs));
     conns := <[c := {| is_open := true;
                        deadline := kept_deadline (ClientKeepAlive cl) (clock w) (deadline cs);
                        written := written cs ++ concat (pub_ack <$> pubs) |}]> (conns w);
     ctx_done := ctx_done w; clock := clock w |}.

(** ** One packet at a time *)

Lemma read_usable c cs w r : conns w !! c = Some cs → conn_error (clock w) cs = None →
  exec c (CallRead r) w = [(read_packet r, w)].
Proof. intros Hc He. simpl. rewrite Hc. simpl. by rewrite He. Qed.

Lemma kept_deadline_usable ka now cs : is_uint16 ka → conn_error now cs = None →
  conn_error now {| is_open := true; deadline := kept_deadline ka now (deadline cs);
                    written := written cs |} = None.
Proof.
  unfold conn_error, kept_deadline. intros Hka. simpl.
  destruct (is_open cs); [|done]. rewrite Z.gtb_ltb. destruct (Z.ltb_spec 0 ka); [|done]. intros _.
  rewrite keep_alive_timeout_eq by done. unfold is_uint16, Second in *.
  assert (1 ≤ 3 * ka / 2) by (apply Z.div_le_lower_bound; lia).
  destruct (Z.leb_spec (now + 3 * ka / 2 * 1000000000) now); [lia|done].
Qed.

Definition reset_conn (ka now : Z) (cs : conn_state) : conn_state :=
  {| is_open := is_open cs; deadline := kept_deadline ka now (deadline cs); written := written cs |}.

Definition seen (now : Z) (cl : Client) : Client :=
  {| ID := ID cl; Conn := Conn cl; ClientKeepAlive := ClientKeepAlive cl;
     CreatedAt := CreatedAt cl; LastSeen := now |}.

Lemma alter_lookup (f : conn_state → conn_state) c cs (m : gmap conn_id conn_state) :
  m !! c = Some cs → alter f c m = <[c := f cs]> m.
Proof.
  intros Hc. apply map_eq. intros c'. destruct (decide (c' = c)) as [->|].
  - by rewrite lookup_alter_eq, lookup_insert_eq, Hc.
  - by rewrite lookup_alter_ne, lookup_insert_ne.
Qed.

Lemma solo_resetDeadline c cl cs w : conns w !! c = Some cs →
  solo c (resetDeadline cl) w =
  Some (seen (clock w) cl,
        set_conns (<[c := reset_conn (ClientKeepAlive cl) (clock w) cs]> (conns w)) w).
Proof.
  intros Hc. simpl. unfold ResetDeadline, seen, reset_conn, kept_deadline.
  destruct (ClientKeepAlive cl >? 0); simpl.
  - by rewrite (alter_lookup _ c cs).
  - do 2 f_equal. rewrite insert_id; [by destruct w|]. rewrite Hc. by destruct cs.
Qed.

(** A publication is claimed, sent and, with QoS 1, acknowledged. *)
Lemma solo_handlePublish c cl cs w header data p r' :
  conns w !! c = Some cs → conn_error (clock w) cs = None →
  (length (queued (msgChan w)) < capacity (msgChan w))%nat →
  DecodePublish header data = Ok (built_publish (pub_topic p) (pub_payload p) (pub_qos p) (pub_id p)) →
  Claim (topics w) (pub_topic p) (ID cl) = (Ok (), r') →
  solo c (handlePublish s cl header data) w =
  Some ((), {| connMgr := connMgr w; topics := r';
               msgChan := Chan (capacity (msgChan w))
                 (queued (msgChan w) ++ [pub_message (ID cl) (clock w) p]);
               conns := <[c := {| is_open := is_open cs; deadline := deadline cs;
                                  written := written cs ++ pub_ack p |}]> (conns w);
               ctx_done := ctx_done w; clock := clock w |}).
Proof.
  intros Hc He Hroom Hd HC. unfold handlePublish. rewrite Hd. simpl. rewrite HC. simpl.
  assert (send (pub_message (ID cl) (clock w) p) (msgChan w) = Some (Chan (capacity (msgChan w))
    (queued (msgChan w) ++ [pub_message (ID cl) (clock w) p]))) as Hs by by apply send_Some.
  unfold pub_message in *. rewrite Hs. simpl.
  unfold pub_ack. destruct (Z.eqb_spec (uint8 (pub_qos p)) 1) as [Hq|]; simpl.
  - rewrite (alter_lookup _ c cs) by done. rewrite Hq. simpl. unfold write_conn. by rewrite He.
  - rewrite (right_id_L [] (++)), insert_id; [done|]. rewrite Hc. by destruct cs.
Qed.

(** ** The whole read loop *)

Lemma solo_iteration c cl cs w r header data r' :
  conns w !! c = Some cs → conn_error (clock w) cs = None → is_uint16 (ClientKeepAlive cl) →
  ReadPacket r = (Ok (header, data), r') →
  let w1 := set_conns (<[c := reset_conn (ClientKeepAlive cl) (clock w) cs]> (conns w)) w in
  solo c (readLoop s cl r) w =
  if decide (Type_ header = DISCONNECT) then Some ((), w1)
  else
    x ← solo c (handlePacket s (seen (clock w) cl) header data) w1;
    solo c (readLoop s (seen (clock w) cl) r') x.2.
Proof.
  intros Hc He Hka Hr w1. rewrite readLoop_equation_1, solo_bind, (solo_resetDeadline c cl cs) by done.
  simpl option_bind. fold w1. destruct (read_packet_Ok _ _ _ _ Hr) as [Hlt Hread].
  assert (conn_error (clock w1) (reset_conn (ClientKeepAlive cl) (clock w) cs) = None) as He1.
  { pose proof (kept_deadline_usable _ _ _ Hka He) as Hk. unfold reset_conn.
    unfold conn_error in *. simpl in *. by destruct (is_open cs). }
  assert (exec c (CallRead r) w1 = [(ReadOk header data r' Hlt, w1)]) as Hexec.
  { rewrite <-Hread. eapply read_usable; [apply lookup_insert_eq|done]. }
  change (solo c (Do (CallRead r) (λ x, match x with
    | ReadErr _ => mret ()
    | ReadOk header data r' _ => if decide (Type_ header = DISCONNECT) then mret () else
        handlePacket s (seen (clock w) cl) header data;; readLoop s (seen (clock w) cl) r'
    end)) w1 = if decide (Type_ header = DISCONNECT) then Some ((), w1)
      else x ← solo c (handlePacket s (seen (clock w) cl) header data) w1;
           solo c (readLoop s (seen (clock w) cl) r') x.2).
  rewrite (solo_step _ _ _ _ _ _ _ Hexec). case_decide; [done|].
  by rewrite solo_bind.
Qed.

Lemma after_pubs_nil c cl cs w : is_open cs = true → conns w !! c = Some cs →
  set_conns (<[c := reset_conn (ClientKeepAlive cl) (clock w) cs]> (conns w)) w =
  after_pubs c cl cs [] w.
Proof.
  intros Ho Hc. unfold after_pubs, set_conns, reset_conn. simpl.
  rewrite !(right_id_L [] (++)), Ho. by destruct w as [? ? []].
Qed.

Lemma conn_error_open now cs : conn_error now cs = None → is_open cs = true.
Proof. unfold conn_error. by destruct (is_open cs). Qed.

(** What the publications of a client need of the shared state. *)
Definition can_publish (id : string) (pubs : list publication) (w : world) : Prop :=
  (length (queued (msgChan w)) + length pubs ≤ capacity (msgChan w))%nat ∧
  Forall (λ p, valid_pub p ∧ pub_topic p ∈ allowed (topics w) ∧
    (owners (topics w) !! pub_topic p = None ∨ owners (topics w) !! pub_topic p = Some id)) pubs.

Lemma solo_readLoop c cl cs pubs w r :
  conns w !! c = Some cs → conn_error (clock w) cs = None → is_uint16 (ClientKeepAlive cl) →
  can_publish (ID cl) pubs w →
  solo c (readLoop s cl (push (publish_stream pubs) r)) w = Some ((), after_pubs c cl cs pubs w).
Proof.
  revert cl cs w. induction pubs as [|p pubs IH]; intros cl cs w Hc He Hka [Hroom Hpubs].
  { erewrite (solo_iteration c cl cs w _ (frame_header DISCONNECT 0 []) [] r); [|done..|].
    - rewrite decide_True by done. f_equal. f_equal.
      apply after_pubs_nil; [by eapply conn_error_open|done].
    - change (publish_stream []) with (frame DISCONNECT 0 []). apply frame_read.
      split_and!; [by intros []|lia|lia|]. unfold max_remaining_length, len; simpl. lia. }
  apply Forall_cons in Hpubs as [((Ht & Hs & Hq & Hid & Hlen) & Hall & Hown) Hpubs].
  change (publish_stream (p :: pubs)) with ((pub_bytes p ++ concat (pub_bytes <$> pubs)) ++ disconnect).
  rewrite <-(assoc_L (++)). rewrite push_app.
  fold (publish_stream pubs).
  destruct (BuildPublishPacket_decodes (pub_topic p) (pub_payload p) (pub_qos p) (pub_id p)
    (push (publish_stream pubs) r)) as (header & data & Hr & Hty & Hd); [done..|].
  erewrite (solo_iteration c cl cs w); [|done..].
  rewrite decide_False by congruence. unfold handlePacket. rewrite Hty.
  destruct (Claim (topics w) (pub_topic p) (ID cl)) as [[[]|e] r'] eqn:HC.
  2: { apply Claim_Err in HC as [_ [[]|(_ & _ & o & Ho & Hne)]]; [done|].
       destruct Hown; congruence. }
  set (cs1 := reset_conn (ClientKeepAlive cl) (clock w) cs).
  set (w1 := set_conns _ w).
  assert (conn_error (clock w) cs1 = None) as He1.
  { pose proof (kept_deadline_usable _ _ _ Hka He) as Hk. unfold cs1, reset_conn, conn_error in *.
    simpl in *. by destruct (is_open cs). }
  simpl in Hroom.
  rewrite (solo_handlePublish c (seen (clock w) cl) cs1 w1 header data p r');
    [|apply lookup_insert_eq|done|simpl; lia|done|done].
  cbn [mbind option_bind snd].
  rewrite (IH (seen (clock w) cl) {| is_open := is_open cs1; deadline := deadline cs1;
    written := written cs1 ++ pub_ack p |}).
  - f_equal. f_equal. unfold after_pubs. simpl. rewrite HC, !insert_insert_eq. simpl.
    f_equal; [by rewrite <-(assoc_L (++))|]. f_equal. f_equal; [|by rewrite <-(assoc_L (++))].
    unfold kept_deadline. by destruct (ClientKeepAlive cl >? 0).
  - apply lookup_insert_eq.
  - unfold conn_error in *. done.
  - done.
  - split; [simpl; rewrite length_app; simpl; lia|].
    apply Claim_Ok in HC as (_ & _ & Hal & Ho).
    eapply Forall_impl; [exact Hpubs|]. simpl. intros p' (? & ? & Hown').
    rewrite Hal, Ho. split_and!; [done|done|].
    destruct (decide (pub_topic p' = pub_topic p)) as [->|].
    + right. apply lookup_insert_eq.
    + by rewrite lookup_insert_ne.
Qed.

(** ** The end of a session *)

Lemma claims_add_only_id r id pubs t o :
  owners (apply_ops r (pub_claims id pubs)) !! t = Some o → o = id ∨ owners r !! t = Some o.
Proof.
  revert r. induction pubs as [|p pubs IH]; intros r; simpl; [by right|].
  intros [->|Ho]%IH; [by left|].
  destruct (Claim r (pub_topic p) id) as [[[]|e] r'] eqn:HC; simpl in Ho.
  - apply Claim_Ok in HC as (_ & _ & _ & Hr'). rewrite Hr' in Ho.
    apply lookup_insert_Some in Ho as [[_ <-]|[_ Ho]]; [by left|by right].
  - apply Claim_Err in HC as [-> _]. by right.
Qed.

(** Releasing the client undoes the claims of its session. *)
Lemma Release_claims r id pubs : (∀ t, owners r !! t ≠ Some id) →
  Release (apply_ops r (pub_claims id pubs)) id = r.
Proof.
  intros Hno. destruct r as [al ow].
  assert (owners (Release (apply_ops {| allowed := al; owners := ow |} (pub_claims id pubs)) id) = ow)
    as Ho.
  { apply map_eq. intros t. rewrite lookup_Release.
    destruct (ow !! t) as [o|] eqn:Ht.
    - rewrite (apply_ops_owner _ _ t o); [|done|].
      + simpl. rewrite decide_False; [done|]. intros ->. by apply (Hno t).
      + unfold pub_claims. intros ([? ?] & Hin & _)%list_elem_of_fmap. done.
    - destruct (owners _ !! t) as [o|] eqn:Ho; [|done].
      apply claims_add_only_id in Ho as [->|Ho]; [simpl; by rewrite decide_True|].
      simpl in Ho. congruence. }
  unfold Release at 1. f_equal; [apply apply_ops_allowed|exact Ho].
Qed.

Definition say (data : list byte) (cs : conn_state) : conn_state :=
  {| is_open := is_open cs; deadline := deadline cs; written := written cs ++ data |}.

(** A registered client is served until it disconnects. *)
Lemma solo_serveClient c cl cs pubs w r :
  conns w !! c = Some cs → conn_error (clock w) cs = None → is_uint16 (ClientKeepAlive cl) →
  can_publish (ID cl) pubs w → (∀ t, owners (topics w) !! t ≠ Some (ID cl)) →
  let w1 := after_pubs c cl (say (EncodeConnack false ConnAccepted) cs) pubs
    (set_conns (<[c := say (EncodeConnack false ConnAccepted) cs]> (conns w)) w) in
  solo c (serveClient s cl (push (publish_stream pubs) r)) w =
  Some ((), set_connMgr (Remove (connMgr w) (ID cl)) (set_topics (topics w) w1)).
Proof.
  intros Hc He Hka Hpubs Hno w1. unfold serveClient.
  assert (exec c (CallWrite (EncodeConnack false ConnAccepted)) w =
    [((), set_conns (<[c := say (EncodeConnack false ConnAccepted) cs]> (conns w)) w)]) as Hexec.
  { simpl. rewrite (alter_lookup _ c cs) by done. unfold write_conn, say. by rewrite He. }
  etransitivity; [exact (solo_step c _ _ w _ _ _ Hexec)|]. cbv beta.
  change (solo c (readLoop s cl (push (publish_stream pubs) r);;
    invoke (CallRelease (ID cl));; invoke (CallRemove (ID cl)))
    (set_conns (<[c := say (EncodeConnack false ConnAccepted) cs]> (conns w)) w) =
    Some ((), set_connMgr (Remove (connMgr w) (ID cl)) (set_topics (topics w) w1))).
  rewrite solo_bind.
  rewrite (solo_readLoop c cl (say (EncodeConnack false ConnAccepted) cs));
    [|apply lookup_insert_eq|by unfold conn_error in *|done|done].
  fold w1. cbn [mbind option_bind snd]. simpl. unfold set_connMgr, set_topics. simpl.
  by rewrite Release_claims.
Qed.

(** ** From the accept loop to the close *)

Definition client_stream (id user pass : string) (ka : Z) (pubs : list publication) : list byte :=
  BuildConnectPacket id user pass ka ++ publish_stream pubs.

(** The broker can serve the client: there is room for it and its messages,
    its credentials are accepted, its ID is not in use and its topics are
    configured and free. *)
Definition can_serve (id user pass : string) (ka : Z) (pubs : list publication) (w : world) : Prop :=
  CanAccept (connMgr w) = true ∧ clients (connMgr w) !! id = None ∧
  Authenticate (auth s) user pass = true ∧
  is_uint16 ka ∧ short (bytes_of id) ∧ short (bytes_of user) ∧ short (bytes_of pass) ∧
  (length (queued (msgChan w)) + length pubs ≤ capacity (msgChan w))%nat ∧
  (∀ t, owners (topics w) !! t ≠ Some id) ∧
  Forall (λ p, valid_pub p ∧ pub_topic p ∈ allowed (topics w) ∧
    owners (topics w) !! pub_topic p = None) pubs.

Definition greeted (now : Z) : conn_state := with_deadline (now + connectTimeout) opened.

Lemma greeted_usable now : conn_error now (greeted now) = None.
Proof.
  unfold conn_error, greeted, connectTimeout, Second. cbn [is_open deadline with_deadline opened].
  destruct (Z.leb_spec (now + 5 * 1000000000) now); [lia|done].
Qed.

(** The first part of [handleConnection], up to the registered client. *)
Lemma solo_handleConnect c w id user pass ka pubs r :
  conns w !! c = Some opened → can_serve id user pass ka pubs w →
  let cl := NewClient id c ka (clock w) in
  let cm := {| clients := <[id := c]> (clients (connMgr w)); maxClients := maxClients (connMgr w) |} in
  solo c (handleConnect s c (push (client_stream id user pass ka pubs) r)) w =
  solo c (serveClient s cl (push (publish_stream pubs) r))
    (set_connMgr cm (set_conns (<[c := greeted (clock w)]> (conns w)) w)).
Proof.
  intros Hc (Hacc & Hfree & Hauth & Hka & Hid & Huser & Hpass & _) cl cm.
  destruct (BuildConnectPacket_decodes id user pass ka (push (publish_stream pubs) r) Hka Hid Huser Hpass)
    as (header & data & Hr & Hty & Hd).
  unfold client_stream. rewrite push_app.
  destruct (read_packet_Ok _ _ _ _ Hr) as [Hlt Hread].
  set (w1 := set_conns (<[c := greeted (clock w)]> (conns w)) w).
  unfold handleConnect.
  etransitivity; [eapply solo_step; reflexivity|].
  etransitivity; [eapply solo_step; simpl; by rewrite (alter_lookup _ c opened)|]. fold w1.
  etransitivity; [eapply solo_step; apply (read_usable c (greeted (clock w)));
    [apply lookup_insert_eq|apply greeted_usable]|].
  cbv beta. rewrite Hread, Hty. rewrite bool_decide_eq_false_2 by (by intros Hne).
  rewrite Hd. unfold HasUsername. cbn [built_connect ConnectFlags Username Password ClientID KeepAlive].
  change (has_bits xc2 128) with true. rewrite string_of_bytes_of, Hauth. cbn [negb orb].
  etransitivity; [eapply solo_step; reflexivity|]. cbv beta.
  assert (ClientManager.Add (connMgr w) cl = (Ok (), cm, None)) as HA.
  { apply Add_Ok. simpl. unfold CanAccept in Hacc. bool_simpl. rewrite Hfree. split_and!; try done. by left. }
  etransitivity; [eapply solo_step; simpl; fold cl; by rewrite HA|]. done.
Qed.

(** C9: end to end: in any state of the broker that can serve it, a client
    that connects, publishes and disconnects is served completely: some
    number of steps of its goroutine ends it, its messages are queued in
    order behind those already there, with its client ID and the server's
    time zone, the client was written a CONNACK and one PUBACK per QoS 1
    publication in order, its connection is closed, and the client manager
    and the topic registry are as before. *)
Theorem session_delivers c b id user pass ka pubs fin :
  conns (shared b) !! c = None → ctx_done (shared b) = false →
  can_serve id user pass ka pubs (shared b) →
  ∃ n ls b', perform_all s
      (Accept c (Reader (client_stream id user pass ka pubs) fin) :: replicate n (Run c 0)) b =
      Some (ls, b') ∧
    running b' !! c = Some (Ret ()) ∧
    queued (msgChan (shared b')) = queued (msgChan (shared b)) ++
      (pub_message id (clock (shared b)) <$> pubs) ∧
    (∃ cs, conns (shared b') !! c = Some cs ∧ is_open cs = false ∧
      written cs = EncodeConnack false ConnAccepted ++ concat (pub_ack <$> pubs)) ∧
    connMgr (shared b') = connMgr (shared b) ∧ topics (shared b') = topics (shared b).
Proof.
  intros Hc Hdone Hcan. pose proof Hcan as (Hacc & Hfree & _ & Hka & _ & _ & _ & Hroom & Hno & Hpubs).
  set (r := Reader _ fin). set (w := set_conns (<[c := opened]> (conns (shared b))) (shared b)).
  set (b1 := {| shared := w; running := <[c := handleConnection s c r]> (running b) |}).
  assert (perform s (Accept c r) b = Some ([], b1)) as Haccept.
  { simpl. rewrite Hc, Hdone, bool_decide_eq_true_2 by done. simpl. unfold accept. by rewrite Hacc. }
  assert (r = push (client_stream id user pass ka pubs) (Reader [] fin)) as Hr.
  { unfold r, push; simpl. by rewrite (right_id_L [] (++)). }
  assert (∃ w', solo c (handleConnection s c r) w = Some ((), w') ∧
    queued (msgChan w') = queued (msgChan w) ++ (pub_message id (clock w) <$> pubs) ∧
    (∃ cs, conns w' !! c = Some cs ∧ is_open cs = false ∧
      written cs = EncodeConnack false ConnAccepted ++ concat (pub_ack <$> pubs)) ∧
    connMgr w' = connMgr w ∧ topics w' = topics w) as (w' & Hsolo & Hq & Hcs & Hcm & Htp).
  { unfold handleConnection. rewrite solo_bind, Hr.
    rewrite (solo_handleConnect c w id user pass ka pubs) by (try done; apply lookup_insert_eq).
    rewrite (solo_serveClient c _ (greeted (clock w))).
    - cbn [mbind option_bind snd]. eexists. split; [reflexivity|]. simpl. split_and!; [done|..|done].
      + rewrite lookup_alter_eq, lookup_insert_eq. simpl. eexists. by split_and!.
      + unfold Remove. simpl. rewrite delete_insert_id by done. by destruct (connMgr (shared b)).
    - apply lookup_insert_eq.
    - apply greeted_usable.
    - done.
    - split; [done|]. eapply Forall_impl; [exact Hpubs|]. simpl. naive_solver.
    - done. }
  destruct (solo_performs c (handleConnection s c r) b1 w') as (n & ls & Hn);
    [apply lookup_insert_eq|done|].
  eexists n, _, _. cbn [execute]. rewrite Haccept. cbn [mbind option_bind]. rewrite Hn.
  split; [reflexivity|]. simpl. split_and!; try done. apply lookup_insert_eq.
Qed.

(** ** The handlers on every branch *)

Lemma solo_write {A} c cs w data (k : unit → prog A) :
  conns w !! c = Some cs → conn_error (clock w) cs = None →
  solo c (Do (CallWrite data) k) w = solo c (k ()) (set_conns (<[c := say data cs]> (conns w)) w).
Proof.
  intros Hc He. apply (solo_step _ _ _ _ _ _ []). simpl. rewrite (alter_lookup _ c cs) by done.
  unfold write_conn, say. by rewrite He.
Qed.

Lemma say_nothing c cs w : conns w !! c = Some cs →
  set_conns (<[c := say [] cs]> (conns w)) w = w.
Proof.
  intros Hc. unfold set_conns, say. rewrite (right_id_L [] (++)), insert_id; [by destruct w|].
  rewrite Hc. by destruct cs.
Qed.

(** what [handlePublish] does on every branch: an invalid PUBLISH is
    dropped; a topic that is not allowed or has another owner changes nothing
    but is still acknowledged with QoS 1; otherwise the client owns the topic
    and the message is sent, and acknowledged with QoS 1 only then; while the
    channel is full the handler waits, and it gives up without acknowledging
    when the context is done.  QoS 2 is never acknowledged. *)
Theorem handlePublish_spec c cl cs w header data :
  conns w !! c = Some cs → conn_error (clock w) cs = None →
  solo c (handlePublish s cl header data) w =
  match DecodePublish header data with
  | Err _ => Some ((), w)
  | Ok pkt =>
      let ack := if QoS pkt =? 1 then EncodePuback (PacketID pkt) else [] in
      let reply w := set_conns (<[c := say ack cs]> (conns w)) w in
      let msg := {| MsgClientID := ID cl; MsgTopic := TopicName pkt; MsgPayload := Payload pkt;
                    Timezone := timezone s; Timestamp := clock w |} in
      match Claim (topics w) (TopicName pkt) (ID cl) with
      | (Err _, _) => Some ((), reply w)
      | (Ok _, r) =>
          if has_room (msgChan w) then
            Some ((), reply (set_topics r (set_msgChan (Chan (capacity (msgChan w))
              (queued (msgChan w) ++ [msg])) w)))
          else if ctx_done w then Some ((), set_topics r w) else None
      end
  end.
Proof.
  intros Hc He. unfold handlePublish. destruct (DecodePublish header data) as [pkt|]; [|done].
  cbv zeta. simpl. destruct (Claim (topics w) (TopicName pkt) (ID cl)) as [[[]|e] r] eqn:HC; simpl.
  - unfold send. destruct (has_room (msgChan w)); simpl; [|by destruct (ctx_done w)].
    destruct (QoS pkt =? 1).
    + etransitivity; [apply (solo_write c cs); [simpl; exact Hc|simpl; exact He]|]. done.
    + simpl. unfold set_conns, say; simpl. rewrite (right_id_L [] (++)), insert_id; [done|].
      rewrite Hc. by destruct cs.
  - apply Claim_Err in HC as [-> _]. destruct (QoS pkt =? 1).
    + etransitivity; [by apply (solo_write c cs)|]. by destruct w.
    + simpl. rewrite say_nothing by done. by destruct w.
Qed.

Lemma solo_return_codes c subs w :
  solo c (return_codes subs) w =
  Some ((λ sub, if IsAllowed (topics w) (TopicFilter sub) then byte_of (SubQoS sub) else x80) <$> subs, w).
Proof.
  induction subs as [|sub subs IH]; [done|]. simpl. rewrite solo_bind, IH. done.
Qed.

(** what [handleSubscribe] does: an invalid SUBSCRIBE is dropped; any
    other is answered by one SUBACK with its packet identifier and, for each
    filter in order, the requested QoS if the filter is exactly an allowed
    topic and the failure code 0x80 otherwise; nothing else changes. *)
Theorem handleSubscribe_spec c cl cs w data :
  conns w !! c = Some cs → conn_error (clock w) cs = None →
  solo c (handleSubscribe cl data) w =
  match DecodeSubscribe data with
  | Err _ => Some ((), w)
  | Ok pkt =>
      let code sub := if IsAllowed (topics w) (TopicFilter sub) then byte_of (SubQoS sub) else x80 in
      Some ((), set_conns (<[c := say (EncodeSuback (SubPacketID pkt)
        (code <$> Subscriptions pkt)) cs]> (conns w)) w)
  end.
Proof.
  intros Hc He. unfold handleSubscribe. destruct (DecodeSubscribe data) as [pkt|]; [|done].
  rewrite solo_bind, solo_return_codes. cbn [mbind option_bind fst snd].
  etransitivity; [by apply (solo_write c cs)|]. done.
Qed.

End session.

Definition sample_pubs : list publication :=
  [{| pub_topic := "a"; pub_payload := [x31]; pub_qos := x01; pub_id := 7 |};
   {| pub_topic := "b"; pub_payload := [x32]; pub_qos := x00; pub_id := 0 |}].

Lemma session_delivers_witness :
  ∃ n ls b', perform_all sample_server
      (Accept 0%nat (Reader (client_stream "m1" "u" "p" 60 sample_pubs) EOF) ::
       replicate n (Run 0%nat 0)) (init 2 sample_topics 8) = Some (ls, b') ∧
    queued (msgChan (shared b')) = [sample_message;
      {| MsgClientID := "m1"; MsgTopic := "b"; MsgPayload := [x32]; Timezone := "UTC";
         Timestamp := 0 |}].
Proof.
  destruct (session_delivers sample_server 0%nat (init 2 sample_topics 8) "m1" "u" "p" 60
    sample_pubs EOF) as (n & ls & b' & Hp & _ & Hq & _).
  - reflexivity.
  - reflexivity.
  - split; [vm_compute; reflexivity|]. split; [vm_compute; reflexivity|].
    split; [vm_compute; reflexivity|]. split; [unfold is_uint16; lia|].
    do 3 (split; [vm_compute; reflexivity|]). split; [simpl; lia|].
    split; [intros t; simpl; rewrite lookup_empty; discriminate|].
    repeat (apply Forall_cons; split); [..|apply Forall_nil; exact I];
      (split; [|split; [simpl; set_solver|reflexivity]]);
      (split; [discriminate|]); (split; [vm_compute; reflexivity|]);
      (split; [vm_compute; discriminate|]); (split; [unfold is_uint16; simpl; lia|]);
      vm_compute; discriminate.
  - exists n, ls, b'. split; [exact Hp|exact Hq].
Defined.

Definition sample_world : world :=
  set_conns {[0%nat := opened]} (shared (init 2 sample_topics 8)).

Lemma handlePublish_spec_witness :
  solo 0%nat (handlePublish sample_server (NewClient "m1" 0%nat 60 0)
    {| Type_ := PUBLISH; Flags := 2; RemainingLength := 6 |} [x00; x01; x63; x00; x07; x31])
    sample_world =
  Some ((), set_conns {[0%nat := say (EncodePuback 7) opened]} sample_world).
Proof.
  rewrite (handlePublish_spec sample_server 0%nat _ opened); [|reflexivity|reflexivity].
  vm_compute. reflexivity.
Defined.

Lemma handleSubscribe_spec_witness :
  solo 0%nat (handleSubscribe (NewClient "m1" 0%nat 60 0)
    [x00; x0a; x00; x01; x61; x01; x00; x01; x63; x02]) sample_world =
  Some ((), set_conns {[0%nat := say (EncodeSuback 10 [x01; x80]) opened]} sample_world).
Proof.
  rewrite (handleSubscribe_spec 0%nat _ opened); [|reflexivity|reflexivity].
  vm_compute. reflexivity.
Defined.
