(* ===== verification/TestClient.v ===== *)
(** * What a test client reads

    [ReadConnack] and [ReadPuback] of internal/common/testutil/mqtt_packets.go,
    with which the end-to-end tests read the answers of the broker; the
    packets they send are built in [Framing].

    They read back what the encoders write ([ReadConnack_encoded],
    [ReadPuback_encoded]), so a test client that has sent the stream of
    [Session.session_delivers] reads the CONNACK and a PUBACK for each QoS 1
    publication, in order, from what the session is shown to write to it
    ([replies_read]). *)

From S2P Require Export Session.

Local Open Scope Z_scope.

(** How [require] ends a test. *)
Inductive test_failure :=
  | ReadFailed (e : io_error)
  | Unexpected.

(** [assert] only marks the test as failed: the first component says whether
    it passed. *)
Definition ReadConnack : io test_failure (bool * (bool * byte)) :=
  buf ← wrap_err ReadFailed (ReadFull 4);
  let passed := bool_decide (nth 0 buf x00 = x20) && bool_decide (nth 1 buf x00 = x02) in
  let sessionPresent := negb (Z.land (uint8 (nth 2 buf x00)) 0x01 =? 0) in
  mret (passed, (sessionPresent, nth 3 buf x00)).

Definition ReadPuback (expectedID : Z) : io test_failure unit :=
  buf ← wrap_err ReadFailed (ReadFull 4);
  if bool_decide (nth 0 buf x00 = x40) then
    let gotID := Z.lor (Z.shiftl (uint8 (nth 2 buf x00)) 8) (uint8 (nth 3 buf x00)) in
    if expectedID =? gotID then mret () else throw Unexpected
  else throw Unexpected.

Lemma ReadFull_four {A} b0 b1 b2 b3 r (k : list byte → io test_failure A) :
  (buf ← wrap_err ReadFailed (ReadFull 4); k buf) (push [b0; b1; b2; b3] r) = k [b0; b1; b2; b3] r.
Proof.
  unfold mbind at 1, io_bind.
  pose proof (format_push (valid := λ bs, length bs = 4%nat) (print := id)
    (wrap_err ReadFailed (ReadFull 4)) [b0; b1; b2; b3] r eq_refl) as Hr.
  unfold id in Hr. by rewrite Hr.
Qed.

Lemma ReadConnack_encoded sp rc r :
  ReadConnack (push (EncodeConnack sp rc) r) = (Ok (true, (sp, return_code_byte rc)), r).
Proof. unfold ReadConnack, EncodeConnack. rewrite ReadFull_four. by destruct sp. Qed.

Lemma ReadPuback_encoded id expected r : is_uint16 id →
  ReadPuback expected (push (EncodePuback id) r) =
    (if expected =? id then Ok () else Err Unexpected, r).
Proof.
  intros Hid. unfold ReadPuback, EncodePuback. rewrite ReadFull_four. cbn [nth].
  rewrite bool_decide_true by done. change (Z.lor _ _) with (Uint16 (PutUint16 id)).
  rewrite Uint16_PutUint16 by done. by destruct (expected =? id).
Qed.

(** A client that waits for the answers to what it has sent. *)
Fixpoint read_pubacks (pubs : list publication) : io test_failure unit :=
  match pubs with
  | [] => mret ()
  | p :: pubs =>
      _ ← (if uint8 (pub_qos p) =? 1 then ReadPuback (pub_id p) else mret ());
      read_pubacks pubs
  end.

Definition read_replies (pubs : list publication) : io test_failure (bool * (bool * byte)) :=
  c ← ReadConnack;
  _ ← read_pubacks pubs;
  mret c.

Lemma pubacks_read pubs r : Forall valid_pub pubs →
  read_pubacks pubs (push (concat (pub_ack <$> pubs)) r) = (Ok (), r).
Proof.
  induction 1 as [|p pubs (_ & _ & _ & Hid & _) _ IH]; [by rewrite push_nil|].
  cbn [read_pubacks fmap list_fmap concat]. unfold pub_ack at 1, mbind at 1, io_bind.
  rewrite push_app. destruct (uint8 (pub_qos p) =? 1).
  - rewrite ReadPuback_encoded by done. by rewrite Z.eqb_refl.
  - by rewrite push_nil.
Qed.

(** What a session writes to a client that publishes is, for the test client,
    an accepted connection and every PUBACK it waits for, and nothing else. *)
Theorem replies_read pubs r : Forall valid_pub pubs →
  read_replies pubs (push (EncodeConnack false ConnAccepted ++ concat (pub_ack <$> pubs)) r) =
    (Ok (true, (false, return_code_byte ConnAccepted)), r).
Proof.
  intros Hp. unfold read_replies, mbind at 1, io_bind. rewrite push_app, ReadConnack_encoded.
  unfold mbind, io_bind. by rewrite pubacks_read.
Qed.
