(* ===== verification/Ingestion.v ===== *)
(** * The ingestion pipeline

    [internal/modules/broker/ingestion/queue] and [pipeline]: a router moves
    messages from the message channel to one FIFO queue per topic; each queue
    has a consumer that persists a message and then forwards it.  The router
    and the consumers are goroutines: the pipeline is a state machine whose
    actions are their steps, in any order.

    - conservation and order of the messages of each topic through router,
      queue and consumer, over any execution;
    - a message is forwarded only after it was persisted, and in that order;
    - what the store holds is what was saved, in order;
    - without cancellation the pipeline can always be drained;
    - a router that waits for a full queue is stuck once that queue's consumer
      has stopped. *)

From S2P Require Export Chan.

(** ** The store (pipeline/interfaces.go, queue/interfaces.go) *)

(** [SaveRawData]: what one call returns and leaves in the store; failures may
    depend on the store's state in any way. *)
Class Store (St : Type) := SaveRawData : St → Message → result unit unit * St.

(** The contract: a message is persisted atomically, entirely or not at all. *)
Class StoreSpec (St : Type) `{Store St} := {
  row : Type;                   (* what is kept of a message *)
  entry : Message → row;
  stored : St → list row;
  save_Ok st msg st' : SaveRawData st msg = (Ok (), st') → stored st' = stored st ++ [entry msg];
  save_Err st msg e st' : SaveRawData st msg = (Err e, st') → stored st' = stored st;
}.

(** ** State *)

(** Where the goroutine of [Pipeline.Start] is. *)
Inductive router :=
  | Selecting                   (* in the select *)
  | Enqueueing (msg : Message)  (* in q.Enqueue(msg) *)
  | RouterReturned.

(** Where the goroutine of [Queue.StartConsumer] is. *)
Inductive consumer :=
  | Waiting                     (* in the first select *)
  | Saving (msg : Message)      (* in store.SaveRawData *)
  | Forwarding (msg : Message)  (* in the second select *)
  | ConsumerReturned.

(** A [Queue] with the goroutine that consumes it. *)
Record lane := {
  messages : chan Message;
  consumer_at : consumer;
}.

Record pipeline (St : Type) := {
  router_at : router;
  queues : gmap string lane;
  store : St;
  inputChan : chan Message;
  dispatchChan : chan Message;
  stopped : bool;               (* ctx is done *)
}.
Arguments router_at {St} p.
Arguments queues {St} p.
Arguments store {St} p.
Arguments inputChan {St} p.
Arguments dispatchChan {St} p.
Arguments stopped {St} p.

(** [NewQueue], with the consumer [Start] launches for it. *)
Definition NewQueue (bufferSize : nat) : lane :=
  {| messages := make_chan bufferSize; consumer_at := Waiting |}.

(** The loop of [NewPipeline] over the topics. *)
Fixpoint new_queues (topics : list string) (bufSize : nat) (qs : gmap string lane) :
    gmap string lane :=
  match topics with
  | [] => qs
  | topic :: topics => new_queues topics bufSize (<[topic := NewQueue bufSize]> qs)
  end.

(** Splits a step into the cases of what it looks at. *)
Ltac pl_cases := repeat match goal with
  | |- context [match router_at ?p with _ => _ end] => destruct (router_at p) eqn:?
  | |- context [queues ?p !! ?t] => destruct (queues p !! t) eqn:?; simpl
  | |- context [match consumer_at ?l with _ => _ end] => destruct (consumer_at l) eqn:?
  | |- context [SaveRawData ?s ?m] => destruct (SaveRawData s m) as [[[]|[]] ?] eqn:?
  | |- context [if stopped ?p then _ else _] => destruct (stopped p) eqn:?
  | |- context [recv ?c] => destruct (recv c) as [[]|] eqn:?; simpl
  | |- context [send ?m ?c] => destruct (send m c) eqn:?; simpl
  end.

Section pipeline.
Context {St : Type} `{Store St}.
Implicit Types (p : pipeline St).

(** [NewPipeline] and the start of [Start], with the two channels it is given. *)
Definition NewPipeline (topics : list string) (st : St) (bufSize : nat) : pipeline St :=
  {| router_at := Selecting; queues := new_queues topics bufSize ∅; store := st;
     inputChan := make_chan bufSize; dispatchChan := make_chan bufSize; stopped := false |}.

Definition set_router (r : router) p : pipeline St :=
  {| router_at := r; queues := queues p; store := store p; inputChan := inputChan p;
     dispatchChan := dispatchChan p; stopped := stopped p |}.
Definition set_input (ch : chan Message) p : pipeline St :=
  {| router_at := router_at p; queues := queues p; store := store p; inputChan := ch;
     dispatchChan := dispatchChan p; stopped := stopped p |}.
Definition set_lane (topic : string) (l : lane) p : pipeline St :=
  {| router_at := router_at p; queues := <[topic := l]> (queues p); store := store p;
     inputChan := inputChan p; dispatchChan := dispatchChan p; stopped := stopped p |}.
Definition set_store (st : St) p : pipeline St :=
  {| router_at := router_at p; queues := queues p; store := st; inputChan := inputChan p;
     dispatchChan := dispatchChan p; stopped := stopped p |}.
Definition set_dispatch (ch : chan Message) p : pipeline St :=
  {| router_at := router_at p; queues := queues p; store := store p; inputChan := inputChan p;
     dispatchChan := ch; stopped := stopped p |}.
Definition stop p : pipeline St :=
  {| router_at := router_at p; queues := queues p; store := store p; inputChan := inputChan p;
     dispatchChan := dispatchChan p; stopped := true |}.

(** ** Steps *)

(** What a step makes of a message. *)
Inductive fate :=
  | Arrived (msg : Message)     (* sent by the broker *)
  | Discarded (msg : Message)   (* unknown topic *)
  | Saved (msg : Message)
  | Failed (msg : Message)      (* not saved, skipped *)
  | Forwarded (msg : Message)
  | Dropped (msg : Message)     (* saved, but the consumer returned instead of forwarding *)
  | Left (msg : Message).       (* taken from the dispatch channel *)

(** The router: one round of the select, and the end of [Enqueue]. *)
Definition route p : option (list fate * pipeline St) :=
  match router_at p with
  | Selecting =>
      '(msg, ch) ← recv (inputChan p);
      match queues p !! MsgTopic msg with
      | None => Some ([Discarded msg], set_input ch p)
      | Some _ => Some ([], set_router (Enqueueing msg) (set_input ch p))
      end
  | Enqueueing msg =>
      l ← queues p !! MsgTopic msg;
      ch ← send msg (messages l);
      Some ([], set_router Selecting
        (set_lane (MsgTopic msg) {| messages := ch; consumer_at := consumer_at l |} p))
  | RouterReturned => None
  end.

(** The consumer of [topic]: the next of its blocking points. *)
Definition consume (topic : string) p : option (list fate * pipeline St) :=
  l ← queues p !! topic;
  let at_ c := {| messages := messages l; consumer_at := c |} in
  match consumer_at l with
  | Waiting =>
      '(msg, ch) ← recv (messages l);
      Some ([], set_lane topic {| messages := ch; consumer_at := Saving msg |} p)
  | Saving msg =>
      match SaveRawData (store p) msg with
      | (Ok _, st) => Some ([Saved msg], set_lane topic (at_ (Forwarding msg)) (set_store st p))
      | (Err _, st) => Some ([Failed msg], set_lane topic (at_ Waiting) (set_store st p))
      end
  | Forwarding msg =>
      ch ← send msg (dispatchChan p);
      Some ([Forwarded msg], set_lane topic (at_ Waiting) (set_dispatch ch p))
  | ConsumerReturned => None
  end.

(** The [case <-ctx.Done(): return] of the router and of a consumer. *)
Definition stop_router p : option (list fate * pipeline St) :=
  match router_at p with
  | Selecting => if stopped p then Some ([], set_router RouterReturned p) else None
  | _ => None
  end.

Definition stop_consumer (topic : string) p : option (list fate * pipeline St) :=
  l ← queues p !! topic;
  let returned := {| messages := messages l; consumer_at := ConsumerReturned |} in
  if stopped p then
    match consumer_at l with
    | Waiting => Some ([], set_lane topic returned p)
    | Forwarding msg => Some ([Dropped msg], set_lane topic returned p)
    | _ => None
    end
  else None.

Inductive pl_action :=
  | Arrive (msg : Message)      (* the broker sends a message *)
  | Route
  | Consume (topic : string)
  | StopRouter
  | StopConsumer (topic : string)
  | Leave                       (* the fan-out takes a message *)
  | Stop.                       (* the context is cancelled *)

Definition pl_step (a : pl_action) p : option (list fate * pipeline St) :=
  match a with
  | Arrive msg => ch ← send msg (inputChan p); Some ([Arrived msg], set_input ch p)
  | Route => route p
  | Consume topic => consume topic p
  | StopRouter => stop_router p
  | StopConsumer topic => stop_consumer topic p
  | Leave => '(msg, ch) ← recv (dispatchChan p); Some ([Left msg], set_dispatch ch p)
  | Stop => Some ([], stop p)
  end.

(** ** Messages of one topic *)

Definition at_topic (t : string) (msgs : list Message) : list Message :=
  filter (λ m, MsgTopic m = t) msgs.

Lemma at_topic_app t l k : at_topic t (l ++ k) = at_topic t l ++ at_topic t k.
Proof. apply filter_app. Qed.
Lemma at_topic_nil t : at_topic t [] = [].
Proof. done. Qed.
Lemma at_topic_all t l : Forall (λ m, MsgTopic m = t) l → at_topic t l = l.
Proof. apply filter_all. Qed.
Lemma at_topic_none t t' l : Forall (λ m, MsgTopic m = t') l → t ≠ t' → at_topic t l = [].
Proof. intros Hl Hne. apply filter_none. eapply Forall_impl; [exact Hl|]. simpl. congruence. Qed.
Lemma at_topic_one t m : at_topic t [m] = if decide (MsgTopic m = t) then [m] else [].
Proof. unfold at_topic. by rewrite filter_cons, filter_nil. Qed.

(** What arrived, and what was saved, given up, forwarded and taken. *)
Definition arrivals (ls : list fate) : list Message :=
  omap (λ f, match f with Arrived m => Some m | _ => None end) ls.
Definition finished (ls : list fate) : list Message :=
  omap (λ f, match f with Discarded m | Saved m | Failed m => Some m | _ => None end) ls.
Definition saves (ls : list fate) : list Message :=
  omap (λ f, match f with Saved m => Some m | _ => None end) ls.
Definition forwards (ls : list fate) : list Message :=
  omap (λ f, match f with Forwarded m => Some m | _ => None end) ls.
(** What became of the saved messages. *)
Definition outcomes (ls : list fate) : list Message :=
  omap (λ f, match f with Forwarded m | Dropped m => Some m | _ => None end) ls.
Definition leaves (ls : list fate) : list Message :=
  omap (λ f, match f with Left m => Some m | _ => None end) ls.

Lemma at_topic_elem m l : m ∈ l → m ∈ at_topic (MsgTopic m) l.
Proof. intros. by apply list_elem_of_filter. Qed.
Lemma at_topic_in t m l : m ∈ at_topic t l → m ∈ l.
Proof. by intros [_ ?]%list_elem_of_filter. Qed.
Lemma at_topic_sublist t l k : l `sublist_of` k → at_topic t l `sublist_of` at_topic t k.
Proof.
  induction 1; unfold at_topic in *; rewrite ?filter_cons; [by rewrite filter_nil|..];
    case_decide; try done; by constructor.
Qed.

Lemma forwards_outcomes ls : forwards ls `sublist_of` outcomes ls.
Proof.
  induction ls as [|[] ls IH]; csimpl; try done; by constructor.
Qed.
Lemma saves_finished m ls : m ∈ saves ls → m ∈ finished ls.
Proof. unfold saves, finished. rewrite !list_elem_of_omap. intros ([] & ? & ?); naive_solver. Qed.

(** The message a consumer is persisting, or has persisted. *)
Definition in_hand (c : consumer) : list Message :=
  match c with Saving m => [m] | _ => [] end.
Definition held (c : consumer) : list Message :=
  match c with Forwarding m => [m] | _ => [] end.

Definition lane_pending (l : lane) : list Message :=
  in_hand (consumer_at l) ++ queued (messages l).
Definition routing (r : router) : list Message :=
  match r with Enqueueing m => [m] | _ => [] end.

(** The messages of [t] that are still on their way to the store, oldest first. *)
Definition pending (t : string) p : list Message :=
  from_option lane_pending [] (queues p !! t) ++
  at_topic t (routing (router_at p)) ++ at_topic t (queued (inputChan p)).

(** ** Invariants *)

Definition wf_lanes p : Prop :=
  (∀ t l, queues p !! t = Some l →
    Forall (λ m, MsgTopic m = t) (lane_pending l ++ held (consumer_at l))) ∧
  (∀ m, router_at p = Enqueueing m → is_Some (queues p !! MsgTopic m)).

Lemma set_lane_wf t l p : wf_lanes p → is_Some (queues p !! t) →
  Forall (λ m, MsgTopic m = t) (lane_pending l ++ held (consumer_at l)) →
  wf_lanes (set_lane t l p).
Proof.
  intros [Hl Hr] Ht Hnew. split; simpl.
  - intros t' l' [[<- <-]|[? ?]]%lookup_insert_Some; [done|by apply Hl].
  - intros m Hm. destruct (decide (t = MsgTopic m)) as [->|].
    + rewrite lookup_insert_eq. eauto.
    + rewrite lookup_insert_ne by done. by apply Hr.
Qed.

Lemma route_wf p ls p' : wf_lanes p → route p = Some (ls, p') → wf_lanes p'.
Proof.
  intros Hwf. unfold route. destruct (router_at p) eqn:Hr; [| |done].
  - destruct (recv (inputChan p)) as [[m ch]|]; simpl; [|done].
    destruct (queues p !! MsgTopic m) eqn:Hq; intros [= <- <-]; split; simpl; try apply Hwf.
    by intros ? [= <-].
  - destruct (queues p !! MsgTopic msg) as [l|] eqn:Hq; simpl; [|done].
    destruct (send msg (messages l)) as [ch|] eqn:Hs; simpl; [|done]. intros [= <- <-].
    assert (wf_lanes (set_lane (MsgTopic msg) {| messages := ch; consumer_at := consumer_at l |} p))
      as [H1 _]; [|by split].
    apply set_lane_wf; [done|eauto|]. destruct Hwf as [Hl _]. specialize (Hl _ _ Hq).
    apply send_Some in Hs as [_ ->]. unfold lane_pending in *. simpl in *.
    rewrite !Forall_app in *. rewrite Forall_singleton. tauto.
Qed.

Lemma consume_wf t p ls p' : wf_lanes p → consume t p = Some (ls, p') → wf_lanes p'.
Proof.
  intros Hwf. unfold consume. destruct (queues p !! t) as [l|] eqn:Hq; simpl; [|done].
  pose proof (proj1 Hwf t l Hq) as Hl. unfold lane_pending in Hl.
  destruct (consumer_at l) as [|m|m|] eqn:Hc; simpl in Hl; [..|done].
  - destruct (recv (messages l)) as [[m ch]|] eqn:Hr; simpl; [|done]. intros [= <- <-].
    apply recv_Some in Hr as [Hr _]. apply set_lane_wf; [done|eauto|].
    unfold lane_pending. simpl. by rewrite Hr in Hl.
  - destruct (SaveRawData (store p) m) as [[[]|e] st]; intros [= <- <-];
      (apply set_lane_wf; [done|simpl; eauto|]); unfold lane_pending; simpl;
      rewrite ?app_nil_r in *; apply Forall_cons in Hl as [??]; [|done].
    by apply Forall_app; split; [|apply Forall_singleton].
  - destruct (send m (dispatchChan p)) as [ch|]; simpl; [|done]. intros [= <- <-].
    apply set_lane_wf; [done|simpl; eauto|]. unfold lane_pending; simpl.
    rewrite app_nil_r. by apply Forall_app in Hl as [? _].
Qed.

Lemma pl_step_wf a p ls p' : wf_lanes p → pl_step a p = Some (ls, p') → wf_lanes p'.
Proof.
  intros Hwf. destruct a; simpl; [|apply route_wf|apply consume_wf|..]; try done.
  - destruct (send _ _); simpl; [|done]. by intros [= <- <-].
  - unfold stop_router. destruct (router_at p), (stopped p); try done. intros [= <- <-].
    split; [apply Hwf|done].
  - unfold stop_consumer. destruct (queues p !! topic) as [l|] eqn:Hq; simpl; [|done].
    pose proof (proj1 Hwf topic l Hq) as Hl. unfold lane_pending in Hl.
    destruct (stopped p), (consumer_at l) eqn:Hc; try done; intros [= <- <-];
      (apply set_lane_wf; [done|eauto|]); unfold lane_pending; simpl in *;
      rewrite ?app_nil_r in *; [done|]. by apply Forall_app in Hl as [? _].
  - destruct (recv _) as [[m ch]|]; simpl; [|done]. by intros [= <- <-].
  - by intros [= <- <-].
Qed.

(** ** Conservation, one step at a time *)

Lemma pending_set_lane t t' l l' p : queues p !! t' = Some l →
  lane_pending l' = lane_pending l → pending t (set_lane t' l' p) = pending t p.
Proof.
  intros Hq Heq. unfold pending; simpl. destruct (decide (t = t')) as [->|].
  - by rewrite lookup_insert_eq, Hq; simpl; rewrite Heq.
  - by rewrite lookup_insert_ne.
Qed.

(** The oldest message of a lane leaves it. *)
Lemma pending_set_lane_cons t t' l l' m p : wf_lanes p → queues p !! t' = Some l →
  lane_pending l = m :: lane_pending l' →
  pending t p = at_topic t [m] ++ pending t (set_lane t' l' p).
Proof.
  intros [Hl _] Hq Heq. specialize (Hl _ _ Hq). rewrite Heq in Hl. simpl in Hl.
  apply Forall_cons in Hl as [Hm _].
  unfold pending; simpl. rewrite at_topic_one. destruct (decide (t = t')) as [->|].
  - rewrite decide_True by done. by rewrite lookup_insert_eq, Hq; simpl; rewrite Heq.
  - rewrite decide_False by congruence. by rewrite lookup_insert_ne.
Qed.

Lemma route_conserves t p ls p' : wf_lanes p → route p = Some (ls, p') →
  pending t p = at_topic t (finished ls) ++ pending t p' ∧ arrivals ls = [].
Proof.
  intros [Hl Hreg]. unfold route, pending. destruct (router_at p) eqn:Hr; [| |done].
  - destruct (recv (inputChan p)) as [[m ch]|] eqn:Hrecv; simpl; [|done].
    apply recv_Some in Hrecv as [Hin _]. rewrite Hin.
    change (m :: queued ch) with ([m] ++ queued ch). rewrite at_topic_app.
    destruct (queues p !! MsgTopic m) as [l|] eqn:Hq; intros [= <- <-]; simpl; [done|].
    rewrite Hr. simpl. split; [|done]. rewrite at_topic_one. case_decide as Hm; [|done].
    subst t. by rewrite Hq.
  - destruct (queues p !! MsgTopic msg) as [l|] eqn:Hq; simpl; [|done].
    destruct (send msg (messages l)) as [ch|] eqn:Hs; simpl; [|done]. intros [= <- <-].
    apply send_Some in Hs as [_ ->]. simpl. split; [|done].
    rewrite at_topic_one. case_decide as Hm.
    + subst t. rewrite lookup_insert_eq, Hq. unfold lane_pending; simpl.
      by rewrite <-!(assoc_L (++)).
    + by rewrite lookup_insert_ne.
Qed.

Lemma consume_conserves t t' p ls p' : wf_lanes p → consume t' p = Some (ls, p') →
  pending t p = at_topic t (finished ls) ++ pending t p' ∧ arrivals ls = [].
Proof.
  intros Hwf. unfold consume. destruct (queues p !! t') as [l|] eqn:Hq; simpl; [|done].
  destruct (consumer_at l) as [|m|m|] eqn:Hc; [..|done].
  - destruct (recv (messages l)) as [[m ch]|] eqn:Hr; simpl; [|done]. intros [= <- <-].
    apply recv_Some in Hr as [Hr _]. split; [|done]. symmetry. apply (pending_set_lane t t' l); [done|].
    unfold lane_pending; simpl. by rewrite Hc, Hr.
  - assert (lane_pending l = m :: queued (messages l)) as Hp by by (unfold lane_pending; rewrite Hc).
    destruct (SaveRawData (store p) m) as [[[]|e] st]; intros [= <- <-]; (split; [|done]);
      by apply (pending_set_lane_cons t t' l _ m (set_store st p)).
  - destruct (send m (dispatchChan p)) as [ch|]; simpl; [|done]. intros [= <- <-].
    split; [|done]. symmetry. apply (pending_set_lane t t' l _ (set_dispatch ch p)); [done|].
    unfold lane_pending; simpl. by rewrite Hc.
Qed.

Lemma pl_step_conserves t a p ls p' : wf_lanes p → pl_step a p = Some (ls, p') →
  pending t p ++ at_topic t (arrivals ls) = at_topic t (finished ls) ++ pending t p'.
Proof.
  intros Hwf. destruct a; simpl.
  - destruct (send msg (inputChan p)) as [ch|] eqn:Hs; simpl; [|done]. intros [= <- <-].
    apply send_Some in Hs as [_ ->]. unfold pending; simpl.
    by rewrite (at_topic_app t (queued _)), <-!(assoc_L (++)).
  - intros [-> ->]%(route_conserves t); [|done]. by rewrite at_topic_nil, app_nil_r.
  - intros [-> ->]%(consume_conserves t); [|done]. by rewrite at_topic_nil, app_nil_r.
  - unfold stop_router. destruct (router_at p) eqn:Hr, (stopped p); try done. intros [= <- <-].
    unfold pending; simpl. by rewrite Hr, at_topic_nil, app_nil_r.
  - unfold stop_consumer. destruct (queues p !! topic) as [l|] eqn:Hq; simpl; [|done].
    destruct (stopped p), (consumer_at l) eqn:Hc; try done; intros [= <- <-]; simpl;
      rewrite at_topic_nil, app_nil_r; symmetry; apply (pending_set_lane t topic l); try done;
      unfold lane_pending; simpl; by rewrite Hc.
  - destruct (recv _) as [[m ch]|]; simpl; [|done]. intros [= <- <-].
    by rewrite at_topic_nil, app_nil_r.
  - intros [= <- <-]. by rewrite at_topic_nil, app_nil_r.
Qed.

(** ** Persisting and forwarding, one step at a time *)

Definition held_at (t : string) p : list Message :=
  from_option (λ l, held (consumer_at l)) [] (queues p !! t).

Lemma held_at_set_lane t t' l p :
  held_at t (set_lane t' l p) = if decide (t = t') then held (consumer_at l) else held_at t p.
Proof.
  unfold held_at; simpl. case_decide as Ht; [by rewrite Ht, lookup_insert_eq|].
  by rewrite lookup_insert_ne.
Qed.

Lemma held_at_lane t p l : queues p !! t = Some l → held_at t p = held (consumer_at l).
Proof. unfold held_at. by intros ->. Qed.

Lemma lane_head_topic t p l m : wf_lanes p → queues p !! t = Some l →
  (consumer_at l = Saving m ∨ consumer_at l = Forwarding m) → MsgTopic m = t.
Proof.
  intros [Hl _] Hq Hc. specialize (Hl _ _ Hq). unfold lane_pending in Hl.
  destruct Hc as [Hc|Hc]; rewrite Hc in Hl; simpl in Hl.
  - by apply Forall_cons in Hl as [? _].
  - apply Forall_app in Hl as [_ Hl]. by apply Forall_cons in Hl as [? _].
Qed.

(** What one step saves and forwards. *)
Lemma pl_step_saves t a p ls p' : wf_lanes p → pl_step a p = Some (ls, p') →
  held_at t p ++ at_topic t (saves ls) = at_topic t (outcomes ls) ++ held_at t p'.
Proof.
  intros Hwf. destruct a; simpl.
  - destruct (send _ _); simpl; [|done]. intros [= <- <-]. by rewrite app_nil_r.
  - unfold route. destruct (router_at p); [| |done].
    + destruct (recv _) as [[m ch]|]; simpl; [|done].
      destruct (queues p !! _); intros [= <- <-]; by rewrite app_nil_r.
    + destruct (queues p !! _) as [l|] eqn:Hq; simpl; [|done].
      destruct (send _ _); simpl; [|done]. intros [= <- <-].
      rewrite app_nil_r. change (at_topic t (outcomes [])) with (@nil Message). simpl.
      unfold held_at; simpl. destruct (decide (t = MsgTopic msg)) as [->|].
      * by rewrite lookup_insert_eq, Hq.
      * by rewrite lookup_insert_ne.
  - unfold consume. destruct (queues p !! topic) as [l|] eqn:Hq; simpl; [|done].
    pose proof (lane_head_topic topic p l) as Hhead.
    pose proof (held_at_lane topic p l Hq) as Hheld.
    destruct (consumer_at l) as [|m|m|] eqn:Hc; simpl in Hheld; [..|done].
    + destruct (recv _) as [[m ch]|]; simpl; [|done]. intros [= <- <-].
      rewrite held_at_set_lane, app_nil_r. simpl. case_decide; by subst.
    + specialize (Hhead m Hwf Hq (or_introl eq_refl)).
      destruct (SaveRawData _ _) as [[[]|e] st]; intros [= <- <-]; rewrite held_at_set_lane; simpl.
      * rewrite at_topic_one, Hhead. repeat case_decide; subst; try done.
        -- by rewrite Hheld.
        -- by rewrite app_nil_r.
      * rewrite app_nil_r. case_decide; by subst.
    + specialize (Hhead m Hwf Hq (or_intror eq_refl)).
      destruct (send _ _); simpl; [|done]. intros [= <- <-]. rewrite held_at_set_lane, app_nil_r. simpl.
      rewrite at_topic_one, Hhead. repeat case_decide; subst; done.
  - unfold stop_router. destruct (router_at p), (stopped p); try done. intros [= <- <-].
    by rewrite app_nil_r.
  - unfold stop_consumer. destruct (queues p !! topic) as [l|] eqn:Hq; simpl; [|done].
    pose proof (lane_head_topic topic p l) as Hhead.
    pose proof (held_at_lane topic p l Hq) as Hheld.
    destruct (stopped p), (consumer_at l) as [|m|m|] eqn:Hc; try done; simpl in Hheld; intros [= <- <-];
      rewrite held_at_set_lane, app_nil_r; simpl.
    + case_decide; by subst.
    + specialize (Hhead m Hwf Hq (or_intror eq_refl)). rewrite at_topic_one, Hhead.
      repeat case_decide; subst; done.
  - destruct (recv _) as [[m ch]|]; simpl; [|done]. intros [= <- <-]. by rewrite app_nil_r.
  - intros [= <- <-]. by rewrite app_nil_r.
Qed.

Lemma pl_step_dispatch a p ls p' : pl_step a p = Some (ls, p') →
  queued (dispatchChan p) ++ forwards ls = leaves ls ++ queued (dispatchChan p').
Proof.
  destruct a; simpl; unfold route, consume, stop_router, stop_consumer;
    pl_cases; intros; simplify_eq/=; rewrite ?app_nil_r; try done.
  - match goal with H : send _ (dispatchChan p) = Some _ |- _ => by apply send_Some in H as [_ ->] end.
  - match goal with H : recv _ = Some _ |- _ => by apply recv_Some in H as [-> _] end.
Qed.

Lemma pl_step_stored `{!StoreSpec St} a p ls p' : pl_step a p = Some (ls, p') →
  stored (store p') = stored (store p) ++ (entry <$> saves ls).
Proof.
  destruct a; simpl; unfold route, consume, stop_router, stop_consumer;
    pl_cases; intros; simplify_eq/=; rewrite ?app_nil_r; try done.
  - by eapply save_Ok.
  - by eapply save_Err.
Qed.

Lemma pl_step_dropped a p ls p' : pl_step a p = Some (ls, p') →
  (stopped p' = true ↔ stopped p = true ∨ a = Stop) ∧
  (stopped p = false → outcomes ls = forwards ls).
Proof.
  destruct a; simpl; unfold route, consume, stop_router, stop_consumer;
    pl_cases; intros; simplify_eq/=; naive_solver.
Qed.

(** ** New pipelines *)

Lemma new_queues_lookup topics n qs t l :
  new_queues topics n qs !! t = Some l → l = NewQueue n ∨ qs !! t = Some l.
Proof.
  revert qs. induction topics as [|t' topics IH]; intros qs; simpl; [by right|].
  intros [->|[[_ <-]|[_ ?]]%lookup_insert_Some]%IH; auto.
Qed.

Lemma NewPipeline_lane topics st n t l :
  queues (NewPipeline topics st n) !! t = Some l → l = NewQueue n.
Proof. simpl. intros [->|H0]%new_queues_lookup; [done|]. by rewrite lookup_empty in H0. Qed.

Lemma NewPipeline_wf topics st n : wf_lanes (NewPipeline topics st n).
Proof. split; [|done]. intros t l ->%NewPipeline_lane. constructor. Qed.

Lemma NewPipeline_empty topics st n t :
  pending t (NewPipeline topics st n) = [] ∧ held_at t (NewPipeline topics st n) = [].
Proof.
  unfold pending, held_at. destruct (queues (NewPipeline topics st n) !! t) as [l|] eqn:Hq; [|done].
  by apply NewPipeline_lane in Hq as ->.
Qed.

Lemma reachable_wf acts topics st n ls p :
  execute pl_step acts (NewPipeline topics st n) = Some (ls, p) → wf_lanes p.
Proof.
  apply (execute_ind pl_step (λ _, wf_lanes)); [apply NewPipeline_wf|].
  intros. by eapply pl_step_wf.
Qed.

Lemma reachable_conserved acts topics st n ls p t :
  execute pl_step acts (NewPipeline topics st n) = Some (ls, p) →
  at_topic t (arrivals ls) = at_topic t (finished ls) ++ pending t p.
Proof.
  intros Hx. cut (wf_lanes p ∧ at_topic t (arrivals ls) = at_topic t (finished ls) ++ pending t p).
  { by intros []. }
  revert Hx. apply (execute_ind pl_step (λ ls p, wf_lanes p ∧
    at_topic t (arrivals ls) = at_topic t (finished ls) ++ pending t p)).
  - split; [apply NewPipeline_wf|]. by destruct (NewPipeline_empty topics st n t) as [-> _].
  - intros ls0 p0 a ls1 p1 [Hwf Heq] Ha. split; [by eapply pl_step_wf|].
    unfold arrivals, finished in *. rewrite !omap_app, !at_topic_app, Heq, <-!(assoc_L (++)).
    f_equal. by apply (pl_step_conserves t a).
Qed.

Definition persisted `{!StoreSpec St} (st : St) (ls : list fate) p : Prop :=
  stored (store p) = stored st ++ (entry <$> saves ls) ∧
  (∀ t, at_topic t (saves ls) = at_topic t (outcomes ls) ++ held_at t p) ∧
  forwards ls = leaves ls ++ queued (dispatchChan p) ∧
  (stopped p = false → outcomes ls = forwards ls).

Lemma reachable_persisted `{!StoreSpec St} acts topics st n ls p :
  execute pl_step acts (NewPipeline topics st n) = Some (ls, p) → persisted st ls p.
Proof.
  intros Hx. cut (wf_lanes p ∧ persisted st ls p); [by intros []|]. revert Hx.
  apply (execute_ind pl_step (λ ls p, wf_lanes p ∧ persisted st ls p)).
  - split; [apply NewPipeline_wf|]. split_and!; [by rewrite app_nil_r| |done|done].
    intros t. by destruct (NewPipeline_empty topics st n t) as [_ ->].
  - intros ls0 p0 a ls1 p1 (Hwf & Hst & Hsv & Hd & Hdrop) Ha.
    split; [by eapply pl_step_wf|].
    unfold persisted, saves, outcomes, forwards, leaves in *. rewrite !omap_app. split_and!.
    + rewrite (pl_step_stored a p0 ls1 p1 Ha), Hst. by rewrite fmap_app, <-(assoc_L (++)).
    + intros t. rewrite !at_topic_app, Hsv, <-!(assoc_L (++)). f_equal.
      by apply (pl_step_saves t a).
    + rewrite Hd, <-!(assoc_L (++)). f_equal. by apply (pl_step_dispatch a).
    + intros Hs. destruct (pl_step_dropped a p0 ls1 p1 Ha) as [Hstop Hout].
      assert (stopped p0 = false) as Hs0.
      { destruct (stopped p0); [|done]. rewrite (proj2 Hstop (or_introl eq_refl)) in Hs. done. }
      rewrite Hdrop by done. f_equal. by apply Hout.
Qed.

(** The queues are those of the topics, and only messages on other topics are
    discarded. *)
Lemma new_queues_dom topics n qs : dom (new_queues topics n qs) = dom qs ∪ list_to_set topics.
Proof.
  revert qs. induction topics as [|t topics IH]; intros qs; simpl; [set_solver|].
  rewrite IH, dom_insert_L. set_solver.
Qed.

Lemma pl_step_queues a p ls p' : wf_lanes p → pl_step a p = Some (ls, p') →
  dom (queues p') = dom (queues p) ∧ ∀ m, Discarded m ∈ ls → MsgTopic m ∉ dom (queues p).
Proof.
  intros Hwf. destruct a; simpl; unfold route, consume, stop_router, stop_consumer;
    pl_cases; intros; simplify_eq/=; rewrite ?dom_insert_lookup_L by eauto;
    (split; [done|intros m0; rewrite ?list_elem_of_singleton, ?elem_of_nil; try done]).
  intros [= ->]. by apply not_elem_of_dom.
Qed.

Lemma reachable_queues acts topics st n ls p :
  execute pl_step acts (NewPipeline topics st n) = Some (ls, p) →
  dom (queues p) = list_to_set topics ∧ ∀ m, Discarded m ∈ ls → MsgTopic m ∉ topics.
Proof.
  intros Hx. cut (wf_lanes p ∧ dom (queues p) = list_to_set topics ∧
    ∀ m, Discarded m ∈ ls → MsgTopic m ∉ topics); [tauto|]. revert Hx.
  apply (execute_ind pl_step (λ ls p, wf_lanes p ∧ dom (queues p) = list_to_set topics ∧
    ∀ m, Discarded m ∈ ls → MsgTopic m ∉ topics)).
  - split; [apply NewPipeline_wf|]. split; [simpl; rewrite new_queues_dom; set_solver|].
    by intros m ?%elem_of_nil.
  - intros ls0 p0 a ls1 p1 (Hwf & Hdom & Hno) Ha. split; [by eapply pl_step_wf|].
    destruct (pl_step_queues a p0 ls1 p1 Hwf Ha) as [Hd Hno1]. split; [by rewrite Hd|].
    intros m [Hm|Hm]%elem_of_app; [by apply Hno|]. specialize (Hno1 m Hm).
    rewrite Hdom in Hno1. intros Hin. by apply Hno1, elem_of_list_to_set.
Qed.

(** ** Properties *)

(** C12: nothing is lost, duplicated or reordered within a topic on the way to
    the store: in every execution of the pipeline, whatever the interleaving
    of router and consumers, the messages of a topic that arrived are exactly
    those that were finished (saved, refused by the store, or discarded
    because the topic is unknown) followed by those in the consumer's hand,
    in the queue, with the router and in the input channel, in order. *)
Theorem pipeline_fifo acts topics st n ls p t :
  execute pl_step acts (NewPipeline topics st n) = Some (ls, p) →
  at_topic t (arrivals ls) = at_topic t (finished ls) ++ pending t p.
Proof. apply reachable_conserved. Qed.

(** C11: Persistence before dispatch: in every execution the store holds what
    it held plus what it keeps of the saved messages, in the order they were
    saved; the saved messages of a topic are, in order, those forwarded to the
    dispatch channel followed by at most the one its consumer still holds (one more is dropped
    by a consumer that returns while forwarding, which needs a cancelled
    context); and the dispatch channel passes on exactly what was forwarded,
    in order.  So nothing is dispatched before it was persisted, and what the
    store refused is never dispatched. *)
Theorem persisted_before_dispatched `{!StoreSpec St} acts topics st n ls p :
  execute pl_step acts (NewPipeline topics st n) = Some (ls, p) →
  stored (store p) = stored st ++ (entry <$> saves ls) ∧
  (∀ t, at_topic t (saves ls) = at_topic t (outcomes ls) ++ held_at t p) ∧
  forwards ls = leaves ls ++ queued (dispatchChan p) ∧
  (stopped p = false → outcomes ls = forwards ls).
Proof. apply reachable_persisted. Qed.

(** A router in [Enqueue] on a queue that is full and has no consumer left. *)
Definition router_stuck p : Prop :=
  ∃ msg l, router_at p = Enqueueing msg ∧ queues p !! MsgTopic msg = Some l ∧
    consumer_at l = ConsumerReturned ∧ has_room (messages l) = false.

Lemma router_stuck_step a p ls p' : router_stuck p → pl_step a p = Some (ls, p') → router_stuck p'.
Proof.
  intros (msg & l & Hr & Hq & Hc & Hroom).
  destruct a; simpl; unfold route, consume, stop_router, stop_consumer.
  - destruct (send _ (inputChan p)); simpl; [|done]. intros [= _ <-]. by exists msg, l.
  - rewrite Hr, Hq. simpl. unfold send. by rewrite Hroom.
  - destruct (decide (topic = MsgTopic msg)) as [->|Hne].
    { rewrite Hq. simpl. by rewrite Hc. }
    pl_cases; intros; simplify_eq/=; exists msg, l; simpl; rewrite ?lookup_insert_ne; done.
  - by rewrite Hr.
  - destruct (decide (topic = MsgTopic msg)) as [->|Hne].
    { rewrite Hq. simpl. rewrite Hc. by destruct (stopped p). }
    pl_cases; intros; simplify_eq/=; exists msg, l; simpl; rewrite ?lookup_insert_ne; done.
  - destruct (recv _) as [[m ch]|]; simpl; [|done]. intros [= _ <-]. by exists msg, l.
  - intros [= _ <-]. by exists msg, l.
Qed.

Lemma router_stuck_forever acts p ls p' : router_stuck p →
  execute pl_step acts p = Some (ls, p') → router_stuck p'.
Proof.
  intros Hp. apply (execute_ind pl_step (λ _, router_stuck)); [done|].
  intros. by eapply router_stuck_step.
Qed.
End pipeline.

(** ** A store in memory *)

(** A log that refuses messages without payload. *)
#[export] Instance log_store : Store (list Message) := λ st msg,
  match MsgPayload msg with [] => (Err (), st) | _ => (Ok (), st ++ [msg]) end.

#[export, refine] Instance log_store_spec : StoreSpec (list Message) := {| entry := id; stored := id |}.
Proof.
  - intros st msg st'. unfold SaveRawData, log_store. destruct (MsgPayload msg); by intros [= <-].
  - intros st msg e st'. unfold SaveRawData, log_store. destruct (MsgPayload msg); by intros [= _ <-].
Defined.

Definition test_message (topic : string) (payload : list byte) : Message :=
  {| MsgClientID := "m1"; MsgTopic := topic; MsgPayload := payload; Timezone := "UTC"; Timestamp := 0 |}.

(** Two topics; a refused message; a message of an unknown topic. *)
Definition sample_pl_actions : list pl_action :=
  [Arrive (test_message "a" [x31]); Arrive (test_message "b" []); Arrive (test_message "c" [x33]);
   Arrive (test_message "a" [x34]); Route; Route; Route; Route; Route; Route; Route;
   Consume "b"; Consume "b"; Consume "a"; Consume "a"; Consume "a"; Consume "a"; Leave].
Definition sample_pipeline : pipeline (list Message) := NewPipeline ["a"; "b"] [] 4.
Definition sample_pl : list fate * pipeline (list Message) :=
  default ([], sample_pipeline) (execute pl_step sample_pl_actions sample_pipeline).

Lemma sample_pl_eq : execute pl_step sample_pl_actions sample_pipeline = Some (sample_pl.1, sample_pl.2).
Proof. rewrite <-surjective_pairing. apply computed, is_Some_computed. vm_compute. reflexivity. Qed.

Lemma pipeline_fifo_witness :
  arrivals sample_pl.1 = [test_message "a" [x31]; test_message "b" []; test_message "c" [x33];
    test_message "a" [x34]] ∧
  pending "a" sample_pl.2 = [test_message "a" [x34]] ∧
  at_topic "a" (arrivals sample_pl.1) = at_topic "a" (finished sample_pl.1) ++ pending "a" sample_pl.2.
Proof.
  split; [vm_compute; reflexivity|]. split; [vm_compute; reflexivity|].
  apply (pipeline_fifo sample_pl_actions ["a"%string; "b"%string] [] 4), sample_pl_eq.
Defined.

Lemma persisted_before_dispatched_witness :
  saves sample_pl.1 = [test_message "a" [x31]] ∧
  stored (store sample_pl.2) = [] ++ (id <$> saves sample_pl.1) ∧
  forwards sample_pl.1 = leaves sample_pl.1 ++ queued (dispatchChan sample_pl.2).
Proof.
  split; [vm_compute; reflexivity|].
  destruct (persisted_before_dispatched sample_pl_actions ["a"%string; "b"%string] [] 4 _ _ sample_pl_eq)
    as (? & _ & ? & _).
  split; assumption.
Defined.

(** The context is cancelled while the router waits for a full queue, and the
    queue's consumer returns. *)
Definition stuck_actions : list pl_action :=
  [Arrive (test_message "a" [x31]); Route; Route; Arrive (test_message "a" [x32]); Route;
   Stop; StopConsumer "a"].
Definition stuck_pl : list fate * pipeline (list Message) :=
  default ([], sample_pipeline) (execute pl_step stuck_actions (NewPipeline ["a"] [] 1)).

(** [Pipeline.Start] need not return when its context is cancelled: there
    is an execution after which the context is cancelled and the router waits
    in [Enqueue] for a full queue whose consumer has returned, and from such
    a state no further execution lets the router return. *)
Theorem start_can_hang :
  ∃ acts ls p, execute pl_step acts (NewPipeline ["a"%string] [] 1) = Some (ls, p) ∧
    stopped p = true ∧
    ∀ acts' ls' p', execute pl_step acts' p = Some (ls', p') → router_at p' ≠ RouterReturned.
Proof.
  exists stuck_actions, stuck_pl.1, stuck_pl.2.
  split; [|split; [vm_compute; reflexivity|]].
  - rewrite <-surjective_pairing. apply computed, is_Some_computed. vm_compute. reflexivity.
  - intros acts' ls' p' Hx.
    destruct (router_stuck_forever acts' stuck_pl.2 ls' p') as (msg & l & Hr & _); [|done|congruence].
    exists (test_message "a" [x32]),
      {| messages := Chan 1 [test_message "a" [x31]]; consumer_at := ConsumerReturned |}.
    repeat split; vm_compute; reflexivity.
Qed.
