(* ===== verification/Drain.v ===== *)
(** * Draining the ingestion pipeline

    Progress of the pipeline: while its context is not cancelled, its router,
    its consumers and the taker of the dispatch channel can always bring every
    message to its end, whatever state the interleaving has led to. *)

From S2P Require Export Ingestion.

Section drain.
Context {St : Type} `{Store St}.
Implicit Types p : pipeline St.

(** ** How much is left to do *)

Definition consumer_weight (c : consumer) : nat :=
  match c with Saving _ => 3 | Forwarding _ => 2 | _ => 0 end.

Definition lane_weight (l : lane) : nat :=
  4 * length (queued (messages l)) + consumer_weight (consumer_at l).

Definition router_weight (r : router) : nat :=
  match r with Enqueueing _ => 5 | _ => 0 end.

(** The steps that are still needed, at most. *)
Definition left_to_do p : nat :=
  6 * length (queued (inputChan p)) + router_weight (router_at p) +
  map_sum lane_weight (queues p) + length (queued (dispatchChan p)).

Lemma left_set_lane t l l' p : queues p !! t = Some l →
  left_to_do (set_lane t l' p) + lane_weight l = left_to_do p + lane_weight l'.
Proof.
  intros Hq. unfold left_to_do; simpl. pose proof (map_sum_insert lane_weight _ _ _ l' Hq). lia.
Qed.

Lemma left_nothing p t : wf_lanes p → left_to_do p = 0%nat →
  pending t p = [] ∧ queued (dispatchChan p) = [].
Proof.
  unfold left_to_do, pending. intros [Hl Hr] H0.
  destruct (queued (inputChan p)); [|simpl in H0; lia].
  destruct (queued (dispatchChan p)); [|simpl in H0; lia].
  split; [|done]. destruct (router_at p) eqn:Hrt; [|simpl in H0; lia|];
    (destruct (queues p !! t) as [l|] eqn:Hq; [|done]);
    pose proof (map_sum_delete lane_weight _ _ _ Hq) as Hs; unfold lane_weight at 2 in Hs;
    simpl; unfold lane_pending;
    (destruct (queued (messages l)); [|simpl in Hs; lia]);
    destruct (consumer_at l); simpl in *; try done; lia.
Qed.

(** ** Pipelines whose goroutines are all running *)

Definition alive (n : nat) p : Prop :=
  stopped p = false ∧ router_at p ≠ RouterReturned ∧ capacity (dispatchChan p) = n ∧
  map_Forall (λ _ l, consumer_at l ≠ ConsumerReturned ∧ capacity (messages l) = n) (queues p).

Lemma NewPipeline_alive topics st n : alive n (NewPipeline topics st n).
Proof. split_and!; [done..|]. by intros t l ->%NewPipeline_lane. Qed.

Lemma alive_set_lane n t l p : alive n p → consumer_at l ≠ ConsumerReturned →
  capacity (messages l) = n → alive n (set_lane t l p).
Proof.
  intros (? & ? & ? & Hall) ??. split_and!; [done..|]. simpl. by apply map_Forall_insert_2.
Qed.

Lemma pl_step_alive n a p ls p' : alive n p → a ≠ Stop → pl_step a p = Some (ls, p') → alive n p'.
Proof.
  intros Hal Ha. pose proof Hal as (Hs & Hr & Hd & Hall).
  destruct a; simpl; unfold route, consume, stop_router, stop_consumer; rewrite ?Hs; try done.
  - destruct (send _ _); simpl; [|done]. by intros [= _ <-].
  - destruct (router_at p) eqn:Hrt; [| |done].
    + destruct (recv _) as [[m ch]|]; simpl; [|done].
      destruct (queues p !! _); intros [= _ <-]; split_and!; try done.
      simpl. congruence.
    + destruct (queues p !! _) as [l|] eqn:Hq; simpl; [|done]. destruct (Hall _ _ Hq).
      destruct (send _ _) as [ch|] eqn:Hsend; simpl; [|done]. intros [= _ <-].
      apply send_Some in Hsend as [_ ->].
      assert (alive n (set_lane (MsgTopic msg) {| messages := Chan (capacity (messages l))
        (queued (messages l) ++ [msg]); consumer_at := consumer_at l |} p)) as (? & _ & ? & ?)
        by by apply alive_set_lane.
      by split_and!.
  - destruct (queues p !! topic) as [l|] eqn:Hq; simpl; [|done]. destruct (Hall _ _ Hq) as [Hc Hcap].
    destruct (consumer_at l) as [|m|m|]; [..|done].
    + destruct (recv _) as [[m ch]|] eqn:Hrecv; simpl; [|done]. intros [= _ <-].
      apply recv_Some in Hrecv as [_ Hch]. apply alive_set_lane; [done|done|simpl; congruence].
    + destruct (SaveRawData _ _) as [[[]|e] st]; intros [= _ <-]; by apply alive_set_lane.
    + destruct (send _ _) as [ch|] eqn:Hsend; simpl; [|done]. intros [= _ <-].
      apply send_Some in Hsend as [_ ->]. by apply alive_set_lane.
  - destruct (router_at p); by rewrite ?Hs.
  - by destruct (queues p !! topic).
  - destruct (recv _) as [[m ch]|] eqn:Hrecv; simpl; [|done]. intros [= _ <-].
    apply recv_Some in Hrecv as [_ Hch]. split_and!; try done. simpl. congruence.
Qed.

(** ** Progress *)

(** A step of the pipeline itself or of the taker of the dispatch channel. *)
Definition internal (a : pl_action) : Prop :=
  match a with Route | Consume _ | Leave => True | _ => False end.

Definition advances p (a : pl_action) : Prop :=
  internal a ∧ ∃ ls p', pl_step a p = Some (ls, p') ∧ (left_to_do p' < left_to_do p)%nat.

Lemma send_empty {A} (x : A) c n : queued c = [] → capacity c = S n →
  send x c = Some (Chan (S n) [x]).
Proof. intros Hq Hc. apply send_Some. rewrite Hq, Hc. simpl. split; [lia|done]. Qed.

Lemma busy_lane_advances n t l p : alive (S n) p → queued (dispatchChan p) = [] →
  queues p !! t = Some l → lane_weight l ≠ 0%nat → advances p (Consume t).
Proof.
  intros (_ & _ & Hd & Hall) Hempty Hq Hw. split; [done|]. simpl. unfold consume. rewrite Hq. simpl.
  destruct (Hall _ _ Hq) as [Hc _]. unfold lane_weight in Hw.
  pose proof (λ l', left_set_lane t l l' p Hq) as Hleft. unfold lane_weight in Hleft.
  destruct (consumer_at l) as [|m|m|] eqn:Hcl; [..|done].
  - unfold recv. destruct (queued (messages l)) as [|m q] eqn:Hml; [simpl in Hw; lia|].
    simpl. eexists _, _. split; [reflexivity|].
    specialize (Hleft {| messages := Chan (capacity (messages l)) q; consumer_at := Saving m |}).
    simpl in Hleft. lia.
  - destruct (SaveRawData (store p) m) as [[[]|e] st]; eexists _, _; (split; [reflexivity|]).
    + specialize (Hleft {| messages := messages l; consumer_at := Forwarding m |}).
      unfold left_to_do in *. simpl in *. lia.
    + specialize (Hleft {| messages := messages l; consumer_at := Waiting |}).
      unfold left_to_do in *. simpl in *. lia.
  - rewrite (send_empty m _ n) by done. simpl. eexists _, _. split; [reflexivity|].
    specialize (Hleft {| messages := messages l; consumer_at := Waiting |}).
    unfold left_to_do in *. rewrite Hempty in Hleft. simpl in *. lia.
Qed.

Lemma route_advances n p : alive (S n) p → wf_lanes p →
  map_Forall (λ _ l, lane_weight l = 0%nat) (queues p) →
  (router_weight (router_at p) ≠ 0%nat ∨ queued (inputChan p) ≠ []) → advances p Route.
Proof.
  intros (_ & Hr & _ & Hall) [_ Hreg] Hzero Hbusy. split; [done|]. simpl. unfold route.
  destruct (router_at p) as [|msg|] eqn:Hrt; [| |done].
  - destruct Hbusy as [Hb|Hb]; [done|]. unfold recv.
    destruct (queued (inputChan p)) as [|m q] eqn:Hq; [done|]. simpl.
    destruct (queues p !! MsgTopic m); eexists _, _; (split; [reflexivity|]);
      unfold left_to_do; simpl; rewrite Hq, Hrt; simpl; lia.
  - destruct (Hreg msg eq_refl) as [l Hl]. rewrite Hl. simpl.
    specialize (Hzero _ _ Hl). destruct (Hall _ _ Hl) as [_ Hcap]. unfold lane_weight in Hzero.
    assert (queued (messages l) = []) as Hempty by (destruct (queued (messages l)); [done|simpl in *; lia]).
    rewrite (send_empty msg _ n) by done. simpl. eexists _, _. split; [reflexivity|].
    pose proof (left_set_lane _ l {| messages := Chan (S n) [msg]; consumer_at := consumer_at l |} p Hl)
      as Hleft. unfold left_to_do, lane_weight in *. simpl in *. rewrite Hrt in *. simpl in *. lia.
Qed.

Lemma progress n p : alive (S n) p → wf_lanes p → left_to_do p ≠ 0%nat → ∃ a, advances p a.
Proof.
  intros Hal Hwf Hleft. destruct (queued (dispatchChan p)) as [|m q] eqn:Hd.
  - destruct (decide (map_Forall (λ _ l, lane_weight l = 0%nat) (queues p))) as [Hz|Hz].
    + exists Route. eapply route_advances; [done..|].
      unfold left_to_do in Hleft. rewrite (map_sum_zero _ _ Hz), Hd in Hleft.
      destruct (queued (inputChan p)); [left|right; done]. simpl in Hleft. lia.
    + apply map_not_Forall in Hz as (t & l & Hq & Hw); [|apply _].
      exists (Consume t). by eapply busy_lane_advances.
  - exists Leave. split; [done|]. simpl. unfold recv. rewrite Hd. simpl.
    eexists _, _. split; [reflexivity|]. unfold left_to_do; simpl. rewrite Hd. simpl. lia.
Qed.

(** Every step of these goroutines, in whatever order, uses up some of what is
    left to do. *)
Lemma pl_step_decreases a p ls p' : internal a → pl_step a p = Some (ls, p') →
  (left_to_do p' < left_to_do p)%nat.
Proof.
  destruct a; try done; intros _; simpl; unfold route, consume; pl_cases; intros;
    simplify_eq/=; repeat match goal with
    | H : recv _ = Some _ |- _ => apply recv_Some in H as [? ?]
    | H : send _ _ = Some _ |- _ => apply send_Some in H as [_ ->]
    | H : queues p !! ?t = Some ?l |- context [set_lane ?t ?l' _] =>
        pose proof (left_set_lane t l l' p H); clear H
    end; unfold left_to_do, lane_weight in *; simpl in *;
    repeat match goal with
    | H : router_at p = _ |- _ => rewrite H in *; clear H
    | H : consumer_at _ = _ |- _ => rewrite H in *; clear H
    | H : queued _ = _ :: _ |- _ => rewrite H in *; clear H
    end; rewrite ?length_app in *; simpl in *; try lia.
Qed.

(** The goroutines of a pipeline whose context is not cancelled are running. *)
Lemma reachable_alive acts topics st n ls p :
  execute pl_step acts (NewPipeline topics st n) = Some (ls, p) → stopped p = false →
  alive n p ∧ wf_lanes p.
Proof.
  intros Hx Hs. split; [|by eapply reachable_wf]. revert Hs. revert Hx.
  apply (execute_ind pl_step (λ _ p, stopped p = false → alive n p)).
  - intros _. apply NewPipeline_alive.
  - intros ls0 p0 a ls1 p1 IH Ha Hs. destruct (pl_step_dropped a p0 ls1 p1 Ha) as [Hst _].
    rewrite Hs in Hst. eapply pl_step_alive; [apply IH|..|exact Ha].
    + destruct (stopped p0); [|done]. by destruct Hst as [_ ->]; [|left].
    + intros ->. by destruct Hst as [_ Hst]; specialize (Hst (or_intror eq_refl)).
Qed.

(** The pipeline can always be drained: from every state it can reach
    while its context is not cancelled, with channels of any positive
    capacity, some steps of its own goroutines and of the dispatch channel's
    reader (as many as there is left to do) bring every message to its end:
    nothing is pending for any topic and the dispatch channel is empty.  In
    particular the router and the consumers never deadlock. *)
Theorem pipeline_drains acts topics st n ls p :
  execute pl_step acts (NewPipeline topics st (S n)) = Some (ls, p) → stopped p = false →
  ∃ acts' ls' p', execute pl_step acts' p = Some (ls', p') ∧ Forall internal acts' ∧
    (length acts' ≤ left_to_do p)%nat ∧
    (∀ t, pending t p' = []) ∧ queued (dispatchChan p') = [].
Proof.
  intros Hx Hs. destruct (reachable_alive acts topics st (S n) ls p Hx Hs) as [Hal Hwf].
  clear Hx Hs. remember (left_to_do p) as k eqn:Hk. revert p Hk Hal Hwf.
  induction k as [k IH] using lt_wf_ind. intros p -> Hal Hwf.
  destruct (decide (left_to_do p = 0%nat)) as [H0|Hn0].
  { exists [], [], p. split_and!; [done|done|simpl; lia| |by apply (left_nothing p ""%string)].
    intros t. by apply left_nothing. }
  destruct (progress n p Hal Hwf Hn0) as (a & Hint & ls1 & p1 & Ha & Hlt).
  destruct (IH (left_to_do p1) Hlt p1) as (acts' & ls' & p' & Hx & Hall & Hlen & Hpend); [done|..].
  { eapply pl_step_alive; [done| |done]. by intros ->. }
  { by eapply pl_step_wf. }
  exists (a :: acts'), (ls1 ++ ls'), p'. simpl. rewrite Ha. simpl. rewrite Hx. simpl.
  split_and!; [done|by constructor|lia|apply Hpend|apply Hpend].
Qed.
End drain.

Lemma pipeline_drains_witness :
  ∃ acts' ls' p', execute pl_step acts' sample_pl.2 = Some (ls', p') ∧ pending "a" p' = [].
Proof.
  destruct (pipeline_drains sample_pl_actions ["a"%string; "b"%string] [] 3 _ _ sample_pl_eq)
    as (acts' & ls' & p' & Hx & _ & _ & Hp & _).
  - vm_compute. reflexivity.
  - exists acts', ls', p'. split; [exact Hx|apply Hp].
Defined.
