(* ===== verification/FanOut.v ===== *)
(** * The processing fan-out

    [internal/modules/processing/fanout] and the logger worker of
    [internal/modules/processing/workers/logger]: every message taken from the
    dispatch channel is handed to one goroutine per worker, and the next one
    is taken when all of them have finished.  The goroutines run in any order;
    a worker that fails or panics is logged and does not disturb the others.

    - every worker processes every message exactly once and in order, so its
      state does not depend on the schedule nor on the other workers;
    - what was started for a message can always be finished;
    - [Close] closes every worker and reports the first error. *)

From S2P Require Export Chan.

(** ** Workers (interface.go) *)

(** How a call of [Process] ends: [nil], an error, or a recovered panic. *)
Inductive outcome := Succeeded | Errored | Panicked.

#[export] Instance outcome_eq_dec : EqDecision outcome.
Proof. solve_decision. Defined.

(** A worker keeps its own state of type [S]; [Close] returns whether it failed
    with an error of type [E]. *)
Record Worker (S E : Type) := {
  Name : string;
  Process : Message → S → outcome * S;
  Close : S → result E unit * S;
}.
Arguments Name {S E} w.
Arguments Process {S E} w msg s.
Arguments Close {S E} w s.

(** ** State (new_fanout.go) *)

Record FanOut (S E : Type) := {
  workers : list (Worker S E * S);      (* with the state each of them is in *)
  input : chan Message;
  processing : option Message;          (* the message fanOut is called with *)
  unfinished : list nat;                (* the goroutines wg.Wait() waits for *)
  fan_stopped : bool;                   (* ctx is done *)
  fan_returned : bool;                  (* Start has returned *)
}.
Arguments workers {S E} f.
Arguments input {S E} f.
Arguments processing {S E} f.
Arguments unfinished {S E} f.
Arguments fan_stopped {S E} f.
Arguments fan_returned {S E} f.

Section fanout.
Context {S E : Type}.
Implicit Types (f : FanOut S E) (w : Worker S E) (s : S).

Definition NewFanOut (ch : chan Message) (ws : list (Worker S E * S)) : FanOut S E :=
  {| workers := ws; input := ch; processing := None; unfinished := [];
     fan_stopped := false; fan_returned := false |}.

(** ** Steps (fanout.go) *)

Inductive fan_event :=
  | Sent (msg : Message)                                 (* a consumer forwards a message *)
  | Taken (msg : Message)
  | Processed (i : nat) (msg : Message) (o : outcome)
  | Logged (name : string) (o : outcome).                (* logger.Error *)

(** The select of [Start] receives a message, and [fanOut] starts a goroutine
    for every worker. *)
Definition take_message f : option (list fan_event * FanOut S E) :=
  match processing f, fan_returned f with
  | None, false =>
      '(msg, ch) ← recv (input f);
      Some ([Taken msg],
            {| workers := workers f; input := ch; processing := Some msg;
               unfinished := seq 0 (length (workers f));
               fan_stopped := fan_stopped f; fan_returned := false |})
  | _, _ => None
  end.

(** The goroutine of worker [i]: it processes the message, logs a failure or a
    recovered panic, and is done. *)
Definition run_worker (i : nat) f : option (list fan_event * FanOut S E) :=
  msg ← processing f;
  '(w, s) ← workers f !! i;
  if bool_decide (i ∈ unfinished f) then
    let '(o, s') := Process w msg s in
    Some (Processed i msg o :: (match o with Succeeded => [] | _ => [Logged (Name w) o] end),
          {| workers := <[i := (w, s')]> (workers f); input := input f; processing := Some msg;
             unfinished := filter (λ j, j ≠ i) (unfinished f);
             fan_stopped := fan_stopped f; fan_returned := fan_returned f |})
  else None.

(** [wg.Wait()] returns, and with it [fanOut]. *)
Definition wait_done f : option (list fan_event * FanOut S E) :=
  match processing f, unfinished f with
  | Some _, [] =>
      Some ([], {| workers := workers f; input := input f; processing := None; unfinished := [];
                   fan_stopped := fan_stopped f; fan_returned := fan_returned f |})
  | _, _ => None
  end.

(** The select of [Start] takes [<-ctx.Done()]. *)
Definition stop_start f : option (list fan_event * FanOut S E) :=
  match processing f with
  | None =>
      if fan_stopped f && negb (fan_returned f) then
        Some ([], {| workers := workers f; input := input f; processing := None;
                     unfinished := unfinished f; fan_stopped := true; fan_returned := true |})
      else None
  | Some _ => None
  end.

Inductive fan_action :=
  | Send (msg : Message)        (* a queue consumer forwards a message *)
  | Take
  | Work (i : nat)
  | WaitDone
  | StopStart
  | CancelFan.

Definition fan_step (a : fan_action) f : option (list fan_event * FanOut S E) :=
  match a with
  | Send msg =>
      ch ← send msg (input f);
      Some ([Sent msg], {| workers := workers f; input := ch; processing := processing f;
                           unfinished := unfinished f; fan_stopped := fan_stopped f;
                           fan_returned := fan_returned f |})
  | Take => take_message f
  | Work i => run_worker i f
  | WaitDone => wait_done f
  | StopStart => stop_start f
  | CancelFan =>
      Some ([], {| workers := workers f; input := input f; processing := processing f;
                   unfinished := unfinished f; fan_stopped := true;
                   fan_returned := fan_returned f |})
  end.

(** [FanOut.Close]: the workers in order, and the first error. *)
Fixpoint close_workers (ws : list (Worker S E * S)) (firstErr : option E) :
    option E * list (Worker S E * S) :=
  match ws with
  | [] => (firstErr, [])
  | (w, s) :: ws =>
      let '(res, s') := Close w s in
      let firstErr :=
        match res, firstErr with
        | Err e, None => Some e
        | _, _ => firstErr
        end in
      let '(firstErr, ws) := close_workers ws firstErr in
      (firstErr, (w, s') :: ws)
  end.

Definition CloseFanOut f : option E * list (Worker S E * S) := close_workers (workers f) None.

(** ** What each worker has seen *)

Definition taken (ls : list fan_event) : list Message :=
  omap (λ e, match e with Taken m => Some m | _ => None end) ls.
Definition fan_sent (ls : list fan_event) : list Message :=
  omap (λ e, match e with Sent m => Some m | _ => None end) ls.
Definition processed (i : nat) (ls : list fan_event) : list Message :=
  omap (λ e, match e with Processed j m _ => if decide (j = i) then Some m else None | _ => None end) ls.

(** The state a worker reaches by processing messages in order. *)
Definition process_all w (msgs : list Message) s : S :=
  foldl (λ s m, (Process w m s).2) s msgs.

(** The message worker [i] has not finished yet. *)
Definition owed (i : nat) f : list Message :=
  match processing f with
  | Some msg => if decide (i ∈ unfinished f) then [msg] else []
  | None => []
  end.

Definition fan_inv (ws : list (Worker S E * S)) (ls : list fan_event) f : Prop :=
  fan_sent ls = taken ls ++ queued (input f) ∧
  length (workers f) = length ws ∧
  (processing f = None → unfinished f = []) ∧
  (NoDup (unfinished f) ∧ ∀ i, i ∈ unfinished f → i < length ws) ∧
  ∀ i w s, ws !! i = Some (w, s) →
    taken ls = processed i ls ++ owed i f ∧
    workers f !! i = Some (w, process_all w (processed i ls) s).

Lemma fan_step_same ws ls f ls' f' :
  fan_inv ws ls f → workers f' = workers f → processing f' = processing f →
  unfinished f' = unfinished f → taken ls' = [] → (∀ i, processed i ls' = []) →
  queued (input f') = queued (input f) ++ fan_sent ls' →
  fan_inv ws (ls ++ ls') f'.
Proof.
  intros (Hs & Hlen & Hidle & [Hnd Hun] & Hall) Hw Hp Hu Ht Hpr Hq. unfold fan_inv, owed.
  rewrite Hw, Hp, Hu, Hq. unfold fan_sent, taken, processed in *. rewrite !omap_app, Ht, Hs.
  split_and!; try done.
  - by rewrite app_nil_r, (assoc_L (++)).
  - intros i w s Hi. rewrite omap_app, Hpr, !app_nil_r. by apply Hall.
Qed.

Lemma take_inv ws ls f ls' f' : fan_inv ws ls f → take_message f = Some (ls', f') →
  fan_inv ws (ls ++ ls') f'.
Proof.
  intros (Hs & Hlen & Hidle & [Hnd Hun] & Hall). unfold take_message.
  destruct (processing f) as [msg0|] eqn:Hp; [done|]. destruct (fan_returned f); [done|].
  destruct (recv (input f)) as [[msg ch]|] eqn:Hr; simpl; [|done]. intros [= <- <-].
  apply recv_Some in Hr as [Hr _]. unfold fan_inv, fan_sent, taken, processed in *. simpl.
  rewrite !omap_app, Hlen. simpl. rewrite Hs, Hr, app_nil_r, <-(assoc_L (++)).
  split_and!; [done|done|done|apply NoDup_seq| |].
  - intros i ?%elem_of_seq. lia.
  - intros i w s Hi. rewrite omap_app. simpl. rewrite app_nil_r.
    destruct (Hall i w s Hi) as [Ht Hw]. unfold owed in *. rewrite Hp in Ht. simpl in *.
    rewrite app_nil_r in Ht. split; [|done]. rewrite decide_True.
    + by f_equal.
    + apply elem_of_seq. apply lookup_lt_Some in Hi. lia.
Qed.

Lemma run_worker_inv ws ls f j ls' f' : fan_inv ws ls f → run_worker j f = Some (ls', f') →
  fan_inv ws (ls ++ ls') f'.
Proof.
  intros (Hs & Hlen & Hidle & [Hnd Hun] & Hall). unfold run_worker.
  destruct (processing f) as [msg|] eqn:Hp; simpl; [|done].
  destruct (workers f !! j) as [[w s]|] eqn:Hj; simpl; [|done].
  case_bool_decide as Hin; [|done]. destruct (Process w msg s) as [o s'] eqn:Ho.
  intros [= <- <-]. unfold fan_inv, fan_sent, taken, processed in *. simpl.
  rewrite !omap_app, length_insert. simpl.
  assert (∀ B (g : fan_event → option B), (∀ n o', g (Logged n o') = None) →
    omap g (match o with Succeeded => [] | _ => [Logged (Name w) o] end) = []) as Hlog.
  { intros B g Hg. destruct o; simpl; by rewrite ?Hg. }
  rewrite !Hlog, !app_nil_r by done. split_and!; [done|done|done|by apply NoDup_filter| |].
  - intros i [_ ?]%list_elem_of_filter. by apply Hun.
  - intros i w0 s0 Hi. rewrite omap_app. simpl. rewrite Hlog by done.
    destruct (Hall i w0 s0 Hi) as [Ht Hw]. unfold owed in *. rewrite Hp in Ht. simpl.
    destruct (decide (i = j)) as [->|Hne].
    + rewrite (decide_True _ _ Hin) in Ht.
      rewrite (decide_True (P := j = j)) by done.
      rewrite (decide_False (P := j ∈ _)) by (rewrite list_elem_of_filter; naive_solver).
      rewrite app_nil_r. split; [done|].
      rewrite Hj in Hw. injection Hw as -> ->.
      rewrite list_lookup_insert_eq by (apply lookup_lt_Some in Hj; done).
      unfold process_all in *. rewrite foldl_app. simpl. by rewrite Ho.
    + rewrite (decide_False (P := j = i)) by done. simpl. rewrite app_nil_r.
      rewrite list_lookup_insert_ne by done. split; [|done].
      rewrite Ht. f_equal. destruct (decide (i ∈ unfinished f)) as [Hi'|Hi'];
        case_decide as Hf; rewrite list_elem_of_filter in Hf; try done; naive_solver.
Qed.

Lemma fan_step_inv ws ls f a ls' f' : fan_inv ws ls f → fan_step a f = Some (ls', f') →
  fan_inv ws (ls ++ ls') f'.
Proof.
  intros Hinv. destruct a; simpl.
  - destruct (send msg (input f)) as [ch|] eqn:Hs; simpl; [|done]. intros [= <- <-].
    apply send_Some in Hs as [_ ->]. by apply (fan_step_same ws ls f).
  - by apply take_inv.
  - by apply run_worker_inv.
  - unfold wait_done. destruct (processing f) as [msg|] eqn:Hp; [|done].
    destruct (unfinished f) eqn:Hu; [|done]. intros [= <- <-]. rewrite app_nil_r.
    destruct Hinv as (Hs & Hlen & Hidle & [Hnd Hun] & Hall). split_and!; try done.
    + simpl. constructor.
    + simpl. by intros i ?%elem_of_nil.
    + intros i w s Hi. destruct (Hall i w s Hi) as [Ht Hw]. split; [|done].
      unfold owed in *. rewrite Hp, Hu in Ht. simpl. by rewrite decide_False in Ht by by intros ?%elem_of_nil.
  - unfold stop_start. destruct (processing f) eqn:Hp; [done|].
    destruct (_ && _); [|done]. intros [= <- <-]. apply (fan_step_same ws ls f); try done.
    simpl. by rewrite app_nil_r.
  - intros [= <- <-]. apply (fan_step_same ws ls f); try done. simpl. by rewrite app_nil_r.
Qed.

Lemma NewFanOut_inv n ws : fan_inv ws [] (NewFanOut (make_chan n) ws).
Proof.
  split; [done|]. split; [done|]. split; [done|]. split.
  - split; [constructor|]. by intros i ?%elem_of_nil.
  - intros i w s Hi. by split.
Qed.

Lemma reachable_fan_inv acts n ws ls f :
  execute fan_step acts (NewFanOut (make_chan n) ws) = Some (ls, f) → fan_inv ws ls f.
Proof.
  apply (execute_ind fan_step (fan_inv ws)); [apply NewFanOut_inv|].
  intros. by eapply fan_step_inv.
Qed.

(** ** Properties *)

(** C13: in every execution of the fan-out, in whatever order its goroutines
    run and however they end, every worker has processed the messages taken
    from the channel, each exactly once and in order, except for the current
    one while its goroutine has not run; the messages taken are those that
    were sent, in order; and a worker's state is the one it reaches by
    processing these messages alone, so that no other worker's failure, panic
    or speed has any influence on it. *)
Theorem fanout_exactly_once acts n ws ls f i w s :
  execute fan_step acts (NewFanOut (make_chan n) ws) = Some (ls, f) → ws !! i = Some (w, s) →
  taken ls = processed i ls ++ owed i f ∧
  fan_sent ls = taken ls ++ queued (input f) ∧
  workers f !! i = Some (w, process_all w (processed i ls) s).
Proof.
  intros (Hs & _ & _ & _ & Hall)%reachable_fan_inv Hi. destruct (Hall i w s Hi). done.
Qed.

(** Running the goroutines that are left, in the order of the list. *)
Lemma finish_all todo f msg : NoDup todo → processing f = Some msg → unfinished f ≡ₚ todo →
  (∀ i, i ∈ todo → is_Some (workers f !! i)) →
  ∃ ls f', execute fan_step (Work <$> todo) f = Some (ls, f') ∧
    processing f' = Some msg ∧ unfinished f' = [].
Proof.
  revert f. induction todo as [|i todo IH]; intros f; simpl.
  { intros _ Hp Hu%Permutation_nil_r _. by exists [], f. }
  intros [Hi Hnd]%NoDup_cons Hp Hu Hw. unfold run_worker. rewrite Hp. simpl.
  destruct (Hw i) as [[w s] Hws]; [by left|]. rewrite Hws. simpl.
  rewrite bool_decide_eq_true_2 by (rewrite Hu; by left).
  destruct (Process w msg s) as [o s']. simpl.
  change (list_fmap nat fan_action Work todo) with (Work <$> todo).
  match goal with |- context [execute fan_step _ ?f1] => destruct (IH f1) as (ls & f' & -> & Hp' & Hu') end.
  - done.
  - done.
  - simpl. rewrite Hu. rewrite filter_cons_False by (intros Hne; by apply Hne).
    rewrite filter_all; [done|]. apply Forall_forall. by intros j Hj ->.
  - intros j Hj. simpl. apply list_lookup_insert_is_Some. apply Hw. by right.
  - simpl. eauto.
Qed.

(** [fanOut] finishes: from every reachable state in which a message is
    being processed, whatever goroutines have already run, running the
    remaining ones in any order brings the fan-out back to its select. *)
Theorem fanout_finishes acts n ws ls f msg order :
  execute fan_step acts (NewFanOut (make_chan n) ws) = Some (ls, f) →
  processing f = Some msg → order ≡ₚ unfinished f →
  ∃ ls' f', execute fan_step ((Work <$> order) ++ [WaitDone]) f = Some (ls', f') ∧
    processing f' = None ∧ unfinished f' = [].
Proof.
  intros (_ & Hlen & _ & [Hnd Hun] & Hall)%reachable_fan_inv Hp Hord.
  destruct (finish_all order f msg) as (ls' & f' & Hx & Hp' & Hu').
  - by rewrite Hord.
  - done.
  - by rewrite Hord.
  - intros i. rewrite Hord. intros Hi%Hun. apply lookup_lt_is_Some. by rewrite Hlen.
  - rewrite execute_app, Hx. simpl. unfold wait_done. rewrite Hp', Hu'. simpl. eauto.
Qed.

Lemma close_workers_spec ws firstErr :
  close_workers ws firstErr =
  (match firstErr with
   | Some _ => firstErr
   | None => head (omap (λ '(w, s), match (Close w s).1 with Err e => Some e | Ok _ => None end) ws)
   end, (λ '(w, s), (w, (Close w s).2)) <$> ws).
Proof.
  revert firstErr. induction ws as [|[w s] ws IH]; intros firstErr; simpl.
  { by destruct firstErr. }
  destruct (Close w s) as [[[]|e] s']; rewrite IH; by destruct firstErr.
Qed.

(** [Close] closes every worker, also after one of them has failed, and
    returns the error of the first worker that failed, if any. *)
Theorem CloseFanOut_spec f :
  CloseFanOut f =
  (head (omap (λ '(w, s), match (Close w s).1 with Err e => Some e | Ok _ => None end) (workers f)),
   (λ '(w, s), (w, (Close w s).2)) <$> workers f).
Proof. unfold CloseFanOut. apply close_workers_spec. Qed.
End fanout.

(** ** The logger worker (logger_worker.go) *)

(** One entry: topic, client ID, payload size and timestamp. *)
Definition log_entry : Type := string * string * Z * Z.

(** The worker's state is the log it writes to. *)
Definition LoggerWorker : Worker (list log_entry) unit := {|
  Name := "logger";
  Process msg log :=
    (Succeeded, log ++ [(MsgTopic msg, MsgClientID msg, len (MsgPayload msg), Timestamp msg)]);
  Close log := (Ok (), log);
|}.

(** A worker that panics on messages without payload, for the examples. *)
Definition fragile_worker : Worker (list log_entry) unit := {|
  Name := "fragile";
  Process msg log := match MsgPayload msg with
    | [] => (Panicked, log)
    | _ => (Process LoggerWorker msg log)
    end;
  Close log := (Err (), log);
|}.

Definition fan_message (topic : string) (payload : list byte) : Message :=
  {| MsgClientID := "m1"; MsgTopic := topic; MsgPayload := payload; Timezone := "UTC"; Timestamp := 0 |}.

Definition sample_workers : list (Worker (list log_entry) unit * list log_entry) :=
  [(fragile_worker, []); (LoggerWorker, [])].
Definition sample_fan_actions : list fan_action :=
  [Send (fan_message "a" []); Send (fan_message "b" [x31]); Take; Work 1; Work 0; WaitDone; Take; Work 0].
Definition sample_fan : list fan_event * FanOut (list log_entry) unit :=
  default ([], NewFanOut (make_chan 4) sample_workers)
    (execute fan_step sample_fan_actions (NewFanOut (make_chan 4) sample_workers)).

Lemma sample_fan_eq : execute fan_step sample_fan_actions (NewFanOut (make_chan 4) sample_workers) =
  Some (sample_fan.1, sample_fan.2).
Proof. rewrite <-surjective_pairing. apply computed, is_Some_computed. vm_compute. reflexivity. Qed.

Lemma fanout_exactly_once_witness :
  processed 0 sample_fan.1 = [fan_message "a" []; fan_message "b" [x31]] ∧
  workers sample_fan.2 !! 1%nat = Some (LoggerWorker,
    process_all LoggerWorker (processed 1 sample_fan.1) []) ∧
  process_all LoggerWorker (processed 1 sample_fan.1) [] = [("a"%string, "m1"%string, 0%Z, 0%Z)].
Proof.
  split; [vm_compute; reflexivity|]. split; [|vm_compute; reflexivity].
  apply (fanout_exactly_once sample_fan_actions 4 sample_workers _ _ 1 LoggerWorker [] sample_fan_eq).
  reflexivity.
Defined.

Lemma fanout_finishes_witness :
  ∃ ls' f', execute fan_step [Work 1; WaitDone] sample_fan.2 = Some (ls', f') ∧ processing f' = None.
Proof.
  destruct (fanout_finishes sample_fan_actions 4 sample_workers _ _ (fan_message "b" [x31]) [1%nat]
    sample_fan_eq) as (ls' & f' & Hx & Hp & _).
  - vm_compute. reflexivity.
  - replace (unfinished sample_fan.2) with [1%nat] by (vm_compute; reflexivity). reflexivity.
  - exists ls', f'. split; [exact Hx|exact Hp].
Defined.
