(* ===== verification/System.v ===== *)
(** * The running broker

    What [StartServers] launches ([cmd/broker/bootstrap/server.go]): the MQTT
    server, the ingestion pipeline and the processing fan-out, three sets of
    goroutines that share two channels, [MsgChan] and [ProcessChan], and a
    context.  The system is the product of the three machines: an operation on
    a shared channel is one step of both the machines at its ends, a
    cancellation one of all three, and everything else a step of one of them.

    Every execution of the system is an execution of each part
    ([projections]); the two copies of a channel always agree ([in_step]), so
    the product blocks nothing that its parts would do ([broker_step],
    [pipeline_step], [fanout_step]); and what holds of the parts composes into
    the path of a message from the session that sent it to the workers that
    process it ([message_flow], [message_path]). *)

From S2P Require Export Broker Ingestion FanOut.

Local Open Scope Z_scope.

Record system (St S E : Type) := {
  sys_broker : broker;
  sys_pipeline : pipeline St;
  sys_fan : FanOut S E;
}.
Arguments sys_broker {St S E} _.
Arguments sys_pipeline {St S E} _.
Arguments sys_fan {St S E} _.

Inductive sys_action :=
  | OfBroker (a : action)
  | OfPipeline (a : pl_action)
  | OfFan (a : fan_action)
  | CancelContext.              (* cancel() *)

Inductive sys_label :=
  | OnBroker (l : label)
  | OnPipeline (f : fate)
  | OnFan (e : fan_event).

Definition on_broker (ls : list sys_label) : list label :=
  omap (λ l, match l with OnBroker l => Some l | _ => None end) ls.
Definition on_pipeline (ls : list sys_label) : list fate :=
  omap (λ l, match l with OnPipeline l => Some l | _ => None end) ls.
Definition on_fan (ls : list sys_label) : list fan_event :=
  omap (λ l, match l with OnFan l => Some l | _ => None end) ls.

Definition sys_labels (lb : list label) (lp : list fate) (lf : list fan_event) : list sys_label :=
  (OnBroker <$> lb) ++ (OnPipeline <$> lp) ++ (OnFan <$> lf).

(** ** What one step does to a channel *)

(** At most one operation: [ins] is put into it, or [outs] is taken. *)
Inductive used {A} (c : chan A) : list A → list A → chan A → Prop :=
  | used_not : used c [] [] c
  | used_send x c' : send x c = Some c' → used c [x] [] c'
  | used_recv x c' : recv c = Some (x, c') → used c [] [x] c'.
#[local] Hint Constructors used : core.

Lemma exec_used me c w x w' : (x, w') ∈ exec me c w →
  used (msgChan w) (option_list (sent_by (Event c x))) [] (msgChan w').
Proof.
  destruct c; simpl;
    try (rewrite list_elem_of_singleton; intros [= -> ->]; done).
  - destruct (ClientManager.Add _ _) as [[y cm] cl]. rewrite list_elem_of_singleton.
    intros [= -> ->]. simpl. by rewrite close_conns_msgChan.
  - destruct (Claim _ _ _) as [y r]. rewrite list_elem_of_singleton. by intros [= -> ->].
  - rewrite elem_of_app. intros [Hin|Hin].
    + destruct (send msg (msgChan w)) as [ch|] eqn:Hs; [|by apply elem_of_nil in Hin].
      apply list_elem_of_singleton in Hin as [= -> ->]. by constructor.
    + destruct (ctx_done w); [|by apply elem_of_nil in Hin].
      by apply list_elem_of_singleton in Hin as [= -> ->].
Qed.

(** The broker's side of a step of the router, which takes a message when it
    is in its select. *)
Definition taken_by_router {St} (a : pl_action) (p : pipeline St) : list action :=
  match a, router_at p with
  | Route, Selecting => [Receive]
  | _, _ => []
  end.

Definition is_receive (a : action) : bool := match a with Receive => true | _ => false end.

Section uses.
Context {T : Type} `{Authenticator T} (s : Server T).
Context {St S E : Type} `{Store St}.

Lemma perform_used a b lb b' : perform s a b = Some (lb, b') →
  used (msgChan (shared b)) (sent lb) (received lb) (msgChan (shared b')) ∧
  length (received lb) = if is_receive a then 1%nat else 0%nat.
Proof.
  destruct a; simpl.
  - destruct (_ && _); [|done]. intros [= <- <-]. unfold accept. by destruct (CanAccept _).
  - destruct (running b !! c) as [[|cl k]|]; try done.
    destruct (exec c cl (shared b) !! i) as [[x w']|] eqn:Hx; simpl; [|done].
    intros [= <- <-]. split; [|done]. by apply list_elem_of_lookup_2, exec_used in Hx.
  - destruct (recv _) as [[m ch]|] eqn:Hr; simpl; [|done]. intros [= <- <-].
    split; [|done]. by constructor.
  - by intros [= <- <-].
  - by intros [= <- <-].
  - by intros [= <- <-].
  - destruct (CloseAll _) as [cs cm]. intros [= <- <-]. simpl. by rewrite close_conns_msgChan.
Qed.

(** What the router takes has no label. *)
Lemma pl_step_used a (p : pipeline St) lp p' : pl_step a p = Some (lp, p') →
  (∃ outs, used (inputChan p) (arrivals lp) outs (inputChan p') ∧
    length outs = length (taken_by_router a p)) ∧
  used (dispatchChan p) (forwards lp) (leaves lp) (dispatchChan p').
Proof.
  destruct a; simpl; unfold route, consume, stop_router, stop_consumer; pl_cases;
    intros; simplify_eq/=; (split; [eexists; split; [eauto|reflexivity]|eauto]).
Qed.

Lemma fan_step_used a (f : FanOut S E) lf f' : fan_step a f = Some (lf, f') →
  used (input f) (fan_sent lf) (taken lf) (input f').
Proof.
  destruct a; simpl; unfold take_message, run_worker, wait_done, stop_start.
  - destruct (send _ _) eqn:?; simpl; [|done]. intros [= <- <-]. by constructor.
  - destruct (processing f), (fan_returned f); try done.
    destruct (recv _) as [[m ch]|] eqn:?; simpl; [|done]. intros [= <- <-]. by constructor.
  - destruct (processing f); simpl; [|done]. destruct (workers f !! i) as [[w st]|]; simpl; [|done].
    case_bool_decide; [|done]. destruct (Process w m st) as [o st']. intros [= <- <-].
    by destruct o.
  - destruct (processing f), (unfinished f); try done. by intros [= <- <-].
  - destruct (processing f); [done|]. destruct (_ && _); [|done]. by intros [= <- <-].
  - by intros [= <- <-].
Qed.
End uses.

(** What the labels of one end say. *)
Lemma arrivals_Arrived msgs : arrivals (Arrived <$> msgs) = msgs.
Proof. by apply omap_fmap_some. Qed.
Lemma forwards_Arrived msgs : forwards (Arrived <$> msgs) = [].
Proof. by apply omap_fmap_none. Qed.
Lemma leaves_Arrived msgs : leaves (Arrived <$> msgs) = [].
Proof. by apply omap_fmap_none. Qed.
Lemma arrivals_Left msgs : arrivals (Left <$> msgs) = [].
Proof. by apply omap_fmap_none. Qed.
Lemma forwards_Left msgs : forwards (Left <$> msgs) = [].
Proof. by apply omap_fmap_none. Qed.
Lemma leaves_Left msgs : leaves (Left <$> msgs) = msgs.
Proof. by apply omap_fmap_some. Qed.
Lemma fan_sent_Sent msgs : fan_sent (Sent <$> msgs) = msgs.
Proof. by apply omap_fmap_some. Qed.
Lemma taken_Sent msgs : taken (Sent <$> msgs) = [].
Proof. by apply omap_fmap_none. Qed.
Lemma sent_LReceive msgs : sent (LReceive <$> msgs) = [].
Proof. by apply omap_fmap_none. Qed.
Create Rewrite HintDb tags.
#[local] Hint Rewrite arrivals_Arrived forwards_Arrived leaves_Arrived arrivals_Left forwards_Left
  leaves_Left fan_sent_Sent taken_Sent sent_LReceive : tags.

Section system.
Context {T : Type} `{Authenticator T} (s : Server T).
Context {St S E : Type} `{Store St}.
Implicit Types (b : broker) (p : pipeline St) (f : FanOut S E) (y : system St S E).

(** ** Steps *)

(** The pipeline's side of what the broker sends. *)
Definition arrive (msgs : list Message) p : option (list fate * pipeline St) :=
  execute pl_step (Arrive <$> msgs) p.

(** The actions on the ends of a channel are left to the part that owns them. *)
Definition internal (a : sys_action) : bool :=
  match a with
  | OfBroker (Receive | Broker.Cancel) | OfPipeline (Arrive _ | Leave | Stop)
  | OfFan (FanOut.Send _ | CancelFan) => false
  | _ => true
  end.

Definition sys_step (a : sys_action) y : option (list sys_label * system St S E) :=
  if internal a then
    '(lb, b, lp, p, lf, f) ←
      (match a with
       | OfBroker a =>
           '(lb, b) ← perform s a (sys_broker y);
           '(lp, p) ← arrive (sent lb) (sys_pipeline y);
           Some (lb, b, lp, p, [], sys_fan y)
       | OfPipeline a =>
           '(lp, p) ← pl_step a (sys_pipeline y);
           '(lb, b) ← execute (perform s) (taken_by_router a (sys_pipeline y)) (sys_broker y);
           '(lf, f) ← execute fan_step (FanOut.Send <$> forwards lp) (sys_fan y);
           Some (lb, b, lp, p, lf, f)
       | OfFan a =>
           '(lf, f) ← fan_step a (sys_fan y);
           '(lp, p) ← execute pl_step ((λ _, Leave) <$> taken lf) (sys_pipeline y);
           Some ([], sys_broker y, lp, p, lf, f)
       | CancelContext =>
           '(lb, b) ← perform s Broker.Cancel (sys_broker y);
           '(lp, p) ← pl_step Stop (sys_pipeline y);
           '(lf, f) ← fan_step CancelFan (sys_fan y);
           Some (lb, b, lp, p, lf, f)
       end);
    Some (sys_labels lb lp lf, {| sys_broker := b; sys_pipeline := p; sys_fan := f |})
  else None.

(** ** Every execution is one of each part *)

Lemma on_broker_labels lb lp lf : on_broker (sys_labels lb lp lf) = lb.
Proof.
  unfold on_broker, sys_labels. rewrite !omap_app.
  rewrite (omap_fmap_none OnPipeline), (omap_fmap_none OnFan), omap_fmap_some, !app_nil_r; done.
Qed.
Lemma on_pipeline_labels lb lp lf : on_pipeline (sys_labels lb lp lf) = lp.
Proof.
  unfold on_pipeline, sys_labels. rewrite !omap_app.
  rewrite (omap_fmap_none OnBroker), (omap_fmap_none OnFan), omap_fmap_some, app_nil_r; done.
Qed.
Lemma on_fan_labels lb lp lf : on_fan (sys_labels lb lp lf) = lf.
Proof.
  unfold on_fan, sys_labels. rewrite !omap_app.
  rewrite (omap_fmap_none OnBroker), (omap_fmap_none OnPipeline), omap_fmap_some; done.
Qed.

Definition start (b0 : broker) (p0 : pipeline St) (f0 : FanOut S E) : system St S E :=
  {| sys_broker := b0; sys_pipeline := p0; sys_fan := f0 |}.

(** What a step does to the three parts. *)
Lemma sys_step_parts a y ls y' : sys_step a y = Some (ls, y') → ∃ ab ap af,
  execute (perform s) ab (sys_broker y) = Some (on_broker ls, sys_broker y') ∧
  execute pl_step ap (sys_pipeline y) = Some (on_pipeline ls, sys_pipeline y') ∧
  execute fan_step af (sys_fan y) = Some (on_fan ls, sys_fan y').
Proof.
  unfold sys_step. destruct (internal a); [|done]. intros Hs.
  apply bind_Some in Hs as ([[[[[lb b] lp] p] lf] f] & Hs & [= <- <-]).
  rewrite on_broker_labels, on_pipeline_labels, on_fan_labels. simpl. destruct a as [a|a|a|].
  - apply bind_Some in Hs as ([lb0 b0] & Hb & Hs). apply bind_Some in Hs as ([lp0 p0] & Hp & [= <- <- <- <- <- <-]).
    exists [a], (Arrive <$> sent lb0), []. rewrite execute_one, Hb. done.
  - apply bind_Some in Hs as ([lp0 p0] & Hp & Hs). apply bind_Some in Hs as ([lb0 b0] & Hb & Hs).
    apply bind_Some in Hs as ([lf0 f0] & Hf & [= <- <- <- <- <- <-]).
    exists (taken_by_router a (sys_pipeline y)), [a], (FanOut.Send <$> forwards lp0).
    rewrite (execute_one pl_step), Hp. done.
  - apply bind_Some in Hs as ([lf0 f0] & Hf & Hs). apply bind_Some in Hs as ([lp0 p0] & Hp & [= <- <- <- <- <- <-]).
    exists [], ((λ _, Leave) <$> taken lf0), [a]. rewrite (execute_one fan_step), Hf. done.
  - apply bind_Some in Hs as ([lb0 b0] & Hb & Hs). apply bind_Some in Hs as ([lp0 p0] & Hp & Hs).
    apply bind_Some in Hs as ([lf0 f0] & Hf & [= <- <- <- <- <- <-]).
    exists [Broker.Cancel], [Stop], [CancelFan]. rewrite !execute_one, Hb, Hp, Hf. done.
Qed.

Lemma projections acts y ls y' : execute sys_step acts y = Some (ls, y') → ∃ ab ap af,
  execute (perform s) ab (sys_broker y) = Some (on_broker ls, sys_broker y') ∧
  execute pl_step ap (sys_pipeline y) = Some (on_pipeline ls, sys_pipeline y') ∧
  execute fan_step af (sys_fan y) = Some (on_fan ls, sys_fan y').
Proof.
  apply (execute_ind sys_step (λ ls y', ∃ ab ap af,
    execute (perform s) ab (sys_broker y) = Some (on_broker ls, sys_broker y') ∧
    execute pl_step ap (sys_pipeline y) = Some (on_pipeline ls, sys_pipeline y') ∧
    execute fan_step af (sys_fan y) = Some (on_fan ls, sys_fan y'))).
  - by exists [], [], [].
  - intros ls0 y0 a ls1 y1 (ab & ap & af & Hb & Hp & Hf) (ab1 & ap1 & af1 & Hb1 & Hp1 & Hf1)%sys_step_parts.
    exists (ab ++ ab1), (ap ++ ap1), (af ++ af1). unfold on_broker, on_pipeline, on_fan in *.
    rewrite !execute_app, Hb, Hp, Hf, !omap_app. simpl. by rewrite Hb1, Hp1, Hf1.
Qed.

(** ** The two copies of a channel *)

Definition set_fan_input (ch : chan Message) f : FanOut S E :=
  {| workers := workers f; input := ch; processing := processing f; unfinished := unfinished f;
     fan_stopped := fan_stopped f; fan_returned := fan_returned f |}.
Definition set_broker_chan (ch : chan Message) b : broker :=
  {| shared := set_msgChan ch (shared b); running := running b |}.

(** What is done at one end of a channel can be done at the other. *)
Lemma arrive_used p ins c' : used (inputChan p) ins [] c' →
  arrive ins p = Some (Arrived <$> ins, set_input c' p).
Proof.
  unfold arrive. inversion 1 as [|x c1 Hs|]; subst; [by destruct p|].
  csimpl. by rewrite Hs.
Qed.

Lemma forward_used f ins c' : used (input f) ins [] c' →
  execute fan_step (FanOut.Send <$> ins) f = Some (Sent <$> ins, set_fan_input c' f).
Proof. inversion 1 as [|x c1 Hs|]; subst; [by destruct f|]. csimpl. by rewrite Hs. Qed.

Lemma leave_used p outs c' : used (dispatchChan p) [] outs c' →
  execute pl_step ((λ _, Leave) <$> outs) p = Some (Left <$> outs, set_dispatch c' p).
Proof. inversion 1 as [| |x c1 Hr]; subst; [by destruct p|]. csimpl. by rewrite Hr. Qed.

Lemma receive_used a p b outs c' : used (msgChan (shared b)) [] outs c' →
  length outs = length (taken_by_router a p) →
  execute (perform s) (taken_by_router a p) b = Some (LReceive <$> outs, set_broker_chan c' b).
Proof.
  intros Hu Hl. assert (taken_by_router a p = [] ∨ taken_by_router a p = [Receive]) as [Ht|Ht].
  { unfold taken_by_router. destruct a, (router_at p); auto. }
  - rewrite Ht in *. apply nil_length_inv in Hl. subst. inversion Hu; subst. by destruct b as [[]].
  - rewrite Ht in *. inversion Hu as [| |x c1 Hr]; subst; [done|]. csimpl. by rewrite Hr.
Qed.

(** The steps of the product, from a state whose channels agree. *)
Definition agree y : Prop :=
  msgChan (shared (sys_broker y)) = inputChan (sys_pipeline y) ∧
  dispatchChan (sys_pipeline y) = input (sys_fan y).

Lemma broker_step a y lb b : agree y → internal (OfBroker a) = true →
  perform s a (sys_broker y) = Some (lb, b) →
  sys_step (OfBroker a) y = Some (sys_labels lb (Arrived <$> sent lb) [],
    start b (set_input (msgChan (shared b)) (sys_pipeline y)) (sys_fan y)) ∧ received lb = [].
Proof.
  intros [Hm Hd] Hi Hb. destruct (perform_used s a _ _ _ Hb) as [Hu Hl].
  assert (received lb = []) as Hr by (apply nil_length_inv; rewrite Hl; by destruct a).
  rewrite Hr, Hm in Hu. unfold sys_step. rewrite Hi, Hb. simpl.
  by rewrite (arrive_used _ _ _ Hu).
Qed.

Lemma pl_internal a p lp p' : internal (OfPipeline a) = true → pl_step a p = Some (lp, p') →
  arrivals lp = [] ∧ leaves lp = [].
Proof.
  destruct a; try done; simpl; unfold route, consume, stop_router, stop_consumer; pl_cases;
    intros; simplify_eq/=; done.
Qed.

Lemma fan_internal a f lf f' : internal (OfFan a) = true → fan_step a f = Some (lf, f') →
  fan_sent lf = [].
Proof.
  destruct a; try done; simpl; unfold take_message, run_worker, wait_done, stop_start; intros _.
  - destruct (processing f), (fan_returned f); try done.
    destruct (recv _) as [[m ch]|]; simpl; [|done]. by intros [= <- <-].
  - destruct (processing f); simpl; [|done]. destruct (workers f !! i) as [[w st]|]; simpl; [|done].
    case_bool_decide; [|done]. destruct (Process w m st) as [[] st']; by intros [= <- <-].
  - destruct (processing f), (unfinished f); try done. by intros [= <- <-].
  - destruct (processing f); [done|]. destruct (_ && _); [|done]. by intros [= <- <-].
Qed.

Lemma pipeline_step a y lp p : agree y → internal (OfPipeline a) = true →
  pl_step a (sys_pipeline y) = Some (lp, p) → ∃ outs,
  sys_step (OfPipeline a) y = Some (sys_labels (LReceive <$> outs) lp (Sent <$> forwards lp),
    start (set_broker_chan (inputChan p) (sys_broker y)) p
      (set_fan_input (dispatchChan p) (sys_fan y))).
Proof.
  intros [Hm Hd] Hi Hp. destruct (pl_step_used a _ _ _ Hp) as [(outs & Hu & Hl) Hf].
  destruct (pl_internal a _ _ _ Hi Hp) as [Ha Hle]. rewrite Ha, <-Hm in Hu. rewrite Hle, Hd in Hf.
  exists outs. unfold sys_step. rewrite Hi, Hp. simpl.
  rewrite (receive_used _ _ _ _ _ Hu Hl). simpl. by rewrite (forward_used _ _ _ Hf).
Qed.

Lemma fanout_step a y lf f : agree y → internal (OfFan a) = true →
  fan_step a (sys_fan y) = Some (lf, f) →
  sys_step (OfFan a) y = Some (sys_labels [] (Left <$> taken lf) lf,
    start (sys_broker y) (set_dispatch (input f) (sys_pipeline y)) f).
Proof.
  intros [Hm Hd] Hi Hf. pose proof (fan_step_used a _ _ _ Hf) as Hu.
  rewrite (fan_internal a _ _ _ Hi Hf), <-Hd in Hu. unfold sys_step. rewrite Hi, Hf. simpl.
  by rewrite (leave_used _ _ _ Hu).
Qed.

Definition in_step (ls : list sys_label) y : Prop :=
  agree y ∧
  arrivals (on_pipeline ls) = sent (on_broker ls) ∧
  fan_sent (on_fan ls) = forwards (on_pipeline ls) ∧
  leaves (on_pipeline ls) = taken (on_fan ls).

Lemma in_step_app ls ls' y y' : in_step ls y → in_step ls' y' → in_step (ls ++ ls') y'.
Proof.
  intros (_ & H1 & H2 & H3) (? & H1' & H2' & H3'). split; [done|].
  unfold on_broker, on_pipeline, on_fan, arrivals, sent, fan_sent, forwards, leaves, taken in *.
  rewrite !omap_app. by rewrite H1, H2, H3, H1', H2', H3'.
Qed.

(** The steps of the product, inverted. *)
Lemma sys_step_cases a y ls y' : agree y → sys_step a y = Some (ls, y') →
  match a with
  | OfBroker a => ∃ lb b, perform s a (sys_broker y) = Some (lb, b) ∧
      ls = sys_labels lb (Arrived <$> sent lb) [] ∧
      y' = start b (set_input (msgChan (shared b)) (sys_pipeline y)) (sys_fan y)
  | OfPipeline a => ∃ lp p outs, pl_step a (sys_pipeline y) = Some (lp, p) ∧
      (arrivals lp = [] ∧ leaves lp = []) ∧
      ls = sys_labels (LReceive <$> outs) lp (Sent <$> forwards lp) ∧
      y' = start (set_broker_chan (inputChan p) (sys_broker y)) p
        (set_fan_input (dispatchChan p) (sys_fan y))
  | OfFan a => ∃ lf f, fan_step a (sys_fan y) = Some (lf, f) ∧ fan_sent lf = [] ∧
      ls = sys_labels [] (Left <$> taken lf) lf ∧
      y' = start (sys_broker y) (set_dispatch (input f) (sys_pipeline y)) f
  | CancelContext => ∃ b f, perform s Broker.Cancel (sys_broker y) = Some ([], b) ∧
      fan_step CancelFan (sys_fan y) = Some ([], f) ∧ ls = [] ∧
      y' = start b (stop (sys_pipeline y)) f
  end.
Proof.
  intros Hy Hs. destruct (internal a) eqn:Hi; [|unfold sys_step in Hs; by rewrite Hi in Hs].
  destruct a as [a|a|a|].
  - destruct (perform s a (sys_broker y)) as [[lb b]|] eqn:Hb;
      [|unfold sys_step in Hs; by rewrite Hi, Hb in Hs].
    destruct (broker_step a y lb b Hy Hi Hb) as [Hs' _]. rewrite Hs in Hs'. injection Hs' as -> ->. eauto.
  - destruct (pl_step a (sys_pipeline y)) as [[lp p]|] eqn:Hp;
      [|unfold sys_step in Hs; by rewrite Hi, Hp in Hs].
    destruct (pipeline_step a y lp p Hy Hi Hp) as [outs Hs']. rewrite Hs in Hs'. injection Hs' as -> ->.
    exists lp, p, outs. pose proof (pl_internal a _ _ _ Hi Hp). done.
  - destruct (fan_step a (sys_fan y)) as [[lf f]|] eqn:Hf;
      [|unfold sys_step in Hs; by rewrite Hi, Hf in Hs].
    pose proof (fanout_step a y lf f Hy Hi Hf) as Hs'. rewrite Hs in Hs'. injection Hs' as -> ->.
    exists lf, f. by pose proof (fan_internal a _ _ _ Hi Hf).
  - revert Hs. cbn. intros [= <- <-]. by eexists _, _.
Qed.

Lemma sys_step_in_step a y ls y' : agree y → sys_step a y = Some (ls, y') → in_step ls y'.
Proof.
  intros Hy Hs. pose proof (sys_step_cases a y ls y' Hy Hs) as Hc. destruct Hy as [Hm Hd].
  destruct a as [a|a|a|].
  - destruct Hc as (lb & b & _ & -> & ->).
    unfold in_step. rewrite on_broker_labels, on_pipeline_labels, on_fan_labels. by autorewrite with tags.
  - destruct Hc as (lp & p & outs & _ & [Ha Hl] & -> & ->).
    unfold in_step. rewrite on_broker_labels, on_pipeline_labels, on_fan_labels, Ha, Hl.
    by autorewrite with tags.
  - destruct Hc as (lf & f & _ & Hf & -> & ->).
    unfold in_step. rewrite on_broker_labels, on_pipeline_labels, on_fan_labels, Hf. by autorewrite with tags.
  - revert Hs. cbn. intros [= <- <-]. by split.
Qed.

(** ** Running systems *)

Section running.
Variables (max : Z) (r : TopicRegistry) (n : nat) (tps : list string) (st : St)
  (ws : list (Worker S E * S)).
Hypothesis max_pos : 0 ≤ max.
Hypothesis r_wf : wf_registry r.

Definition start_system : system St S E :=
  start (init max r n) (NewPipeline tps st n) (NewFanOut (make_chan n) ws).

Lemma reachable_in_step acts ls y : execute sys_step acts start_system = Some (ls, y) → in_step ls y.
Proof.
  apply (execute_ind sys_step in_step); [done|].
  intros ls0 y0 a ls1 y1 Hin Ha. apply (in_step_app _ _ y0); [done|].
  by eapply sys_step_in_step; [apply Hin|].
Qed.

(** A session of [lb] was entitled to send [m]. *)
Definition authorised (lb : list label) (m : Message) : Prop :=
  MsgTopic m ∈ allowed r ∧ Timezone m = timezone s ∧
  ∃ c, registered s (MsgClientID m) (events_of c lb) ∧
    LCall c (Event (CallClaim (MsgTopic m) (MsgClientID m)) (Ok ())) ∈ lb.

Lemma sent_authorised acts lb b m : execute (perform s) acts (init max r n) = Some (lb, b) →
  m ∈ sent lb → authorised lb m.
Proof.
  intros Hx. unfold sent. rewrite list_elem_of_omap. intros ([c ev|] & Hin & Hev); [|done].
  apply list_elem_of_split in Hin as (l1 & l2 & Hl).
  assert (ev = Event (CallSend m) true) as ->.
  { destruct ev as [[] x]; simpl in Hev; try done. destruct x; [|done]. by injection Hev as ->. }
  destruct (send_authorised s max r n acts lb b l1 c m l2) as (? & ? & Hreg & Hcl); try done.
  split; [done|]. split; [done|]. exists c. rewrite Hl. split.
  - rewrite events_of_app. by apply registered_mono.
  - apply elem_of_app. by left.
Qed.

(** What became of the messages up to the store. *)
Record message_account `{!StoreSpec St} (ls : list sys_label) y : Prop := {
  account_routed m : OnPipeline (Discarded m) ∉ ls;
  account_sent t : at_topic t (sent (on_broker ls)) =
    at_topic t (finished (on_pipeline ls)) ++ pending t (sys_pipeline y);
  account_stored : stored (store (sys_pipeline y)) = stored st ++ (entry <$> saves (on_pipeline ls));
  account_finished m : m ∈ finished (on_pipeline ls) → authorised (on_broker ls) m;
}.

(** It depends on the broker and the pipeline alone. *)
Lemma parts_account `{!StoreSpec St} ab ap ls y :
  (∀ t, t ∈ allowed r → t ∈ tps) →
  execute (perform s) ab (init max r n) = Some (on_broker ls, sys_broker y) →
  execute pl_step ap (NewPipeline tps st n) = Some (on_pipeline ls, sys_pipeline y) →
  in_step ls y → message_account ls y.
Proof.
  intros Htps Hb Hp (_ & Harr & _ & _).
  pose proof (λ t, reachable_conserved ap tps st n _ _ t Hp) as Hcons.
  destruct (reachable_queues ap tps st n _ _ Hp) as [_ Hdisc].
  destruct (reachable_persisted ap tps st n _ _ Hp) as (Hst & _).
  assert (∀ m, m ∈ finished (on_pipeline ls) → authorised (on_broker ls) m) as Hauth.
  { intros m Hm. eapply sent_authorised; [done|]. rewrite <-Harr.
    apply (at_topic_in (MsgTopic m)). rewrite Hcons. apply elem_of_app. left. by apply at_topic_elem. }
  split; try done.
  - intros m Hm. assert (Discarded m ∈ on_pipeline ls) as Hin.
    { unfold on_pipeline. apply list_elem_of_omap. by exists (OnPipeline (Discarded m)). }
    apply (Hdisc m Hin), Htps. refine (proj1 (Hauth m _)). unfold finished.
    apply list_elem_of_omap. by exists (Discarded m).
  - intros t. by rewrite <-Harr.
Qed.

(** What becomes of the messages, seen by worker [i], which is [w] and started
    in state [s0]. *)
Record message_flow `{!StoreSpec St} (i : nat) (w : Worker S E) (s0 : S) (ls : list sys_label) y : Prop := {
  (** nothing is dropped because its topic has no queue *)
  flow_routed m : OnPipeline (Discarded m) ∉ ls;
  (** what was sent is finished or on its way, in order, topic by topic *)
  flow_sent t : at_topic t (sent (on_broker ls)) =
    at_topic t (finished (on_pipeline ls)) ++ pending t (sys_pipeline y);
  (** the store holds what was saved *)
  flow_stored : stored (store (sys_pipeline y)) = stored st ++ (entry <$> saves (on_pipeline ls));
  (** the worker has processed saved messages only, once and in order *)
  flow_processed t : at_topic t (processed i (on_fan ls)) `sublist_of` at_topic t (saves (on_pipeline ls));
  (** and all of them, but for those on their way, until the cancellation *)
  flow_dispatched : stopped (sys_pipeline y) = false → ∀ t,
    at_topic t (saves (on_pipeline ls)) =
    at_topic t (processed i (on_fan ls) ++ owed i (sys_fan y) ++ queued (input (sys_fan y))) ++
    held_at t (sys_pipeline y);
  (** what was saved was sent by a session entitled to send it *)
  flow_saved m : m ∈ saves (on_pipeline ls) → authorised (on_broker ls) m;
  (** and so was what the worker has processed *)
  flow_authorised m : m ∈ processed i (on_fan ls) → authorised (on_broker ls) m;
  (** and its state is made by them alone *)
  flow_state : workers (sys_fan y) !! i = Some (w, process_all w (processed i (on_fan ls)) s0);
}.

Lemma message_path `{!StoreSpec St} acts ls y i w s0 :
  (∀ t, t ∈ allowed r → t ∈ tps) → ws !! i = Some (w, s0) →
  execute sys_step acts start_system = Some (ls, y) → message_flow i w s0 ls y.
Proof.
  intros Htps Hi Hx. pose proof (reachable_in_step acts ls y Hx) as Hin.
  apply projections in Hx as (ab & ap & af & Hb & Hp & Hf). simpl in Hb, Hp, Hf.
  destruct (parts_account ab ap ls y Htps Hb Hp Hin) as [Hrt Hsent Hst Hauth].
  destruct Hin as (_ & _ & Hfwd & _).
  destruct (reachable_persisted ap tps st n _ _ Hp) as (_ & Hsv & _ & Hdrop).
  destruct (reachable_fan_inv af n ws _ _ Hf) as (Hfs & _ & _ & _ & Hall).
  destruct (Hall i w s0 Hi) as [Htk Hw]. clear Hall.
  assert (forwards (on_pipeline ls) = processed i (on_fan ls) ++ owed i (sys_fan y) ++
    queued (input (sys_fan y))) as Hforw by by rewrite <-Hfwd, Hfs, Htk, <-(assoc_L (++)).
  assert (∀ t, at_topic t (processed i (on_fan ls)) `sublist_of`
    at_topic t (saves (on_pipeline ls))) as Hsub.
  { intros t. rewrite Hsv. apply sublist_inserts_r. etrans; [|apply at_topic_sublist, forwards_outcomes].
    rewrite Hforw, at_topic_app. by apply sublist_inserts_r. }
  split; try done.
  - intros Hns t. by rewrite Hsv, (Hdrop Hns), Hforw.
  - intros m Hm. by apply Hauth, saves_finished.
  - intros m Hm. apply Hauth, saves_finished, (at_topic_in (MsgTopic m)).
    eapply sublist_subseteq; [apply Hsub|]. by apply at_topic_elem.
Qed.
End running.
End system.
