(* ===== verification/SystemDrain.v ===== *)
(** * Draining the running broker

    Progress of the three machines of [System] together: while the context is
    not cancelled, the goroutines behind the message channel (the router, the
    consumers of the queues, the fan-out and the goroutines of its workers)
    cannot run for ever without new messages, whatever the scheduler does
    ([working_decreases]), and they can only come to rest when every message
    has been through ([working_enabled], [at_rest]). *)

From S2P Require Export System Drain.

Section drain.
Context {T : Type} `{Authenticator T} (s : Server T).
Context {St S E : Type} `{Store St}.
Implicit Types (p : pipeline St) (f : FanOut S E) (y : system St S E).

(** The steps of the goroutines behind the message channel; a session, whose
    steps may send messages, is not one of them. *)
Definition working (a : sys_action) : Prop :=
  match a with
  | OfPipeline (Route | Consume _) | OfFan (Take | Work _ | WaitDone) => True
  | _ => False
  end.

(** ** How much is left to do *)

(** What the fan-out has left of the message it is processing: its goroutines
    and [wg.Wait()]. *)
Definition fan_weight f : nat :=
  match processing f with Some _ => 1 + length (unfinished f) | None => 0 end.

(** Taking a message from the dispatch channel starts a goroutine for every
    worker. *)
Definition work_left y : nat :=
  (length (workers (sys_fan y)) + 2) * left_to_do (sys_pipeline y) + fan_weight (sys_fan y).

Lemma left_set_input p c : queued c = queued (inputChan p) →
  left_to_do (set_input c p) = left_to_do p.
Proof. unfold left_to_do. simpl. by intros ->. Qed.

Lemma left_set_dispatch p c :
  left_to_do (set_dispatch c p) + length (queued (dispatchChan p)) =
  left_to_do p + length (queued c).
Proof. unfold left_to_do. simpl. lia. Qed.

Lemma working_decreases a y ls y' : agree y → working a → sys_step s a y = Some (ls, y') →
  work_left y' < work_left y.
Proof.
  intros Hy Hw Hs. pose proof (sys_step_cases s a y ls y' Hy Hs) as Hc. destruct Hy as [_ Hd].
  unfold work_left. destruct a as [|a|a|]; [done|..|done].
  - destruct Hc as (lp & p & outs & Hp & _ & _ & ->). simpl. unfold fan_weight. simpl.
    assert (Drain.internal a) as Hi by by destruct a.
    pose proof (pl_step_decreases a _ _ _ Hi Hp). nia.
  - destruct Hc as (lf & f & Hf & _ & _ & ->). simpl. unfold fan_weight.
    pose proof (left_set_dispatch (sys_pipeline y) (input f)) as Hl. rewrite Hd in Hl.
    destruct a; try done; simpl in Hf; unfold take_message, run_worker, wait_done in Hf.
    + destruct (processing (sys_fan y)), (fan_returned (sys_fan y)); try done.
      destruct (recv _) as [[m ch]|] eqn:Hr; simpl in Hf; [|done]. injection Hf as <- <-.
      apply recv_Some in Hr as [Hr _]. simpl in *. rewrite Hr in Hl. simpl in Hl.
      rewrite length_seq. nia.
    + destruct (processing (sys_fan y)) as [msg|]; simpl in Hf; [|done].
      destruct (workers (sys_fan y) !! i) as [[w st]|]; simpl in Hf; [|done].
      destruct (bool_decide_reflect (i ∈ unfinished (sys_fan y))) as [Hin|]; [|done].
      destruct (Process w msg st) as [o st']. injection Hf as <- <-. simpl in *.
      rewrite length_insert.
      assert (length (filter (λ j, j ≠ i) (unfinished (sys_fan y))) < length (unfinished (sys_fan y))).
      { apply length_filter_lt with i; [done|]. naive_solver. }
      nia.
    + destruct (processing (sys_fan y)), (unfinished (sys_fan y)); try done.
      injection Hf as <- <-. simpl in *. nia.
Qed.

Lemma working_bounded acts y ls y' : agree y → Forall working acts →
  execute (sys_step s) acts y = Some (ls, y') →
  agree y' ∧ length acts + work_left y' ≤ work_left y.
Proof.
  revert y ls. induction acts as [|a acts IH]; intros y ls Hy; simpl.
  { intros _ [= _ <-]. split; [done|lia]. }
  intros [Ha Hall]%Forall_cons Hx. apply bind_Some in Hx as ([ls1 y1] & Hs & Hx).
  apply bind_Some in Hx as ([ls2 y2] & Hx & [= _ <-]).
  pose proof (working_decreases a y ls1 y1 Hy Ha Hs).
  destruct (sys_step_in_step s a y ls1 y1 Hy Hs) as [Hy1 _].
  destruct (IH y1 ls2 Hy1 Hall Hx). split; [done|lia].
Qed.

(** ** The goroutines that are running *)

(** [Start] of the fan-out returns when the context is cancelled only. *)
Definition fan_alive y : Prop :=
  (fan_returned (sys_fan y) = true → fan_stopped (sys_fan y) = true) ∧
  (fan_stopped (sys_fan y) = true → stopped (sys_pipeline y) = true).

Lemma pl_stopped a p ls p' : pl_step a p = Some (ls, p') → stopped p = true → stopped p' = true.
Proof. intros [Hs _]%pl_step_dropped Hp. apply Hs. by left. Qed.

Lemma fan_step_flags a f ls f' : fan_step a f = Some (ls, f') → a ≠ CancelFan →
  fan_stopped f' = fan_stopped f ∧
  (fan_returned f' = true → fan_returned f = true ∨ fan_stopped f = true).
Proof.
  destruct a; try done; simpl; unfold take_message, run_worker, wait_done, stop_start;
    intros Hs _.
  - destruct (send _ _); simpl in Hs; [|done]. injection Hs as <- <-. auto.
  - destruct (processing f), (fan_returned f) eqn:?; try done.
    destruct (recv _) as [[]|]; simpl in Hs; [|done]. by injection Hs as <- <-.
  - destruct (processing f); simpl in Hs; [|done].
    destruct (workers f !! i) as [[w st]|]; simpl in Hs; [|done].
    destruct (bool_decide _); [|done]. destruct (Process w m st). injection Hs as <- <-. auto.
  - destruct (processing f), (unfinished f); try done. injection Hs as <- <-. auto.
  - destruct (processing f); [done|]. destruct (fan_stopped f) eqn:?, (fan_returned f); try done.
    injection Hs as <- <-. auto.
Qed.

Lemma sys_step_alive a y ls y' : agree y → fan_alive y → sys_step s a y = Some (ls, y') → fan_alive y'.
Proof.
  intros Hy [Hr Hst] Hs. pose proof (sys_step_cases s a y ls y' Hy Hs) as Hc.
  destruct a as [a|a|a|].
  - by destruct Hc as (? & ? & _ & _ & ->).
  - destruct Hc as (? & p & ? & Hp & _ & _ & ->). split; simpl; [done|].
    intros Hf. eapply pl_stopped; [exact Hp|auto].
  - destruct Hc as (lf & f & Hf & _ & _ & ->).
    assert (a ≠ CancelFan) as Ha by (intros ->; by unfold sys_step in Hs).
    destruct (fan_step_flags a _ _ _ Hf Ha) as [Heq Hret]. split; simpl; rewrite Heq; [|done].
    intros [Hret1|]%Hret; auto.
  - destruct Hc as (b & f & _ & [= <-] & _ & ->). by split.
Qed.

(** ** Progress *)

(** A message that is being processed can be brought nearer to its end. *)
Lemma fan_advances ws ls f msg : fan_inv ws ls f → processing f = Some msg →
  ∃ a lf f', working (OfFan a) ∧ fan_step a f = Some (lf, f').
Proof.
  intros (_ & Hlen & _ & [_ Hun] & _) Hp. destruct (unfinished f) as [|i todo] eqn:Hu.
  - exists WaitDone. simpl. unfold wait_done. rewrite Hp, Hu. eauto.
  - exists (Work i). simpl. unfold run_worker. rewrite Hp, Hu. simpl.
    destruct (lookup_lt_is_Some_2 (workers f) i) as [[w st] ->].
    { rewrite Hlen. apply Hun. by left. }
    simpl. rewrite bool_decide_eq_true_2 by by left. destruct (Process w msg st). eauto.
Qed.

Lemma working_enabled n ws lf y :
  agree y → fan_alive y → alive (Datatypes.S n) (sys_pipeline y) → wf_lanes (sys_pipeline y) →
  fan_inv ws lf (sys_fan y) → work_left y ≠ 0 →
  ∃ a ls y', working a ∧ sys_step s a y = Some (ls, y').
Proof.
  intros Hy [Hret Hst] Hal Hwf Hinv Hw.
  destruct (processing (sys_fan y)) as [msg|] eqn:Hp.
  { destruct (fan_advances ws lf _ msg Hinv Hp) as (a & lf1 & f & Hwk & Hf).
    exists (OfFan a). rewrite (fanout_step s a y lf1 f Hy); [by eauto|by destruct a|done]. }
  unfold work_left, fan_weight in Hw. rewrite Hp in Hw.
  destruct (progress n (sys_pipeline y) Hal Hwf) as (a & Hi & lp & p & Ha & _); [lia|].
  assert (a = Leave ∨ working (OfPipeline a)) as [->|Hwk] by (destruct a; simpl in *; auto).
  - simpl in Ha. destruct (recv _) as [[m ch]|] eqn:Hr in Ha; simpl in Ha; [|done].
    assert (fan_returned (sys_fan y) = false) as Hrun.
    { destruct Hal as [Hs _]. destruct (fan_returned _); [|done]. by rewrite Hst in Hs by auto. }
    destruct Hy as [Hm Hd]. rewrite Hd in Hr.
    assert (∃ lf1 f, fan_step Take (sys_fan y) = Some (lf1, f)) as (lf1 & f & Hf).
    { simpl. unfold take_message. rewrite Hp, Hrun, Hr. simpl. eauto. }
    exists (OfFan Take). rewrite (fanout_step s Take y lf1 f) by done. by eexists _, _.
  - destruct (pipeline_step s a y lp p Hy) as [outs Hs]; [by destruct a|done|].
    exists (OfPipeline a). rewrite Hs. by eexists _, _.
Qed.

(** ** At rest *)

(** Nothing is on its way. *)
Record at_rest y : Prop := {
  rest_pending t : pending t (sys_pipeline y) = [];
  rest_held t : held_at t (sys_pipeline y) = [];
  rest_input : queued (input (sys_fan y)) = [];
  rest_owed i : owed i (sys_fan y) = [];
}.

Lemma held_nothing p t : left_to_do p = 0 → held_at t p = [].
Proof.
  unfold left_to_do, held_at. intros Hz. destruct (queues p !! t) as [l|] eqn:Hq; [|done].
  pose proof (map_sum_delete lane_weight _ _ _ Hq) as Hs. unfold lane_weight at 2 in Hs.
  simpl. destruct (consumer_at l); simpl in *; try done. lia.
Qed.

Lemma no_work_at_rest y : agree y → wf_lanes (sys_pipeline y) → work_left y = 0 → at_rest y.
Proof.
  intros [_ Hd] Hwf Hw. unfold work_left, fan_weight in Hw.
  assert (left_to_do (sys_pipeline y) = 0) as Hz by lia. split.
  - intros t. by apply left_nothing.
  - intros t. by apply held_nothing.
  - rewrite <-Hd. by apply (left_nothing _ ""%string).
  - intros i. unfold owed. destruct (processing _); [lia|done].
Qed.

(** Without sessions nothing is sent. *)
Lemma working_sends acts y ls y' : agree y → Forall working acts →
  execute (sys_step s) acts y = Some (ls, y') →
  sent (on_broker ls) = [] ∧ stopped (sys_pipeline y') = stopped (sys_pipeline y).
Proof.
  intros Hy Hall Hx. revert y ls Hy Hx. induction Hall as [|a acts Ha Hall IH]; intros y ls Hy; simpl.
  { by intros [= <- <-]. }
  intros Hx. apply bind_Some in Hx as ([ls1 y1] & Hs & Hx).
  apply bind_Some in Hx as ([ls2 y2] & Hx & [= <- <-]).
  destruct (sys_step_in_step s a y ls1 y1 Hy Hs) as [Hy1 _].
  destruct (IH y1 ls2 Hy1 Hx) as [IHs ->]. unfold sent, on_broker in *. rewrite !omap_app, IHs, app_nil_r.
  pose proof (sys_step_cases s a y ls1 y1 Hy Hs) as Hc.
  destruct a as [|a|a|]; [done|..|done].
  - destruct Hc as (lp & p & outs & Hp & _ & -> & ->). fold (on_broker (sys_labels (LReceive <$> outs) lp (Sent <$> forwards lp))).
    rewrite on_broker_labels. split; [by apply sent_LReceive|]. simpl.
    destruct (pl_step_dropped a _ _ _ Hp) as [Hst _].
    destruct (stopped p), (stopped (sys_pipeline y)); try done.
    + by destruct (proj1 Hst eq_refl); subst.
    + by rewrite (proj2 Hst) by by left.
  - destruct Hc as (lf & f & _ & _ & -> & ->). fold (on_broker (sys_labels [] (Left <$> taken lf) lf)).
    by rewrite on_broker_labels.
Qed.

(** ** From every state the system can reach *)

Section running.
Variables (max : Z) (r : TopicRegistry) (n : nat) (tps : list string) (st : St)
  (ws : list (Worker S E * S)).

Lemma reachable_fan_alive acts ls y :
  execute (sys_step s) acts (start_system max r n tps st ws) = Some (ls, y) → agree y ∧ fan_alive y.
Proof.
  apply (execute_ind (sys_step s) (λ _ y, agree y ∧ fan_alive y)); [done|].
  intros ls0 y0 a ls1 y1 [Hy Hal] Ha.
  split; [by eapply sys_step_in_step|by eapply sys_step_alive].
Qed.

Lemma rest_or_enabled acts ls y : (0 < n)%nat →
  execute (sys_step s) acts (start_system max r n tps st ws) = Some (ls, y) →
  stopped (sys_pipeline y) = false →
  (∃ a ls' y', working a ∧ sys_step s a y = Some (ls', y')) ∨ at_rest y.
Proof.
  intros Hn Hx Hs. destruct (reachable_fan_alive acts ls y Hx) as [Hy Hfan].
  apply projections in Hx as (ab & ap & af & _ & Hp & Hf). simpl in Hp, Hf.
  destruct n as [|k]; [lia|].
  destruct (reachable_alive ap tps st _ _ _ Hp Hs) as [Hal Hwf].
  apply reachable_fan_inv in Hf.
  destruct (decide (work_left y = 0)) as [Hz|Hz].
  - right. by apply no_work_at_rest.
  - left. by eapply working_enabled.
Qed.
End running.
End drain.
