(* ===== verification/Sql.v ===== *)
(** * Databases

    What the repositories use of [database/sql]: statements that read or
    write tables, any of which can fail, and transactions.  A statement that
    fails changes nothing; a transaction that fails, at its begin, at a
    statement or at its commit, leaves the tables as they were.  Which calls
    fail is decided by an oracle, the list [failures].

    Statements are functions on the tables: the SQL texts are translated where
    they are used. *)

From S2P Require Export Prelude.

Record database (T : Type) := { tables : T; failures : list bool }.
Arguments tables {T} d.
Arguments failures {T} d.

Definition sql (T A : Type) : Type := database T → result unit A * database T.

#[export] Instance sql_ret {T} : MRet (sql T) := λ A a db, (Ok a, db).
#[export] Instance sql_bind {T} : MBind (sql T) := λ A B k m db,
  match m db with
  | (Ok a, db) => k a db
  | (Err e, db) => (Err e, db)
  end.

(** The next call fails if the oracle says so. *)
Definition call {T} : sql T unit := λ db,
  match failures db with
  | [] => (Ok (), db)
  | b :: bs =>
      let db := {| tables := tables db; failures := bs |} in
      if (b : bool) then (Err (), db) else (Ok (), db)
  end.

(** [ExecContext] and [QueryContext] with its [Scan]s. *)
Definition exec {T A} (f : T → A * T) : sql T A := λ db,
  match call db with
  | (Ok _, db) =>
      let '(a, t) := f (tables db) in (Ok a, {| tables := t; failures := failures db |})
  | (Err e, db) => (Err e, db)
  end.

Definition query {T A} (f : T → A) : sql T A := exec (λ t, (f t, t)).
Definition update {T} (f : T → T) : sql T unit := exec (λ t, ((), f t)).

(** A statement the database can refuse. *)
Definition try_exec {T A} (f : T → option (A * T)) : sql T A := λ db,
  match call db with
  | (Ok _, db) =>
      match f (tables db) with
      | Some (a, t) => (Ok a, {| tables := t; failures := failures db |})
      | None => (Err tt, db)
      end
  | (Err e, db) => (Err e, db)
  end.

(** [BeginTx], the body, [Commit], with the deferred [Rollback]. *)
Definition transaction {T A} (body : sql T A) : sql T A := λ db,
  let m : sql T A := call;; a ← body; call;; mret a in
  match m db with
  | (Ok a, db') => (Ok a, db')
  | (Err e, db') => (Err e, {| tables := tables db; failures := failures db' |})
  end.

(** ** What a run does to the tables *)

Section runs.
Context {T : Type}.
Implicit Types (t : T) (db : database T).

Lemma call_tables db r db' : call db = (r, db') → tables db' = tables db.
Proof. unfold call. destruct (failures db) as [|[] bs]; by intros [= _ <-]. Qed.

Lemma exec_Ok {A} (f : T → A * T) db a db' :
  exec f db = (Ok a, db') → f (tables db) = (a, tables db').
Proof.
  unfold exec. destruct (call db) as [[[]|] db1] eqn:Hc; [|done].
  rewrite <-(call_tables _ _ _ Hc). destruct (f (tables db1)) as [b t]. by intros [= -> <-].
Qed.

Lemma try_exec_tables {A} (f : T → option (A * T)) db r db' : try_exec f db = (r, db') →
  match r with Ok a => f (tables db) = Some (a, tables db') | Err _ => tables db' = tables db end.
Proof.
  unfold try_exec. destruct (call db) as [[[]|] db1] eqn:Hc; rewrite <-(call_tables _ _ _ Hc);
    [|by intros [= <- <-]].
  destruct (f (tables db1)) as [[a t]|] eqn:Hf; by intros [= <- <-].
Qed.

Lemma query_tables {A} (f : T → A) db r db' : query f db = (r, db') → tables db' = tables db.
Proof.
  unfold query, exec. destruct (call db) as [[[]|] db1] eqn:Hc;
    rewrite <-(call_tables _ _ _ Hc); by intros [= _ <-].
Qed.

Lemma query_Ok {A} (f : T → A) db a db' : query f db = (Ok a, db') → a = f (tables db).
Proof. intros Hq%exec_Ok. by injection Hq as -> _. Qed.

Lemma update_Ok (f : T → T) db a db' : update f db = (Ok a, db') → tables db' = f (tables db).
Proof. intros Hq%exec_Ok. by injection Hq. Qed.

Lemma exec_Err {A} (f : T → A * T) db e db' : exec f db = (Err e, db') → tables db' = tables db.
Proof.
  unfold exec. destruct (call db) as [[[]|] db1] eqn:Hc; rewrite <-(call_tables _ _ _ Hc);
    [by destruct (f (tables db1))|by intros [= _ <-]].
Qed.

Lemma update_Err (f : T → T) db e db' : update f db = (Err e, db') → tables db' = tables db.
Proof. apply exec_Err. Qed.

Lemma bind_Ok_sql {A B} (m : sql T A) (k : A → sql T B) db b db' :
  mbind (M:=sql T) k m db = (Ok b, db') ↔ ∃ a db1, m db = (Ok a, db1) ∧ k a db1 = (Ok b, db').
Proof.
  unfold mbind, sql_bind. destruct (m db) as [[a|e] db1]; naive_solver.
Qed.

Lemma transaction_Err {A} (body : sql T A) db e db' :
  transaction body db = (Err e, db') → tables db' = tables db.
Proof. unfold transaction. case_match. case_match; [done|]. by intros [= _ <-]. Qed.

Lemma transaction_Ok {A} (body : sql T A) db a db' :
  transaction body db = (Ok a, db') →
  ∃ db1 db2, tables db1 = tables db ∧ body db1 = (Ok a, db2) ∧ tables db' = tables db2.
Proof.
  unfold transaction. match goal with |- match ?m with _ => _ end = _ → _ =>
    destruct m as [[a'|] db0] eqn:Hm; [|done] end.
  intros [= -> ->].
  apply bind_Ok_sql in Hm as ([] & db1 & H1 & Hm).
  apply bind_Ok_sql in Hm as (a1 & db2 & H2 & Hm).
  apply bind_Ok_sql in Hm as ([] & db3 & H3 & Hm). injection Hm as -> ->.
  exists db1, db2. by rewrite (call_tables _ _ _ H1), (call_tables _ _ _ H3).
Qed.
End runs.

(** A query fails only when its call does. *)
Lemma query_result {T A} (f : T → A) (db : database T) :
  (query f db).1 = if decide (head (failures db) = Some true) then Err () else Ok (f (tables db)).
Proof.
  unfold query, exec, call. destruct (failures db) as [|[] bs]; simpl; done.
Qed.
