(* ===== verification/RawStore.v ===== *)
(** * The store of raw messages and its audit

    [internal/platform/database/ingestion]: the repository behind [Store],
    over the table raw_data of migration 001, and the two audit features of
    [internal/modules/audit/raw]: the records of a topic and their number, over
    HTTP.

    - the repository keeps the contract [StoreSpec], whatever statements fail;
    - what it saved can be read back ([GetByTopic] of the repository);
    - the audit shows, of every execution of the pipeline, exactly the saved
      messages of a topic, in order ([audit_shows_saved]).

    The id of a row is its position: rows are only appended.  [Local], the
    zone in which [time.Now] gives its times, is a parameter.  [Api] has the
    routes and the JSON of the responses. *)

From S2P Require Export GoRfc3339 Sql Ingestion.

Local Open Scope Z_scope.

(** ** The table (migrations/001_create_raw_data.sql) *)

Record raw_row := {
  client : string;
  topic : string;
  row_tz : string;              (* column timezone *)
  timestamp : string;
  payload : string;
}.

#[export] Instance raw_row_eq_dec : EqDecision raw_row.
Proof. solve_decision. Defined.

Definition raw_data : Type := list raw_row.

(** ** The repository (ingestion/repository.go) *)

Section repository.
Variable Local : Location.

Definition raw_of (msg : Message) : raw_row := {|
  client := MsgClientID msg; topic := MsgTopic msg; row_tz := Timezone msg;
  timestamp := Format {| ns := Timestamp msg; loc := Local |};
  payload := string_of (MsgPayload msg)
|}.

Definition SaveRawData_db (db : database raw_data) (msg : Message) :
    result unit unit * database raw_data :=
  transaction (update (λ t, t ++ [raw_of msg])) db.

(** The timestamps that cannot be parsed are an error. *)
Fixpoint messages_of (rows : list raw_row) : result unit (list Message) :=
  match rows with
  | [] => Ok []
  | r :: rows =>
      match Parse (timestamp r) with
      | None => Err ()
      | Some t =>
          match messages_of rows with
          | Err e => Err e
          | Ok msgs =>
              Ok ({| MsgClientID := client r; MsgTopic := topic r;
                     MsgPayload := bytes_of (payload r); Timezone := row_tz r;
                     Timestamp := ns t |} :: msgs)
          end
      end
  end.

Definition select_topic (t : string) : sql raw_data (list raw_row) :=
  query (List.filter (λ r, bool_decide (topic r = t))).

Definition GetByTopic (t : string) : sql raw_data (list Message) := λ db,
  match select_topic t db with
  | (Err e, db) => (Err e, db)
  | (Ok rows, db) => (messages_of rows, db)
  end.

#[export] Instance raw_Store : Store (database raw_data) := SaveRawData_db.

#[export, refine] Instance raw_StoreSpec : StoreSpec (database raw_data) :=
  {| entry := raw_of; stored := tables |}.
Proof.
  - intros db msg db'. unfold SaveRawData, raw_Store, SaveRawData_db.
    intros (db1 & db2 & Ht & Hu & ->)%transaction_Ok. apply update_Ok in Hu. by rewrite Hu, Ht.
  - intros db msg e db'. apply transaction_Err.
Defined.
End repository.

(** ** Audit (audit/raw) *)

(** [domain.Record]. *)
Record audit_record := {
  rec_client : string;          (* field ClientID *)
  rec_topic : string;
  rec_timezone : string;
  rec_timestamp : string;
  rec_payload : string;
}.

Definition record_of (r : raw_row) : audit_record := {|
  rec_client := client r; rec_topic := topic r; rec_timezone := row_tz r;
  rec_timestamp := timestamp r; rec_payload := payload r
|}.

(** The repository of get-by-topic, and that of count-by-topic. *)
Definition audit_GetByTopic (t : string) : sql raw_data (list audit_record) :=
  rows ← select_topic t; mret (record_of <$> rows).

Definition CountByTopic (t : string) : sql raw_data Z :=
  query (λ rows, Z.of_nat (length (List.filter (λ r, bool_decide (topic r = t)) rows))).

(** [http.Error], or the value that is encoded as JSON. *)
Inductive http_response (A : Type) :=
  | HttpError (status : Z) (body : string)
  | HttpOK (body : A).
Arguments HttpError {A} status body.
Arguments HttpOK {A} body.

(** The handlers, with their use cases, which only log an error. *)
Definition audit_handler {A} (execute : string → sql raw_data A) (t : string)
    (db : database raw_data) : http_response A * database raw_data :=
  if bool_decide (t = "") then (HttpError 400 "topic is required", db)
  else
    match execute t db with
    | (Err _, db) => (HttpError 500 "internal server error", db)
    | (Ok output, db) => (HttpOK output, db)
    end.

Definition getByTopic : string → database raw_data → _ := audit_handler audit_GetByTopic.
Definition countByTopic : string → database raw_data → _ := audit_handler CountByTopic.

(** ** What a query returns *)

Lemma select_Ok t db rows db' : select_topic t db = (Ok rows, db') →
  rows = List.filter (λ r, bool_decide (topic r = t)) (tables db) ∧ tables db' = tables db.
Proof.
  intros Hs. split; [by apply query_Ok in Hs|]. by eapply query_tables.
Qed.

Lemma filter_raw_of Local t msgs :
  List.filter (λ r, bool_decide (topic r = t)) (raw_of Local <$> msgs) =
  raw_of Local <$> at_topic t msgs.
Proof.
  unfold at_topic. induction msgs as [|m msgs IH]; [done|]. csimpl. rewrite filter_cons. simpl.
  destruct (decide (MsgTopic m = t)) as [Ht|Ht].
  - rewrite bool_decide_true by done. csimpl. by rewrite IH.
  - by rewrite bool_decide_false.
Qed.

Lemma audit_GetByTopic_Ok t db rs db' : audit_GetByTopic t db = (Ok rs, db') →
  rs = record_of <$> List.filter (λ r, bool_decide (topic r = t)) (tables db) ∧
  tables db' = tables db.
Proof.
  intros (rows & db1 & Hs & Hr)%bind_Ok_sql. injection Hr as Hrs ->.
  apply select_Ok in Hs as [-> Ht]. by rewrite <-Hrs.
Qed.

Lemma CountByTopic_Ok t db n db' : CountByTopic t db = (Ok n, db') →
  n = Z.of_nat (length (List.filter (λ r, bool_decide (topic r = t)) (tables db))).
Proof. intros Hq. exact (query_Ok _ _ _ _ Hq). Qed.

(** A clock whose times can be written: see [storable]. *)
Definition clock_storable (Local : Location) (m : Message) : Prop :=
  storable {| ns := Timestamp m; loc := Local |}.

Lemma messages_of_raw Local msgs : Forall (clock_storable Local) msgs →
  messages_of (raw_of Local <$> msgs) = Ok msgs.
Proof.
  induction 1 as [|m msgs Hm _ IH]; [done|]. csimpl.
  rewrite (Parse_Format _ Hm), IH. simpl. rewrite bytes_of_string_of. by destruct m.
Qed.

Lemma select_result t db :
  (select_topic t db).1 = if decide (head (failures db) = Some true) then Err ()
    else Ok (List.filter (λ r, bool_decide (topic r = t)) (tables db)).
Proof. apply query_result. Qed.

Lemma GetByTopic_result t db :
  (GetByTopic t db).1 = if decide (head (failures db) = Some true) then Err ()
    else messages_of (List.filter (λ r, bool_decide (topic r = t)) (tables db)).
Proof.
  unfold GetByTopic. pose proof (select_result t db) as Hq. destruct (select_topic t db) as [[rows|[]] db']; simpl in *; case_decide; congruence.
Qed.

Lemma audit_GetByTopic_result t db :
  (audit_GetByTopic t db).1 = if decide (head (failures db) = Some true) then Err ()
    else Ok (record_of <$> List.filter (λ r, bool_decide (topic r = t)) (tables db)).
Proof.
  unfold audit_GetByTopic, mbind, sql_bind. pose proof (select_result t db) as Hq.
  destruct (select_topic t db) as [[rows|[]] db']; simpl in *; case_decide; congruence.
Qed.

Lemma audit_handler_result {A} (execute : string → sql raw_data A) t db a :
  t ≠ ""%string →
  (execute t db).1 = (if decide (head (failures db) = Some true) then Err () else Ok a) →
  (audit_handler execute t db).1 = if decide (head (failures db) = Some true)
    then HttpError 500 "internal server error" else HttpOK a.
Proof.
  intros Ht Hx. unfold audit_handler. rewrite bool_decide_false by done.
  destruct (execute t db) as [[b|[]] db']; simpl in *; case_decide; congruence.
Qed.

(** Saving messages one after the other; those that were accepted. *)
Fixpoint save_all (Local : Location) (msgs : list Message) (db : database raw_data) :
    list Message * database raw_data :=
  match msgs with
  | [] => ([], db)
  | msg :: msgs =>
      let '(r, db) := SaveRawData_db Local db msg in
      let '(acc, db) := save_all Local msgs db in
      (match r with Ok _ => msg :: acc | Err _ => acc end, db)
  end.

Lemma save_all_tables Local msgs db acc db' : save_all Local msgs db = (acc, db') →
  tables db' = tables db ++ (raw_of Local <$> acc) ∧ acc `sublist_of` msgs.
Proof.
  revert db acc db'. induction msgs as [|msg msgs IH]; intros db acc db'; simpl.
  { intros [= <- <-]. by rewrite app_nil_r. }
  destruct (SaveRawData_db Local db msg) as [r db1] eqn:Hs.
  destruct (save_all Local msgs db1) as [acc1 db2] eqn:Hall. intros [= <- <-].
  apply IH in Hall as [-> Hsub].
  destruct r as [[]|e].
  - assert (tables db1 = tables db ++ [raw_of Local msg]) as Ht
      by exact (@save_Ok _ (raw_Store Local) (raw_StoreSpec Local) _ _ _ Hs).
    rewrite Ht, <-(assoc_L (++)). split; [done|by constructor].
  - assert (tables db1 = tables db) as Ht
      by exact (@save_Err _ (raw_Store Local) (raw_StoreSpec Local) _ _ _ _ Hs).
    rewrite Ht. split; [done|by constructor].
Qed.

Lemma audit_shown Local acts topics (db : database raw_data) n ls p t :
  execute (pl_step (H := raw_Store Local)) acts (NewPipeline topics db n) = Some (ls, p) →
  let before := List.filter (λ r, bool_decide (topic r = t)) (tables db) in
  let shown := before ++ (raw_of Local <$> at_topic t (saves ls)) in
  (getByTopic t (store p)).1 = (if decide (t = ""%string) then HttpError 400 "topic is required"
    else if decide (head (failures (store p)) = Some true) then HttpError 500 "internal server error"
    else HttpOK (record_of <$> shown)) ∧
  (countByTopic t (store p)).1 = (if decide (t = ""%string) then HttpError 400 "topic is required"
    else if decide (head (failures (store p)) = Some true) then HttpError 500 "internal server error"
    else HttpOK (Z.of_nat (length shown))).
Proof.
  intros Hx before shown.
  assert (tables (store p) = tables db ++ (raw_of Local <$> saves ls)) as Ht by exact
    (proj1 (@reachable_persisted _ (raw_Store Local) (raw_StoreSpec Local) _ _ _ _ _ _ Hx)).
  assert (List.filter (λ r, bool_decide (topic r = t)) (tables (store p)) = shown) as Hshown.
  { rewrite Ht, List.filter_app. unfold shown. f_equal. apply filter_raw_of. }
  destruct (decide (t = ""%string)) as [->|Hne]; [done|]. split.
  - apply audit_handler_result; [done|]. by rewrite audit_GetByTopic_result, Hshown.
  - apply audit_handler_result; [done|]. unfold CountByTopic. by rewrite query_result, Hshown.
Qed.

(** ** Properties *)

(** The repository keeps every message that [SaveRawData] accepted and
    nothing of one it refused, whatever statements and commits fail: from an
    empty table, reading a topic back gives the accepted messages of the topic
    in the order they were saved, byte for byte and to the nanosecond, as long
    as the years of the clock have four digits and its zone whole minutes; it
    fails only if the query does. *)
Theorem saved_messages_read_back Local msgs (db db' : database raw_data) acc t :
  tables db = [] → Forall (clock_storable Local) msgs → save_all Local msgs db = (acc, db') →
  acc `sublist_of` msgs ∧
  (GetByTopic t db').1 = if decide (head (failures db') = Some true) then Err ()
    else Ok (at_topic t acc).
Proof.
  intros Hdb Hmsgs Hs. apply save_all_tables in Hs as [Ht Hsub]. split; [done|].
  rewrite GetByTopic_result, Ht, Hdb, (left_id_L [] (++)), filter_raw_of. case_decide; [done|].
  apply messages_of_raw, Forall_forall. intros m Hm%at_topic_in.
  rewrite Forall_forall in Hmsgs. apply Hmsgs. by eapply sublist_subseteq.
Qed.

(** The audit shows the truth: in every execution of the pipeline over the
    repository, the records of a topic are those that were there before and
    then, in order, one for every message of the topic that was saved, and
    their number is counted; the status is 400 without a topic and 500 only
    when the query fails. *)
Theorem audit_shows_saved Local acts topics (db : database raw_data) n ls p t :
  execute (pl_step (H := raw_Store Local)) acts (NewPipeline topics db n) = Some (ls, p) →
  let before := List.filter (λ r, bool_decide (topic r = t)) (tables db) in
  let shown := before ++ (raw_of Local <$> at_topic t (saves ls)) in
  (getByTopic t (store p)).1 = (if decide (t = ""%string) then HttpError 400 "topic is required"
    else if decide (head (failures (store p)) = Some true) then HttpError 500 "internal server error"
    else HttpOK (record_of <$> shown)) ∧
  (countByTopic t (store p)).1 = (if decide (t = ""%string) then HttpError 400 "topic is required"
    else if decide (head (failures (store p)) = Some true) then HttpError 500 "internal server error"
    else HttpOK (Z.of_nat (length shown))).
Proof. apply audit_shown. Qed.

Definition raw_message (topic : string) (payload : list byte) (sec : Z) : Message := {|
  MsgClientID := "cnc"; MsgTopic := topic; MsgPayload := payload; Timezone := "UTC";
  Timestamp := sec * Second
|}.
Definition raw_messages : list Message :=
  [raw_message "a" [x31] 1770000000; raw_message "b" [x32] 1770000001; raw_message "a" [x33] 1770000002].

(** The commit of the second save fails. *)
Definition raw_run : list Message * database raw_data :=
  save_all (fixed (-10800)) raw_messages
    {| tables := []; failures := [false; false; false; false; false; true] |}.

Lemma saved_messages_read_back_witness :
  raw_run.1 = [raw_message "a" [x31] 1770000000; raw_message "a" [x33] 1770000002] ∧
  (GetByTopic "a" raw_run.2).1 = Ok raw_run.1.
Proof.
  split; [vm_compute; reflexivity|].
  pose proof (saved_messages_read_back (fixed (-10800)) raw_messages
    {| tables := []; failures := [false; false; false; false; false; true] |} raw_run.2 raw_run.1 "a"
    eq_refl) as Hread.
  destruct Hread as [_ Hread].
  - repeat apply Forall_cons_2; try apply Forall_nil_2;
      (split; [split; vm_compute; discriminate|split; [vm_compute; reflexivity|split; vm_compute; reflexivity]]).
  - vm_compute. reflexivity.
  - rewrite Hread. vm_compute. reflexivity.
Defined.

Definition raw_actions : list pl_action :=
  [Arrive (raw_message "a" [x31] 1770000000); Route; Route; Consume "a"; Consume "a"].
Definition raw_pl : option (list fate * pipeline (database raw_data)) :=
  execute (pl_step (H := raw_Store UTC)) raw_actions
    (NewPipeline ["a"%string] {| tables := []; failures := [] |} 2).

Lemma audit_shows_saved_witness :
  ∃ ls p, raw_pl = Some (ls, p) ∧
    (getByTopic "a" (store p)).1 = HttpOK [{| rec_client := "cnc"; rec_topic := "a";
      rec_timezone := "UTC"; rec_timestamp := "2026-02-02T02:40:00Z"; rec_payload := "1" |}].
Proof.
  destruct raw_pl as [[ls p]|] eqn:Hpl; [|vm_compute in Hpl; discriminate].
  exists ls, p. split; [reflexivity|].
  destruct (audit_shows_saved UTC raw_actions ["a"%string] {| tables := []; failures := [] |} 2 ls p "a" Hpl)
    as [Hget _].
  rewrite Hget. vm_compute in Hpl. injection Hpl as <- <-. vm_compute. reflexivity.
Defined.
