(* ===== verification/Migrator.v ===== *)
(** * Schema migrations

    [platform/database/migrator.go]: the migrator runs the embedded [.sql]
    files that the table [schema_migrations] does not list yet, in the order
    of their names, each in a transaction of its own that also records it; and
    [InitDatabase] of [cmd/broker/bootstrap/database.go], which makes the
    directory of the database, connects to it ([platform/database/sqlite.go])
    and runs it.

    - [Run_atomic]: whatever calls fail, a prefix of the pending migrations is
      applied, whole and recorded, and nothing else;
    - [Run_converges]: after any number of runs that stop anywhere, a run that
      succeeds leaves the tables one uninterrupted run would have left.

    What a statement does to the schema, and whether SQLite accepts it, is the
    parameter [exec_sql]; it is never given the table [schema_migrations],
    which no migration of the program mentions.  The embedded directory is a
    list of entries; reading it or a file of it can fail. *)

From stdpp Require Import sorting.
From S2P Require Export Sql GoStrings GoRfc3339 GoFilepath.

Local Open Scope Z_scope.

Record mig_tables (Sch : Type) := {
  schema_migrations : option (list string);   (* [None] before it is created *)
  schema : Sch;
}.
Arguments schema_migrations {Sch} m.
Arguments schema {Sch} m.

Record dir_entry := {
  entry_name : string;                  (* entry.Name() *)
  is_dir : bool;                        (* entry.IsDir() *)
  file_content : option string;         (* [None] when ReadFile fails *)
}.

(** The order of [entries[i].Name() < entries[j].Name()]. *)
Definition name_le (a b : dir_entry) : Prop :=
  text_lt (bytes_of (entry_name b)) (bytes_of (entry_name a)) = false.
#[export] Instance name_le_dec a b : Decision (name_le a b).
Proof. unfold name_le. apply _. Defined.

Lemma text_le_trans a b c : text_lt b a = false → text_lt c b = false → text_lt c a = false.
Proof.
  revert b c. induction a as [|x a IH]; intros [|y b] [|z c]; simpl; try done.
  intros [Hba Hba']%orb_false_iff [Hcb Hcb']%orb_false_iff. apply orb_false_iff.
  apply Z.ltb_ge in Hba, Hcb. split; [apply Z.ltb_ge; lia|].
  destruct (Z.eqb_spec (uint8 z) (uint8 x)) as [Hzx|]; [|done]. simpl.
  rewrite (proj2 (Z.eqb_eq (uint8 y) (uint8 x))) in Hba' by lia.
  rewrite (proj2 (Z.eqb_eq (uint8 z) (uint8 y))) in Hcb' by lia. by apply (IH b).
Qed.

#[export] Instance name_le_trans : Transitive name_le.
Proof. intros a b c. apply text_le_trans. Qed.
#[export] Instance name_le_total : Total name_le.
Proof.
  intros a b. unfold name_le. destruct (text_lt (bytes_of (entry_name b)) _) eqn:Hlt; [|by left].
  right. by apply text_lt_asym.
Qed.

Section migrator.
Context {Sch : Type} (exec_sql : string → Sch → option Sch).
Implicit Types (t : mig_tables Sch) (db : database (mig_tables Sch)).

(** A statement of a migration. *)
Definition exec_stmt (stmt : string) : sql (mig_tables Sch) unit :=
  try_exec (λ t, sch ← exec_sql stmt (schema t);
    Some (tt, {| schema_migrations := schema_migrations t; schema := sch |})).

Definition ensureTrackingTable : sql (mig_tables Sch) unit :=
  update (λ t, {| schema_migrations := Some (default [] (schema_migrations t)); schema := schema t |}).

Definition getApplied : sql (mig_tables Sch) (list string) :=
  try_exec (λ t, names ← schema_migrations t; Some (names, t)).

(** The name is the primary key. *)
Definition record_migration (name : string) : sql (mig_tables Sch) unit :=
  try_exec (λ t, names ← schema_migrations t;
    if decide (name ∈ names) then None
    else Some (tt, {| schema_migrations := Some (names ++ [name]); schema := schema t |})).

Definition splitStatements (content : string) : list string := Split content Byte.x3b.

Fixpoint exec_statements (stmts : list string) : sql (mig_tables Sch) unit :=
  match stmts with
  | [] => mret tt
  | stmt :: stmts =>
      let stmt := TrimSpace stmt in
      if decide (stmt = ""%string) then exec_statements stmts
      else exec_stmt stmt;; exec_statements stmts
  end.

Definition applyMigration (name content : string) : sql (mig_tables Sch) unit :=
  transaction (exec_statements (splitStatements content);; record_migration name).

Fixpoint run_entries (applied : list string) (entries : list dir_entry) : sql (mig_tables Sch) unit :=
  match entries with
  | [] => mret tt
  | entry :: entries =>
      if is_dir entry then run_entries applied entries
      else
        let name := entry_name entry in
        if negb (HasSuffix name ".sql") then run_entries applied entries
        else if decide (name ∈ applied) then run_entries applied entries
        else
          match file_content entry with
          | None => λ db, (Err tt, db)
          | Some content => applyMigration name content;; run_entries applied entries
          end
  end.

(** [dir] is what [ReadDir] returns; [None] when it fails. *)
Definition Run (dir : option (list dir_entry)) : sql (mig_tables Sch) unit :=
  ensureTrackingTable;;
  applied ← getApplied;
  match dir with
  | None => λ db, (Err tt, db)
  | Some entries => run_entries applied (merge_sort name_le entries)
  end.

(** ** The connection (sqlite.go) and [InitDatabase] (database.go) *)

Section connection.
(** [sql.Open] of the driver, [db.Ping] and [os.MkdirAll]. *)
Variable sql_Open : string → option (database (mig_tables Sch)).
Variable Ping : database (mig_tables Sch) → bool.
Variable MkdirAll : string → bool.

Inductive connection :=
  | NotOpen                                        (* opening sqlite at ... *)
  | NotPinged (db : database (mig_tables Sch))     (* pinging sqlite; db.Close() *)
  | Connected (db : database (mig_tables Sch)).

Definition dsn_options : string := "?_journal_mode=WAL&_busy_timeout=5000&_synchronous=NORMAL".

(** A single connection is kept open, so that the database is one state. *)
Definition NewSQLiteConnection (dbPath : string) : connection :=
  let dsn := if bool_decide (dbPath ≠ ":memory:"%string) then (dbPath ++ dsn_options)%string else dbPath in
  match sql_Open dsn with
  | None => NotOpen
  | Some db => if Ping db then Connected db else NotPinged db
  end.

Inductive init_result :=
  | NotOpened
  | ClosedAgain (db : database (mig_tables Sch))   (* db.Close() *)
  | DatabaseReady (db : database (mig_tables Sch)).

(** [dir] holds the embedded migrations. *)
Definition InitDatabase (dbPath : string) (dir : option (list dir_entry)) : init_result :=
  let dbDir := Dir dbPath in
  if MkdirAll dbDir then
    match NewSQLiteConnection dbPath with
    | NotOpen => NotOpened
    | NotPinged db => ClosedAgain db
    | Connected db =>
        match Run dir db with
        | (Err _, db) => ClosedAgain db
        | (Ok _, db) => DatabaseReady db
        end
    end
  else NotOpened.
End connection.

(** ** What a migration does, as a whole *)

Fixpoint run_statements (stmts : list string) (sch : Sch) : option Sch :=
  match stmts with
  | [] => Some sch
  | stmt :: stmts =>
      let stmt := TrimSpace stmt in
      if decide (stmt = ""%string) then run_statements stmts sch
      else sch ← exec_sql stmt sch; run_statements stmts sch
  end.

(** The schema after the migrations [es]; [None] when one of them cannot be
    read or is not accepted. *)
Fixpoint migrate (es : list dir_entry) (sch : Sch) : option Sch :=
  match es with
  | [] => Some sch
  | e :: es =>
      content ← file_content e;
      sch ← run_statements (splitStatements content) sch;
      migrate es sch
  end.

Definition is_migration (e : dir_entry) : bool := negb (is_dir e) && HasSuffix (entry_name e) ".sql".

Definition applied_names t : list string := default [] (schema_migrations t).

(** The migrations to apply, in order. *)
Definition pending_migrations t (entries : list dir_entry) : list dir_entry :=
  filter (λ e, is_migration e = true ∧ entry_name e ∉ applied_names t) (merge_sort name_le entries).

(** [t'] is [t] with the migrations [es] applied and recorded. *)
Definition migrated t (es : list dir_entry) t' : Prop :=
  migrate es (schema t) = Some (schema t') ∧
  applied_names t' = applied_names t ++ (entry_name <$> es).

(** ** Lemmas *)

Lemma exec_statements_Ok stmts : ∀ db db', exec_statements stmts db = (Ok tt, db') →
  run_statements stmts (schema (tables db)) = Some (schema (tables db')) ∧
  schema_migrations (tables db') = schema_migrations (tables db).
Proof.
  induction stmts as [|stmt stmts IH]; intros db db'; simpl; [by intros [= <-]|].
  destruct (decide _); [apply IH|]. intros ([] & db1 & H1 & H2)%bind_Ok_sql.
  apply (try_exec_tables _ _ _ _) in H1. apply bind_Some in H1 as (sch & Hsch & [= H1]).
  apply IH in H2 as [H2 H3]. rewrite <-H1 in H2, H3. simpl in H2, H3. by rewrite Hsch.
Qed.

Lemma applyMigration_spec name content db r db' : applyMigration name content db = (r, db') →
  match r with
  | Ok _ =>
      run_statements (splitStatements content) (schema (tables db)) = Some (schema (tables db')) ∧
      ∃ names, schema_migrations (tables db) = Some names ∧
        schema_migrations (tables db') = Some (names ++ [name])
  | Err _ => tables db' = tables db
  end.
Proof.
  destruct r as [[]|e]; [|apply transaction_Err].
  intros (db1 & db2 & H1 & Hb & H2)%transaction_Ok. rewrite <-H1, H2. clear H1 H2.
  apply bind_Ok_sql in Hb as ([] & db3 & [H1 H2]%exec_statements_Ok & Hr).
  apply (try_exec_tables _ _ _ _), bind_Some in Hr as (names & Hn & Hr).
  destruct (decide _); [done|]. injection Hr as Hr. rewrite <-Hr. simpl.
  split; [done|]. exists names. by rewrite <-H2.
Qed.

Lemma migrate_app es es' sch : migrate (es ++ es') sch = sch ← migrate es sch; migrate es' sch.
Proof.
  revert sch. induction es as [|e es IH]; intros sch; simpl; [done|].
  destruct (file_content e); simpl; [|done]. destruct (run_statements _ _); simpl; [apply IH|done].
Qed.

Lemma migrated_nil t : migrated t [] t.
Proof. split; [done|]. simpl. by rewrite app_nil_r. Qed.

Lemma migrated_trans t1 t2 t3 es es' :
  migrated t1 es t2 → migrated t2 es' t3 → migrated t1 (es ++ es') t3.
Proof.
  intros [H1 H2] [H3 H4]. split.
  - rewrite migrate_app, H1. done.
  - by rewrite H4, H2, fmap_app, (assoc_L (++)).
Qed.

Lemma run_entries_spec applied es : ∀ db r db',
  is_Some (schema_migrations (tables db)) → run_entries applied es db = (r, db') →
  ∃ past rest, filter (λ e, is_migration e = true ∧ entry_name e ∉ applied) es = past ++ rest ∧
    migrated (tables db) past (tables db') ∧ (r = Ok tt → rest = []).
Proof.
  induction es as [|e es IH]; intros db r db' Htr; simpl.
  { intros [= _ <-]. exists [], []. by split_and!; [|apply migrated_nil|]. }
  assert (Hskip : ¬ (is_migration e = true ∧ entry_name e ∉ applied) →
    run_entries applied es db = (r, db') → ∃ past rest,
      filter (λ e, is_migration e = true ∧ entry_name e ∉ applied) (e :: es) = past ++ rest ∧
      migrated (tables db) past (tables db') ∧ (r = Ok tt → rest = [])).
  { intros Hno. rewrite filter_cons_False by done. by apply IH. }
  unfold is_migration at 1 in Hskip. destruct (is_dir e) eqn:Hdir; simpl in Hskip; [apply Hskip; naive_solver|].
  destruct (HasSuffix _ _) eqn:Hsuf; simpl; [|apply Hskip; naive_solver].
  destruct (decide _) as [Hin|Hnin]; [apply Hskip; naive_solver|]. clear Hskip.
  rewrite filter_cons_True by (unfold is_migration; by rewrite Hdir, Hsuf).
  destruct (file_content e) as [content|] eqn:Hc.
  2:{ intros [= <- <-]. exists [], (e :: filter (λ e, is_migration e = true ∧ entry_name e ∉ applied) es).
      by split_and!; [|apply migrated_nil|]. }
  unfold mbind, sql_bind. destruct (applyMigration _ _ db) as [[[]|err] db1] eqn:Hm.
  - apply applyMigration_spec in Hm as (Hrun & names & Hn & Hn'). intros Hes.
    destruct (IH db1 r db') as (past & rest & Hf & Hmig & Hr); [by rewrite Hn'|done|].
    exists (e :: past), rest. split_and!; [by rewrite Hf| |done].
    apply (migrated_trans _ (tables db1) _ [e] past); [|done]. split; simpl.
    + by rewrite Hc; simpl; rewrite Hrun.
    + unfold applied_names. by rewrite Hn, Hn'.
  - apply applyMigration_spec in Hm as Ht. intros [= <- <-].
    exists [], (e :: filter (λ e, is_migration e = true ∧ entry_name e ∉ applied) es).
    split_and!; [done| |done]. rewrite Ht. apply migrated_nil.
Qed.

(** The run up to the loop: either it has failed and changed nothing, or the
    table of the names exists and they are known. *)
Lemma Run_start entries db r db' : Run (Some entries) db = (r, db') →
  (applied_names (tables db') = applied_names (tables db) ∧
   schema (tables db') = schema (tables db) ∧ r ≠ Ok tt) ∨
  ∃ db1, schema_migrations (tables db1) = Some (applied_names (tables db)) ∧
    schema (tables db1) = schema (tables db) ∧
    run_entries (applied_names (tables db)) (merge_sort name_le entries) db1 = (r, db').
Proof.
  unfold Run. unfold mbind, sql_bind. destruct (ensureTrackingTable db) as [[[]|e] db1] eqn:H1.
  - apply update_Ok in H1. destruct (getApplied db1) as [[names|e] db2] eqn:H2;
      apply (try_exec_tables _ _ _ _) in H2; rewrite H1 in H2; simpl in H2.
    + injection H2 as <- H2. intros Hr. right. exists db2. by rewrite <-H2.
    + intros [= <- <-]. left. unfold applied_names. by rewrite H2.
  - intros [= <- <-]. left. by rewrite (update_Err _ _ _ _ H1).
Qed.

Lemma Run_prefix entries db r db' : Run (Some entries) db = (r, db') →
  ∃ past rest, pending_migrations (tables db) entries = past ++ rest ∧
    migrated (tables db) past (tables db') ∧ (r = Ok tt → rest = []).
Proof.
  intros [(Hn & Hs & Hr)|(db1 & Hn & Hs & Hr)]%Run_start.
  - exists [], (pending_migrations (tables db) entries). split_and!; [done| |done].
    split; simpl; [by rewrite Hs|by rewrite Hn, app_nil_r].
  - apply run_entries_spec in Hr as (past & rest & Hf & [Hm1 Hm2] & Hr); [|by rewrite Hn].
    exists past, rest. split_and!; [done| |done]. unfold applied_names in Hm2 at 2.
    rewrite Hs in Hm1. rewrite Hn in Hm2. done.
Qed.

Lemma pending_names_NoDup t entries :
  NoDup (entry_name <$> entries) → NoDup (entry_name <$> pending_migrations t entries).
Proof.
  intros Hd. unfold pending_migrations.
  eapply sublist_NoDup; [|apply fmap_sublist, sublist_filter].
  by rewrite merge_sort_Permutation.
Qed.

Lemma Run_no_dir db r db' : Run None db = (r, db') → r ≠ Ok tt.
Proof.
  unfold Run, mbind, sql_bind. destruct (ensureTrackingTable db) as [[[]|] db1]; [|by intros [= <-]].
  destruct (getApplied db1) as [[names|] db2]; by intros [= <-].
Qed.

(** What is left to apply once a prefix has been applied. *)
Lemma pending_after t t' entries past rest : NoDup (entry_name <$> entries) →
  pending_migrations t entries = past ++ rest → migrated t past t' →
  pending_migrations t' entries = rest.
Proof.
  intros Hd Hp [_ Hn]. pose proof (pending_names_NoDup t entries Hd) as Hd'.
  assert (pending_migrations t' entries =
    filter (λ e, entry_name e ∉ entry_name <$> past) (pending_migrations t entries)) as ->.
  { unfold pending_migrations. rewrite list_filter_filter, Hn. apply list_filter_iff.
    intros e. rewrite not_elem_of_app. naive_solver. }
  rewrite Hp in Hd' |- *. rewrite fmap_app in Hd'. apply NoDup_app in Hd' as (_ & Hdis & _).
  rewrite filter_app, filter_none, filter_all; [done| |].
  - apply Forall_forall. intros e He Hin. eapply Hdis; [done|]. by apply list_elem_of_fmap_2.
  - apply Forall_forall. intros e He Hin. apply Hin. by apply list_elem_of_fmap_2.
Qed.

(** Successive runs, each with its own failures, from the tables [t]. *)
Fixpoint restarts (entries : list dir_entry) (oracles : list (list bool)) t : mig_tables Sch :=
  match oracles with
  | [] => t
  | bs :: oracles =>
      restarts entries oracles (tables (Run (Some entries) {| tables := t; failures := bs |}).2)
  end.

Lemma restarts_prefix entries oracles t : NoDup (entry_name <$> entries) →
  ∃ past rest, pending_migrations t entries = past ++ rest ∧
    migrated t past (restarts entries oracles t).
Proof.
  intros Hd. revert t. induction oracles as [|bs oracles IH]; intros t; simpl.
  { exists [], (pending_migrations t entries). by split; [|apply migrated_nil]. }
  destruct (Run (Some entries) {| tables := t; failures := bs |}) as [r db1] eqn:Hr.
  apply Run_prefix in Hr as (past & rest & Hp & Hm & _). simpl in Hp, Hm |- *.
  destruct (IH (tables db1)) as (past' & rest' & Hp' & Hm').
  rewrite (pending_after t (tables db1) entries past rest) in Hp' by done.
  exists (past ++ past'), rest'. rewrite Hp, Hp', (assoc_L (++)). split; [done|].
  by eapply migrated_trans.
Qed.

(** *** Without failures *)

Lemma try_exec_nofail {A} (f : mig_tables Sch → option (A * mig_tables Sch)) t a t' :
  f t = Some (a, t') →
  try_exec f {| tables := t; failures := [] |} = (Ok a, {| tables := t'; failures := [] |}).
Proof. intros Hf. unfold try_exec. simpl. by rewrite Hf. Qed.

Lemma exec_statements_nofail stmts names : ∀ sch sch', run_statements stmts sch = Some sch' →
  exec_statements stmts {| tables := {| schema_migrations := names; schema := sch |}; failures := [] |} =
  (Ok tt, {| tables := {| schema_migrations := names; schema := sch' |}; failures := [] |}).
Proof.
  induction stmts as [|stmt stmts IH]; intros sch sch'; simpl; [by intros [= ->]|].
  destruct (decide _); [apply IH|]. intros (sch1 & H1 & H2)%bind_Some.
  unfold mbind, sql_bind, exec_stmt.
  erewrite try_exec_nofail; [|simpl; by rewrite H1]. by apply IH.
Qed.

Lemma applyMigration_nofail name content names sch sch' :
  run_statements (splitStatements content) sch = Some sch' → name ∉ names →
  applyMigration name content
    {| tables := {| schema_migrations := Some names; schema := sch |}; failures := [] |} =
  (Ok tt, {| tables := {| schema_migrations := Some (names ++ [name]); schema := sch' |}; failures := [] |}).
Proof.
  intros Hrun Hn. unfold applyMigration, transaction, mbind, sql_bind. unfold call at 1. simpl.
  rewrite (exec_statements_nofail _ _ _ _ Hrun). unfold record_migration.
  erewrite try_exec_nofail; [done|]. simpl. by rewrite decide_False.
Qed.

Lemma run_entries_nofail applied es : ∀ names sch sch',
  NoDup (entry_name <$> es) → (∀ e, e ∈ es → entry_name e ∈ names → entry_name e ∈ applied) →
  migrate (filter (λ e, is_migration e = true ∧ entry_name e ∉ applied) es) sch = Some sch' →
  (run_entries applied es
    {| tables := {| schema_migrations := Some names; schema := sch |}; failures := [] |}).1 = Ok tt.
Proof.
  induction es as [|e es IH]; intros names sch sch' Hd Hin; simpl; [done|].
  apply NoDup_cons in Hd as [Hnin Hd].
  assert (Hin' : ∀ e, e ∈ es → entry_name e ∈ names → entry_name e ∈ applied).
  { intros e' He'. apply Hin. by right. }
  destruct (decide (is_migration e = true ∧ entry_name e ∉ applied)) as [[Hmig Ha]|Hno].
  - rewrite filter_cons_True by done. unfold is_migration in Hmig.
    destruct (is_dir e); [done|]. destruct (HasSuffix _ _); [|done]. simpl. rewrite decide_False by done.
    destruct (file_content e) as [content|]; simpl; [|done].
    intros (sch1 & H1 & H2)%bind_Some. unfold mbind, sql_bind.
    rewrite (applyMigration_nofail _ _ _ _ _ H1).
    2:{ intros Hn. apply Ha, Hin; [by left|done]. }
    eapply IH; [done| |done]. intros e' He' [He''|He'']%elem_of_app; [by apply Hin'|].
    apply list_elem_of_singleton in He''. destruct Hnin. rewrite <-He''. by apply list_elem_of_fmap_2.
  - rewrite filter_cons_False by done. intros Hm. unfold is_migration in Hno.
    destruct (is_dir e); [by eapply IH|]. destruct (HasSuffix _ _); [|by eapply IH].
    simpl. rewrite decide_True by (apply dec_stable; naive_solver). by eapply IH.
Qed.

Lemma Run_nofail entries t sch' : NoDup (entry_name <$> entries) →
  migrate (pending_migrations t entries) (schema t) = Some sch' →
  (Run (Some entries) {| tables := t; failures := [] |}).1 = Ok tt.
Proof.
  intros Hd Hm. unfold Run, mbind, sql_bind, ensureTrackingTable, update, exec. simpl.
  eapply run_entries_nofail; [|done|exact Hm]. by rewrite merge_sort_Permutation.
Qed.

(** *** Order *)

Lemma entries_filter_sorted (P : dir_entry → Prop) `{∀ e, Decision (P e)} es :
  StronglySorted name_le es → StronglySorted name_le (filter P es).
Proof.
  induction 1 as [|e es _ IH He]; [constructor|]. rewrite filter_cons.
  destruct (decide (P e)); [|done]. constructor; [done|].
  rewrite Forall_forall in He |- *. intros e' He'. by apply He, (list_elem_of_filter P).
Qed.

Lemma pending_sorted t entries : StronglySorted name_le (pending_migrations t entries).
Proof. apply entries_filter_sorted, (StronglySorted_merge_sort name_le). Qed.

(** *** Properties *)

(** C25: The migrator is atomic: whatever calls fail and whatever statements are
    refused, [Run] applies some of the pending migrations, in the order of
    their names and without skipping one, each as a whole, and records exactly
    those; when it succeeds it has applied all of them; and when nothing fails
    and every statement is accepted it succeeds. *)
Theorem Run_atomic entries db r db' :
  NoDup (entry_name <$> entries) → Run (Some entries) db = (r, db') →
  StronglySorted name_le (pending_migrations (tables db) entries) ∧
  (∃ past rest, pending_migrations (tables db) entries = past ++ rest ∧
    migrated (tables db) past (tables db') ∧
    pending_migrations (tables db') entries = rest ∧ (r = Ok tt → rest = [])) ∧
  (failures db = [] →
    is_Some (migrate (pending_migrations (tables db) entries) (schema (tables db))) → r = Ok tt).
Proof.
  intros Hd Hr. split; [apply pending_sorted|]. split.
  - apply Run_prefix in Hr as (past & rest & Hp & Hm & Hrest). exists past, rest. split_and!; try done.
    by eapply pending_after.
  - destruct db as [t bs]. simpl. intros -> [sch' Hm].
    pose proof (Run_nofail _ _ _ Hd Hm) as Hok. by rewrite Hr in Hok.
Qed.

(** C24: The migrator converges: after any number of runs that stopped
    anywhere, a run that succeeds leaves the schema and the table of the names
    that one uninterrupted run would have left, and nothing pending. *)
Theorem Run_converges entries oracles bs t db' :
  NoDup (entry_name <$> entries) →
  Run (Some entries) {| tables := restarts entries oracles t; failures := bs |} = (Ok tt, db') →
  migrated t (pending_migrations t entries) (tables db') ∧
  pending_migrations (tables db') entries = [].
Proof.
  intros Hd Hr. destruct (restarts_prefix entries oracles t Hd) as (past & rest & Hp & Hm).
  apply Run_prefix in Hr as (past' & rest' & Hp' & Hm' & Hrest). rewrite (Hrest eq_refl), app_nil_r in Hp'.
  simpl in Hp', Hm'. rewrite (pending_after t _ entries past rest Hd Hp Hm) in Hp'. subst past'.
  assert (Hall : migrated t (pending_migrations t entries) (tables db')).
  { rewrite Hp. by eapply migrated_trans. }
  split; [done|]. apply (pending_after t _ entries (pending_migrations t entries) []); [done|by rewrite app_nil_r|done].
Qed.
End migrator.

(** ** The migrations of the program *)

(** Schemas are sets of object names here: [CREATE TABLE IF NOT EXISTS x] and
    [CREATE INDEX IF NOT EXISTS x] add [x], other statements are refused. *)
Definition word (n : nat) (s : string) : string :=
  default ""%string (List.filter (λ w, negb (String.eqb w "")) (Split s Byte.x20) !! n).

Definition create_object (stmt : string) (sch : list string) : option (list string) :=
  if String.eqb (word 0 stmt) "CREATE" && String.eqb (word 2 stmt) "IF"
  then Some (if decide (word 5 stmt ∈ sch) then sch else sch ++ [word 5 stmt])
  else None.

Definition sql_file (name content : string) : dir_entry :=
  {| entry_name := name; is_dir := false; file_content := Some content |}.

Definition sample_dir : list dir_entry := [
  sql_file "002_oee.sql" "CREATE TABLE IF NOT EXISTS shifts (id INTEGER); CREATE TABLE IF NOT EXISTS state_intervals (id INTEGER)";
  sql_file "README.md" "not a migration";
  sql_file "001_raw.sql" "CREATE TABLE IF NOT EXISTS raw_data (id INTEGER);
CREATE INDEX IF NOT EXISTS idx_topic ON raw_data(topic);
"].

Definition fresh_tables : mig_tables (list string) := {| schema_migrations := None; schema := [] |}.

Lemma sample_dir_names : NoDup (entry_name <$> sample_dir).
Proof. apply (bool_decide_unpack _). vm_compute. exact I. Qed.

(** The second statement of the second migration fails. *)
Definition interrupted : result unit unit * database (mig_tables (list string)) :=
  Run create_object (Some sample_dir)
    {| tables := fresh_tables;
       failures := replicate 9 false ++ [true] |}.

Lemma Run_atomic_witness :
  interrupted.1 = Err tt ∧
  tables interrupted.2 =
    {| schema_migrations := Some ["001_raw.sql"]; schema := ["raw_data"; "idx_topic"] |} ∧
  StronglySorted name_le (pending_migrations fresh_tables sample_dir).
Proof.
  split_and!; [by vm_compute..|].
  exact (proj1 (Run_atomic create_object sample_dir {| tables := fresh_tables;
    failures := replicate 9 false ++ [true] |} interrupted.1 interrupted.2 sample_dir_names eq_refl)).
Defined.

Definition resumed : database (mig_tables (list string)) := {|
  tables := {| schema_migrations := Some ["001_raw.sql"; "002_oee.sql"];
               schema := ["raw_data"; "idx_topic"; "shifts"; "state_intervals"] |};
  failures := [] |}.

Lemma Run_converges_witness :
  migrated create_object fresh_tables (pending_migrations fresh_tables sample_dir) (tables resumed) ∧
  (entry_name <$> pending_migrations fresh_tables sample_dir) = ["001_raw.sql"; "002_oee.sql"].
Proof.
  split; [|by vm_compute].
  refine (proj1 (Run_converges create_object sample_dir [replicate 9 false ++ [true]; [true]] []
    fresh_tables resumed sample_dir_names _)). by vm_compute.
Defined.
