(* ===== verification/Shift.v ===== *)
(** * Machine states and shifts ([internal/modules/oee/domain])

    A shift repeats on the days of a week between two times of day, less its
    breaks; [PlannedProductionTime] is how much of a window it plans for
    production.  The time zone database is a parameter. *)

From S2P Require Export GoTime.

Local Open Scope Z_scope.

(** ** Machine states *)

(** A string type: a state read from a payload or a row can be any string. *)
Definition MachineState : Type := string.

Definition Running : MachineState := "running".
Definition Stopped : MachineState := "stopped".
Definition Setup : MachineState := "setup".
Definition Idle : MachineState := "idle".
Definition Maintenance : MachineState := "maintenance".
Definition Off : MachineState := "off".

Definition IsDowntime (s : MachineState) : bool :=
  bool_decide (s = Stopped) || bool_decide (s = Setup) || bool_decide (s = Maintenance).

Definition IsPlannedStop (s : MachineState) : bool :=
  bool_decide (s = Setup) || bool_decide (s = Maintenance).

Definition Valid (s : MachineState) : bool :=
  bool_decide (s ∈ [Running; Stopped; Setup; Idle; Maintenance; Off]).

(** ** Shifts *)

(** The half-open interval [From, To). *)
Record Window := { From : Time; To : Time }.

Record Break := { BreakStartMin : Z; BreakEndMin : Z; BreakType : string }.

Record Shift := {
  ID : string;
  Name : string;
  ShiftMachineID : string;      (* field MachineID *)
  StartMin : Z;
  EndMin : Z;
  Weekdays : list Z;
  Breaks : list Break;
  TZ : string;
}.

(** [time.Duration(m) * time.Minute]. *)
Definition minutes (m : Z) : Z := wrap64 (m * Minute).

Definition maxTime (a b : Time) : Time := if After a b then a else b.
Definition minTime (a b : Time) : Time := if Before a b then a else b.

Definition overlap (aStart aEnd bStart bEnd : Time) : Z :=
  let start := maxTime aStart bStart in
  let stop := minTime aEnd bEnd in
  if After stop start then Sub stop start else 0.

Definition startOfDay (t : Time) : Time := midnight t.

Definition weekdaySet (s : Shift) : gset Z := list_to_set (Weekdays s).

Definition plannedTimeOnDay (s : Shift) (day : Time) (w : Window) : Z :=
  let shiftStart := Plus day (minutes (StartMin s)) in
  let shiftEnd := Plus day (minutes (EndMin s)) in
  let workedFrom := maxTime shiftStart (From w) in
  let workedTo := minTime shiftEnd (To w) in
  if negb (After workedTo workedFrom) then 0
  else
    let worked :=
      foldl (λ worked b,
        let breakStart := Plus day (minutes (BreakStartMin b)) in
        let breakEnd := Plus day (minutes (BreakEndMin b)) in
        wrap64 (worked - overlap breakStart breakEnd workedFrom workedTo))
        (Sub workedTo workedFrom) (Breaks s) in
    if worked <? 0 then 0 else worked.

Section zones.
(** [time.LoadLocation]; [None] is an error. *)
Variable LoadLocation : string → option Location.

Definition location (s : Shift) : Location :=
  if decide (TZ s = "") then UTC else default UTC (LoadLocation (TZ s)).

(** The loop over the days; [None] when the fuel does not suffice. *)
Fixpoint planned_loop (fuel : nat) (s : Shift) (w : Window) (lastDay day : Time) (total : Z)
    : option Z :=
  match fuel with
  | O => None
  | S fuel =>
      if After day lastDay then Some total
      else
        let total :=
          if bool_decide (Weekdays s = []) || bool_decide (Weekday day ∈ weekdaySet s)
          then wrap64 (total + plannedTimeOnDay s day w) else total in
        planned_loop fuel s w lastDay (AddDate day 1) total
  end.

Definition firstDay (s : Shift) (w : Window) : Time :=
  AddDate (startOfDay (In (From w) (location s))) (-1).
Definition lastDay (s : Shift) (w : Window) : Time :=
  AddDate (startOfDay (In (To w) (location s))) 1.

Definition PlannedProductionTime (fuel : nat) (s : Shift) (w : Window) : option Z :=
  if negb (After (To w) (From w)) then Some 0
  else planned_loop fuel s w (lastDay s w) (firstDay s w) 0.
End zones.

(** ** The loop ends *)

Section termination.
Variable LoadLocation : string → option Location.
Variables (lo hi : Z).
Hypothesis Hspan : hi - lo < 86400.

(** How far apart two days of the loop are at least. *)
Definition day_step : Z := Day - (hi - lo) * Second.

Lemma planned_loop_ends s w last day total fuel :
  offsets_within lo hi (loc day) →
  ns last - ns day < (Z.of_nat fuel - 1) * day_step → 0 < Z.of_nat fuel →
  is_Some (planned_loop fuel s w last day total).
Proof.
  revert day total. induction fuel as [|fuel IH]; intros day total Hloc Hns Hpos; [lia|].
  simpl. unfold After. destruct (Z.ltb_spec (ns last) (ns day)) as [|Hlast]; [done|].
  pose proof (AddDate_advances lo hi day Hloc) as Hadv.
  assert (ns day + day_step ≤ ns (AddDate day 1)) by (unfold day_step; lia).
  assert (0 < day_step) by (unfold day_step, Day, Second; lia).
  rewrite Nat2Z.inj_succ in Hns.
  destruct fuel as [|fuel]; [lia|].
  apply IH; [by unfold AddDate; rewrite loc_Date|nia|lia].
Qed.

Lemma planned_loop_mono s w last day total fuel v fuel' :
  planned_loop fuel s w last day total = Some v → (fuel ≤ fuel')%nat →
  planned_loop fuel' s w last day total = Some v.
Proof.
  revert day total fuel'. induction fuel as [|fuel IH]; intros day total fuel' Hv Hle; [done|].
  destruct fuel' as [|fuel']; [lia|]. simpl in *. case_match; [done|]. apply IH; [done|lia].
Qed.
End termination.

(** An amount of fuel that is enough for a window: one per step of the loop,
    over the window and the day and a bit on each side of it. *)
Definition enough_days (lo hi : Z) (w : Window) : nat :=
  Z.to_nat ((ns (To w) - ns (From w) + 8 * Day) / (Day - (hi - lo) * Second) + 3).

Lemma day_span lo hi LoadLocation s w :
  offsets_within lo hi (location LoadLocation s) → hi - lo < 86400 →
  ns (lastDay LoadLocation s w) - ns (firstDay LoadLocation s w) <
    ns (To w) - ns (From w) + 8 * Day + (Day - (hi - lo) * Second).
Proof.
  intros Hl Hspan. unfold lastDay, firstDay, startOfDay, AddDate, midnight.
  set (l := location LoadLocation s) in *. rewrite !loc_Date.
  pose proof (civil_range lo hi (In (From w) l) Hl) as Hf.
  pose proof (civil_range lo hi (In (To w) l) Hl) as Ht. simpl in Hf, Ht.
  set (cf := civil (In (From w) l)) in *. set (ct := civil (In (To w) l)) in *.
  change (loc (In (From w) l)) with l. change (loc (In (To w) l)) with l.
  pose proof (ns_Date_range lo hi l (cf / Day * Day) Hl) as Hf1.
  pose proof (ns_Date_range lo hi l (ct / Day * Day) Hl) as Ht1.
  assert (offsets_within lo hi (loc (Date (cf / Day * Day) l))) as Hlf by by rewrite loc_Date.
  assert (offsets_within lo hi (loc (Date (ct / Day * Day) l))) as Hlt by by rewrite loc_Date.
  pose proof (civil_range lo hi _ Hlf) as Hf2. pose proof (civil_range lo hi _ Hlt) as Ht2.
  pose proof (ns_Date_range lo hi l (civil (Date (cf / Day * Day) l) + -1 * Day) Hl).
  pose proof (ns_Date_range lo hi l (civil (Date (ct / Day * Day) l) + 1 * Day) Hl).
  pose proof (Z.div_mod cf Day ltac:(done)). pose proof (Z.mod_pos_bound cf Day ltac:(done)).
  pose proof (Z.div_mod ct Day ltac:(done)). pose proof (Z.mod_pos_bound ct Day ltac:(done)).
  assert (0 < Day - (hi - lo) * Second) by (unfold Day, Second; lia). lia.
Qed.

(** The loop of the days ends for every location whose offsets span less than
    a day, and the fuel of [enough_days] is enough for it. *)
Lemma planned_ends lo hi LoadLocation s w fuel :
  offsets_within lo hi (location LoadLocation s) → hi - lo < 86400 →
  (enough_days lo hi w ≤ fuel)%nat →
  is_Some (PlannedProductionTime LoadLocation fuel s w).
Proof.
  intros Hl Hspan Hfuel. unfold PlannedProductionTime, After.
  destruct (Z.ltb_spec (ns (From w)) (ns (To w))) as [Hw|]; [simpl|done].
  pose proof (day_span lo hi LoadLocation s w Hl Hspan) as Hd.
  unfold enough_days in Hfuel. set (step := Day - (hi - lo) * Second) in *.
  assert (0 < step) by (unfold step, Day, Second; lia).
  set (X := ns (To w) - ns (From w) + 8 * Day) in *.
  pose proof (Z.div_mod X step ltac:(lia)). pose proof (Z.mod_pos_bound X step ltac:(lia)).
  assert (0 ≤ X / step) 
    by (apply Z.div_pos; [unfold X, Day, Second; lia|done]).
  assert ((X / step + 2) * step ≤ (Z.of_nat fuel - 1) * step)
    by (apply Z.mul_le_mono_nonneg_r; lia).
  apply (planned_loop_ends lo hi); [done| |change (day_step lo hi) with step; lia|lia].
  unfold firstDay, AddDate. by rewrite loc_Date; unfold startOfDay, midnight; rewrite loc_Date.
Qed.

(** ** What is counted *)

(** The instants of a window at which production is planned, counted in
    nanoseconds: the specification of [PlannedProductionTime].  A time of day
    is the time since the midnight a shift belongs to. *)
Definition in_break (b : Break) (tod : Z) : bool :=
  (BreakStartMin b * Minute <=? tod) && (tod <? BreakEndMin b * Minute).

Definition on_shift (s : Shift) (tod : Z) : bool :=
  (StartMin s * Minute <=? tod) && (tod <? EndMin s * Minute) &&
  negb (existsb (λ b, in_break b tod) (Breaks s)).

Definition on_weekday (s : Shift) (d : Z) : bool :=
  bool_decide (Weekdays s = []) || bool_decide ((d + 4) mod 7 ∈ Weekdays s).

(** The shift of day [d] (days since 1970-01-01, at an offset of [off]
    seconds) is at work at the instant [t]. *)
Definition working (off : Z) (s : Shift) (d t : Z) : bool :=
  on_weekday s d && on_shift s (t + off * Second - d * Day).

(** The shift of the day itself or that of the day before, run overnight. *)
Definition producing (off : Z) (s : Shift) (t : Z) : bool :=
  let d := (t + off * Second) / Day in
  working off s (d - 1) t || working off s d t.

Definition measure (P : Z → bool) (w : Window) : Z :=
  Zsum (λ t, Z.b2z (P t)) (ns (From w)) (Z.to_nat (ns (To w) - ns (From w))).

Definition disjoint_break (b b' : Break) : Prop :=
  BreakEndMin b ≤ BreakStartMin b' ∨ BreakEndMin b' ≤ BreakStartMin b.

Fixpoint disjoint_breaks (bs : list Break) : Prop :=
  match bs with
  | [] => True
  | b :: bs => Forall (disjoint_break b) bs ∧ disjoint_breaks bs
  end.

Definition two_days (m : Z) : Prop := 0 ≤ m ≤ 2880.

(** A shift of at most a day, that ends on the next day at the latest, and
    whose breaks do not overlap. *)
Record well_formed (s : Shift) : Prop := {
  wf_start : two_days (StartMin s);
  wf_end : two_days (EndMin s);
  wf_length : EndMin s - StartMin s ≤ 1440;
  wf_breaks : Forall (λ b, two_days (BreakStartMin b) ∧ two_days (BreakEndMin b)) (Breaks s);
  wf_disjoint : disjoint_breaks (Breaks s);
}.

(** Durations of up to 292 years do not overflow. *)
Definition short_window (w : Window) : Prop := ns (To w) - ns (From w) ≤ int64_max.

Lemma minutes_id m : two_days m → minutes m = m * Minute.
Proof.
  intros Hm. apply wrap64_id. unfold two_days, is_int64, int64_min, int64_max, Minute, Second in *.
  lia.
Qed.

Lemma measure_range P w : 0 ≤ measure P w ≤ Z.max 0 (ns (To w) - ns (From w)).
Proof.
  unfold measure. generalize (ns (From w)) as a. intros a.
  enough (∀ n, 0 ≤ Zsum (λ t, Z.b2z (P t)) a n ≤ Z.of_nat n) as Hn
    by (specialize (Hn (Z.to_nat (ns (To w) - a))); lia).
  induction n as [|n IH]; simpl Zsum; [lia|]. destruct (P (a + Z.of_nat n)); simpl Z.b2z; lia.
Qed.

Lemma measure_ext P Q w :
  (∀ t, ns (From w) ≤ t < ns (To w) → P t = Q t) → measure P w = measure Q w.
Proof.
  intros HPQ. unfold measure. apply Zsum_ext. intros t Ht. rewrite HPQ; [done|lia].
Qed.

(** ** One day *)

Section on_day.
Variables (w : Window) (day : Time).
Hypothesis Hshort : short_window w.
Variables (workedFrom workedTo : Time).
Hypothesis Hfrom : ns (From w) ≤ ns workedFrom.
Hypothesis Hto : ns workedTo ≤ ns (To w).

(** Taking off a break that is still counted. *)
Lemma overlap_measure b P :
  two_days (BreakStartMin b) → two_days (BreakEndMin b) →
  (∀ t, ns workedFrom ≤ t < ns workedTo → in_break b (t - ns day) = true → P t = true) →
  (∀ t, P t = true → ns workedFrom ≤ t < ns workedTo) →
  wrap64 (measure P w -
    overlap (Plus day (minutes (BreakStartMin b))) (Plus day (minutes (BreakEndMin b)))
      workedFrom workedTo) =
  measure (λ t, P t && negb (in_break b (t - ns day))) w.
Proof.
  intros Hs He Hin Hout. rewrite !minutes_id by done.
  pose proof (measure_range (λ t, P t && negb (in_break b (t - ns day))) w).
  pose proof (measure_range P w).
  assert (overlap (Plus day (BreakStartMin b * Minute)) (Plus day (BreakEndMin b * Minute))
      workedFrom workedTo =
    measure (λ t, P t && in_break b (t - ns day)) w) as ->.
  { transitivity (measure (λ t, (Z.max (ns day + BreakStartMin b * Minute) (ns workedFrom) <=? t)
      && (t <? Z.min (ns day + BreakEndMin b * Minute) (ns workedTo))) w).
    - unfold measure. rewrite Zsum_interval.
      unfold short_window, overlap, After, maxTime, minTime, After, Before, Sub, Plus,
        int64_min, int64_max in *; simpl.
      repeat (case_match; simpl in *; bool_simpl); lia.
    - apply measure_ext. intros t Ht. unfold in_break in *.
      destruct (P t) eqn:HP; simpl.
      + specialize (Hout t HP). lia.
      + apply not_true_is_false. intros ?. enough (P t = true) by congruence. apply Hin; lia. }
  unfold measure in *. rewrite <-Zsum_sub.
  rewrite (Zsum_ext _ (λ t, Z.b2z (P t && negb (in_break b (t - ns day)))))
    by (intros t _; by destruct (P t), (in_break b (t - ns day))).
  apply wrap64_id. unfold short_window, is_int64, int64_min, int64_max in *. lia.
Qed.

Lemma breaks_measure bs P :
  Forall (λ b, two_days (BreakStartMin b) ∧ two_days (BreakEndMin b)) bs →
  disjoint_breaks bs →
  (∀ t, ns workedFrom ≤ t < ns workedTo →
    existsb (λ b, in_break b (t - ns day)) bs = true → P t = true) →
  (∀ t, P t = true → ns workedFrom ≤ t < ns workedTo) →
  foldl (λ worked b,
    wrap64 (worked -
      overlap (Plus day (minutes (BreakStartMin b))) (Plus day (minutes (BreakEndMin b)))
        workedFrom workedTo)) (measure P w) bs =
  measure (λ t, P t && negb (existsb (λ b, in_break b (t - ns day)) bs)) w.
Proof.
  revert P. induction bs as [|b bs IH]; intros P Hb Hd Hin Hout; simpl.
  { apply measure_ext. intros. by rewrite andb_true_r. }
  apply Forall_cons in Hb as [[Hs He] Hb]. destruct Hd as [Hdb Hd].
  rewrite overlap_measure; [|done..| |done].
  2: { intros t Ht Hbt. apply Hin; [done|]. simpl. by rewrite Hbt. }
  rewrite IH; [|done..| |].
  - apply measure_ext. intros. by rewrite negb_orb, andb_assoc.
  - intros t Ht Hex. rewrite Hin; [|done|simpl; rewrite Hex; apply orb_true_r].
    simpl. apply negb_true_iff, not_true_is_false. intros Hbt.
    apply existsb_exists in Hex as (b' & Hb' & Hb't). rewrite <-list_elem_of_In in Hb'.
    rewrite Forall_forall in Hdb. specialize (Hdb b' Hb').
    unfold disjoint_break, in_break, Minute, Second in *. lia.
  - intros t [HP _]%andb_true_iff. by apply Hout.
Qed.
End on_day.

Lemma plannedTimeOnDay_measure s day w :
  well_formed s → short_window w →
  plannedTimeOnDay s day w = measure (λ t, on_shift s (t - ns day)) w.
Proof.
  intros [Hs He Hlen Hb Hd] Hw. unfold plannedTimeOnDay. rewrite !minutes_id by done.
  set (wf := maxTime _ _). set (wt := minTime _ _).
  assert (ns wf = Z.max (ns day + StartMin s * Minute) (ns (From w))) as Hwf
    by (unfold wf, maxTime, After, Plus; simpl; case_match; simpl in *; lia).
  assert (ns wt = Z.min (ns day + EndMin s * Minute) (ns (To w))) as Hwt
    by (unfold wt, minTime, Before, Plus; simpl; case_match; simpl in *; lia).
  unfold After. destruct (Z.ltb_spec (ns wf) (ns wt)) as [Hlt|Hge]; simpl.
  - replace (Sub wt wf) with (measure (λ t, (ns wf <=? t) && (t <? ns wt)) w).
    2: { unfold measure. rewrite Zsum_interval. unfold Sub, short_window in *. unfold int64_min, int64_max in *.
         lia. }
    rewrite breaks_measure; [|done|lia..|done|done|intros; lia|intros; lia].
    set (M := measure _ w). pose proof (measure_range (λ t, (ns wf <=? t) && (t <? ns wt) &&
      negb (existsb (λ b, in_break b (t - ns day)) (Breaks s))) w). fold M in H.
    destruct (Z.ltb_spec M 0); [lia|]. apply measure_ext. intros t Ht. unfold on_shift.
    f_equal. lia.
  - unfold measure. rewrite Zsum_zero; [done|]. intros t Ht. unfold on_shift.
    destruct (Z.leb_spec (StartMin s * Minute) (t - ns day)); [|done].
    destruct (Z.ltb_spec (t - ns day) (EndMin s * Minute)); [lia|done].
Qed.

(** ** The days of a location with a constant offset *)

Section fixed.
Variables (off : Z) (l : Location).
Hypothesis Hl : fixed_offset off l.

Definition day_at (d : Z) : Time := {| ns := d * Day - off * Second; loc := l |}.

Lemma Date_fixed c : Date c l = {| ns := c - off * Second; loc := l |}.
Proof.
  pose proof (ns_Date_fixed off l c Hl). pose proof (loc_Date c l).
  destruct (Date c l). simpl in *. congruence.
Qed.

Lemma civil_day_at d : civil (day_at d) = d * Day.
Proof. rewrite (civil_fixed off) by done. simpl. lia. Qed.

Lemma AddDate_day_at d n : AddDate (day_at d) n = day_at (d + n).
Proof.
  unfold AddDate. rewrite civil_day_at. simpl loc. rewrite Date_fixed. unfold day_at.
  f_equal. lia.
Qed.

Lemma startOfDay_fixed t : startOfDay (In t l) = day_at ((ns t + off * Second) / Day).
Proof.
  unfold startOfDay, midnight. rewrite (civil_fixed off) by done. simpl loc.
  by rewrite Date_fixed.
Qed.

Lemma Weekday_day_at d : Weekday (day_at d) = (d + 4) mod 7.
Proof. unfold Weekday. rewrite civil_day_at. by rewrite Z.div_mul. Qed.

(** The time planned on the shift of day [d]. *)
Definition planned_on (s : Shift) (w : Window) (d : Z) : Z :=
  if on_weekday s d then plannedTimeOnDay s (day_at d) w else 0.

Lemma planned_on_measure s w d : well_formed s → short_window w →
  planned_on s w d = measure (working off s d) w.
Proof.
  intros Hs Hw. unfold planned_on, working. destruct (on_weekday s d).
  - rewrite plannedTimeOnDay_measure by done. apply measure_ext. intros t _. simpl.
    f_equal. lia.
  - unfold measure. by rewrite Zsum_zero.
Qed.

Lemma planned_loop_sum s w last n d total fuel :
  well_formed s → short_window w →
  0 ≤ total → total + Zsum (planned_on s w) d n ≤ int64_max →
  d + Z.of_nat n = last + 1 → (n < fuel)%nat →
  planned_loop fuel s w (day_at last) (day_at d) total =
  Some (total + Zsum (planned_on s w) d n).
Proof.
  intros Hs Hw. revert d total fuel. induction n as [|n IH]; intros d total fuel H0 Hmax Hd Hf;
    (destruct fuel as [|fuel]; [lia|]); simpl planned_loop; unfold After.
  - destruct (Z.ltb_spec (ns (day_at last)) (ns (day_at d))) as [|Hge];
      [simpl Zsum; f_equal; lia|simpl in Hge; unfold Day, Second in Hge; lia].
  - destruct (Z.ltb_spec (ns (day_at last)) (ns (day_at d))) as [Hlt|];
      [simpl in Hlt; unfold Day, Second in Hlt; lia|].
    rewrite Zsum_cons in Hmax |- *. rewrite AddDate_day_at, Weekday_day_at.
    assert (∀ d, 0 ≤ planned_on s w d) as Hnn.
    { intros d'. rewrite planned_on_measure by done. apply measure_range. }
    assert (0 ≤ Zsum (planned_on s w) (d + 1) n) as Hrest.
    { clear -Hnn. induction n; simpl; [lia|]. specialize (Hnn (d + 1 + Z.of_nat n)). lia. }
    assert (bool_decide (Weekdays s = []) || bool_decide ((d + 4) mod 7 ∈ weekdaySet s) =
      on_weekday s d) as ->.
    { unfold on_weekday, weekdaySet. f_equal. apply bool_decide_ext. set_solver. }
    pose proof (Hnn d) as Hnnd.
    replace (if on_weekday s d then _ else total) with (total + planned_on s w d).
    2: { unfold planned_on in *. destruct (on_weekday s d); [|lia].
         symmetry. apply wrap64_id. unfold is_int64, int64_min, int64_max in *. lia. }
    rewrite IH by lia. f_equal. lia.
Qed.

(** At an instant at most one of the days' shifts is at work. *)
Lemma working_sum s t a n : well_formed s →
  let d := (t + off * Second) / Day in
  a < d → d < a + Z.of_nat n →
  Zsum (λ d, Z.b2z (working off s d t)) a n = Z.b2z (producing off s t).
Proof.
  intros [Hs He Hlen _ _] d Ha Hn.
  pose proof (Z.div_mod (t + off * Second) Day ltac:(done)).
  pose proof (Z.mod_pos_bound (t + off * Second) Day ltac:(done)). fold d in H.
  assert (∀ d' : Z, working off s d' t = true → d' = d ∨ d' = d - 1) as Hd.
  { intros d' [_ Hsh]%andb_true_iff. unfold on_shift in Hsh. apply andb_true_iff in Hsh as [Hsh _].
    unfold two_days, Day, Minute, Second in *. lia. }
  rewrite (Zsum_two _ _ _ (d - 1)) by (lia || (intros j ??; destruct (working off s j t) eqn:Hj;
    [destruct (Hd j Hj); lia|done])).
  replace (d - 1 + 1) with d by lia. unfold producing. fold d.
  destruct (working off s (d - 1) t) eqn:H1, (working off s d t) eqn:H2; try done.
  exfalso. unfold working, on_shift in H1, H2. bool_simpl.
  unfold two_days, Day, Minute, Second in *. lia.
Qed.
End fixed.

Lemma planned_measure off LoadLocation s w fuel :
  fixed_offset off (location LoadLocation s) → well_formed s → short_window w →
  (enough_days off off w ≤ fuel)%nat →
  PlannedProductionTime LoadLocation fuel s w = Some (measure (producing off s) w).
Proof.
  intros Hl Hs Hw Hfuel.
  destruct (planned_ends off off LoadLocation s w fuel) as [v Hv];
    [by apply offsets_fixed|lia|done|].
  enough (∃ fuel, PlannedProductionTime LoadLocation fuel s w = Some (measure (producing off s) w))
    as [fuel' Hv'].
  { unfold PlannedProductionTime in *. case_match; [congruence|].
    pose proof (planned_loop_mono _ _ _ _ _ _ _ _ Hv (Nat.le_max_l fuel fuel')) as H1.
    pose proof (planned_loop_mono _ _ _ _ _ _ _ _ Hv' (Nat.le_max_r fuel fuel')) as H2.
    congruence. }
  clear Hv v Hfuel fuel. unfold PlannedProductionTime, After.
  destruct (Z.ltb_spec (ns (From w)) (ns (To w))) as [Hlt|Hge]; simpl.
  2: { exists 0%nat. unfold measure. rewrite Z2Nat.nonpos by lia. done. }
  unfold firstDay, lastDay. set (l := location LoadLocation s) in *.
  rewrite !(startOfDay_fixed off), !(AddDate_day_at off) by done.
  set (a := (ns (From w) + off * Second) / Day). set (b := (ns (To w) + off * Second) / Day).
  assert (a ≤ b) by (apply Z.div_le_mono; unfold Day, Second; lia).
  set (n := Z.to_nat (b + 1 + 1 - (a + -1))).
  assert (Zsum (planned_on off l s w) (a + -1) n = measure (producing off s) w) as Hsum.
  { transitivity (Zsum (λ d, measure (working off s d) w) (a + -1) n).
    { apply Zsum_ext. intros. by apply planned_on_measure. }
    unfold measure. rewrite Zsum_swap. apply Zsum_ext. intros t Ht.
    assert (a ≤ (t + off * Second) / Day) by (apply Z.div_le_mono; unfold Day, Second; lia).
    assert ((t + off * Second) / Day ≤ b) by (apply Z.div_le_mono; unfold Day, Second; lia).
    apply working_sum; [done|lia|unfold n; lia]. }
  exists (S n). rewrite (planned_loop_sum off l Hl s w (b + 1) n); [by rewrite Hsum|done|done|..].
  - done.
  - rewrite Hsum. pose proof (measure_range (producing off s) w).
    unfold short_window, int64_max in *. lia.
  - unfold n. lia.
  - lia.
Qed.

(** ** Properties *)

(** C40: The loop over the days of a window ends for every time zone whose
    offsets span less than 24 hours, whatever the shift and the window are:
    [enough_days] steps suffice, and more fuel does not change the result. *)
Theorem PlannedProductionTime_terminates lo hi LoadLocation s w :
  offsets_within lo hi (location LoadLocation s) → hi - lo < 86400 →
  ∃ v, ∀ fuel, (enough_days lo hi w ≤ fuel)%nat →
    PlannedProductionTime LoadLocation fuel s w = Some v.
Proof.
  intros Hl Hspan. destruct (planned_ends lo hi LoadLocation s w _ Hl Hspan (le_n _)) as [v Hv].
  exists v. intros fuel Hfuel. unfold PlannedProductionTime in *. case_match; [done|].
  by eapply planned_loop_mono.
Qed.

(** A zone three hours behind UTC with a summer time of one hour more, from
    2018-11-04 00:00 to 2019-02-17 00:00. *)
Definition sao_paulo : Location := {|
  zone_lookup sec :=
    if sec <? 1541300400 then (-10800, int64_min, 1541300400)
    else if sec <? 1550368800 then (-7200, 1541300400, 1550368800)
    else (-10800, 1550368800, int64_max)
|}.

Definition sample_zones (name : string) : option Location :=
  if decide (name = "America/Sao_Paulo") then Some sao_paulo
  else if decide (name = "-03") then Some {| zone_lookup _ := (-10800, int64_min, int64_max) |}
  else None.

(** Monday to Friday, 22:00 to 06:00, with a meal from 02:00 to 03:00. *)
Definition night_shift (tz : string) : Shift := {|
  ID := "n"; Name := "night"; ShiftMachineID := "*"; StartMin := 1320; EndMin := 1800;
  Weekdays := [1; 2; 3; 4; 5];
  Breaks := [{| BreakStartMin := 1560; BreakEndMin := 1620; BreakType := "meal" |}];
  TZ := tz
|}.

Definition at_unix (sec : Z) : Time := {| ns := sec * Second; loc := UTC |}.

(** 2018-11-01 00:00 to 2018-11-08 00:00, UTC. *)
Definition sample_week : Window := {| From := at_unix 1541030400; To := at_unix 1541635200 |}.

Lemma PlannedProductionTime_terminates_witness :
  (∃ v, ∀ fuel, (enough_days (-10800) (-7200) sample_week ≤ fuel)%nat →
    PlannedProductionTime sample_zones fuel (night_shift "America/Sao_Paulo") sample_week = Some v) ∧
  PlannedProductionTime sample_zones 20 (night_shift "America/Sao_Paulo") sample_week =
    Some (29 * 3600 * Second).
Proof.
  split; [|vm_compute; reflexivity].
  apply (PlannedProductionTime_terminates (-10800) (-7200)); [|lia].
  intros sec. change (location _ _) with sao_paulo. unfold zone_offset, sao_paulo. simpl.
  repeat case_match; simpl; lia.
Defined.

(** C29: For a time zone of constant offset, a shift of at most a day that ends
    on the next day at the latest, and breaks that do not overlap, the planned
    production time of a window is the number of its nanoseconds at which the
    shift of that day or the overnight shift of the day before is at work and
    not in a break: no shift day is missed, none is counted twice, and no
    arithmetic overflows. *)
Theorem PlannedProductionTime_measure off LoadLocation s w fuel :
  fixed_offset off (location LoadLocation s) → well_formed s → short_window w →
  (enough_days off off w ≤ fuel)%nat →
  PlannedProductionTime LoadLocation fuel s w = Some (measure (producing off s) w).
Proof. apply planned_measure. Qed.

Lemma well_formed_night tz : well_formed (night_shift tz).
Proof.
  unfold night_shift. split; simpl; unfold two_days; try lia.
  - apply Forall_singleton. simpl. lia.
  - done.
Qed.

Lemma PlannedProductionTime_measure_witness :
  PlannedProductionTime sample_zones 20 (night_shift "-03") sample_week =
    Some (measure (producing (-10800) (night_shift "-03")) sample_week) ∧
  PlannedProductionTime sample_zones 20 (night_shift "-03") sample_week =
    Some (35 * 3600 * Second).
Proof.
  split; [|vm_compute; reflexivity].
  apply PlannedProductionTime_measure.
  - by intros sec.
  - apply well_formed_night.
  - unfold short_window. vm_compute. congruence.
  - apply Nat.leb_le. vm_compute. reflexivity.
Defined.

Lemma Z2Nat_mono x y : x ≤ y → (Z.to_nat x ≤ Z.to_nat y)%nat.
Proof. lia. Qed.

(** The planned production time is between zero and the length of the
    window, and those of two windows that follow one another add up to that of
    the whole. *)
Theorem PlannedProductionTime_additive off LoadLocation s t1 t2 t3 fuel :
  fixed_offset off (location LoadLocation s) → well_formed s →
  let w12 := {| From := t1; To := t2 |} in
  let w23 := {| From := t2; To := t3 |} in
  let w13 := {| From := t1; To := t3 |} in
  ns t1 ≤ ns t2 → ns t2 ≤ ns t3 → short_window w13 → (enough_days off off w13 ≤ fuel)%nat →
  ∃ p q : Z,
    PlannedProductionTime LoadLocation fuel s w12 = Some p ∧
    PlannedProductionTime LoadLocation fuel s w23 = Some q ∧
    PlannedProductionTime LoadLocation fuel s w13 = Some (p + q) ∧
    0 ≤ p ≤ ns t2 - ns t1 ∧ 0 ≤ q ≤ ns t3 - ns t2.
Proof.
  intros Hl Hs w12 w23 w13 H12 H23 Hw Hfuel. subst w12 w23 w13.
  assert (∀ a b c d : Time, ns c ≤ ns a → ns b ≤ ns d →
    (enough_days off off {| From := a; To := b |} ≤
     enough_days off off {| From := c; To := d |})%nat) as Hle.
  { intros a b c d ??. unfold enough_days. simpl. apply Z2Nat_mono.
    apply Z.add_le_mono_r, Z.div_le_mono; unfold Day, Second; lia. }
  unfold short_window in Hw. simpl in Hw.
  pose proof (Hle t1 t2 t1 t3 ltac:(lia) ltac:(lia)). pose proof (Hle t2 t3 t1 t3 ltac:(lia) ltac:(lia)).
  pose proof (measure_range (producing off s) {| From := t1; To := t2 |}) as Hp.
  pose proof (measure_range (producing off s) {| From := t2; To := t3 |}) as Hq. simpl in Hp, Hq.
  exists (measure (producing off s) {| From := t1; To := t2 |}),
    (measure (producing off s) {| From := t2; To := t3 |}).
  rewrite !(planned_measure off) by (done || unfold short_window; simpl; lia).
  split_and!; try done; try lia.
  f_equal. unfold measure. simpl.
  replace (Z.to_nat (ns t3 - ns t1)) with
    (Z.to_nat (ns t2 - ns t1) + Z.to_nat (ns t3 - ns t2))%nat by lia.
  rewrite Zsum_app. do 2 f_equal. lia.
Qed.

Lemma PlannedProductionTime_additive_witness :
  let s := night_shift "-03" in
  let t1 := at_unix 1541030400 in
  let t2 := at_unix 1541311200 in
  let t3 := at_unix 1541635200 in
  (∃ p q : Z,
    PlannedProductionTime sample_zones 20 s {| From := t1; To := t2 |} = Some p ∧
    PlannedProductionTime sample_zones 20 s {| From := t2; To := t3 |} = Some q ∧
    PlannedProductionTime sample_zones 20 s {| From := t1; To := t3 |} = Some (p + q) ∧
    0 ≤ p ≤ ns t2 - ns t1 ∧ 0 ≤ q ≤ ns t3 - ns t2) ∧
  PlannedProductionTime sample_zones 20 s {| From := t1; To := t2 |} = Some (21 * 3600 * Second).
Proof.
  split; [|vm_compute; reflexivity].
  apply (PlannedProductionTime_additive (-10800)).
  - by intros sec.
  - apply well_formed_night.
  - vm_compute. discriminate.
  - vm_compute. discriminate.
  - unfold short_window. vm_compute. discriminate.
  - apply Nat.leb_le. vm_compute. reflexivity.
Defined.

(** When summer time starts at midnight, the days after it start at 23:00
    of the day before: of the 35 hours the shift works in the week, 29 are
    counted. *)
Theorem summer_time_at_midnight :
  let saturday := Date (17838 * Day) sao_paulo in
  civil saturday = 17838 * Day ∧
  civil (AddDate saturday 1) = 17838 * Day + 23 * 3600 * Second ∧
  PlannedProductionTime sample_zones 20 (night_shift "America/Sao_Paulo") sample_week =
    Some (29 * 3600 * Second) ∧
  PlannedProductionTime sample_zones 20 (night_shift "-03") sample_week =
    Some (35 * 3600 * Second).
Proof. vm_compute. done. Qed.

(** Samoa when it crossed the date line: 2011-12-30 did not exist. *)
Definition apia : Location := {|
  zone_lookup sec :=
    if sec <? 1325239200 then (-36000, int64_min, 1325239200)
    else (50400, 1325239200, int64_max)
|}.

Definition no_breaks (tz : string) : Shift := {|
  ID := "d"; Name := "day"; ShiftMachineID := ""; StartMin := 480; EndMin := 960;
  Weekdays := []; Breaks := []; TZ := tz
|}.

Definition last_week_of_2011 : Window := {| From := at_unix 1325030400; To := at_unix 1325548800 |}.

(** 00:00 of a day before 2011-12-30 in Samoa. *)
Definition dec (d : Z) : Time := {| ns := (1322647200 + d * 86400) * Second; loc := apia |}.

Lemma apia_step d d' : ns (AddDate (dec d) 1) = ns (dec d') → AddDate (dec d) 1 = dec d'.
Proof. unfold AddDate. intros Hd. by rewrite Date_eta, Hd. Qed.

(** In a time zone that skips a day the loop does not end: the day after
    2011-12-29 in Samoa is computed to be 2011-12-29 again, and whatever the
    fuel is the planned time of that week has no result. *)
Theorem skipped_day_never_ends fuel :
  PlannedProductionTime (λ _, Some apia) fuel (no_breaks "Pacific/Apia") last_week_of_2011 = None.
Proof.
  set (s := no_breaks "Pacific/Apia"). set (w := last_week_of_2011).
  set (last := lastDay (λ _, Some apia) s w).
  assert (ns (dec 29) ≤ ns last) as Hlast by (apply Z.leb_le; vm_compute; reflexivity).
  assert (∀ fuel d d' total, ns (dec d) ≤ ns (dec 29) → ns (AddDate (dec d) 1) = ns (dec d') →
    (∀ total, planned_loop fuel s w last (dec d') total = None) →
    planned_loop (S fuel) s w last (dec d) total = None) as Hstep.
  { intros f d d' total Hd Hd' Hf. simpl planned_loop. unfold After.
    destruct (Z.ltb_spec (ns last) (ns (dec d))); [lia|]. by rewrite (apia_step d d'). }
  assert (∀ fuel total, planned_loop fuel s w last (dec 29) total = None) as Hstuck.
  { intros f. induction f as [|f IH]; intros total; [done|].
    apply (Hstep _ _ 29); [lia|by vm_compute|done]. }
  unfold PlannedProductionTime. change (negb _) with false. cbv iota. fold last.
  replace (firstDay _ s w) with (dec 26).
  2: { unfold firstDay, AddDate. rewrite Date_eta. symmetry. unfold dec at 1. f_equal. }
  destruct fuel as [|fuel]; [done|]. apply (Hstep _ _ 27); [by vm_compute|by vm_compute|intros t1].
  destruct fuel as [|fuel]; [done|]. apply (Hstep _ _ 28); [by vm_compute|by vm_compute|intros t2].
  destruct fuel as [|fuel]; [done|]. apply (Hstep _ _ 29); [by vm_compute|by vm_compute|].
  apply Hstuck.
Qed.
