(* ===== verification/ShiftJson.v ===== *)
(** * Shifts as JSON

    [oee/config/application/dto.go]: the file of shifts that is seeded into the
    database, and [LoadShiftsFromJSON].

    - the text of any shifts is loaded as these shifts ([shifts_roundtrip]);
    - whatever is loaded has numbers of 64 bits ([loaded_shifts]). *)

From S2P Require Export JsonDecode Shift.

Local Open Scope Z_scope.

Record breakJSON := {
  json_break_start : Z;         (* field StartMin *)
  json_break_end : Z;
  json_break_type : string;
}.

Record shiftJSON := {
  json_id : string;
  json_name : string;
  json_shift_machine : string;  (* field MachineID *)
  json_start : Z;
  json_end : Z;
  json_weekdays : slice Z;
  json_tz : string;
  json_breaks : slice breakJSON;
}.

Definition zero_break : breakJSON :=
  {| json_break_start := 0; json_break_end := 0; json_break_type := "" |}.
Definition zero_shift : shiftJSON := {|
  json_id := ""; json_name := ""; json_shift_machine := ""; json_start := 0; json_end := 0;
  json_weekdays := nil_slice; json_tz := ""; json_breaks := nil_slice
|}.

Definition break_fields : fields breakJSON := [
  (bytes_of "start_minute", on_field json_break_start (λ x r,
     {| json_break_start := x; json_break_end := json_break_end r; json_break_type :=
     json_break_type r |}) decode_int);
  (bytes_of "end_minute", on_field json_break_end (λ x r,
     {| json_break_start := json_break_start r; json_break_end := x; json_break_type :=
     json_break_type r |}) decode_int);
  (bytes_of "type", on_field json_break_type (λ x r,
     {| json_break_start := json_break_start r; json_break_end := json_break_end r;
     json_break_type := x |}) decode_string)
].

Definition shift_fields : fields shiftJSON := [
  (bytes_of "id", on_field json_id (λ x r,
     {| json_id := x; json_name := json_name r; json_shift_machine := json_shift_machine r;
     json_start := json_start r; json_end := json_end r; json_weekdays := json_weekdays r;
     json_tz := json_tz r; json_breaks := json_breaks r |}) decode_string);
  (bytes_of "name", on_field json_name (λ x r,
     {| json_id := json_id r; json_name := x; json_shift_machine := json_shift_machine r;
     json_start := json_start r; json_end := json_end r; json_weekdays := json_weekdays r;
     json_tz := json_tz r; json_breaks := json_breaks r |}) decode_string);
  (bytes_of "machine_id", on_field json_shift_machine (λ x r,
     {| json_id := json_id r; json_name := json_name r; json_shift_machine := x; json_start
     := json_start r; json_end := json_end r; json_weekdays := json_weekdays r; json_tz :=
     json_tz r; json_breaks := json_breaks r |}) decode_string);
  (bytes_of "start_minute", on_field json_start (λ x r,
     {| json_id := json_id r; json_name := json_name r; json_shift_machine :=
     json_shift_machine r; json_start := x; json_end := json_end r; json_weekdays :=
     json_weekdays r; json_tz := json_tz r; json_breaks := json_breaks r |}) decode_int);
  (bytes_of "end_minute", on_field json_end (λ x r,
     {| json_id := json_id r; json_name := json_name r; json_shift_machine :=
     json_shift_machine r; json_start := json_start r; json_end := x; json_weekdays :=
     json_weekdays r; json_tz := json_tz r; json_breaks := json_breaks r |}) decode_int);
  (bytes_of "weekdays", on_field json_weekdays (λ x r,
     {| json_id := json_id r; json_name := json_name r; json_shift_machine :=
     json_shift_machine r; json_start := json_start r; json_end := json_end r; json_weekdays
     := x; json_tz := json_tz r; json_breaks := json_breaks r |}) (decode_slice 0 decode_int));
  (bytes_of "timezone", on_field json_tz (λ x r,
     {| json_id := json_id r; json_name := json_name r; json_shift_machine :=
     json_shift_machine r; json_start := json_start r; json_end := json_end r; json_weekdays
     := json_weekdays r; json_tz := x; json_breaks := json_breaks r |}) decode_string);
  (bytes_of "breaks", on_field json_breaks (λ x r,
     {| json_id := json_id r; json_name := json_name r; json_shift_machine :=
     json_shift_machine r; json_start := json_start r; json_end := json_end r; json_weekdays
     := json_weekdays r; json_tz := json_tz r; json_breaks := x |}) (decode_slice zero_break (decode_struct break_fields)))
].

(** [json.Unmarshal(data, &raw)]; [None] is an error. *)
Definition unmarshal_shifts (data : list byte) : option (list shiftJSON) :=
  slice_elems <$> Unmarshal nil_slice (decode_slice zero_shift (decode_struct shift_fields)) data.

Definition break_of (b : breakJSON) : Break :=
  {| BreakStartMin := json_break_start b; BreakEndMin := json_break_end b;
     BreakType := json_break_type b |}.

Definition shift_of (r : shiftJSON) : Shift := {|
  ID := json_id r; Name := json_name r; ShiftMachineID := json_shift_machine r;
  StartMin := json_start r; EndMin := json_end r; Weekdays := slice_elems (json_weekdays r);
  TZ := json_tz r; Breaks := break_of <$> slice_elems (json_breaks r)
|}.

Definition LoadShiftsFromJSON (data : list byte) : result unit (list Shift) :=
  match unmarshal_shifts data with
  | None => Err ()
  | Some raw => Ok (shift_of <$> raw)
  end.

(** ** The text of shifts *)

Definition marshal_break (b : Break) : json := marshal_struct [
  ("start_minute", marshal_int (BreakStartMin b)); ("end_minute", marshal_int (BreakEndMin b));
  ("type", marshal_string (BreakType b))]%string.

Definition marshal_shift (s : Shift) : json := marshal_struct [
  ("id", marshal_string (ID s)); ("name", marshal_string (Name s));
  ("machine_id", marshal_string (ShiftMachineID s));
  ("start_minute", marshal_int (StartMin s)); ("end_minute", marshal_int (EndMin s));
  ("weekdays", marshal_slice marshal_int (Weekdays s)); ("timezone", marshal_string (TZ s));
  ("breaks", marshal_slice marshal_break (Breaks s))]%string.

Definition shifts_text (ss : list Shift) : list byte := print (marshal_slice marshal_shift ss).

Definition said_break (b : Break) : Break :=
  {| BreakStartMin := BreakStartMin b; BreakEndMin := BreakEndMin b; BreakType := said (BreakType b) |}.
Definition said_shift (s : Shift) : Shift := {|
  ID := said (ID s); Name := said (Name s); ShiftMachineID := said (ShiftMachineID s);
  StartMin := StartMin s; EndMin := EndMin s; Weekdays := Weekdays s; TZ := said (TZ s);
  Breaks := said_break <$> Breaks s
|}.

(** The numbers of a shift fit an [int]. *)
Definition break_fits (b : Break) : Prop := is_int64 (BreakStartMin b) ∧ is_int64 (BreakEndMin b).
Definition shift_fits (s : Shift) : Prop :=
  is_int64 (StartMin s) ∧ is_int64 (EndMin s) ∧ Forall is_int64 (Weekdays s) ∧
  Forall break_fits (Breaks s).

Lemma break_printable d b : printable (S d) (marshal_break b).
Proof. apply struct_printable. print_fields. Qed.

Lemma shift_printable d s : printable (S (S (S d))) (marshal_shift s).
Proof.
  apply struct_printable. repeat (apply Forall_cons; split); [..|apply Forall_nil; exact I];
    (split; [by vm_compute|]); try apply string_printable; try apply int_printable.
  - apply slice_printable. intros n _. apply int_printable.
  - apply slice_printable. intros b _. apply break_printable.
Qed.

(** Decodes the next member and updates the record. *)
#[local] Ltac next H :=
  decode_next H; cbn [zero_shift zero_break json_id json_name json_shift_machine json_start json_end
    json_weekdays json_tz json_breaks json_break_start json_break_end json_break_type].

Lemma decode_marshal_break b : break_fits b →
  decode_struct break_fields zero_break (marshal_break b) = Some
    {| json_break_start := BreakStartMin b; json_break_end := BreakEndMin b;
       json_break_type := said (BreakType b) |}.
Proof.
  intros [Hs He]. unfold marshal_break, marshal_struct. cbn [fmap list_fmap]. cbn [decode_struct].
  next (decode_marshal_int 0 _ Hs). next (decode_marshal_int 0 _ He).
  next decode_marshal_string. reflexivity.
Qed.

Lemma decode_marshal_shift s : shift_fits s →
  ∃ r, decode_struct shift_fields zero_shift (marshal_shift s) = Some r ∧ shift_of r = said_shift s.
Proof.
  intros (Hs & He & Hw & Hb).
  pose proof (decode_marshal_slice 0 decode_int marshal_int id (Weekdays s)
    (λ n Hn, decode_marshal_int 0 n (proj1 (Forall_forall _ _) Hw n Hn))) as Hdays.
  pose proof (decode_marshal_slice zero_break (decode_struct break_fields) marshal_break _ (Breaks s)
    (λ b Hn, decode_marshal_break b (proj1 (Forall_forall _ _) Hb b Hn))) as Hbreaks.
  eexists. split.
  - unfold marshal_shift, marshal_struct. cbn [fmap list_fmap]. cbn [decode_struct].
    do 3 next decode_marshal_string.
    next (decode_marshal_int 0 _ Hs). next (decode_marshal_int 0 _ He). next Hdays.
    next decode_marshal_string. next Hbreaks. reflexivity.
  - unfold shift_of, said_shift. cbn [json_id json_name json_shift_machine json_start json_end json_weekdays json_tz json_breaks].
    rewrite !slice_elems_all by by rewrite length_fmap.
    rewrite list_fmap_id, <-list_fmap_compose. done.
Qed.

(** ** Properties *)

(** The text of any shifts whose numbers fit an [int] is loaded as these
    shifts, in order and with all their weekdays and breaks, every string as
    UTF-8 can say it. *)
Theorem shifts_roundtrip ss : Forall shift_fits ss →
  LoadShiftsFromJSON (shifts_text ss) = Ok (said_shift <$> ss).
Proof.
  intros Hss. rewrite Forall_forall in Hss. unfold LoadShiftsFromJSON, unmarshal_shifts, shifts_text.
  rewrite (proj1 (Unmarshal_print _ _ 4 _ (slice_printable _ _ _ (λ s _, shift_printable 0 s)) ltac:(done))).
  set (g s := default zero_shift (decode_struct shift_fields zero_shift (marshal_shift s))).
  rewrite (decode_marshal_slice _ _ _ g).
  - cbn [fmap option_fmap option_map]. rewrite slice_elems_all by by rewrite length_fmap.
    f_equal. rewrite <-list_fmap_compose. apply list_fmap_ext. intros i s Hs%list_elem_of_lookup_2.
    simpl. unfold g. by destruct (decode_marshal_shift s (Hss s Hs)) as (r & -> & <-).
  - intros s Hs. unfold g. by destruct (decode_marshal_shift s (Hss s Hs)) as (r & -> & _).
Qed.

Definition raw_break_fits (b : breakJSON) : Prop :=
  is_int64 (json_break_start b) ∧ is_int64 (json_break_end b).
Definition raw_fits (r : shiftJSON) : Prop :=
  is_int64 (json_start r) ∧ is_int64 (json_end r) ∧ Forall is_int64 (backing (json_weekdays r)) ∧
  Forall raw_break_fits (backing (json_breaks r)).

Lemma zero_int64 : is_int64 0.
Proof. by vm_compute. Qed.

(** One field of a struct keeps what the others do not depend on. *)
#[local] Ltac field_keeps :=
  intros old v x; intros Hold (y & Hy & ->)%on_field_inv; revert Hold;
  unfold raw_fits, raw_break_fits; cbn [zero_shift zero_break json_id json_name json_shift_machine json_start json_end
    json_weekdays json_tz json_breaks json_break_start json_break_end json_break_type];
  intuition eauto using decode_int_int64.

Lemma break_fields_keep : Forall (λ '(_, dec), ∀ old v x, raw_break_fits old → dec old v = Some x →
  raw_break_fits x) break_fields.
Proof. repeat (apply Forall_cons; split); [field_keeps..|by apply Forall_nil]. Qed.

Lemma decode_break_fits old v x : raw_break_fits old →
  decode_struct break_fields old v = Some x → raw_break_fits x.
Proof. apply decode_struct_keeps, break_fields_keep. Qed.

Lemma decode_weekdays_fit old v s : Forall is_int64 (backing old) →
  decode_slice 0 decode_int old v = Some s → Forall is_int64 (backing s).
Proof. apply decode_slice_keeps; [apply zero_int64|apply decode_int_int64]. Qed.

Lemma decode_breaks_fit old v s : Forall raw_break_fits (backing old) →
  decode_slice zero_break (decode_struct break_fields) old v = Some s → Forall raw_break_fits (backing s).
Proof. apply decode_slice_keeps; [split; apply zero_int64|apply decode_break_fits]. Qed.

Lemma shift_fields_keep : Forall (λ '(_, dec), ∀ old v x, raw_fits old → dec old v = Some x →
  raw_fits x) shift_fields.
Proof.
  repeat (apply Forall_cons; split); [..|by apply Forall_nil]; field_keeps;
    eauto using decode_weekdays_fit, decode_breaks_fit.
Qed.

Lemma shift_of_fits r : raw_fits r → shift_fits (shift_of r).
Proof.
  intros (Hs & He & Hw & Hb). split_and!; [done..|by apply slice_elems_Forall|].
  apply Forall_fmap. by apply slice_elems_Forall.
Qed.

(** Whatever [LoadShiftsFromJSON] loads, of any bytes, has numbers that fit
    an [int]: all the times, weekdays and breaks of its shifts. *)
Theorem loaded_shifts data ss : LoadShiftsFromJSON data = Ok ss → Forall shift_fits ss.
Proof.
  unfold LoadShiftsFromJSON, unmarshal_shifts, Unmarshal.
  destruct (Parse_json data) as [v|]; [|done]. cbn [mbind option_bind].
  destruct (decode_slice _ _ _ v) as [raw|] eqn:Hraw; [|done].
  cbn [fmap option_fmap option_map]. intros [= <-].
  assert (Forall raw_fits (backing raw)) as Hfit.
  { revert Hraw. apply decode_slice_keeps; [|intros old w x Hold; by apply decode_struct_keeps, Hold; apply shift_fields_keep|constructor].
    split_and!; [apply zero_int64..|constructor|constructor]. }
  apply Forall_fmap. eapply Forall_impl; [by apply slice_elems_Forall|]. apply shift_of_fits.
Qed.

Definition early_shift : Shift := {|
  ID := "s1"; Name := "early"; ShiftMachineID := "*"; StartMin := 360; EndMin := 840;
  Weekdays := [1; 2; 3]; TZ := "America/Sao_Paulo";
  Breaks := [{| BreakStartMin := 600; BreakEndMin := 630; BreakType := "lunch" |}]
|}.

Lemma early_shift_fits : shift_fits early_shift.
Proof. apply (bool_decide_unpack _). vm_compute. exact I. Qed.

Lemma shifts_roundtrip_witness : LoadShiftsFromJSON (shifts_text [early_shift]) = Ok [early_shift].
Proof.
  refine (eq_trans (shifts_roundtrip [early_shift] _) _); [|vm_compute; reflexivity].
  apply Forall_singleton, early_shift_fits.
Defined.

Lemma loaded_shifts_witness : Forall shift_fits [early_shift].
Proof. apply (loaded_shifts (shifts_text [early_shift])). vm_compute. reflexivity. Defined.
