(* ===== verification/ShiftStore.v ===== *)
(** * The configuration of shifts

    [oee/config]: shifts, loaded from JSON ([ShiftJson]), are seeded into two
    tables of the database ([UseCase.Seed], [ShiftRepository.Upsert]) and read
    back to compute the planned time of a machine ([ForMachineWindow]), which
    falls back to the shifts of the machine [*], and to these only
    ([empty_machine_ignored]).

    SQL leaves the order of the rows of a query open when there is no ORDER
    BY: they are taken here in the order of insertion. *)

From S2P Require Export Sql ShiftJson GoStrconv.

Local Open Scope Z_scope.

(** ** Weekdays as text (repository.go) *)



Definition weekdaysToCSV (weekdays : list Z) : string :=
  match weekdays with
  | [] => ""
  | _ => Join (Itoa <$> weekdays) comma
  end.

Definition csvToWeekdays (csv : string) : list Z :=
  if bool_decide (csv = "") then [] else omap (λ p, Atoi (TrimSpace p)) (Split csv comma).

(** ** Tables (migrations/002_create_oee_availability.sql) *)

Record shift_row := {
  row_id : Z;
  row_name : string;
  row_machine_id : string;
  row_start : Z;
  row_end : Z;
  row_weekdays : string;
  row_timezone : string;
  row_active : bool;
}.

Record break_row := {
  break_shift_id : Z;
  break_start : Z;
  break_end : Z;
  break_type : string;
}.

(** [last_id] is the counter of AUTOINCREMENT. *)
Record shift_tables := {
  shifts : list shift_row;
  shift_breaks : list break_row;
  last_id : Z;
}.

(** ** ShiftRepository (repository.go) *)

(** [machine_id = ? AND name = ?]. *)
Definition same_key (machine name : string) (r : shift_row) : bool :=
  bool_decide (row_machine_id r = machine) && bool_decide (row_name r = name).

Definition delete_breaks (machine name : string) (t : shift_tables) : shift_tables :=
  let ids := row_id <$> List.filter (same_key machine name) (shifts t) in
  {| shifts := shifts t;
     shift_breaks := List.filter (λ b, bool_decide (break_shift_id b ∉ ids)) (shift_breaks t);
     last_id := last_id t |}.

Definition delete_shift (machine name : string) (t : shift_tables) : shift_tables :=
  {| shifts := List.filter (λ r, negb (same_key machine name r)) (shifts t);
     shift_breaks := shift_breaks t; last_id := last_id t |}.

Definition insert_shift (s : Shift) (tz : string) (t : shift_tables) : shift_tables :=
  let id := last_id t + 1 in
  {| shifts := shifts t ++
       [{| row_id := id; row_name := Name s; row_machine_id := ShiftMachineID s;
           row_start := StartMin s; row_end := EndMin s;
           row_weekdays := weekdaysToCSV (Weekdays s); row_timezone := tz; row_active := true |}];
     shift_breaks := shift_breaks t; last_id := id |}.

Definition insert_break (shiftID : Z) (b : Break) (t : shift_tables) : shift_tables :=
  {| shifts := shifts t;
     shift_breaks := shift_breaks t ++
       [{| break_shift_id := shiftID; break_start := BreakStartMin b; break_end := BreakEndMin b;
           break_type := BreakType b |}];
     last_id := last_id t |}.

Fixpoint insert_breaks (shiftID : Z) (bs : list Break) : sql shift_tables unit :=
  match bs with
  | [] => mret ()
  | b :: bs => update (insert_break shiftID b);; insert_breaks shiftID bs
  end.

Definition Upsert (s : Shift) : sql shift_tables unit :=
  transaction (
    update (delete_breaks (ShiftMachineID s) (Name s));;
    update (delete_shift (ShiftMachineID s) (Name s));;
    let tz := if decide (TZ s = "") then "UTC"%string else TZ s in
    update (insert_shift s tz);;
    shiftID ← query last_id;
    insert_breaks shiftID (Breaks s)).

Definition queryBreaks (shiftID : Z) : sql shift_tables (list Break) :=
  query (λ t,
    (λ b, {| BreakStartMin := break_start b; BreakEndMin := break_end b;
             BreakType := break_type b |}) <$>
    List.filter (λ b, bool_decide (break_shift_id b = shiftID)) (shift_breaks t)).

Fixpoint shifts_of_rows (rows : list shift_row) : sql shift_tables (list Shift) :=
  match rows with
  | [] => mret []
  | sr :: rows =>
      breaks ← queryBreaks (row_id sr);
      ss ← shifts_of_rows rows;
      mret ({| ID := ""; Name := row_name sr; ShiftMachineID := row_machine_id sr;
               StartMin := row_start sr; EndMin := row_end sr;
               Weekdays := csvToWeekdays (row_weekdays sr); TZ := row_timezone sr;
               Breaks := breaks |} :: ss)
  end.

Definition queryShifts (machineID : string) : sql shift_tables (list Shift) :=
  rows ← query (λ t,
    List.filter (λ r, bool_decide (row_machine_id r = machineID) && row_active r) (shifts t));
  shifts_of_rows rows.

(** The sum of the planned times; [None] when the fuel does not suffice. *)
Fixpoint total_planned (LoadLocation : string → option Location) (fuel : nat) (w : Window)
    (ss : list Shift) (total : Z) : option Z :=
  match ss with
  | [] => Some total
  | s :: ss =>
      p ← PlannedProductionTime LoadLocation fuel s w;
      total_planned LoadLocation fuel w ss (wrap64 (total + p))
  end.

Definition ForMachineWindow_of (LoadLocation : string → option Location) (fuel : nat)
    (machineID : string) (w : Window) : sql shift_tables (option (Z * bool)) :=
  ss ← queryShifts machineID;
  ss ← (if bool_decide (ss = []) && bool_decide (machineID ≠ "*")
        then queryShifts "*" else mret ss);
  mret (if bool_decide (ss = []) then Some (0, false)
        else (λ total, (total, true)) <$> total_planned LoadLocation fuel w ss 0).

(** ** The use case (config/application/usecase.go) *)

Fixpoint Seed (ss : list Shift) : sql shift_tables unit :=
  match ss with
  | [] => mret ()
  | s :: ss => Upsert s;; Seed ss
  end.

(** ** Weekdays *)

Lemma plain_no_comma s : Forall (λ b, plain b = true) (bytes_of s) → comma ∉ bytes_of s.
Proof. intros Hs Hin. rewrite Forall_forall in Hs. by specialize (Hs _ Hin). Qed.

Lemma csv_roundtrip ws : Forall is_int64 ws → csvToWeekdays (weekdaysToCSV ws) = ws.
Proof.
  intros Hws. destruct ws as [|w ws]; [done|]. unfold csvToWeekdays, weekdaysToCSV.
  set (l := w :: ws) in *.
  assert (Split (Join (Itoa <$> l) comma) comma = Itoa <$> l) as Hsplit.
  { apply Split_Join; [done|]. apply Forall_fmap, Forall_true. intros n.
    apply plain_no_comma, Itoa_plain. }
  destruct (bool_decide_reflect (Join (Itoa <$> l) comma = "")) as [Hempty|_].
  { rewrite Hempty in Hsplit. unfold l in Hsplit. simpl in Hsplit.
    assert (Itoa w = "") as Hw by (by injection Hsplit).
    apply Forall_cons in Hws as [Hint _]. pose proof (Atoi_Itoa w Hint) as Ha.
    by rewrite Hw in Ha. }
  rewrite Hsplit. clear Hsplit. induction Hws as [|n ns Hn _ IH]; [done|]. csimpl.
  rewrite TrimSpace_plain, Atoi_Itoa by (done || apply Itoa_plain). by rewrite IH.
Qed.

(** ** What the tables configure *)

Definition breaks_for (t : shift_tables) (id : Z) : list Break :=
  (λ b, {| BreakStartMin := break_start b; BreakEndMin := break_end b;
           BreakType := break_type b |}) <$>
  List.filter (λ b, bool_decide (break_shift_id b = id)) (shift_breaks t).

Definition to_shift (t : shift_tables) (r : shift_row) : Shift := {|
  ID := ""; Name := row_name r; ShiftMachineID := row_machine_id r;
  StartMin := row_start r; EndMin := row_end r; Weekdays := csvToWeekdays (row_weekdays r);
  TZ := row_timezone r; Breaks := breaks_for t (row_id r)
|}.

Definition of_machine (m : string) (r : shift_row) : bool :=
  bool_decide (row_machine_id r = m) && row_active r.

(** The shifts of a machine. *)
Definition configured (t : shift_tables) (m : string) : list Shift :=
  to_shift t <$> List.filter (of_machine m) (shifts t).

Lemma shifts_of_rows_Ok rows (db : database shift_tables) ss db' :
  shifts_of_rows rows db = (Ok ss, db') →
  ss = to_shift (tables db) <$> rows ∧ tables db' = tables db.
Proof.
  revert db ss db'. induction rows as [|r rows IH]; intros db ss db'; simpl.
  { by intros [= <- <-]. }
  intros (breaks & db1 & Hb & Hm)%bind_Ok_sql.
  apply bind_Ok_sql in Hm as (ss1 & db2 & Hss & Hm). injection Hm as <- <-.
  destruct (IH _ _ _ Hss) as [-> Ht2]. pose proof (query_tables _ _ _ _ Hb) as Ht1.
  rewrite Ht2, Ht1. split; [|done]. f_equal. unfold to_shift. f_equal.
  by apply query_Ok in Hb.
Qed.

Lemma queryShifts_Ok m (db : database shift_tables) ss db' :
  queryShifts m db = (Ok ss, db') → ss = configured (tables db) m ∧ tables db' = tables db.
Proof.
  intros (rows & db1 & Hq & Hm)%bind_Ok_sql. apply shifts_of_rows_Ok in Hm as [-> ->].
  pose proof (query_tables _ _ _ _ Hq) as Ht. apply query_Ok in Hq as ->. by rewrite Ht.
Qed.

(** ** Upsert *)

(** What a shift becomes in the tables: its identifier is dropped. *)
Definition stored (s : Shift) : Shift := {|
  ID := ""; Name := Name s; ShiftMachineID := ShiftMachineID s; StartMin := StartMin s;
  EndMin := EndMin s; Weekdays := Weekdays s;
  TZ := if decide (TZ s = "") then "UTC" else TZ s; Breaks := Breaks s
|}.

Definition upserted (s : Shift) (t : shift_tables) : shift_tables :=
  let t := delete_shift (ShiftMachineID s) (Name s) (delete_breaks (ShiftMachineID s) (Name s) t) in
  let t := insert_shift s (TZ (stored s)) t in
  foldl (λ t b, insert_break (last_id t) b t) t (Breaks s).

(** Rows have identifiers of their own, given by the counter. *)
Record wf_tables (t : shift_tables) : Prop := {
  wf_ids : NoDup (row_id <$> shifts t);
  wf_rows : Forall (λ r, row_id r ≤ last_id t) (shifts t);
  wf_break_rows : Forall (λ b, break_shift_id b ≤ last_id t) (shift_breaks t);
}.

Lemma insert_breaks_Ok id bs (db db' : database shift_tables) u :
  insert_breaks id bs db = (Ok u, db') → last_id (tables db) = id →
  tables db' = foldl (λ t b, insert_break (last_id t) b t) (tables db) bs.
Proof.
  revert db. induction bs as [|b bs IH]; intros db; simpl; [by intros [= _ <-]|].
  intros (u1 & db1 & Hb & Hm)%bind_Ok_sql Hid. apply update_Ok in Hb.
  rewrite (IH db1) by (done || by rewrite Hb). by rewrite Hb, Hid.
Qed.

Lemma Upsert_tables s (db : database shift_tables) r db' : Upsert s db = (r, db') →
  tables db' = match r with Ok _ => upserted s (tables db) | Err _ => tables db end.
Proof.
  intros HU. destruct r as [u|e]; [|by eapply transaction_Err].
  apply transaction_Ok in HU as (db1 & db2 & <- & Hm & ->).
  apply bind_Ok_sql in Hm as (u1 & d1 & H1%update_Ok & Hm).
  apply bind_Ok_sql in Hm as (u2 & d2 & H2%update_Ok & Hm).
  apply bind_Ok_sql in Hm as (u3 & d3 & H3%update_Ok & Hm).
  apply bind_Ok_sql in Hm as (id & d4 & Hq & Hm).
  pose proof (query_tables _ _ _ _ Hq) as H4. apply query_Ok in Hq as ->.
  rewrite (insert_breaks_Ok _ _ _ _ _ Hm) by by rewrite H4.
  by rewrite H4, H3, H2, H1.
Qed.

(** The tables before the breaks are inserted. *)
Lemma foldl_insert_break bs t :
  foldl (λ t b, insert_break (last_id t) b t) t bs =
  {| shifts := shifts t;
     shift_breaks := shift_breaks t ++
       ((λ b, {| break_shift_id := last_id t; break_start := BreakStartMin b;
                 break_end := BreakEndMin b; break_type := BreakType b |}) <$> bs);
     last_id := last_id t |}.
Proof.
  revert t. induction bs as [|b bs IH]; intros t; simpl.
  { rewrite app_nil_r. by destruct t. }
  rewrite IH. simpl. by rewrite <-app_assoc.
Qed.

Lemma filter_filter_list {A} (P Q : A → bool) l :
  List.filter P (List.filter Q l) = List.filter (λ x, Q x && P x) l.
Proof. induction l as [|x l IH]; simpl; [done|]. destruct (Q x); simpl; by rewrite IH. Qed.

Lemma filter_nothing {A} (P : A → bool) l : (∀ x, x ∈ l → P x = false) → List.filter P l = [].
Proof.
  induction l as [|x l IH]; intros HP; simpl; [done|]. rewrite HP by set_solver. apply IH.
  set_solver.
Qed.

Lemma filter_same {A} (P Q : A → bool) l :
  (∀ x, x ∈ l → P x = Q x) → List.filter P l = List.filter Q l.
Proof.
  induction l as [|x l IH]; intros HP; simpl; [done|]. rewrite HP, IH by set_solver. done.
Qed.

(** The breaks of a row that is kept are kept; the new ones go to the new row. *)
Lemma upserted_breaks s t r : wf_tables t →
  r ∈ shifts t → same_key (ShiftMachineID s) (Name s) r = false →
  breaks_for (upserted s t) (row_id r) = breaks_for t (row_id r).
Proof.
  intros [Hids Hrows Hbreaks] Hr Hkey. unfold upserted. rewrite foldl_insert_break.
  unfold breaks_for. simpl. rewrite List.filter_app, (filter_nothing _ (_ <$> _)), app_nil_r.
  - f_equal. rewrite filter_filter_list. apply filter_same. intros b Hb.
    destruct (bool_decide_reflect (break_shift_id b = row_id r)) as [Heq|]; [|apply andb_false_r].
    rewrite andb_true_r. apply bool_decide_eq_true. rewrite Heq.
    intros (r' & Hid & Hr')%list_elem_of_fmap. rewrite list_elem_of_In, filter_In in Hr'.
    destruct Hr' as [Hr' Hkey']. rewrite <-list_elem_of_In in Hr'.
    assert (r = r') as ->; [|congruence].
    apply list_elem_of_lookup in Hr as [i Hi]. apply list_elem_of_lookup in Hr' as [j Hj].
    assert (i = j) as ->; [|congruence].
    eapply (NoDup_lookup (row_id <$> shifts t)); [done|by rewrite list_lookup_fmap, Hi|].
    rewrite list_lookup_fmap, Hj. simpl. by rewrite Hid.
  - intros b (b' & -> & _)%list_elem_of_fmap. simpl. apply bool_decide_eq_false.
    rewrite Forall_forall in Hrows. specialize (Hrows r Hr). lia.
Qed.

Lemma upserted_new_breaks s t : wf_tables t →
  breaks_for (upserted s t) (last_id t + 1) = Breaks s.
Proof.
  intros [_ _ Hbreaks]. unfold upserted. rewrite foldl_insert_break. unfold breaks_for. simpl.
  rewrite List.filter_app, (filter_nothing _ (List.filter _ _)).
  - simpl. induction (Breaks s) as [|[a b c] bs IH]; simpl; [done|].
    rewrite bool_decide_true by done. simpl. f_equal. exact IH.
  - intros b Hb. rewrite list_elem_of_In, filter_In, <-list_elem_of_In in Hb.
    apply bool_decide_eq_false. rewrite Forall_forall in Hbreaks.
    specialize (Hbreaks b (proj1 Hb)). lia.
Qed.

Lemma upserted_wf s t : wf_tables t → wf_tables (upserted s t).
Proof.
  intros [Hids Hrows Hbreaks]. unfold upserted. rewrite foldl_insert_break.
  assert (∀ {A} (P : A → bool) l, sublist (List.filter P l) l) as Hsub.
  { intros A P l. induction l as [|x l IH]; simpl; [done|].
    destruct (P x); by constructor. }
  split; simpl.
  - rewrite fmap_app. apply NoDup_app. split_and!; [| |apply NoDup_singleton].
    + eapply sublist_NoDup; [done|apply fmap_sublist, Hsub].
    + intros id (r & -> & Hr)%list_elem_of_fmap Hin. simpl in Hin.
      apply list_elem_of_singleton in Hin. rewrite Forall_forall in Hrows.
      assert (r ∈ shifts t) as Hr' by (rewrite list_elem_of_In, filter_In, <-list_elem_of_In in Hr; tauto).
      specialize (Hrows r Hr'). lia.
  - apply Forall_app. split; [|by apply Forall_singleton; simpl].
    apply Forall_filter_bool. eapply Forall_impl; [done|]. simpl. lia.
  - apply Forall_app. split.
    + apply Forall_filter_bool. eapply Forall_impl; [done|]. simpl. lia.
    + apply Forall_fmap, Forall_true. intros b. simpl. lia.
Qed.

(** The shifts configured after an upsert: the one of that machine and name is
    replaced, at the end of the list. *)
Definition replaced (s : Shift) (m : string) (ss : list Shift) : list Shift :=
  if bool_decide (ShiftMachineID s = m)
  then List.filter (λ s', negb (bool_decide (Name s' = Name s))) ss ++ [stored s]
  else ss.

Lemma upserted_configured s t m : wf_tables t → Forall is_int64 (Weekdays s) →
  configured (upserted s t) m = replaced s m (configured t m).
Proof.
  intros Hwf Hws. unfold configured at 1.
  assert (shifts (upserted s t) =
    List.filter (λ r, negb (same_key (ShiftMachineID s) (Name s) r)) (shifts t) ++
    [{| row_id := last_id t + 1; row_name := Name s; row_machine_id := ShiftMachineID s;
        row_start := StartMin s; row_end := EndMin s; row_weekdays := weekdaysToCSV (Weekdays s);
        row_timezone := TZ (stored s); row_active := true |}]) as ->
    by (unfold upserted; by rewrite foldl_insert_break).
  rewrite List.filter_app, fmap_app, filter_filter_list.
  assert (to_shift (upserted s t) <$> List.filter
      (λ r, negb (same_key (ShiftMachineID s) (Name s) r) && of_machine m r) (shifts t) =
    to_shift t <$> List.filter
      (λ r, negb (same_key (ShiftMachineID s) (Name s) r) && of_machine m r) (shifts t)) as ->.
  { apply list_fmap_ext. intros i r Hr%list_elem_of_lookup_2.
    rewrite list_elem_of_In, filter_In, <-list_elem_of_In in Hr. destruct Hr as [Hr Hkey].
    apply andb_true_iff in Hkey as [Hkey%negb_true_iff _].
    unfold to_shift. f_equal. by apply upserted_breaks. }
  unfold replaced, of_machine at 2. simpl.
  destruct (bool_decide_reflect (ShiftMachineID s = m)) as [<-|Hm]; simpl.
  - f_equal.
    + unfold configured. induction (shifts t) as [|r rs IH]; simpl; [done|].
      unfold same_key, of_machine in *.
      destruct (bool_decide_reflect (row_machine_id r = ShiftMachineID s)); simpl; [|exact IH].
      destruct (row_active r); simpl.
      * destruct (bool_decide (row_name r = Name s)); simpl; [exact IH|]. f_equal. exact IH.
      * rewrite andb_false_r. exact IH.
    + unfold to_shift, stored. simpl. rewrite upserted_new_breaks, csv_roundtrip by done. done.
  - rewrite app_nil_r. unfold configured. f_equal. apply filter_same. intros r _.
    unfold same_key, of_machine.
    destruct (bool_decide_reflect (row_machine_id r = m)) as [->|]; simpl; [|apply andb_false_r].
    rewrite bool_decide_false by done. done.
Qed.

(** ** Seed *)

Definition replace_all (m : string) (ss : list Shift) (acc : list Shift) : list Shift :=
  foldl (λ acc s, replaced s m acc) acc ss.

Lemma Seed_tables ss (db db' : database shift_tables) r :
  wf_tables (tables db) → Forall (λ s, Forall is_int64 (Weekdays s)) ss →
  Seed ss db = (r, db') →
  wf_tables (tables db') ∧
  ∃ done_, match r with
    | Ok _ => done_ = ss
    | Err _ => ∃ s rest, ss = done_ ++ s :: rest
    end ∧
    ∀ m, configured (tables db') m = replace_all m done_ (configured (tables db) m).
Proof.
  revert db. induction ss as [|s ss IH]; intros db Hwf Hws; simpl.
  { intros [= <- <-]. split; [done|]. by exists []. }
  apply Forall_cons in Hws as [Hs Hws]. unfold mbind, sql_bind.
  destruct (Upsert s db) as [[u|e] db1] eqn:HU; apply Upsert_tables in HU.
  - intros Hseed. destruct (IH db1) as (Hwf' & d & Hd & Hconf);
      [rewrite HU; by apply upserted_wf|done|done|].
    split; [done|]. exists (s :: d). split.
    + destruct r; [by subst|]. destruct Hd as (s' & rest & ->). by exists s', rest.
    + intros m. rewrite Hconf, HU, upserted_configured by done. done.
  - intros [= <- <-]. rewrite HU. split; [done|]. exists []. split; [by exists s, ss|done].
Qed.

(** With one shift for each machine and name, nothing is replaced. *)
Lemma replace_all_distinct m ss acc :
  NoDup ((λ s, (ShiftMachineID s, Name s)) <$> ss) →
  (∀ s s', s ∈ ss → s' ∈ acc → ShiftMachineID s = m → Name s ≠ Name s') →
  replace_all m ss acc =
  acc ++ (stored <$> List.filter (λ s, bool_decide (ShiftMachineID s = m)) ss).
Proof.
  revert acc. induction ss as [|s ss IH]; intros acc Hnd Hacc; simpl; [by rewrite app_nil_r|].
  apply NoDup_cons in Hnd as [Hs Hnd]. unfold replaced.
  destruct (bool_decide_reflect (ShiftMachineID s = m)) as [Hm|Hm].
  - rewrite (filter_same _ (λ _, true)).
    2: { intros s' Hs'. apply negb_true_iff, bool_decide_eq_false. intros Heq.
         eapply (Hacc s s'); [by left|done|done|done]. }
    rewrite (forallb_filter_id _ acc) by by apply forallb_forall.
    rewrite IH; [by rewrite <-app_assoc|done|].
    intros s1 s2 Hs1 [Hs2|Hs2%list_elem_of_singleton]%elem_of_app Hm1.
    + by apply Hacc; [right| |].
    + subst s2. simpl. intros Heq. apply Hs, list_elem_of_fmap. exists s1. by rewrite Hm, Hm1, Heq.
  - apply IH; [done|]. intros s1 s2 Hs1. apply Hacc. by right.
Qed.

(** ** ForMachineWindow *)

Lemma ForMachineWindow_Ok LoadLocation fuel m w (db db' : database shift_tables) res :
  ForMachineWindow_of LoadLocation fuel m w db = (Ok res, db') →
  let own := configured (tables db) m in
  let ss := if bool_decide (own = []) then configured (tables db) "*" else own in
  tables db' = tables db ∧
  res = if bool_decide (ss = []) then Some (0, false)
        else (λ total, (total, true)) <$> total_planned LoadLocation fuel w ss 0.
Proof.
  intros (own & db1 & Hq & Hm)%bind_Ok_sql. apply queryShifts_Ok in Hq as [-> Ht1]. cbv zeta.
  apply bind_Ok_sql in Hm as (ss & db2 & Hss & Hm). injection Hm as <- <-.
  set (own := configured (tables db) m) in *.
  destruct (bool_decide_reflect (own = [])) as [Hown|Hown]; simpl in Hss.
  - destruct (bool_decide_reflect (m ≠ "*")) as [Hm|Hm].
    + apply queryShifts_Ok in Hss as [-> Ht2]. rewrite Ht1 in *. done.
    + injection Hss as <- <-. split; [done|].
      assert (m = "*") as -> by (by destruct (decide (m = "*"))). done.
  - injection Hss as <- <-. done.
Qed.

Section zones.
Variable LoadLocation : string → option Location.
Hypothesis HUTC : LoadLocation "UTC" = Some UTC.

Lemma stored_location s : location LoadLocation (stored s) = location LoadLocation s.
Proof.
  unfold location, stored. simpl. destruct (decide (TZ s = "")) as [Htz|Htz]; simpl.
  - by rewrite HUTC.
  - by rewrite decide_False.
Qed.

Lemma stored_planned fuel s w :
  PlannedProductionTime LoadLocation fuel (stored s) w = PlannedProductionTime LoadLocation fuel s w.
Proof.
  unfold PlannedProductionTime, firstDay, lastDay. rewrite stored_location.
  destruct (negb _); [done|]. generalize 0 as total.
  generalize (AddDate (startOfDay (GoTime.In (From w) (location LoadLocation s))) (-1)) as day.
  induction fuel as [|fuel IH]; intros day total; simpl; [done|]. destruct (After _ _); [done|].
  apply IH.
Qed.

Lemma stored_total fuel w ss total :
  total_planned LoadLocation fuel w (stored <$> ss) total =
  total_planned LoadLocation fuel w ss total.
Proof.
  revert total. induction ss as [|s ss IH]; intros total; simpl; [done|]. rewrite stored_planned.
  destruct (PlannedProductionTime _ _ _ _); simpl; [apply IH|done].
Qed.
End zones.

(** ** Properties *)

Definition empty_tables : shift_tables := {| shifts := []; shift_breaks := []; last_id := 0 |}.

Lemma wf_empty : wf_tables empty_tables.
Proof. split; constructor. Qed.

(** Weekdays survive their conversion to text and back. *)
Theorem weekdays_roundtrip ws : Forall is_int64 ws → csvToWeekdays (weekdaysToCSV ws) = ws.
Proof. apply csv_roundtrip. Qed.

Lemma weekdays_roundtrip_witness :
  csvToWeekdays (weekdaysToCSV [0; 6; -12]) = [0; 6; -12] ∧ weekdaysToCSV [0; 6; -12] = "0,6,-12".
Proof.
  split; [|by vm_compute]. apply (weekdays_roundtrip [0; 6; -12]).
  repeat apply Forall_cons_2; try apply Forall_nil_2; unfold is_int64; split; vm_compute; discriminate.
Defined.

(** C27: [Upsert] is atomic and keyed by machine and name: when it succeeds, the
    shifts of the machine are those before with the one of that name replaced
    by the new one, its breaks and weekdays included, and the other machines
    keep theirs; when any call of the database fails, the tables are as
    before.  Row identifiers stay unique. *)
Theorem Upsert_spec s (db db' : database shift_tables) r :
  wf_tables (tables db) → Forall is_int64 (Weekdays s) → Upsert s db = (r, db') →
  wf_tables (tables db') ∧
  match r with
  | Ok _ => ∀ m, configured (tables db') m = replaced s m (configured (tables db) m)
  | Err _ => tables db' = tables db
  end.
Proof.
  intros Hwf Hws HU%Upsert_tables. destruct r; rewrite HU; [|done].
  split; [by apply upserted_wf|]. intros m. by apply upserted_configured.
Qed.

Definition seeded : database shift_tables :=
  (Seed [night_shift "-03"; no_breaks ""] {| tables := empty_tables; failures := [] |}).2.

(** The night shift with another break, at a failure of the insert of the break
    and without failures. *)
Definition changed_night : Shift := {|
  ID := "x"; Name := "night"; ShiftMachineID := "*"; StartMin := 1320; EndMin := 1800;
  Weekdays := [6]; Breaks := [{| BreakStartMin := 0; BreakEndMin := 1; BreakType := "rest" |}];
  TZ := "" |}.

Lemma seeded_wf : wf_tables (tables seeded).
Proof.
  apply (Seed_tables [night_shift "-03"; no_breaks ""]
    {| tables := empty_tables; failures := [] |} _ (Ok ())); [apply wf_empty| |by vm_compute].
  repeat apply Forall_cons_2; repeat apply Forall_nil_2;
    unfold is_int64; try (split; vm_compute; discriminate).
Qed.

Lemma Upsert_spec_witness :
  let run bs := Upsert changed_night {| tables := tables seeded; failures := bs |} in
  (wf_tables (tables (run []).2) ∧
   ∀ m, configured (tables (run []).2) m =
     replaced changed_night m (configured (tables seeded) m)) ∧
  (wf_tables (tables (run [false; false; false; false; false; true]).2) ∧
   tables (run [false; false; false; false; false; true]).2 = tables seeded) ∧
  Breaks <$> configured (tables (run []).2) "*" = [Breaks changed_night].
Proof.
  assert (Forall is_int64 (Weekdays changed_night))
    by (apply Forall_singleton; unfold is_int64; split; vm_compute; discriminate).
  split; [|split; [|by vm_compute]].
  - apply (Upsert_spec changed_night {| tables := tables seeded; failures := [] |} _ (Ok ()));
      [apply seeded_wf|done|by vm_compute].
  - apply (Upsert_spec changed_night
      {| tables := tables seeded; failures := [false; false; false; false; false; true] |}
      _ (Err ())); [apply seeded_wf|done|by vm_compute].
Defined.

(** The shifts that were given for a machine. *)
Definition given_for (ss : list Shift) (m : string) : list Shift :=
  List.filter (λ s, bool_decide (ShiftMachineID s = m)) ss.

Lemma seeded_chosen LoadLocation fuel ss m w (db1 db2 : database shift_tables) bs res :
  LoadLocation "UTC" = Some UTC →
  NoDup ((λ s, (ShiftMachineID s, Name s)) <$> ss) →
  Forall (λ s, Forall is_int64 (Weekdays s)) ss →
  Seed ss {| tables := empty_tables; failures := bs |} = (Ok (), db1) →
  ForMachineWindow_of LoadLocation fuel m w db1 = (Ok res, db2) →
  let chosen := if bool_decide (given_for ss m = []) then given_for ss "*" else given_for ss m in
  res = if bool_decide (chosen = []) then Some (0, false)
        else (λ total, (total, true)) <$> total_planned LoadLocation fuel w chosen 0.
Proof.
  intros HUTC Hnd Hws Hseed Hfm chosen.
  destruct (Seed_tables ss {| tables := empty_tables; failures := bs |} _ _ wf_empty Hws Hseed) as (_ & d & -> & Hconf).
  apply ForMachineWindow_Ok in Hfm as [_ Hres].
  assert (∀ m, configured (tables db1) m = stored <$> given_for ss m) as Hgiven.
  { intros m'. rewrite Hconf. simpl. by rewrite replace_all_distinct by set_solver. }
  assert (∀ l, bool_decide (stored <$> l = []) = bool_decide (l = [])) as Hnil
    by (intros l; apply bool_decide_ext; by destruct l).
  rewrite !Hgiven, Hnil in Hres. unfold chosen.
  destruct (bool_decide (given_for ss m = [])); rewrite Hnil, stored_total in Hres; done.
Qed.

(** C28: From the configuration to the planned time: after a successful [Seed]
    of shifts with one name each per machine, [ForMachineWindow] returns the
    sum of the planned production times of the shifts that were given for the
    machine, or of those for [*] when there are none, and says that none was
    found when there are neither.  Only [*] stands for all machines: shifts
    given for the empty machine ID serve that ID alone, although [Shift] says
    that they apply to all machines as well ([empty_machine_ignored]). *)
Theorem seeded_planned LoadLocation fuel ss m w (db1 db2 : database shift_tables) bs res :
  LoadLocation "UTC" = Some UTC →
  NoDup ((λ s, (ShiftMachineID s, Name s)) <$> ss) →
  Forall (λ s, Forall is_int64 (Weekdays s)) ss →
  Seed ss {| tables := empty_tables; failures := bs |} = (Ok (), db1) →
  ForMachineWindow_of LoadLocation fuel m w db1 = (Ok res, db2) →
  let given m := List.filter (λ s, bool_decide (ShiftMachineID s = m)) ss in
  let chosen := if bool_decide (given m = []) then given "*" else given m in
  res = if bool_decide (chosen = []) then Some (0, false)
        else (λ total, (total, true)) <$> total_planned LoadLocation fuel w chosen 0.
Proof. apply seeded_chosen. Qed.

Definition sample_zone (name : string) : option Location :=
  if decide (name = "UTC") then Some UTC else sample_zones name.

Lemma seeded_planned_witness :
  (ForMachineWindow_of sample_zone 20 "CNC-07" sample_week seeded).1 =
    Ok (Some (35 * 3600 * Second, true)) ∧
  let given m := List.filter (λ s, bool_decide (ShiftMachineID s = m))
    [night_shift "-03"; no_breaks ""] in
  let chosen := if bool_decide (given "CNC-07" = []) then given "*" else given "CNC-07" in
  Some (35 * 3600 * Second, true) =
    if bool_decide (chosen = []) then Some (0, false)
    else (λ total, (total, true)) <$> total_planned sample_zone 20 sample_week chosen 0.
Proof.
  split; [by vm_compute|].
  apply (seeded_planned sample_zone 20 [night_shift "-03"; no_breaks ""] "CNC-07" sample_week
    seeded (ForMachineWindow_of sample_zone 20 "CNC-07" sample_week seeded).2 []).
  - done.
  - apply NoDup_cons. split; [set_solver|apply NoDup_singleton].
  - repeat apply Forall_cons_2; repeat apply Forall_nil_2;
      unfold is_int64; try (split; vm_compute; discriminate).
  - vm_compute. reflexivity.
  - vm_compute. reflexivity.
Defined.

Lemma given_for_other ss m id : Forall (λ s, ShiftMachineID s = id) ss → m ≠ id → given_for ss m = [].
Proof.
  intros Hss Hm. induction Hss as [|s ss Hs _ IH]; [done|]. unfold given_for. simpl.
  rewrite bool_decide_false by congruence. exact IH.
Qed.

(** Shifts given for the empty machine ID are used for no other machine: when
    there are no others, [ForMachineWindow] finds no shift for it. *)
Theorem empty_machine_ignored LoadLocation fuel ss m w (db1 db2 : database shift_tables) bs res :
  LoadLocation "UTC" = Some UTC →
  NoDup ((λ s, (ShiftMachineID s, Name s)) <$> ss) →
  Forall (λ s, Forall is_int64 (Weekdays s)) ss →
  Seed ss {| tables := empty_tables; failures := bs |} = (Ok (), db1) →
  ForMachineWindow_of LoadLocation fuel m w db1 = (Ok res, db2) →
  Forall (λ s, ShiftMachineID s = "") ss → m ≠ "" → res = Some (0, false).
Proof.
  intros HUTC Hnd Hws Hseed Hfm Hss Hm.
  rewrite (seeded_chosen _ _ _ _ _ _ _ _ _ HUTC Hnd Hws Hseed Hfm).
  by rewrite (given_for_other ss m ""), (given_for_other ss "*" "").
Qed.

Definition for_machine (id : string) (s : Shift) : Shift := {|
  ID := ID s; Name := Name s; ShiftMachineID := id; StartMin := StartMin s; EndMin := EndMin s;
  Weekdays := Weekdays s; Breaks := Breaks s; TZ := TZ s
|}.

(** The same shift, given for [*], is found. *)
Lemma empty_machine_ignored_witness :
  let run id := ForMachineWindow_of sample_zone 20 "CNC-07" sample_week
    (Seed [for_machine id (no_breaks "")] {| tables := empty_tables; failures := [] |}).2 in
  (∀ res, (run "").1 = Ok res → res = Some (0, false)) ∧
  (run "").1 = Ok (Some (0, false)) ∧ (run "*").1 = Ok (Some (7 * 8 * 3600 * Second, true)).
Proof.
  intros run. split; [|split; by vm_compute]. intros res Hres.
  apply (empty_machine_ignored sample_zone 20 [no_breaks ""] "CNC-07" sample_week
    (Seed [no_breaks ""] {| tables := empty_tables; failures := [] |}).2 (run "").2 [] res).
  - done.
  - apply NoDup_singleton.
  - apply Forall_singleton, Forall_nil_2.
  - vm_compute. reflexivity.
  - rewrite <-Hres. apply surjective_pairing.
  - by apply Forall_singleton.
  - done.
Defined.
