(* ===== verification/Availability.v ===== *)
(** * Availability ([internal/modules/oee/availability/domain])

    The intervals a machine spends in its states, the downtime of a window
    they add up to, and the availability computed from it in binary64. *)

From S2P Require Export Shift GoFloat.

Local Open Scope Z_scope.

Record StateInterval := {
  IntervalMachineID : string;   (* field MachineID *)
  State : MachineState;
  StartedAt : Time;
  EndedAt : option Time;
  Reason : string;
}.

Definition IsOpen (s : StateInterval) : bool :=
  match EndedAt s with None => true | Some _ => false end.

Record StateTransition := {
  TransitionMachineID : string; (* field MachineID *)
  NewState : MachineState;      (* field State *)
  PreviousState : MachineState;
  TransitionReason : string;    (* field Reason *)
  At : Time;                    (* field Timestamp *)
}.

Record SnapshotFlags := {
  ShiftConfigMissing : bool;
  OpenIntervalClipped : bool;
  NoData : bool;
}.

Record AvailabilitySnapshot := {
  SnapshotMachineID : string;   (* field MachineID *)
  WindowFrom : Time;
  WindowTo : Time;
  SnapshotAvailability : spec_float;
  SnapshotPlannedTime : Z;
  SnapshotRunTime : Z;
  SnapshotPlannedDowntime : Z;
  SnapshotUnplannedDowntime : Z;
  SnapshotIntervalCount : Z;
  SnapshotHasData : bool;
  ComputedAt : Time;
  Flags : SnapshotFlags;
}.

Record Input := {
  InPlannedProductionTime : Z;  (* field PlannedProductionTime *)
  InPlannedDowntime : Z;        (* field PlannedDowntime *)
  InUnplannedDowntime : Z;      (* field UnplannedDowntime *)
  IntervalCount : Z;
}.

Record Result := {
  ResAvailability : spec_float; (* field Availability *)
  PlannedTime : Z;
  RunTime : Z;
  PlannedDowntime : Z;
  UnplannedDowntime : Z;
  HasData : bool;
}.

(** ** The aggregation of a window *)

(** The part of an interval in the window; an open one lasts to its end. *)
Definition clip_start (w : Window) (iv : StateInterval) : Time :=
  if Before (StartedAt iv) (From w) then From w else StartedAt iv.

Definition clip_end (w : Window) (iv : StateInterval) : Time :=
  match EndedAt iv with
  | Some ended => if Before ended (To w) then ended else To w
  | None => To w
  end.

(** One round of the loop over [(plannedDown, unplannedDown, count)]. *)
Definition aggregate_step (w : Window) (acc : Z * Z * Z) (iv : StateInterval) : Z * Z * Z :=
  let '(plannedDown, unplannedDown, count) := acc in
  let start := clip_start w iv in
  let stop := clip_end w iv in
  if negb (After stop start) then acc
  else
    let dur := Sub stop start in
    if IsDowntime (State iv) then
      if IsPlannedStop (State iv) then (wrap64 (plannedDown + dur), unplannedDown, wrap64 (count + 1))
      else (plannedDown, wrap64 (unplannedDown + dur), wrap64 (count + 1))
    else (plannedDown, unplannedDown, wrap64 (count + 1)).

#[global] Arguments aggregate_step : simpl never.

Definition Aggregate (w : Window) (intervals : list StateInterval) (planned : Z) : Input :=
  let '(plannedDown, unplannedDown, count) := foldl (aggregate_step w) (0, 0, 0) intervals in
  {| InPlannedProductionTime := planned; InPlannedDowntime := plannedDown;
     InUnplannedDowntime := unplannedDown; IntervalCount := count |}.

Definition Availability (i : Input) : Result :=
  if InPlannedProductionTime i =? 0 then
    {| ResAvailability := Fzero; PlannedTime := 0; RunTime := 0; PlannedDowntime := 0;
       UnplannedDowntime := 0; HasData := false |}
  else
    let downtime := wrap64 (InPlannedDowntime i + InUnplannedDowntime i) in
    let runTime := wrap64 (InPlannedProductionTime i - downtime) in
    let runTime := Z.max runTime 0 in
    let avail := Fdiv (Float64 runTime) (Float64 (InPlannedProductionTime i)) in
    let avail := if Fgt avail Fone then Fone else avail in
    {| ResAvailability := avail; PlannedTime := InPlannedProductionTime i; RunTime := runTime;
       PlannedDowntime := InPlannedDowntime i; UnplannedDowntime := InUnplannedDowntime i;
       HasData := true |}.

(** ** What is aggregated *)

(** The machine was in the state of [iv] at the instant [t]. *)
Definition covers (iv : StateInterval) (t : Z) : bool :=
  (ns (StartedAt iv) <=? t) && match EndedAt iv with Some e => t <? ns e | None => true end.

(** Intervals that do not overlap: [iv] ends before [iv'] starts, or the
    converse. *)
Definition apart (iv iv' : StateInterval) : Prop :=
  ∀ t, covers iv t = true → covers iv' t = true → False.

Fixpoint all_apart (ivs : list StateInterval) : Prop :=
  match ivs with
  | [] => True
  | iv :: ivs => Forall (apart iv) ivs ∧ all_apart ivs
  end.

(** The machine was down at [t], in a state that [kind] selects. *)
Definition down_at (kind : MachineState → bool) (ivs : list StateInterval) (t : Z) : bool :=
  existsb (λ iv, kind (State iv) && covers iv t) ivs.

Definition planned_stop (s : MachineState) : bool := IsDowntime s && IsPlannedStop s.
Definition unplanned_stop (s : MachineState) : bool := IsDowntime s && negb (IsPlannedStop s).

(** Some instant of the window is covered. *)
Definition in_window (w : Window) (iv : StateInterval) : bool :=
  After (clip_end w iv) (clip_start w iv).

Lemma clip_measure w iv : short_window w →
  measure (covers iv) w = if in_window w iv then Sub (clip_end w iv) (clip_start w iv) else 0.
Proof.
  intros Hw.
  transitivity (measure (λ t, (ns (clip_start w iv) <=? t) && (t <? ns (clip_end w iv))) w).
  { apply measure_ext. intros t Ht. unfold covers, clip_start, clip_end, Before.
    destruct (EndedAt iv); repeat (case_match; bool_simpl); lia. }
  unfold measure. rewrite Zsum_interval. unfold in_window, After, Sub.
  assert (ns (From w) ≤ ns (clip_start w iv)) by (unfold clip_start, Before; case_match; lia).
  assert (ns (clip_end w iv) ≤ ns (To w))
    by (unfold clip_end, Before; repeat case_match; bool_simpl; lia).
  unfold short_window, int64_min, int64_max in *. case_match; bool_simpl; lia.
Qed.

Lemma down_at_cons kind iv ivs t : Forall (apart iv) ivs →
  Z.b2z (down_at kind (iv :: ivs) t) =
  Z.b2z (kind (State iv) && covers iv t) + Z.b2z (down_at kind ivs t).
Proof.
  intros Hap. unfold down_at. simpl.
  destruct (kind (State iv) && covers iv t) eqn:H1; simpl; [|done].
  destruct (existsb _ ivs) eqn:H2; [exfalso|done].
  apply existsb_exists in H2 as (iv' & Hiv' & H2). rewrite <-list_elem_of_In in Hiv'.
  rewrite Forall_forall in Hap. bool_simpl. by apply (Hap iv' Hiv' t).
Qed.

Lemma triple_eq {A B C} (a a' : A) (b b' : B) (c c' : C) :
  a = a' → b = b' → c = c' → (a, b, c) = (a', b', c').
Proof. by intros -> -> ->. Qed.

Lemma aggregate_step_eq w iv p u c :
  short_window w →
  let d := measure (covers iv) w in
  let p' := p + (if planned_stop (State iv) then d else 0) in
  let u' := u + (if unplanned_stop (State iv) then d else 0) in
  let c' := c + (if in_window w iv then 1 else 0) in
  0 ≤ p → p' ≤ int64_max → 0 ≤ u → u' ≤ int64_max → 0 ≤ c → c' ≤ int64_max →
  aggregate_step w (p, u, c) iv = (p', u', c').
Proof.
  intros Hw d p' u' c' Hp Hp' Hu Hu' Hc Hc'.
  assert (∀ x, 0 ≤ x ≤ int64_max → wrap64 x = x) as Hwrap
    by (intros; apply wrap64_id; unfold is_int64, int64_min, int64_max in *; lia).
  assert (0 ≤ d) by apply measure_range.
  unfold p', u', c' in *. clear p' u' c'. unfold d in *. clear d.
  rewrite clip_measure in * by done.
  unfold aggregate_step. fold (in_window w iv). unfold planned_stop, unplanned_stop in *.
  destruct (in_window w iv); simpl;
    [destruct (IsDowntime (State iv)), (IsPlannedStop (State iv)); simpl in *;
       rewrite !Hwrap by lia; apply triple_eq; lia|].
  apply triple_eq; repeat case_match; lia.
Qed.

Lemma down_at_measure kind iv ivs w : Forall (apart iv) ivs →
  measure (down_at kind (iv :: ivs)) w =
  (if kind (State iv) then measure (covers iv) w else 0) + measure (down_at kind ivs) w.
Proof.
  intros Hiv. unfold measure. erewrite Zsum_ext; [|intros; by apply down_at_cons].
  rewrite Zsum_add. f_equal. destruct (kind (State iv)); [done|by rewrite Zsum_zero].
Qed.

Lemma aggregate_loop w ivs p u c :
  short_window w → all_apart ivs →
  0 ≤ p → p + measure (down_at planned_stop ivs) w ≤ int64_max →
  0 ≤ u → u + measure (down_at unplanned_stop ivs) w ≤ int64_max →
  0 ≤ c → c + Z.of_nat (length ivs) ≤ int64_max →
  foldl (aggregate_step w) (p, u, c) ivs =
  (p + measure (down_at planned_stop ivs) w, u + measure (down_at unplanned_stop ivs) w,
   c + Z.of_nat (length (List.filter (in_window w) ivs))).
Proof.
  intros Hw. revert p u c. induction ivs as [|iv ivs IH];
    intros p u c Hap Hp Hpm Hu Hum Hc Hcm.
  { simpl. unfold measure. rewrite !Zsum_zero by done. apply triple_eq; lia. }
  destruct Hap as [Hiv Hap]. rewrite !down_at_measure in * by done.
  pose proof (measure_range (down_at planned_stop ivs) w).
  pose proof (measure_range (down_at unplanned_stop ivs) w).
  pose proof (measure_range (covers iv) w).
  simpl foldl. simpl List.filter. simpl length in Hcm.
  rewrite aggregate_step_eq by (done || (repeat case_match; lia)).
  rewrite IH by (done || (repeat case_match; lia)).
  destruct (in_window w iv); simpl length; apply triple_eq; lia.
Qed.

Lemma stops_exclusive ivs t : all_apart ivs →
  Z.b2z (down_at planned_stop ivs t) + Z.b2z (down_at unplanned_stop ivs t) ≤
  Z.b2z (down_at (λ _, true) ivs t).
Proof.
  induction ivs as [|iv ivs IH]; [done|]. intros [Hiv Hap]. rewrite !down_at_cons by done.
  specialize (IH Hap). unfold planned_stop, unplanned_stop in *.
  destruct (IsDowntime (State iv)), (IsPlannedStop (State iv)), (covers iv t); simpl in *; lia.
Qed.

Lemma stops_measure w ivs : all_apart ivs →
  measure (down_at planned_stop ivs) w + measure (down_at unplanned_stop ivs) w ≤
  Z.max 0 (ns (To w) - ns (From w)).
Proof.
  intros Hap. transitivity (measure (down_at (λ _, true) ivs) w); [|apply measure_range].
  unfold measure. rewrite <-Zsum_add. apply Zsum_mono. intros t _. by apply stops_exclusive.
Qed.

(** ** Intervals in the order of time *)

Definition ends_by (iv : StateInterval) (t : Z) : Prop :=
  ∃ e, EndedAt iv = Some e ∧ ns (StartedAt iv) ≤ ns e ≤ t.

(** Each interval ends, no earlier than it starts, before the next starts;
    the last one may be open. *)
Fixpoint chronological (ivs : list StateInterval) : Prop :=
  match ivs with
  | iv :: ((iv' :: _) as ivs) => ends_by iv (ns (StartedAt iv')) ∧ chronological ivs
  | _ => True
  end.

Lemma chronological_tail iv ivs : chronological (iv :: ivs) → chronological ivs.
Proof. destruct ivs; [done|]. by intros [_ ?]. Qed.

Lemma chronological_starts iv ivs t :
  chronological (iv :: ivs) → t ≤ ns (StartedAt iv) →
  Forall (λ iv', t ≤ ns (StartedAt iv')) (iv :: ivs).
Proof.
  revert iv t. induction ivs as [|iv' ivs IH]; intros iv t Hch Ht.
  { by apply Forall_singleton. }
  apply Forall_cons. split; [done|]. destruct Hch as [(e & _ & ?) Hch]. apply IH; [done|lia].
Qed.

Lemma chronological_apart ivs : chronological ivs → all_apart ivs.
Proof.
  induction ivs as [|iv ivs IH]; intros Hch; [done|].
  split; [|by eapply IH, chronological_tail].
  destruct ivs as [|iv' ivs]; [by apply Forall_nil|]. destruct Hch as [(e & He & Hle) Hch].
  eapply Forall_impl; [by apply (chronological_starts iv' ivs (ns e)); [done|lia]|].
  simpl. intros iv2 Hs t. unfold covers. rewrite He. intros. bool_simpl. lia.
Qed.

(** ** What the results are *)

(** The input that describes a window. *)
Record aggregated (w : Window) (ivs : list StateInterval) (planned : Z) (i : Input) : Prop := {
  agg_planned : InPlannedProductionTime i = planned;
  agg_planned_down : InPlannedDowntime i = measure (down_at planned_stop ivs) w;
  agg_unplanned_down : InUnplannedDowntime i = measure (down_at unplanned_stop ivs) w;
  agg_total : 0 ≤ InPlannedDowntime i + InUnplannedDowntime i ≤ Z.max 0 (ns (To w) - ns (From w));
  agg_count : IntervalCount i = Z.of_nat (length (List.filter (in_window w) ivs));
}.

Definition downtime (i : Input) : Z := InPlannedDowntime i + InUnplannedDowntime i.

(** Cut at one. *)
Definition at_most_one (x : spec_float) : spec_float := if Fgt x Fone then Fone else x.

(** The result that belongs to an input: without planned time there is none. *)
Record available (i : Input) (r : Result) : Prop := {
  av_data : HasData r = bool_decide (InPlannedProductionTime i ≠ 0);
  av_run : HasData r = true → RunTime r = Z.max 0 (InPlannedProductionTime i - downtime i);
  av_planned : HasData r = true → PlannedTime r = InPlannedProductionTime i;
  av_planned_down : HasData r = true → PlannedDowntime r = InPlannedDowntime i;
  av_unplanned_down : HasData r = true → UnplannedDowntime r = InUnplannedDowntime i;
  av_range : SFleb Fzero (ResAvailability r) = true ∧ SFleb (ResAvailability r) Fone = true;
  av_one : HasData r = true → downtime i = 0 → ResAvailability r = Fone;
  av_zero : InPlannedProductionTime i ≤ downtime i → ResAvailability r = Fzero;
  av_quotient : HasData r = true →
    ResAvailability r = at_most_one (Fdiv (Float64 (RunTime r)) (Float64 (PlannedTime r)));
  av_none : HasData r = false → r = {| ResAvailability := Fzero; PlannedTime := 0; RunTime := 0;
    PlannedDowntime := 0; UnplannedDowntime := 0; HasData := false |};
}.

Lemma Aggregate_aggregated w ivs planned :
  short_window w → all_apart ivs → Z.of_nat (length ivs) ≤ int64_max →
  aggregated w ivs planned (Aggregate w ivs planned).
Proof.
  intros Hw Hap Hlen. unfold Aggregate.
  pose proof (measure_range (down_at planned_stop ivs) w).
  pose proof (measure_range (down_at unplanned_stop ivs) w).
  pose proof (stops_measure w ivs Hap).
  assert (Z.max 0 (ns (To w) - ns (From w)) ≤ int64_max)
    by (unfold short_window, int64_max in *; lia).
  rewrite aggregate_loop by (done || lia). split; simpl; [done|lia..].
Qed.

Lemma Availability_available i :
  0 ≤ InPlannedProductionTime i ≤ int64_max → 0 ≤ InPlannedDowntime i →
  0 ≤ InUnplannedDowntime i → downtime i ≤ int64_max → available i (Availability i).
Proof.
  intros Hp Hpd Hud Hsum. unfold Availability.
  destruct (Z.eqb_spec (InPlannedProductionTime i) 0) as [H0|H0].
  { split; simpl; try done. rewrite bool_decide_false; [done|]. intros Hne. by apply Hne. }
  set (P := InPlannedProductionTime i) in *. fold (downtime i). set (D := downtime i) in *.
  assert (0 ≤ D) by (unfold D, downtime; lia).
  rewrite (wrap64_id D) by (unfold is_int64, int64_min, int64_max in *; lia).
  rewrite (wrap64_id (P - D)) by (unfold is_int64, int64_min, int64_max in *; lia).
  set (R := Z.max (P - D) 0).
  destruct (Float64_positive P) as (m & e & HP); [unfold int64_max in *; lia|].
  assert (nonneg (Fdiv (Float64 R) (Float64 P))) as Hnn.
  { destruct (decide (R = 0)) as [->|]; [by rewrite HP|].
    destruct (Float64_positive R) as (m' & e' & ->); [unfold int64_max in *; lia|].
    rewrite HP. apply Fdiv_nonneg. }
  split; simpl; try done.
  - by rewrite bool_decide_true.
  - intros _. fold P D. unfold R. lia.
  - destruct (Fgt _ Fone) eqn:HF; [by vm_compute|by apply nonneg_compare].
  - intros _ HD. fold D in HD. replace R with P by lia. rewrite HP, Fdiv_self. by vm_compute.
  - intros HD. fold P D in HD. replace R with 0 by lia. by rewrite HP.
Qed.

(** The availability is a finite float whatever the downtimes are. *)
Lemma Availability_finite i : 0 ≤ InPlannedProductionTime i ≤ int64_max →
  finite (ResAvailability (Availability i)).
Proof.
  intros Hp. unfold Availability. destruct (Z.eqb_spec (InPlannedProductionTime i) 0) as [|H0]; [done|].
  cbv zeta. set (P := InPlannedProductionTime i) in *. set (R := Z.max _ 0).
  assert (0 ≤ R ≤ int64_max) as HR.
  { unfold R. match goal with |- context [wrap64 ?x] => pose proof (wrap64_is_int64 x) end.
    unfold is_int64, int64_min, int64_max in *. lia. }
  destruct (Float64_positive P) as (m & e & HP); [unfold int64_max in *; lia|].
  assert (∀ f, f = S754_infinity false ∨ finite f → finite (if Fgt f Fone then Fone else f)) as Hf.
  { intros f [->|Hf]; [done|]. by destruct (Fgt f Fone). }
  cbn [ResAvailability]. apply Hf. destruct (decide (R = 0)) as [->|]; [right; by rewrite HP|].
  destruct (Float64_positive R) as (m' & e' & ->); [unfold int64_max in *; lia|].
  rewrite HP. apply Fdiv_fits.
Qed.

(** ** Properties *)

(** C38: For intervals that do not overlap, the two downtimes of a window are
    the numbers of its nanoseconds the machine spent in a planned stop and in
    an unplanned one, wherever the intervals begin and end and whether the
    last one is open; together they do not exceed the window; and the count is
    that of the intervals with a part in the window.  Nothing overflows. *)
Theorem Aggregate_measures w ivs planned :
  short_window w → all_apart ivs → Z.of_nat (length ivs) ≤ int64_max →
  aggregated w ivs planned (Aggregate w ivs planned).
Proof. apply Aggregate_aggregated. Qed.

Definition sample_interval (s : MachineState) (a : Z) (b : option Z) : StateInterval := {|
  IntervalMachineID := "CNC-01"; State := s; StartedAt := at_unix a;
  EndedAt := at_unix <$> b; Reason := ""
|}.

(** Running before the window and for its first hour, then stopped for half an
    hour, and in setup since. *)
Definition sample_intervals : list StateInterval :=
  [sample_interval Running (-60) (Some 3600); sample_interval Stopped 3600 (Some 5400);
   sample_interval Setup 5400 None].

(** 1970-01-01 00:00 to 02:00. *)
Definition two_hours : Window := {| From := at_unix 0; To := at_unix 7200 |}.

Lemma sample_apart : all_apart sample_intervals.
Proof.
  apply chronological_apart. simpl. unfold ends_by. simpl.
  split_and!; try done; eexists; (split; [reflexivity|]); simpl; unfold Second; lia.
Qed.

Lemma Aggregate_measures_witness :
  let i := Aggregate two_hours sample_intervals 7200000000000 in
  aggregated two_hours sample_intervals 7200000000000 i ∧
  InPlannedDowntime i = 1800 * Second ∧ InUnplannedDowntime i = 1800 * Second ∧
  IntervalCount i = 3.
Proof.
  split; [|vm_compute; repeat split].
  apply Aggregate_measures; [vm_compute; discriminate|apply sample_apart|vm_compute; discriminate].
Defined.

(** C39: For times that are not negative and a downtime that fits an [int64]:
    without planned time there is no data and everything is zero.  Otherwise
    the times are kept and the run time is what the downtime leaves of the
    planned time, at least zero; the availability is the quotient in binary64
    of the run time and the planned time, cut at 1: never a NaN, between 0 and
    1, exactly 1 without downtime and exactly 0 when the downtime takes all of
    the planned time. *)
Theorem Availability_spec i :
  0 ≤ InPlannedProductionTime i ≤ int64_max → 0 ≤ InPlannedDowntime i →
  0 ≤ InUnplannedDowntime i → downtime i ≤ int64_max → available i (Availability i).
Proof. apply Availability_available. Qed.

Lemma Availability_spec_witness :
  let i := Aggregate two_hours sample_intervals 7200000000000 in
  available i (Availability i) ∧ ResAvailability (Availability i) = Fdiv Fone (Float64 2).
Proof.
  split; [|vm_compute; reflexivity].
  apply Availability_spec; (split || idtac); vm_compute; discriminate.
Defined.

(** ** An open interval and one that ends with the window *)

(** Only the part in the window and the state of an interval count. *)
Definition same_part (w : Window) (iv iv' : StateInterval) : Prop :=
  State iv = State iv' ∧ clip_start w iv = clip_start w iv' ∧ clip_end w iv = clip_end w iv'.

Lemma Aggregate_same w ivs ivs' planned :
  Forall2 (same_part w) ivs ivs' → Aggregate w ivs planned = Aggregate w ivs' planned.
Proof.
  intros Hivs. unfold Aggregate.
  enough (∀ acc, foldl (aggregate_step w) acc ivs = foldl (aggregate_step w) acc ivs') as -> by done.
  induction Hivs as [|iv iv' ivs ivs' (Hs & Ha & Hb) _ IH]; intros acc; simpl; [done|].
  rewrite IH. f_equal. unfold aggregate_step. by rewrite Hs, Ha, Hb.
Qed.

Definition close_interval (t : Time) (iv : StateInterval) : StateInterval :=
  if IsOpen iv then
    {| IntervalMachineID := IntervalMachineID iv; State := State iv; StartedAt := StartedAt iv;
       EndedAt := Some t; Reason := Reason iv |}
  else iv.

Lemma close_interval_same w iv : same_part w iv (close_interval (To w) iv).
Proof.
  unfold close_interval, IsOpen, same_part. destruct (EndedAt iv) eqn:He; [done|].
  unfold clip_end, clip_start. simpl. rewrite He. split_and!; try done.
  unfold Before. by rewrite Z.ltb_irrefl.
Qed.
