(* ===== verification/AvailabilityJson.v ===== *)
(** * Availabilities as JSON

    [json.Marshal] of [domain.AvailabilitySnapshot] (domain/snapshot.go), which
    the websocket sink sends, and of what it shares with
    [application.Output] (query/application/dto.go). *)

From S2P Require Export JsonDecode GoFormatFloat Availability.

Local Open Scope Z_scope.

(** The flags, with [omitempty]. *)
Definition marshal_flags (f : SnapshotFlags) : json :=
  let flag name (b : bool) := if b then [(name, JBool true)] else [] in
  marshal_struct (flag "shift_config_missing"%string (ShiftConfigMissing f) ++
    flag "open_interval_clipped"%string (OpenIntervalClipped f) ++ flag "no_data"%string (NoData f)).

(** [None] for a float that JSON cannot say. *)
Definition marshal_float (f : spec_float) : option json := JNumber <$> float_text f.

(** [json.Marshal(snap)]. *)
Definition marshal_snapshot (s : AvailabilitySnapshot) : option json :=
  from ← marshal_time (WindowFrom s);
  to ← marshal_time (WindowTo s);
  availability ← marshal_float (SnapshotAvailability s);
  computed ← marshal_time (ComputedAt s);
  Some (marshal_struct [
    ("machine_id", marshal_string (SnapshotMachineID s)); ("window_from", from); ("window_to", to);
    ("availability", availability); ("planned_time_ns", marshal_int (SnapshotPlannedTime s));
    ("run_time_ns", marshal_int (SnapshotRunTime s));
    ("planned_downtime_ns", marshal_int (SnapshotPlannedDowntime s));
    ("unplanned_downtime_ns", marshal_int (SnapshotUnplannedDowntime s));
    ("interval_count", marshal_int (SnapshotIntervalCount s));
    ("has_data", JBool (SnapshotHasData s)); ("computed_at", computed);
    ("flags", marshal_flags (Flags s))]%string).

Definition snapshot_text (s : AvailabilitySnapshot) : option (list byte) := print <$> marshal_snapshot s.

(** ** What is marshalled can be printed *)

Lemma flags_printable d f : printable (S d) (marshal_flags f).
Proof.
  apply struct_printable. destruct f as [[] [] []]; cbn [ShiftConfigMissing OpenIntervalClipped NoData app];
    repeat (apply Forall_cons; split); try apply Forall_nil; try exact I; (split; [by vm_compute|constructor]).
Qed.

Lemma float_printable d f v : marshal_float f = Some v → printable d v.
Proof.
  unfold marshal_float. destruct (float_text f) as [text|] eqn:Ht; [|done].
  intros [= <-]. by eapply printable_number, float_text_Some.
Qed.

Lemma marshal_float_finite f : finite f → is_Some (marshal_float f).
Proof.
  intros Hf. destruct (float_text_number f Hf) as (text & Ht & _). unfold marshal_float. rewrite Ht. by eexists.
Qed.

(** *** The times JSON can say *)

(** The years 0 to 9999, and a zone of less than 24 hours. *)
Definition json_time (t : Time) : Prop :=
  0 ≤ (date_of (civil t / Day)).1.1 ≤ 9999 ∧
  Z.abs (Z.quot (zone_offset (loc t) (ns t / Second)) 60) < 1440.

Lemma head_format t : 0 ≤ (date_of (civil t / Day)).1.1 ≤ 9999 → format t !! 4%nat = Some x2d.
Proof.
  unfold format. destruct (date_of _) as [[y m] d]. simpl. intros Hy.
  rewrite appendInt_digits by (change (10 ^ Z.of_nat 4) with 10000; lia). done.
Qed.

Lemma zone_cases offset : Z.abs (Z.quot offset 60) < 1440 →
  zone_text offset = [x5a] ∨
  ∃ sign h m, (sign = x2d ∨ sign = x2b) ∧ 0 ≤ h < 24 ∧ 0 ≤ m < 60 ∧
    zone_text offset = sign :: GoRfc3339.digits 2 h ++ x3a :: GoRfc3339.digits 2 m.
Proof.
  intros Hz. unfold zone_text. destruct (offset =? 0); [by left|]. right.
  set (zone := Z.quot offset 60) in *.
  assert (0 ≤ Z.abs zone / 60 < 24) as Hh by (split; [apply Z.div_pos|apply Z.div_lt_upper_bound]; lia).
  pose proof (Z.mod_pos_bound (Z.abs zone) 60 ltac:(lia)) as Hm.
  exists (if zone <? 0 then x2d else x2b), (Z.abs zone / 60), (Z.abs zone mod 60).
  split; [destruct (zone <? 0); auto|]. split; [done|]. split; [done|].
  rewrite !appendInt_digits by (simpl; lia). by destruct (zone <? 0).
Qed.

(** Such a time is written as its text. *)
Lemma marshal_json_time t : json_time t → marshal_time t = Some (JString (format t)).
Proof.
  intros [Hy Hz]. unfold marshal_time. rewrite (head_format t Hy), bool_decide_true by done. cbn [negb].
  assert (∃ pre, format t = pre ++ zone_text (zone_offset (loc t) (ns t / Second))) as [pre Hf].
  { unfold format. destruct (date_of _) as [[y m] d]. eexists. by rewrite !app_comm_cons, !(assoc_L (++)). }
  destruct (zone_cases _ Hz) as [Hzt|(sign & h & mi & Hs & Hh & Hm & Hzt)]; rewrite Hf, Hzt.
  - rewrite last_snoc, bool_decide_true by done. done.
  - set (z := sign :: _). assert (length z = 6%nat) as Hl by done.
    rewrite length_app, Hl, drop_app_length' by lia.
    assert (is_digit sign = false) as Hsd by (by destruct Hs as [-> | ->]).
    assert (value (take 2 (drop 1 z)) = h) as Hv
      by (change (take 2 (drop 1 z)) with (GoRfc3339.digits 2 h); apply value_digits; simpl; lia).
    rewrite Hv. cbn [head z from_option]. rewrite Hsd, (proj2 (Z.leb_gt _ _)) by lia.
    by rewrite andb_false_r.
Qed.

Lemma snapshot_printable s v : marshal_snapshot s = Some v → printable 2 v.
Proof.
  unfold marshal_snapshot. intros (from & H1 & H)%bind_Some. apply bind_Some in H as (to & H2 & H).
  apply bind_Some in H as (av & H3 & H). apply bind_Some in H as (comp & H4 & H).
  apply (inj Some) in H. subst v. apply struct_printable.
  repeat (apply Forall_cons; split); [..|apply Forall_nil; exact I]; (split; [by vm_compute|]);
    first [apply string_printable|apply int_printable|by eapply time_printable
          |by eapply float_printable|apply flags_printable|constructor].
Qed.

(** A snapshot whose times JSON can say has a text, which is valid JSON. *)
Lemma snapshot_text_valid s : finite (SnapshotAvailability s) →
  json_time (WindowFrom s) → json_time (WindowTo s) → json_time (ComputedAt s) →
  ∃ text v, snapshot_text s = Some text ∧ marshal_snapshot s = Some v ∧ Parse_json text = Some v.
Proof.
  intros Hf H1 H2 H3. unfold snapshot_text.
  destruct (marshal_snapshot s) as [v|] eqn:Hv.
  - exists (print v), v. split; [done|]. split; [done|].
    apply (parse_print 2); [by apply (snapshot_printable s)|done].
  - exfalso. revert Hv. unfold marshal_snapshot. rewrite !marshal_json_time by done.
    by destruct (marshal_float_finite _ Hf) as [av ->].
Qed.
