(* ===== verification/StateChange.v ===== *)
(** * State changes as JSON

    [oee/availability/features/ingest-state/application/dto.go]: the text of a
    message on the state topic, and [DecodeStateChange], which checks it.

    - the text of a state change is decoded to it ([state_change_roundtrip]);
    - what is decoded is a state the domain knows, at a time the interval
      store can keep, unless its offset is 25 hours ([decoded_transition]). *)

From S2P Require Export JsonDecode Availability.

Local Open Scope Z_scope.

Record stateChangeJSON := {
  json_type : string;
  json_machine_id : string;
  json_state : string;
  json_previous_state : string;
  json_reason : string;
  json_timestamp : Time;
}.

Inductive decode_error := InvalidJSON | MissingMachineID | UnknownState | MissingTimestamp.

(** [t.IsZero()]: 0001-01-01 00:00 UTC. *)
Definition zero_time : Time := {| ns := -62135596800 * Second; loc := UTC |}.
Definition IsZero (t : Time) : bool := ns t =? ns zero_time.

Definition zero_state_change : stateChangeJSON := {|
  json_type := ""; json_machine_id := ""; json_state := ""; json_previous_state := "";
  json_reason := ""; json_timestamp := zero_time
|}.

(** The fields, by their tags. *)
Definition state_change_fields : fields stateChangeJSON := [
  (bytes_of "type", on_field json_type (λ x r, {|
     json_type := x; json_machine_id := json_machine_id r; json_state := json_state r;
     json_previous_state := json_previous_state r; json_reason := json_reason r;
     json_timestamp := json_timestamp r |}) decode_string);
  (bytes_of "machine_id", on_field json_machine_id (λ x r, {|
     json_type := json_type r; json_machine_id := x; json_state := json_state r;
     json_previous_state := json_previous_state r; json_reason := json_reason r;
     json_timestamp := json_timestamp r |}) decode_string);
  (bytes_of "state", on_field json_state (λ x r, {|
     json_type := json_type r; json_machine_id := json_machine_id r; json_state := x;
     json_previous_state := json_previous_state r; json_reason := json_reason r;
     json_timestamp := json_timestamp r |}) decode_string);
  (bytes_of "previous_state", on_field json_previous_state (λ x r, {|
     json_type := json_type r; json_machine_id := json_machine_id r; json_state := json_state r;
     json_previous_state := x; json_reason := json_reason r;
     json_timestamp := json_timestamp r |}) decode_string);
  (bytes_of "reason", on_field json_reason (λ x r, {|
     json_type := json_type r; json_machine_id := json_machine_id r; json_state := json_state r;
     json_previous_state := json_previous_state r; json_reason := x;
     json_timestamp := json_timestamp r |}) decode_string);
  (bytes_of "timestamp", on_field json_timestamp (λ x r, {|
     json_type := json_type r; json_machine_id := json_machine_id r; json_state := json_state r;
     json_previous_state := json_previous_state r; json_reason := json_reason r;
     json_timestamp := x |}) decode_time)
].

(** [json.Unmarshal(payload, &raw)]; [None] is an error. *)
Definition unmarshal_state_change : list byte → option stateChangeJSON :=
  Unmarshal zero_state_change (decode_struct state_change_fields).

Definition DecodeStateChange (payload : list byte) : result decode_error StateTransition :=
  match unmarshal_state_change payload with
  | None => Err InvalidJSON
  | Some raw =>
      if bool_decide (json_machine_id raw = "") then Err MissingMachineID
      else if negb (Valid (json_state raw)) then Err UnknownState
      else if IsZero (json_timestamp raw) then Err MissingTimestamp
      else Ok {| TransitionMachineID := json_machine_id raw; NewState := json_state raw;
                 PreviousState := json_previous_state raw;
                 TransitionReason := json_reason raw; At := json_timestamp raw |}
  end.

(** ** What is decoded *)

Definition time_read (t : Time) : Prop := t = zero_time ∨ ∃ bs, parse bs = Some t.

Lemma unmarshal_time payload raw : unmarshal_state_change payload = Some raw →
  time_read (json_timestamp raw).
Proof.
  unfold unmarshal_state_change, Unmarshal. intros (v & _ & Hv)%bind_Some.
  destruct v as [| | | | |ms]; try discriminate Hv; [injection Hv as <-; by left|].
  refine (decode_members_keeps (λ r, time_read (json_timestamp r)) _ _ ms zero_state_change raw _ Hv); [|by left].
  repeat (apply Forall_cons; split); [..|done];
    intros old w x Hold (y & Hy & [= <-])%bind_Some; try exact Hold.
  simpl. destruct w; try discriminate Hy; [by injection Hy as <-|]. right. by eexists.
Qed.

Lemma decoded_time payload t : DecodeStateChange payload = Ok t → ∃ bs, parse bs = Some (At t).
Proof.
  unfold DecodeStateChange. destruct (unmarshal_state_change payload) as [raw|] eqn:Hu; [|done].
  destruct (unmarshal_time _ _ Hu) as [Hz|Hp]; repeat case_match; try done; intros [= <-]; [|done].
  rewrite Hz in *. done.
Qed.

(** ** The text of a state change *)

(** What [json.Marshal] makes of a [stateChangeJSON]. *)
Definition marshal_state_change (raw : stateChangeJSON) : option json :=
  ts ← marshal_time (json_timestamp raw);
  Some (marshal_struct [
    ("type", marshal_string (json_type raw)); ("machine_id", marshal_string (json_machine_id raw));
    ("state", marshal_string (json_state raw));
    ("previous_state", marshal_string (json_previous_state raw));
    ("reason", marshal_string (json_reason raw)); ("timestamp", ts)]%string).

Definition state_change_text (raw : stateChangeJSON) : option (list byte) :=
  print <$> marshal_state_change raw.

Lemma unmarshal_marshal raw text : storable (json_timestamp raw) →
  state_change_text raw = Some text →
  unmarshal_state_change text = Some {|
    json_type := said (json_type raw); json_machine_id := said (json_machine_id raw);
    json_state := said (json_state raw); json_previous_state := said (json_previous_state raw);
    json_reason := said (json_reason raw); json_timestamp := said_time (json_timestamp raw) |}.
Proof.
  intros Ht. unfold state_change_text, marshal_state_change.
  destruct (marshal_time _) as [ts|] eqn:Hts; [|done]. cbn [mbind option_bind].
  intros Heq%(inj Some). subst text. unfold unmarshal_state_change.
  edestruct (Unmarshal_print zero_state_change (decode_struct state_change_fields) 1) as [-> _];
    [apply struct_printable; print_fields|done|].
  unfold marshal_struct. cbn [fmap list_fmap]. cbn [decode_struct].
  do 5 decode_next decode_marshal_string. decode_next (decode_marshal_time zero_time _ ts Ht Hts).
  reflexivity.
Qed.

(** ** Properties *)

(** C34: The text [json.Marshal] makes of a state change is decoded to it, with
    every string as UTF-8 can say it (unchanged when it is UTF-8) and the same
    instant in a zone that is an offset; it is refused exactly when the machine
    ID is empty, the state is none the domain knows or the timestamp is the
    zero time, in this order. *)
Theorem state_change_roundtrip raw text :
  storable (json_timestamp raw) → state_change_text raw = Some text →
  DecodeStateChange text =
    if bool_decide (json_machine_id raw = "") then Err MissingMachineID
    else if negb (Valid (said (json_state raw))) then Err UnknownState
    else if IsZero (json_timestamp raw) then Err MissingTimestamp
    else Ok {| TransitionMachineID := said (json_machine_id raw); NewState := said (json_state raw);
               PreviousState := said (json_previous_state raw);
               TransitionReason := said (json_reason raw); At := said_time (json_timestamp raw) |}.
Proof.
  intros Ht Hx. unfold DecodeStateChange. rewrite (unmarshal_marshal raw text Ht Hx). simpl.
  by rewrite (bool_decide_ext _ _ (said_empty (json_machine_id raw))).
Qed.

(** What [DecodeStateChange] accepts, of any bytes: a machine ID that is not
    empty, one of the states of the domain, and a timestamp read from a text of
    RFC 3339 that is not the zero time.  Its zone is an offset of at most 25
    hours; and unless that is 25 hours exactly, the interval store can keep the
    timestamp and read it back. *)
Theorem decoded_transition payload t : DecodeStateChange payload = Ok t →
  TransitionMachineID t ≠ "" ∧ Valid (NewState t) = true ∧ IsZero (At t) = false ∧
  (∃ bs, parse bs = Some (At t)) ∧
  ∃ o, loc (At t) = fixed o ∧ -90000 ≤ o ≤ 90000 ∧ (Z.abs o ≠ 90000 → storable (At t)).
Proof.
  intros Ht. destruct (decoded_time payload t Ht) as [bs Hbs]. revert Ht. unfold DecodeStateChange.
  destruct (unmarshal_state_change payload) as [raw|]; [|done].
  destruct (bool_decide_reflect (json_machine_id raw = "")) as [|Hne]; [done|].
  destruct (Valid (json_state raw)) eqn:Hv; [|done]. destruct (IsZero (json_timestamp raw)) eqn:Hz; [done|].
  intros Heq. assert (TransitionMachineID t = json_machine_id raw ∧ NewState t = json_state raw ∧
    At t = json_timestamp raw) as (-> & -> & Hat) by by injection Heq as <-.
  rewrite Hat in *. split_and!; [done..|by eexists|by eapply parse_storable].
Qed.

(** A state change of the machine CNC-01. *)
Definition sample_change (state : string) (sec : Z) : stateChangeJSON := {|
  json_type := "state_change"; json_machine_id := "CNC-01"; json_state := state;
  json_previous_state := ""; json_reason := ""; json_timestamp := {| ns := sec * Second; loc := UTC |}
|}.
Definition sample_text (state : string) (sec : Z) : list byte :=
  default [] (state_change_text (sample_change state sec)).

(** 2026-02-02 10:00:00.25 at an offset of minus three hours. *)
Definition local_time : Time := {| ns := 1770037200 * Second + 250000000; loc := fixed (-10800) |}.

Lemma state_change_roundtrip_witness :
  let raw := {| json_type := "state_change"; json_machine_id := "CNC-01"; json_state := Stopped;
    json_previous_state := Running; json_reason := "jam"; json_timestamp := local_time |} in
  ∃ text, state_change_text raw = Some text ∧
    DecodeStateChange text = Ok {| TransitionMachineID := "CNC-01"; NewState := Stopped;
      PreviousState := Running; TransitionReason := "jam"; At := said_time local_time |}.
Proof.
  intros raw. eexists. split; [vm_compute; reflexivity|].
  refine (state_change_roundtrip raw _ _ _); [|vm_compute; reflexivity].
  split; [split; vm_compute; discriminate|split; [vm_compute; reflexivity|split; vm_compute; reflexivity]].
Defined.

Lemma decoded_transition_witness :
  ∃ t, DecodeStateChange (sample_text Stopped 20) = Ok t ∧ NewState t = Stopped ∧
    Valid (NewState t) = true ∧ ns (At t) = 20 * Second.
Proof.
  eexists. split; [vm_compute; reflexivity|].
  split; [reflexivity|]. split; [|reflexivity].
  apply (decoded_transition (sample_text Stopped 20)). vm_compute. reflexivity.
Defined.
