(* ===== verification/IngestState.v ===== *)
(** * Ingestion of machine states

    [oee/availability/features/ingest-state]: a worker of the fan-out decodes
    the state changes published on one topic and a use case turns them into
    intervals of a store, closing the open interval of the machine and opening
    the next, and tells an observer.

    The store is an interface ([IntervalStore]) with a specification
    ([IntervalStoreSpec]) over the history of each machine: a list of spans.
    [record] is what a transition does to a history; a history built that way
    is a [chain].  [StateChange] has the decoding of the messages. *)

From stdpp Require Export sorting.
From S2P Require Export StateChange FanOut.

Local Open Scope Z_scope.

(** ** Ports (interface.go) *)

(** [LastOpen] returns the interval when [found]. *)
Class IntervalStore (St : Type) := {
  OpenInterval : string → MachineState → Time → St → result unit unit * St;
  CloseOpen : string → Time → St → result unit unit * St;
  LastOpen : string → St → result unit (option StateInterval) * St;
}.

Class StateObserver (O : Type) := Notify : StateTransition → O → O.

(** ** The use case (usecase.go) *)

Record UseCase (St O : Type) := { store : St; observer : O }.
Arguments store {St O} u.
Arguments observer {St O} u.

Section usecase.
Context {St O : Type} `{IntervalStore St, StateObserver O}.
Implicit Types (uc : UseCase St O) (t : StateTransition) (st : St).

Definition open_new t uc : result unit unit * UseCase St O :=
  let '(r, st) := OpenInterval (TransitionMachineID t) (NewState t) (At t) (store uc) in
  match r with
  | Err e => (Err e, {| store := st; observer := observer uc |})
  | Ok _ => (Ok tt, {| store := st; observer := Notify t (observer uc) |})
  end.

Definition Apply t uc : result unit unit * UseCase St O :=
  let '(r, st) := LastOpen (TransitionMachineID t) (store uc) in
  let uc := {| store := st; observer := observer uc |} in
  match r with
  | Err e => (Err e, uc)
  | Ok (Some last) =>
      if bool_decide (State last = NewState t) then (Ok tt, uc)
      else if negb (After (At t) (StartedAt last)) then (Ok tt, uc)
      else
        let '(r, st) := CloseOpen (TransitionMachineID t) (At t) (store uc) in
        let uc := {| store := st; observer := observer uc |} in
        match r with
        | Err e => (Err e, uc)
        | Ok _ => open_new t uc
        end
  | Ok None => open_new t uc
  end.

(** ** The worker (worker.go) *)

Section worker.
Variable stateTopic : string.

Definition StateChangeWorker_Process (msg : Message) uc : outcome * UseCase St O :=
  if negb (bool_decide (MsgTopic msg = stateTopic)) then (Succeeded, uc)
  else
    match DecodeStateChange (MsgPayload msg) with
    | Err _ => (Succeeded, uc)
    | Ok transition =>
        let '(r, uc) := Apply transition uc in
        match r with
        | Err _ => (Errored, uc)
        | Ok _ => (Succeeded, uc)
        end
    end.

Definition StateChangeWorker : Worker (UseCase St O) unit := {|
  Name := "oee-state-change";
  Process := StateChangeWorker_Process;
  Close s := (Ok tt, s)
|}.
End worker.
End usecase.

(** ** The specification of a store *)

(** A stay in a state, in instants; the open one has no end. *)
Record span := { span_state : MachineState; span_from : Z; span_to : option Z }.

#[export] Instance span_eq_dec : EqDecision span.
Proof. solve_decision. Defined.

Definition span_of (iv : StateInterval) : span :=
  {| span_state := State iv; span_from := ns (StartedAt iv); span_to := ns <$> EndedAt iv |}.

Definition is_open (a : span) : bool := bool_decide (span_to a = None).
Definition opened (s : MachineState) (t : Z) : span :=
  {| span_state := s; span_from := t; span_to := None |}.
(** What [CloseOpen] does to a span. *)
Definition close (t : Z) (a : span) : span :=
  if is_open a then {| span_state := span_state a; span_from := span_from a; span_to := Some t |}
  else a.

(** An operation that succeeds has its effect on the history of its machine;
one that fails has none (each is one transaction).  The promise is made for
    the times the store can keep.  [LastOpen] is specified for histories with
    at most one open span. *)
Class IntervalStoreSpec (St : Type) `{IntervalStore St} := {
  history : St → string → list span;
  writable : Time → Prop;
  OpenInterval_history m s t st r st' : writable t → OpenInterval m s t st = (r, st') → ∀ m',
    history st' m' = if is_ok r && bool_decide (m' = m)
      then history st m ++ [opened s (ns t)] else history st m';
  CloseOpen_history m t st r st' : writable t → CloseOpen m t st = (r, st') → ∀ m',
    history st' m' = if is_ok r && bool_decide (m' = m)
      then close (ns t) <$> history st m else history st m';
  LastOpen_history m st r st' : LastOpen m st = (r, st') →
    (∀ m', history st' m' = history st m') ∧
    ∀ o, r = Ok o → (length (List.filter is_open (history st m)) ≤ 1)%nat →
      span_of <$> o = List.find is_open (history st m);
}.

(** ** Histories *)

(** What a transition does to the history of its machine: nothing when it
    repeats the state or does not come after the start of the open span. *)
Definition record (h : list span) (t : StateTransition) : list span :=
  match List.find is_open h with
  | Some a =>
      if bool_decide (span_state a = NewState t) || (ns (At t) <=? span_from a) then h
      else (close (ns (At t)) <$> h) ++ [opened (NewState t) (ns (At t))]
  | None => h ++ [opened (NewState t) (ns (At t))]
  end.

(** Spans that follow one another without gaps or overlap, each of another
    state than the one before, the last one open. *)
Inductive chain : list span → Prop :=
  | chain_nil : chain []
  | chain_first s t : chain [opened s t]
  | chain_next h s t s' t' :
      chain (h ++ [opened s t]) → t < t' → s ≠ s' →
      chain (h ++ [close t' (opened s t)] ++ [opened s' t']).

Lemma chain_inv h : chain h →
  h = [] ∨ ∃ k s t, h = k ++ [opened s t] ∧ Forall (λ a, is_open a = false) k.
Proof.
  induction 1 as [|s t|h s t s' t' Hch IH Ht Hs]; [by left|right|right].
  - by exists [], s, t.
  - destruct IH as [IH|(k & s1 & t1 & Heq & Hk)]; [by destruct h|].
    apply app_inj_tail in Heq as [-> _]. eexists (k ++ [_]), s', t'.
    split; [by rewrite <-app_assoc|]. apply Forall_app. by split; [|apply Forall_singleton].
Qed.

Lemma find_closed k : Forall (λ a, is_open a = false) k → List.find is_open k = None.
Proof. induction 1 as [|a k Ha _ IH]; simpl; [done|]. by rewrite Ha. Qed.

Lemma find_snoc k a : Forall (λ a, is_open a = false) k → is_open a = true →
  List.find is_open (k ++ [a]) = Some a.
Proof. intros Hk Ha. induction Hk as [|b k Hb _ IH]; simpl; [by rewrite Ha|by rewrite Hb]. Qed.

Lemma close_closed t k : Forall (λ a, is_open a = false) k → close t <$> k = k.
Proof.
  induction 1 as [|a k Ha _ IH]; [done|]. rewrite fmap_cons, IH. unfold close. by rewrite Ha.
Qed.

Lemma filter_closed k : Forall (λ a, is_open a = false) k → List.filter is_open k = [].
Proof. induction 1 as [|a k Ha _ IH]; simpl; [done|]. by rewrite Ha. Qed.

Definition one_open (h : list span) : Prop := (length (List.filter is_open h) ≤ 1)%nat.

Lemma chain_one_open h : chain h → one_open h.
Proof.
  unfold one_open.
  intros [->|(k & s & t & -> & Hk)]%chain_inv; [simpl; lia|].
  rewrite List.filter_app, (filter_closed k) by done. simpl. lia.
Qed.

Lemma close_none_open t h : List.filter is_open (close t <$> h) = [].
Proof.
  apply filter_closed, Forall_fmap, Forall_true. intros a. simpl. unfold close.
  by destruct (is_open a) eqn:Ha.
Qed.

Lemma find_none_filter h : List.find is_open h = None → List.filter is_open h = [].
Proof. induction h as [|a h IH]; simpl; [done|]. by destruct (is_open a). Qed.

Lemma record_one_open h t : one_open h → one_open (record h t).
Proof.
  unfold one_open, record. intros Hone. destruct (List.find is_open h) as [a|] eqn:Hf.
  - case_match; [done|]. rewrite List.filter_app, close_none_open. simpl. lia.
  - rewrite List.filter_app, find_none_filter by done. simpl. lia.
Qed.

Lemma record_chain h t : chain h → chain (record h t).
Proof.
  intros Hch. unfold record. destruct (chain_inv h Hch) as [->|(k & s & t0 & -> & Hk)].
  - apply (chain_first (NewState t)).
  - rewrite (find_snoc k) by done. simpl span_state. simpl span_from.
    destruct (bool_decide_reflect (s = NewState t)); [done|].
    destruct (Z.leb_spec (ns (At t)) t0); [done|]. simpl.
    rewrite fmap_app, (close_closed _ k), <-app_assoc by done. by apply chain_next.
Qed.

(** ** The order of a chain *)

Definition before (a b : span) : Prop :=
  ∃ e, span_to a = Some e ∧ span_from a < e ≤ span_from b.

Lemma chain_sorted h : chain h → StronglySorted before h.
Proof.
  induction 1 as [|s t|h s t s' t' _ IH Ht _]; [constructor|by repeat constructor|].
  rewrite app_assoc. apply StronglySorted_app in IH as (Hlast & Hh & _).
  assert (∀ a, a ∈ h → before a (opened s t)) as Hbefore
    by (intros a Ha; apply Hlast; [done|by apply list_elem_of_singleton]).
  assert (∀ a, a ∈ h ++ [close t' (opened s t)] → before a (opened s' t')) as Hnew.
  { intros a [Ha|Ha%list_elem_of_singleton]%elem_of_app.
    - destruct (Hbefore a Ha) as (e & He & ?). exists e. simpl in *. split; [done|lia].
    - subst a. exists t'. simpl. split; [done|lia]. }
  apply StronglySorted_app. split_and!.
  - intros a b Ha Hb%list_elem_of_singleton. subst b. by apply Hnew.
  - apply StronglySorted_app. split_and!; [|done|by repeat constructor].
    intros a b Ha Hb%list_elem_of_singleton. subst b. by apply Hbefore.
  - by repeat constructor.
Qed.

Lemma chain_positive h : chain h →
  Forall (λ a, match span_to a with Some e => span_from a < e | None => True end) h.
Proof.
  induction 1 as [|s t|h s t s' t' _ IH Ht _]; [constructor|by repeat constructor|].
  apply Forall_app in IH as [Hh _]. apply Forall_app. split; [done|]. by repeat constructor.
Qed.

(** The machine was down at [t], in a state that [kind] selects. *)
Definition span_covers (a : span) (t : Z) : bool :=
  (span_from a <=? t) && match span_to a with Some e => t <? e | None => true end.

Definition down_span (kind : MachineState → bool) (h : list span) (t : Z) : bool :=
  existsb (λ a, kind (span_state a) && span_covers a t) h.

Lemma down_at_span kind ivs t : down_at kind ivs t = down_span kind (span_of <$> ivs) t.
Proof.
  unfold down_at, down_span. induction ivs as [|iv ivs IH]; simpl; [done|]. rewrite IH.
  unfold covers, span_covers. simpl. by destruct (EndedAt iv).
Qed.

(** What happened before the start of a later span does not matter after it. *)
Lemma down_span_drop kind old a h t : StronglySorted before (old ++ a :: h) → span_from a ≤ t →
  down_span kind (old ++ a :: h) t = down_span kind (a :: h) t.
Proof.
  intros (Hold & _ & _)%StronglySorted_app Ht. unfold down_span. rewrite existsb_app.
  replace (existsb _ old) with false; [done|]. symmetry. apply not_true_is_false.
  intros (b & Hb & Hc)%existsb_exists. rewrite <-list_elem_of_In in Hb.
  destruct (Hold b a Hb) as (e & He & ?); [by apply list_elem_of_here|].
  unfold span_covers in Hc. rewrite He in Hc. bool_simpl. lia.
Qed.

(** ** The use case refines [record] *)

Section refines.
Context {St O : Type} `{IntervalStoreSpec St, StateObserver O}.
Implicit Types (uc : UseCase St O) (t : StateTransition).

Definition histories uc : string → list span := history (store uc).

Lemma open_new_history t uc r uc' : writable (At t) →
  open_new t uc = (r, uc') →
  (∀ m, m ≠ TransitionMachineID t → histories uc' m = histories uc m) ∧
  match r with
  | Ok _ =>
      histories uc' (TransitionMachineID t) =
        histories uc (TransitionMachineID t) ++ [opened (NewState t) (ns (At t))] ∧
      observer uc' = Notify t (observer uc)
  | Err _ =>
      histories uc' (TransitionMachineID t) = histories uc (TransitionMachineID t) ∧
      observer uc' = observer uc
  end.
Proof.
  intros Hw. unfold open_new, histories. set (m := TransitionMachineID t).
  destruct (OpenInterval m (NewState t) (At t) (store uc)) as [r2 st2] eqn:HO.
  pose proof (OpenInterval_history _ _ _ _ _ _ Hw HO) as Hst2.
  destruct r2; intros [= <- <-]; simpl in *;
    (split; [intros m' Hm'; rewrite Hst2|rewrite Hst2]);
    rewrite ?(bool_decide_true (m = m)), ?bool_decide_false by done; auto.
Qed.

Lemma snoc_changed h (k : list span) a : length k = length h → bool_decide (k ++ [a] = h) = false.
Proof.
  intros Hk. apply bool_decide_eq_false. intros Heq%(f_equal length).
  rewrite length_app in Heq. simpl in Heq. lia.
Qed.

(** What a call of [Apply] does, whether the store fails or not. *)
Definition applied t uc (r : result unit unit) uc' : Prop :=
  let h := histories uc (TransitionMachineID t) in
  (∀ m, m ≠ TransitionMachineID t → histories uc' m = histories uc m) ∧
  match r with
  | Ok _ =>
      histories uc' (TransitionMachineID t) = record h t ∧
      observer uc' =
        if bool_decide (record h t = h) then observer uc else Notify t (observer uc)
  | Err _ =>
      (histories uc' (TransitionMachineID t) = h ∨
       histories uc' (TransitionMachineID t) = close (ns (At t)) <$> h) ∧
      observer uc' = observer uc
  end.

Lemma Apply_applied t uc r uc' : writable (At t) →
  one_open (histories uc (TransitionMachineID t)) → Apply t uc = (r, uc') → applied t uc r uc'.
Proof.
  intros Hw Hone HA. unfold applied. set (m := TransitionMachineID t) in *.
  set (h := histories uc m) in *. unfold Apply in HA. fold m in HA.
  destruct (LastOpen m (store uc)) as [r1 st1] eqn:HL.
  destruct (LastOpen_history _ _ _ _ HL) as [Hst1 Hlast].
  destruct r1 as [o|e].
  2: { injection HA as <- <-. unfold histories. simpl. rewrite !Hst1. eauto. }
  specialize (Hlast o eq_refl Hone).
  change (history (store uc) m) with h in Hlast. cbv zeta. unfold record. rewrite <-Hlast.
  destruct o as [last|]; simpl.
  - destruct (bool_decide_reflect (State last = NewState t)) as [|Hs].
    { injection HA as <- <-. unfold histories. simpl. rewrite bool_decide_true by done.
      repeat split; intros; by rewrite Hst1. }
    unfold After in HA. rewrite Z.ltb_antisym, negb_involutive in HA.
    destruct (Z.leb_spec (ns (At t)) (ns (StartedAt last))); simpl.
    { injection HA as <- <-. unfold histories. simpl. rewrite bool_decide_true by done.
      repeat split; intros; by rewrite Hst1. }
    simpl store in HA. simpl observer in HA.
    destruct (CloseOpen m (At t) st1) as [r2 st2] eqn:HC.
    pose proof (CloseOpen_history _ _ _ _ _ Hw HC) as Hst2.
    destruct r2 as [[]|e].
    + destruct (open_new_history _ _ _ _ Hw HA) as [Hother Hm]. fold m in Hother, Hm.
      assert (history st2 m = close (ns (At t)) <$> h) as Hclosed.
      { rewrite Hst2. simpl. rewrite bool_decide_true by done. f_equal. apply Hst1. }
      rewrite snoc_changed by apply length_fmap.
      unfold histories in Hother, Hm. simpl in Hother, Hm. rewrite Hclosed in Hm. split.
      * intros m' Hm'. unfold histories. rewrite Hother by done.
        rewrite Hst2. simpl. rewrite bool_decide_false by done. apply Hst1.
      * destruct r; [exact Hm|split; [right; apply Hm|apply Hm]].
    + injection HA as <- <-. unfold histories. simpl in *.
      repeat split; [intros m' _|left]; rewrite Hst2; apply Hst1.
  - destruct (open_new_history _ _ _ _ Hw HA) as [Hother Hm]. fold m in Hother, Hm.
    rewrite snoc_changed by done. unfold histories in Hother, Hm. simpl in Hother, Hm.
    rewrite Hst1 in Hm. split.
    * intros m' Hm'. unfold histories. by rewrite Hother, Hst1 by done.
    * destruct r; [exact Hm|split; [left; apply Hm|apply Hm]].
Qed.

(** The worker on a list of messages, in the order the fan-out hands them over. *)
Section worker_refines.
Variable stateTopic : string.

Definition process := StateChangeWorker_Process (St := St) (O := O) stateTopic.

Fixpoint process_all (msgs : list Message) uc : list outcome * UseCase St O :=
  match msgs with
  | [] => ([], uc)
  | msg :: msgs =>
      let '(o, uc) := process msg uc in
      let '(os, uc) := process_all msgs uc in
      (o :: os, uc)
  end.

(** The timestamps of the state changes among the messages. *)
Definition times_are (P : Time → Prop) (msgs : list Message) : Prop :=
  ∀ msg t, msg ∈ msgs → MsgTopic msg = stateTopic →
    DecodeStateChange (MsgPayload msg) = Ok t → P (At t).

Lemma times_are_cons P msg msgs : times_are P (msg :: msgs) →
  times_are P [msg] ∧ times_are P msgs.
Proof.
  intros Hw. split; intros msg' t Hin; apply Hw; [|by right].
  apply list_elem_of_singleton in Hin as ->. by left.
Qed.

(** What the operations of the store keep, the worker keeps. *)
Section keeps.
Variables (I : St → Prop) (P : Time → Prop).
Hypothesis open_keeps : ∀ m s at_ st r st', P at_ → I st → OpenInterval m s at_ st = (r, st') → I st'.
Hypothesis close_keeps : ∀ m at_ st r st', P at_ → I st → CloseOpen m at_ st = (r, st') → I st'.
Hypothesis last_keeps : ∀ m st r st', I st → LastOpen m st = (r, st') → I st'.

Lemma Apply_keeps t uc r uc' : P (At t) → I (store uc) → Apply t uc = (r, uc') → I (store uc').
Proof.
  intros HP HI. unfold Apply.
  assert (∀ uc, I (store uc) → ∀ r uc', open_new t uc = (r, uc') → I (store uc')) as Hnew.
  { intros uc0 HI0 r0 uc0'. unfold open_new. destruct (OpenInterval _ _ _ _) as [r1 st1] eqn:HO.
    apply open_keeps in HO; [|done..]. by destruct r1; intros [= _ <-]. }
  destruct (LastOpen _ _) as [r1 st1] eqn:HL. apply last_keeps in HL; [|done].
  destruct r1 as [[last|]|]; [|by apply Hnew|by intros [= _ <-]].
  destruct (bool_decide _); [by intros [= _ <-]|]. destruct (negb _); [by intros [= _ <-]|].
  destruct (CloseOpen _ _ _) as [r2 st2] eqn:HC. apply close_keeps in HC; [|done..].
  destruct r2; [by apply Hnew|by intros [= _ <-]].
Qed.

Lemma process_keeps msg uc o uc' : times_are P [msg] →
  I (store uc) → process msg uc = (o, uc') → I (store uc').
Proof.
  intros Ht HI. unfold process, StateChangeWorker_Process.
  destruct (bool_decide_reflect (MsgTopic msg = stateTopic)) as [Htopic|]; [|by intros [= <- <-]]. simpl.
  pose proof (λ t, Ht msg t (list_elem_of_here _ _) Htopic) as HP.
  destruct (DecodeStateChange (MsgPayload msg)) as [t|]; [|by intros [= <- <-]].
  destruct (Apply t uc) as [r uc2] eqn:HA. apply Apply_keeps in HA; [|by apply HP|done].
  by destruct r; intros [= _ <-].
Qed.

Lemma process_all_keeps msgs uc os uc' : times_are P msgs →
  I (store uc) → process_all msgs uc = (os, uc') → I (store uc').
Proof.
  revert uc os. induction msgs as [|msg msgs IH]; intros uc os Ht HI; simpl; [by intros [= <- <-]|].
  apply times_are_cons in Ht as [Ht1 Ht].
  destruct (process msg uc) as [o uc1] eqn:Hp.
  destruct (process_all msgs uc1) as [os1 uc2] eqn:Hps. intros [= <- <-].
  eapply IH; [done| |exact Hps]. by eapply process_keeps.
Qed.
End keeps.

(** The transitions of machine [m] that the messages carry. *)
Definition transition_of (m : string) (msg : Message) : option StateTransition :=
  if bool_decide (MsgTopic msg = stateTopic) then
    match DecodeStateChange (MsgPayload msg) with
    | Ok t => if bool_decide (TransitionMachineID t = m) then Some t else None
    | Err _ => None
    end
  else None.

Lemma process_history msg uc o uc' m : times_are writable [msg] →
  (∀ m, one_open (histories uc m)) → process msg uc = (o, uc') →
  one_open (histories uc' m) ∧
  (o = Succeeded → histories uc' m =
    match transition_of m msg with Some t => record (histories uc m) t | None => histories uc m end).
Proof.
  intros Hw Hone Hp. unfold process, StateChangeWorker_Process, transition_of in *.
  destruct (bool_decide_reflect (MsgTopic msg = stateTopic)) as [Ht|]; simpl in Hp; [|by injection Hp as <- <-].
  pose proof (λ t, Hw msg t (list_elem_of_here _ _) Ht) as Hdec.
  destruct (DecodeStateChange (MsgPayload msg)) as [t|];
    [|by injection Hp as <- <-].
  destruct (Apply t uc) as [r uc1] eqn:HA.
  destruct (Apply_applied t uc r uc1 (Hdec t eq_refl) (Hone _) HA) as [Hother Hm].
  destruct (bool_decide_reflect (TransitionMachineID t = m)) as [<-|Hne].
  - destruct r as [[]|]; injection Hp as <- <-.
    + destruct Hm as [-> _]. split; [by apply record_one_open|done].
    + split; [|done]. destruct Hm as [[->| ->] _]; [done|].
      unfold one_open. rewrite close_none_open. simpl. lia.
  - rewrite <-(Hother m) by done. destruct r as [[]|]; injection Hp as <- <-;
      (split; [rewrite Hother by done; apply Hone|done]).
Qed.

Lemma process_all_history msgs uc os uc' : times_are writable msgs →
  (∀ m, one_open (histories uc m)) → process_all msgs uc = (os, uc') →
  (∀ m, one_open (histories uc' m)) ∧
  (Forall (λ o, o = Succeeded) os →
   ∀ m, histories uc' m = foldl record (histories uc m) (omap (transition_of m) msgs)).
Proof.
  revert uc os. induction msgs as [|msg msgs IH]; intros uc os Hw Hone; simpl.
  { by intros [= <- <-]. }
  apply times_are_cons in Hw as [Hw1 Hw].
  destruct (process msg uc) as [o uc1] eqn:Hp.
  destruct (process_all msgs uc1) as [os1 uc2] eqn:Hps. intros [= <- <-].
  assert (∀ m, one_open (histories uc1 m)) as Hone1
    by (intros m; eapply process_history; eauto).
  destruct (IH _ _ Hw Hone1 Hps) as [Hone2 Hh]. split; [done|].
  intros [-> Hos]%Forall_cons m. rewrite Hh by done.
  destruct (process_history _ _ _ _ m Hw1 Hone Hp) as [_ ->]; [|done].
  by destruct (transition_of m msg).
Qed.
End worker_refines.
End refines.

(** ** Chains of intervals *)

Lemma chronological_last k iv iv' :
  ns (StartedAt iv) = ns (StartedAt iv') → chronological (k ++ [iv]) → chronological (k ++ [iv']).
Proof.
  intros Hiv. induction k as [|a k IH]; [done|].
  destruct k as [|b k]; [simpl; by rewrite Hiv|]. intros [??]. split; [done|by apply IH].
Qed.

Lemma chronological_snoc k iv iv' :
  chronological (k ++ [iv]) → ends_by iv (ns (StartedAt iv')) → chronological (k ++ [iv; iv']).
Proof.
  intros Hk Hiv. induction k as [|a k IH]; [done|].
  destruct k as [|b k]; destruct Hk; split; auto.
Qed.

Lemma chain_chronological ivs : chain (span_of <$> ivs) → chronological ivs.
Proof.
  remember (span_of <$> ivs) as h eqn:Hh. intros Hch. revert ivs Hh.
  induction Hch as [|s t|h s t s' t' Hch IH Ht Hs]; intros ivs Hh.
  - by destruct ivs.
  - by destruct ivs as [|? [|]].
  - symmetry in Hh. apply fmap_app_inv in Hh as (k & ab & -> & Hk & ->).
    destruct ab as [|a [|b [|]]]; try discriminate. injection Hk as _ Ha Hend _ Hb _.
    symmetry in Hend. apply fmap_Some in Hend as (e & He & ->).
    apply chronological_snoc; [|exists e; split; [done|lia]].
    set (a' := {| IntervalMachineID := ""; State := s; StartedAt := StartedAt a;
                  EndedAt := None; Reason := "" |}).
    apply (chronological_last k a'); [done|]. apply IH.
    rewrite fmap_app, Ha. done.
Qed.

Lemma chronological_app_r k ivs : chronological (k ++ ivs) → chronological ivs.
Proof. induction k as [|iv k IH]; [done|]. intros Hch. by eapply IH, chronological_tail. Qed.

(** The intervals of a suffix of a chain. *)
Lemma chain_chronological_suffix old ivs :
  chain (old ++ (span_of <$> ivs)) → chronological ivs.
Proof.
  set (iv_of a := {| IntervalMachineID := ""; State := span_state a;
    StartedAt := {| ns := span_from a; loc := UTC |};
    EndedAt := (λ e, {| ns := e; loc := UTC |}) <$> span_to a; Reason := "" |}).
  assert (∀ h : list span, span_of <$> (iv_of <$> h) = h) as Hiv.
  { intros h. rewrite <-list_fmap_compose. rewrite <-(list_fmap_id h) at 2.
    apply list_fmap_ext. intros _ [s f o] _. unfold span_of, iv_of. simpl. by destruct o. }
  intros Hch. rewrite <-(Hiv old), <-fmap_app in Hch.
  by eapply chronological_app_r, chain_chronological.
Qed.

Lemma process_all_chains {St O} `{IntervalStoreSpec St, StateObserver O}
    stateTopic msgs (uc uc' : UseCase St O) os :
  times_are stateTopic writable msgs → (∀ m, chain (histories uc m)) →
  process_all stateTopic msgs uc = (os, uc') →
  (∀ m, one_open (histories uc' m)) ∧
  (Forall (λ o, o = Succeeded) os → ∀ m,
   histories uc' m = foldl record (histories uc m) (omap (transition_of stateTopic m) msgs) ∧
   chain (histories uc' m)).
Proof.
  intros Hw Hch Hp. destruct (process_all_history stateTopic msgs uc os uc') as [Hone Hh];
    [done|intros m; apply chain_one_open, Hch|done|].
  split; [done|]. intros Hos m. rewrite Hh by done. split; [done|].
  generalize (Hch m). generalize (histories uc m) as h.
  induction (omap _ msgs) as [|t ts IH]; intros h Hhch; simpl; [done|].
  by apply IH, record_chain.
Qed.

(** ** Properties *)

(** C36: With a store that keeps its promises, a timestamp it can write, and at
    most one open span of the machine, [Apply] refines [record]: when it returns [nil] the history of
    the machine is what [record] makes of it and the observer was told exactly
    when the history changed; when it returns an error the history is as
    before or with its open span closed, and the observer was not told.  The
    other machines are never touched. *)
Theorem Apply_refines {St O} `{IntervalStoreSpec St, StateObserver O}
    (t : StateTransition) (uc uc' : UseCase St O) r :
  writable (At t) → one_open (histories uc (TransitionMachineID t)) → Apply t uc = (r, uc') →
  applied t uc r uc'.
Proof. apply Apply_applied. Qed.

(** C14: The worker, given any messages with timestamps the store can write,
    never leaves a machine with two open spans, whatever calls of the store fail; and when no call fails the history
    of every machine is that of [record] folded over its valid transitions
    among the messages of the state topic, and stays a chain: contiguous,
    without overlaps, of alternating states, the last span open. *)
Theorem states_ingested {St O} `{IntervalStoreSpec St, StateObserver O}
    stateTopic msgs (uc uc' : UseCase St O) os :
  times_are stateTopic writable msgs → (∀ m, chain (histories uc m)) →
  process_all stateTopic msgs uc = (os, uc') →
  (∀ m, one_open (histories uc' m)) ∧
  (Forall (λ o, o = Succeeded) os → ∀ m,
   histories uc' m = foldl record (histories uc m) (omap (transition_of stateTopic m) msgs) ∧
   chain (histories uc' m)).
Proof. apply process_all_chains. Qed.

(** ** A store in memory, whose operations fail when an oracle says so *)

Record memory_store := {
  failures : list bool;         (* whether the next operations fail *)
  table : gmap string (list StateInterval);
}.

Definition fails (st : memory_store) : bool * memory_store :=
  match failures st with
  | [] => (false, st)
  | b :: bs => (b, {| failures := bs; table := table st |})
  end.

Definition intervals_of (st : memory_store) (m : string) : list StateInterval :=
  default [] (table st !! m).

Definition write (m : string) (f : list StateInterval → list StateInterval) (st : memory_store) :
    result unit unit * memory_store :=
  let '(b, st) := fails st in
  if b then (Err tt, st)
  else (Ok tt, {| failures := failures st; table := <[m := f (intervals_of st m)]> (table st) |}).

#[export] Instance memory_IntervalStore : IntervalStore memory_store := {|
  OpenInterval m s t := write m (λ ivs, ivs ++
    [{| IntervalMachineID := m; State := s; StartedAt := t; EndedAt := None; Reason := "" |}]);
  CloseOpen m t := write m (fmap (close_interval t));
  LastOpen m st :=
    let '(b, st) := fails st in
    if b then (Err tt, st) else (Ok (List.find IsOpen (intervals_of st m)), st)
|}.

Lemma is_open_span iv : is_open (span_of iv) = IsOpen iv.
Proof. unfold is_open, span_of, IsOpen. simpl. by destruct (EndedAt iv). Qed.

Lemma fails_table st b st' : fails st = (b, st') → table st' = table st.
Proof. unfold fails. destruct (failures st); by intros [= _ <-]. Qed.

Lemma write_history m f st r st' m' : write m f st = (r, st') →
  intervals_of st' m' =
    if is_ok r && bool_decide (m' = m) then f (intervals_of st m) else intervals_of st m'.
Proof.
  unfold write, intervals_of. destruct (fails st) as [b st1] eqn:Hf.
  rewrite <-(fails_table _ _ _ Hf). destruct b; intros [= <- <-]; simpl; [done|].
  destruct (bool_decide_reflect (m' = m)) as [->|]; [by rewrite lookup_insert_eq|].
  by rewrite lookup_insert_ne.
Qed.

#[export, refine] Instance memory_IntervalStoreSpec : IntervalStoreSpec memory_store := {|
  history st m := span_of <$> intervals_of st m;
  writable _ := True
|}.
Proof.
  - intros m s t st r st' _ Hw m'. rewrite (write_history _ _ _ _ _ m' Hw).
    case_match; [by rewrite fmap_app|done].
  - intros m t st r st' _ Hw m'. rewrite (write_history _ _ _ _ _ m' Hw).
    case_match; [|done]. rewrite <-!list_fmap_compose. apply list_fmap_ext. intros _ iv _. simpl.
    unfold close, close_interval. rewrite is_open_span. unfold IsOpen.
    by destruct (EndedAt iv) eqn:He; unfold span_of; rewrite ?He.
  - intros m st r st'. simpl. destruct (fails st) as [b st1] eqn:Hf.
    unfold intervals_of. destruct b; intros [= <- <-];
      (split; [intros m'; by rewrite (fails_table _ _ _ Hf)|]); [done|].
    intros o [= <-] _. rewrite (fails_table _ _ _ Hf).
    induction (default [] (table st !! m)) as [|iv ivs IH]; simpl; [done|].
    rewrite is_open_span. by destruct (IsOpen iv).
Defined.

(** ** Concrete runs *)

#[export] Instance list_observer : StateObserver (list StateTransition) := λ t ts, ts ++ [t].

Definition sample_transition (s : MachineState) (sec : Z) : StateTransition := {|
  TransitionMachineID := "CNC-01"; NewState := s; PreviousState := ""; TransitionReason := "";
  At := at_unix sec
|}.

Definition sample_uc (failures : list bool) (ivs : list StateInterval) :
    UseCase memory_store (list StateTransition) :=
  {| store := {| failures := failures; table := {["CNC-01" := ivs]} |}; observer := [] |}.

Lemma Apply_refines_witness :
  let uc := sample_uc [] [sample_interval Running 0 None] in
  let t := sample_transition Stopped 100 in
  applied t uc (Apply t uc).1 (Apply t uc).2 ∧
  histories (Apply t uc).2 "CNC-01" =
    [close (100 * Second) (opened Running 0); opened Stopped (100 * Second)] ∧
  observer (Apply t uc).2 = [t].
Proof.
  split; [|by vm_compute].
  apply (Apply_refines (sample_transition Stopped 100) (sample_uc [] [sample_interval Running 0 None]));
    [exact I| |apply surjective_pairing].
  unfold one_open. vm_compute. lia.
Defined.

Definition state_message (state : string) (sec : Z) : Message := {|
  MsgClientID := "edge"; MsgTopic := "machine/state"; MsgPayload := sample_text state sec;
  Timezone := "UTC"; Timestamp := 0
|}.

(** Running at 10, stopped at 20, an unknown state, stopped again, idle at an
    older time, and idle at 30. *)
Definition sample_messages : list Message :=
  [state_message Running 10; state_message Stopped 20; state_message "unknown" 21;
   state_message Stopped 22; state_message Idle 5; state_message Idle 30].

Definition sample_run :=
  process_all "machine/state" sample_messages (sample_uc [] []).

(** A check of the timestamps of given messages. *)
Lemma times_are_check topic (P : Time → Prop) `{!∀ t, Decision (P t)} msgs :
  forallb (λ msg, match DecodeStateChange (MsgPayload msg) with
    | Ok t => bool_decide (P (At t)) | Err _ => true end) msgs = true →
  times_are topic P msgs.
Proof.
  intros Hc msg t Hin _ Hd. rewrite forallb_forall in Hc.
  specialize (Hc msg (proj1 (list_elem_of_In _ _) Hin)). rewrite Hd in Hc. by apply bool_decide_eq_true in Hc.
Qed.

Lemma memory_writable topic msgs : times_are topic (writable (St:=memory_store)) msgs.
Proof. intros ? ? _ _ _. exact I. Qed.

Lemma ingested_run_eq : process_all "machine/state" sample_messages (sample_uc [] []) =
  (sample_run.1, sample_run.2).
Proof. unfold sample_run. apply surjective_pairing. Qed.

Lemma all_succeeded os : bool_decide (Forall (λ o, o = Succeeded) os) = true →
  Forall (λ o, o = Succeeded) os.
Proof. apply bool_decide_eq_true. Qed.

Lemma states_ingested_witness :
  ((∀ m, one_open (histories sample_run.2 m)) ∧
   (Forall (λ o, o = Succeeded) sample_run.1 → ∀ m,
    histories sample_run.2 m =
      foldl record (histories (sample_uc [] []) m)
        (omap (transition_of "machine/state" m) sample_messages) ∧
    chain (histories sample_run.2 m))) ∧
  Forall (λ o, o = Succeeded) sample_run.1 ∧
  histories sample_run.2 "CNC-01" =
    [close (20 * Second) (opened Running (10 * Second));
     close (30 * Second) (opened Stopped (20 * Second)); opened Idle (30 * Second)].
Proof.
  split; [|split; [apply all_succeeded; vm_compute; reflexivity|vm_compute; reflexivity]].
  refine (states_ingested "machine/state" sample_messages (sample_uc [] []) sample_run.2 sample_run.1
    (memory_writable _ _) _ ingested_run_eq).
  intros m. unfold histories. simpl. unfold intervals_of. simpl.
  destruct (decide (m = "CNC-01")) as [->|]; [apply chain_nil|].
  rewrite lookup_singleton_ne by done. apply chain_nil.
Defined.

(** A transition whose [OpenInterval] fails after [CloseOpen] succeeded
    leaves the machine without an open interval; the next transition is then
    accepted whatever its time is, and the intervals overlap. *)
Theorem failed_open_overlaps :
  let uc := sample_uc [false; false; true] [sample_interval Running 0 None] in
  let uc1 := (Apply (sample_transition Stopped 100) uc).2 in
  let uc2 := (Apply (sample_transition Idle 50) uc1).2 in
  (Apply (sample_transition Stopped 100) uc).1 = Err tt ∧
  (Apply (sample_transition Idle 50) uc1).1 = Ok tt ∧
  histories uc2 "CNC-01" =
    [close (100 * Second) (opened Running 0); opened Idle (50 * Second)] ∧
  ¬ all_apart (intervals_of (store uc2) "CNC-01").
Proof.
  intros uc uc1 uc2. split_and!; [by vm_compute..|].
  assert (intervals_of (store uc2) "CNC-01" =
    [sample_interval Running 0 (Some 100); sample_interval Idle 50 None]) as -> by reflexivity.
  intros [[Hap _]%Forall_cons _]. by apply (Hap (60 * Second)).
Qed.
