(* ===== verification/Live.v ===== *)
(** * The live availability engine

    [oee/availability/features/live/application]: the engine accumulates the
    intervals of each machine as the transitions come in and, at every tick,
    sends a snapshot of each machine to a sink.  It is the observer of
    [IngestState].

    A tick copies the accumulators under the lock and computes from the copy:
    it is one step here, and only replaces the end of intervals of the copy,
    so the accumulators do not change.  The order in which Go's [range] visits
    the map is a parameter of the tick. *)

From S2P Require Export IngestState.

Local Open Scope Z_scope.

(** ** Ports (interface.go) *)

(** [ForMachineWindow]: the planned time, and whether a shift was found. *)
Class ShiftReader (R : Type) := ForMachineWindow : R → string → Window → result unit (Z * bool).

Class AvailabilitySink (K : Type) := Update : AvailabilitySnapshot → K → result unit unit * K.

(** ** State (new_engine.go) *)

Record machineData := { intervals : list StateInterval; windowStart : Time }.

Record Engine := { machines : gmap string machineData; tickInterval : Z }.

Definition NewEngine (tickInterval : Z) : Engine :=
  {| machines := ∅; tickInterval := tickInterval |}.

(** ** Operations (engine.go) *)

(** [intervals[n-1].EndedAt = &ts] for an open last interval. *)
Definition close_last (ts : Time) (ivs : list StateInterval) : list StateInterval :=
  match last ivs with
  | Some iv => if IsOpen iv then removelast ivs ++ [close_interval ts iv] else ivs
  | None => ivs
  end.

Definition new_interval (t : StateTransition) : StateInterval := {|
  IntervalMachineID := TransitionMachineID t; State := NewState t; StartedAt := At t;
  EndedAt := None; Reason := ""
|}.

(** The new accumulator of a machine: the last open interval is closed and the
    next one opened; the window starts with the first transition. *)
Definition accumulate (t : StateTransition) (data : option machineData) : machineData :=
  let data := default {| intervals := []; windowStart := At t |} data in
  {| intervals := close_last (At t) (intervals data) ++ [new_interval t];
     windowStart := windowStart data |}.

Definition Engine_Apply (t : StateTransition) (e : Engine) : Engine :=
  let id := TransitionMachineID t in
  {| machines := <[id := accumulate t (machines e !! id)]> (machines e);
     tickInterval := tickInterval e |}.

#[export] Instance Engine_observer : StateObserver Engine := Engine_Apply.

Section store.
Context {St : Type} `{IntervalStore St}.

(** One machine of the loop of [rehydrate]; a failed read is logged. *)
Definition rehydrate_one (id : string) (e : Engine) (st : St) : Engine * St :=
  match machines e !! id with
  | Some _ => (e, st)
  | None =>
      let '(r, st) := LastOpen id st in
      match r with
      | Err _ | Ok None => (e, st)
      | Ok (Some iv) =>
          ({| machines := <[id := {| intervals := [iv]; windowStart := StartedAt iv |}]> (machines e);
              tickInterval := tickInterval e |}, st)
      end
  end.

Fixpoint rehydrate (machineIDs : list string) (e : Engine) (st : St) : Engine * St :=
  match machineIDs with
  | [] => (e, st)
  | id :: machineIDs =>
      let '(e, st) := rehydrate_one id e st in
      rehydrate machineIDs e st
  end.
End store.

Section tick.
Context {R K : Type} `{ShiftReader R, AvailabilitySink K}.
Implicit Types (shifts : R) (sink : K) (now : Time).

(** The snapshot of one machine; [None] when the shift cannot be read. *)
Definition snapshot shifts now (id : string) (data : machineData) : option AvailabilitySnapshot :=
  let clipped := close_last now (intervals data) in
  let window := {| From := windowStart data; To := now |} in
  match ForMachineWindow shifts id window with
  | Err _ => None
  | Ok (planned, _) =>
      let i := Aggregate window clipped planned in
      let r := Availability i in
      Some {|
        SnapshotMachineID := id; WindowFrom := From window; WindowTo := now;
        SnapshotAvailability := ResAvailability r; SnapshotPlannedTime := PlannedTime r;
        SnapshotRunTime := RunTime r; SnapshotPlannedDowntime := PlannedDowntime r;
        SnapshotUnplannedDowntime := UnplannedDowntime r;
        SnapshotIntervalCount := IntervalCount i; SnapshotHasData := HasData r;
        ComputedAt := now;
        Flags := {| ShiftConfigMissing := false; OpenIntervalClipped := false;
                    NoData := negb (HasData r) |}
      |}
  end.

(** One round of the loop over the copied map; what is logged is dropped. *)
Definition tick_one shifts now (m : gmap string machineData) sink (id : string) : K :=
  match m !! id with
  | None => sink
  | Some data =>
      match snapshot shifts now id data with
      | None => sink
      | Some s => (Update s sink).2
      end
  end.

(** [tick], visiting the machines in the order [ids]. *)
Definition tick shifts now (ids : list string) (e : Engine) sink : K :=
  foldl (tick_one shifts now (machines e)) sink ids.

(** An order in which [range] can visit the machines. *)
Definition visits (ids : list string) (e : Engine) : Prop :=
  NoDup ids ∧ ∀ id, id ∈ ids ↔ is_Some (machines e !! id).
End tick.

(** ** The engine follows the store *)

(** The spans the engine holds for a machine are the last ones of its history
    in the store, from [windowStart] on. *)
Definition follows_history (d : machineData) (h : list span) : Prop :=
  ∃ old, h = old ++ (span_of <$> intervals d) ∧ intervals d ≠ [] ∧
    ns (windowStart d) = from_option (λ iv, ns (StartedAt iv)) 0 (head (intervals d)).

Definition data_follows (od : option machineData) (h : list span) : Prop :=
  match od with Some d => follows_history d h | None => True end.

Lemma close_interval_span t iv : span_of (close_interval t iv) = close (ns t) (span_of iv).
Proof.
  unfold close, close_interval. rewrite is_open_span. unfold IsOpen, span_of.
  by destruct (EndedAt iv) eqn:He; simpl; rewrite ?He.
Qed.

Lemma close_last_snoc t ivs iv :
  close_last t (ivs ++ [iv]) = if IsOpen iv then ivs ++ [close_interval t iv] else ivs ++ [iv].
Proof. unfold close_last. by rewrite last_snoc, removelast_last. Qed.

(** The open span of a chain is the last interval of an engine that follows it. *)
Lemma follows_last d h : follows_history d h → chain h →
  ∃ ivs iv k, intervals d = ivs ++ [iv] ∧ IsOpen iv = true ∧
    h = k ++ [span_of iv] ∧ Forall (λ a, is_open a = false) k ∧
    ∃ old, k = old ++ (span_of <$> ivs).
Proof.
  intros (old & -> & Hne & _) [Hnil|(k & s & t & Heq & Hk)]%chain_inv.
  { apply app_eq_nil in Hnil as [_ Hnil%fmap_nil_inv]. done. }
  destruct (exists_last Hne) as (ivs & iv & Hivs). rewrite Hivs in Heq.
  rewrite fmap_app, app_assoc in Heq. apply app_inj_tail in Heq as [Hold Hiv].
  exists ivs, iv, k. split; [done|]. split; [by rewrite <-is_open_span, Hiv|].
  split; [by rewrite Hivs, fmap_app, app_assoc, Hold|]. eauto.
Qed.

Lemma accumulate_follows t od h :
  chain h → data_follows od h → record h t ≠ h → follows_history (accumulate t od) (record h t).
Proof.
  intros Hch Hd Hrec. destruct od as [d|]; simpl in Hd.
  - destruct (follows_last d h Hd Hch) as (ivs & iv & k & Hivs & Hopen & -> & Hk & old & ->).
    destruct Hd as (old' & Hh & Hne & Hw).
    unfold record in Hrec |- *. rewrite (find_snoc _ (span_of iv)) in Hrec |- *
      by (done || by rewrite is_open_span).
    destruct (bool_decide _ || _); [done|].
    exists old. simpl. rewrite Hivs, close_last_snoc, Hopen. split_and!.
    + rewrite fmap_app, (close_closed _ (_ ++ _)) by done. rewrite !fmap_app.
      rewrite <-!app_assoc. do 2 f_equal. simpl. by rewrite close_interval_span.
    + by destruct ivs.
    + rewrite Hw, Hivs. destruct ivs; simpl; [unfold close_interval; by rewrite Hopen|done].
  - unfold record in *. destruct (List.find is_open h) as [a|].
    + destruct (_ || _); [done|]. by exists (close (ns (At t)) <$> h).
    + by exists h.
Qed.

Section follows.
Context {St : Type} `{IntervalStoreSpec St}.
Implicit Types uc : UseCase St Engine.

(** Every history is a chain, and the engine follows it. *)
Definition in_sync uc : Prop :=
  ∀ m, chain (histories uc m) ∧ data_follows (machines (observer uc) !! m) (histories uc m).

Lemma Apply_in_sync t uc uc' : writable (At t) →
  in_sync uc → Apply t uc = (Ok tt, uc') → in_sync uc'.
Proof.
  intros Hw Hs HA m. destruct (Hs (TransitionMachineID t)) as [Hch Hd].
  destruct (Apply_applied t uc _ uc' Hw (chain_one_open _ Hch) HA) as [Hother [Hh Hobs]].
  destruct (bool_decide_reflect (record (histories uc (TransitionMachineID t)) t =
    histories uc (TransitionMachineID t))) as [Hsame|Hnew].
  - rewrite Hobs. destruct (decide (m = TransitionMachineID t)) as [->|].
    + by rewrite Hh, Hsame.
    + rewrite Hother by done. apply Hs.
  - rewrite Hobs. unfold Notify, Engine_observer, Engine_Apply. simpl.
    destruct (decide (m = TransitionMachineID t)) as [->|].
    + rewrite lookup_insert_eq, Hh. split; [by apply record_chain|]. by apply accumulate_follows.
    + rewrite lookup_insert_ne, Hother by done. apply Hs.
Qed.

Lemma process_in_sync topic msg uc uc' : times_are topic writable [msg] →
  in_sync uc → process topic msg uc = (Succeeded, uc') → in_sync uc'.
Proof.
  intros Hw Hs. unfold process, StateChangeWorker_Process.
  destruct (bool_decide_reflect (MsgTopic msg = topic)) as [Ht|]; [|by intros [= <-]]. simpl.
  pose proof (λ t, Hw msg t (list_elem_of_here _ _) Ht) as Hdec.
  destruct (DecodeStateChange (MsgPayload msg)) as [t|]; [|by intros [= <-]].
  destruct (Apply t uc) as [[[]|] uc1] eqn:HA; [|done]. intros [= <-].
  eapply Apply_in_sync; [|done|done]. by apply Hdec.
Qed.

Lemma process_all_in_sync topic msgs uc os uc' : times_are topic writable msgs →
  in_sync uc → process_all topic msgs uc = (os, uc') →
  Forall (λ o, o = Succeeded) os → in_sync uc'.
Proof.
  revert uc os. induction msgs as [|msg msgs IH]; intros uc os Hw Hs; simpl.
  { by intros [= <- <-]. }
  apply times_are_cons in Hw as [Hw1 Hw].
  destruct (process topic msg uc) as [o uc1] eqn:Hp.
  destruct (process_all topic msgs uc1) as [os1 uc2] eqn:Hps. intros [= <- <-].
  intros [-> Hos]%Forall_cons. eapply IH; [done|by eapply process_in_sync|done|done].
Qed.

(** [rehydrate] starts the engine in sync with a store it can be read from. *)
Lemma rehydrate_in_sync ids e st e' st' :
  in_sync {| store := st; observer := e |} → rehydrate ids e st = (e', st') →
  in_sync {| store := st'; observer := e' |}.
Proof.
  revert e st. induction ids as [|id ids IH]; intros e st Hs; simpl.
  { by intros [= <- <-]. }
  destruct (rehydrate_one id e st) as [e1 st1] eqn:Hone. apply IH. revert Hone.
  unfold rehydrate_one. destruct (machines e !! id); [by intros [= <- <-]|].
  destruct (LastOpen id st) as [r st2] eqn:HL.
  destruct (LastOpen_history _ _ _ _ HL) as [Hst Hlast].
  assert (in_sync {| store := st2; observer := e |}) as Hs2
    by (intros m; unfold histories; simpl; rewrite Hst; apply Hs).
  destruct r as [[iv|]|]; [|by intros [= <- <-]..]. intros [= <- <-] m.
  destruct (Hs2 m) as [Hch Hd]. split; [done|]. simpl in *.
  destruct (decide (id = m)) as [->|]; [|by rewrite lookup_insert_ne].
  rewrite lookup_insert_eq. simpl. unfold histories in *. simpl in *. rewrite Hst in *.
  specialize (Hlast _ eq_refl (chain_one_open _ Hch)). simpl in Hlast.
  destruct (chain_inv _ Hch) as [Hnil|(k & s & t & Heq & Hk)]; [by rewrite Hnil in Hlast|].
  rewrite Heq, find_snoc in Hlast by done.
  assert (span_of iv = opened s t) as Hiv by congruence.
  exists k. simpl. rewrite Heq. split_and!; [by rewrite Hiv|done..].
Qed.
End follows.

(** ** Snapshots *)

(** What a snapshot of a window shows of the history of its machine. *)
Record shows (h : list span) (w : Window) (planned : Z) (s : AvailabilitySnapshot) : Prop := {
  shows_from : WindowFrom s = From w;
  shows_to : WindowTo s = To w ∧ ComputedAt s = To w;
  shows_data : SnapshotHasData s = bool_decide (planned ≠ 0) ∧
    Flags s = {| ShiftConfigMissing := false; OpenIntervalClipped := false;
                 NoData := bool_decide (planned = 0) |};
  shows_planned_down : planned ≠ 0 →
    SnapshotPlannedDowntime s = measure (down_span planned_stop h) w;
  shows_unplanned_down : planned ≠ 0 →
    SnapshotUnplannedDowntime s = measure (down_span unplanned_stop h) w;
  shows_run : planned ≠ 0 →
    SnapshotPlannedTime s = planned ∧
    SnapshotRunTime s = Z.max 0 (planned - measure (down_span planned_stop h) w
                                         - measure (down_span unplanned_stop h) w);
  shows_range : SFleb Fzero (SnapshotAvailability s) = true ∧
    SFleb (SnapshotAvailability s) Fone = true;
}.

Lemma close_last_same w ivs : Forall2 (same_part w) ivs (close_last (To w) ivs).
Proof.
  assert (Forall2 (same_part w) ivs ivs) as Hrefl by (induction ivs; constructor; done).
  destruct (exists_last_or_nil ivs) as [->|(k & iv & ->)]; [done|].
  rewrite close_last_snoc. destruct (IsOpen iv); [|done].
  apply Forall2_app_inv_l in Hrefl as (k1 & k2 & H1 & H2 & Heq).
  apply Forall2_app; [|apply Forall2_cons; split; [apply close_interval_same|done]].
  clear. induction k; constructor; done.
Qed.

(** The window of an engine that follows a history starts with a span of it. *)
Lemma follows_down d h kind now :
  chain h → follows_history d h →
  let w := {| From := windowStart d; To := now |} in
  measure (down_at kind (intervals d)) w = measure (down_span kind h) w.
Proof.
  intros Hch (old & -> & Hne & Hw) w. apply measure_ext. intros t [Ht _]. rewrite down_at_span.
  destruct (intervals d) as [|iv ivs]; [done|]. simpl in Hw, Ht.
  symmetry. apply down_span_drop; [by apply chain_sorted|simpl; lia].
Qed.

Section snapshots.
Context {R K : Type} `{ShiftReader R, AvailabilitySink K}.
Implicit Types (shifts : R) (sink : K).

Lemma snapshot_shows shifts now id d h planned found :
  let w := {| From := windowStart d; To := now |} in
  chain h → follows_history d h →
  short_window w → Z.of_nat (length (intervals d)) ≤ int64_max →
  ForMachineWindow shifts id w = Ok (planned, found) → 0 ≤ planned ≤ int64_max →
  ∃ s, snapshot shifts now id d = Some s ∧ SnapshotMachineID s = id ∧ shows h w planned s.
Proof.
  intros w Hch Hd Hw Hlen Hplan Hp. unfold snapshot. fold w. rewrite Hplan.
  rewrite <-(Aggregate_same w (intervals d) (close_last now (intervals d)))
    by apply (close_last_same w).
  assert (chronological (intervals d)) as Hchr.
  { destruct Hd as (old & -> & _). apply chain_chronological_suffix in Hch. done. }
  pose proof (Aggregate_aggregated w (intervals d) planned Hw
    (chronological_apart _ Hchr) Hlen) as [Ha1 Ha2 Ha3 Ha4 Ha5].
  set (i := Aggregate w (intervals d) planned) in *.
  pose proof (measure_range (down_span planned_stop h) w).
  pose proof (measure_range (down_span unplanned_stop h) w).
  unfold w in Ha2, Ha3. rewrite (follows_down d h) in Ha2, Ha3 by done. fold w in Ha2, Ha3.
  assert (downtime i ≤ int64_max) as Hdown
    by (unfold downtime, short_window, int64_max in *; lia).
  destruct (Availability_available i) as [Hv1 Hv2 Hv3 Hv4 Hv5 Hv6 _ _ _ _]; [lia..|].
  rewrite Ha1 in Hv1, Hv2, Hv3.
  assert (planned ≠ 0 → HasData (Availability i) = true) as Hdata
    by (intros; rewrite Hv1; by apply bool_decide_eq_true).
  eexists. split; [done|]. split; [done|].
  split; simpl; [done|done| |intros Hne; specialize (Hdata Hne)..|done].
  - split; [done|]. f_equal. rewrite Hv1. symmetry.
    by destruct (bool_decide_reflect (planned = 0)), (bool_decide_reflect (planned ≠ 0)).
  - by rewrite Hv4.
  - by rewrite Hv5.
  - rewrite Hv2, Hv3 by done. split; [done|]. unfold downtime. lia.
Qed.

(** The snapshots of a tick, in the order of the visits. *)
Definition snapshots shifts now (ids : list string) (e : Engine) : list AvailabilitySnapshot :=
  omap (λ id, machines e !! id ≫= snapshot shifts now id) ids.

Lemma tick_snapshots shifts now ids e sink :
  tick shifts now ids e sink = foldl (λ k s, (Update s k).2) sink (snapshots shifts now ids e).
Proof.
  unfold tick. revert sink. induction ids as [|id ids IH]; intros sink; simpl; [done|].
  rewrite IH. unfold tick_one, snapshots. simpl.
  destruct (machines e !! id) as [d|]; simpl; [|done]. by destruct (snapshot shifts now id d).
Qed.

Lemma snapshots_machine shifts now ids e id s :
  NoDup ids → machines e !! id ≫= snapshot shifts now id = Some s → id ∈ ids →
  filter (λ s, SnapshotMachineID s = id) (snapshots shifts now ids e) = [s].
Proof.
  assert (∀ id' s', machines e !! id' ≫= snapshot shifts now id' = Some s' →
    SnapshotMachineID s' = id') as Hid.
  { intros id' s' Hs'. apply bind_Some in Hs' as (d & _ & Hs'). unfold snapshot in Hs'.
    destruct (ForMachineWindow _ _ _) as [[]|]; [|done]. by injection Hs' as <-. }
  intros Hnd Hs. induction Hnd as [|id' ids Hid' Hnd IH]; [by intros ?%elem_of_nil|].
  intros [->|Hin]%elem_of_cons; unfold snapshots; simpl.
  - rewrite Hs. rewrite filter_cons_True by by apply Hid. f_equal. apply filter_none.
    apply Forall_forall. intros s' (id'' & Hin & Hs')%list_elem_of_omap Heq.
    apply Hid in Hs'. congruence.
  - destruct (machines e !! id' ≫= _) as [s'|] eqn:Hs'; simpl; [|by apply IH].
    rewrite filter_cons_False; [by apply IH|]. apply Hid in Hs'. intros Heq. congruence.
Qed.
End snapshots.

(** ** Properties *)

(** C16: The engine follows the store: when the worker's calls succeed, on
    timestamps the store can write, the spans the engine holds for a machine
    stay the last ones of its persisted history, from the start of the
    engine's window on, and the history stays a chain. *)
Theorem live_follows_store {St} `{IntervalStoreSpec St} topic msgs
    (uc uc' : UseCase St Engine) os :
  times_are topic writable msgs → in_sync uc → process_all topic msgs uc = (os, uc') →
  Forall (λ o, o = Succeeded) os → in_sync uc'.
Proof. apply process_all_in_sync. Qed.

Definition live_uc (failures : list bool) (ivs : list StateInterval) :
    UseCase memory_store Engine :=
  {| store := {| failures := failures; table := {["CNC-01" := ivs]} |};
     observer := NewEngine Second |}.

Lemma live_uc_in_sync : in_sync (live_uc [] []).
Proof.
  intros m. unfold histories. simpl. unfold intervals_of. simpl. split; [|by rewrite lookup_empty].
  destruct (decide (m = "CNC-01")) as [->|]; [apply chain_nil|].
  rewrite lookup_singleton_ne by done. apply chain_nil.
Qed.

Definition live_run := process_all "machine/state" sample_messages (live_uc [] []).

Lemma live_run_eq : process_all "machine/state" sample_messages (live_uc [] []) =
  (live_run.1, live_run.2).
Proof. unfold live_run. apply surjective_pairing. Qed.

Lemma live_run_in_sync : in_sync live_run.2.
Proof.
  refine (process_all_in_sync "machine/state" sample_messages (live_uc [] []) live_run.1 live_run.2
    (memory_writable _ _) live_uc_in_sync live_run_eq _).
  apply all_succeeded. vm_compute. reflexivity.
Qed.

Lemma live_follows_store_witness :
  in_sync live_run.2 ∧
  fmap (λ d, span_of <$> intervals d) (machines (observer live_run.2) !! "CNC-01") =
    Some (histories live_run.2 "CNC-01").
Proof.
  split; [|by vm_compute].
  refine (live_follows_store "machine/state" sample_messages (live_uc [] []) live_run.2 live_run.1
    (memory_writable _ _) live_uc_in_sync live_run_eq _).
  apply all_succeeded. vm_compute. reflexivity.
Defined.

(** [rehydrate] keeps an engine in sync with its store, whatever machines
    it is asked for and whichever reads fail: what it tracks of a machine are
    the last spans of its history. *)
Theorem rehydrate_follows_store {St} `{IntervalStoreSpec St} ids (e e' : Engine) (st st' : St) :
  in_sync {| store := st; observer := e |} → rehydrate ids e st = (e', st') →
  in_sync {| store := st'; observer := e' |}.
Proof. apply rehydrate_in_sync. Qed.

Lemma rehydrate_follows_store_witness :
  let st := store live_run.2 in
  let r := rehydrate ["CNC-01"; "CNC-02"] (NewEngine Second) st in
  in_sync {| store := r.2; observer := r.1 |} ∧
  fmap (λ d, span_of <$> intervals d) (machines r.1 !! "CNC-01") =
    Some [opened Idle (30 * Second)].
Proof.
  split; [|by vm_compute].
  apply (rehydrate_follows_store ["CNC-01"; "CNC-02"] (NewEngine Second) _ (store live_run.2));
    [|apply surjective_pairing].
  intros m. split; [exact (proj1 (live_run_in_sync m))|exact I].
Defined.

(** The snapshot of a machine whose accumulator follows its history shows
    that history: over the window from the accumulator's start to now, the
    planned and unplanned downtimes are the time the history spends in planned
    and unplanned stops, the run time is what they leave of the planned time,
    the availability is between 0 and 1, and the no-data flag is set exactly
    without planned time. *)
Theorem snapshot_correct {R} `{ShiftReader R} (shifts : R) now id d h planned found :
  let w := {| From := windowStart d; To := now |} in
  chain h → follows_history d h →
  short_window w → Z.of_nat (length (intervals d)) ≤ int64_max →
  ForMachineWindow shifts id w = Ok (planned, found) → 0 ≤ planned ≤ int64_max →
  ∃ s, snapshot shifts now id d = Some s ∧ SnapshotMachineID s = id ∧ shows h w planned s.
Proof. apply snapshot_shows. Qed.

(** A shift without breaks around the clock: all of a window is planned. *)
#[export] Instance all_day : ShiftReader unit := λ _ _ w, Ok (ns (To w) - ns (From w), true).

Definition live_data : machineData :=
  default {| intervals := []; windowStart := at_unix 0 |}
    (machines (observer live_run.2) !! "CNC-01").

Lemma snapshot_correct_witness :
  let now := at_unix 40 in
  let w := {| From := windowStart live_data; To := now |} in
  (∃ s, snapshot tt now "CNC-01" live_data = Some s ∧ SnapshotMachineID s = "CNC-01" ∧
    shows (histories live_run.2 "CNC-01") w (30 * Second) s) ∧
  (λ s, (SnapshotUnplannedDowntime s, SnapshotRunTime s)) <$>
    snapshot tt now "CNC-01" live_data = Some (10 * Second, 20 * Second).
Proof.
  intros now w. split; [|by vm_compute].
  destruct (live_run_in_sync "CNC-01") as [Hch Hd].
  refine (snapshot_correct tt now "CNC-01" live_data _ (30 * Second) true Hch _ _ _ _ _).
  - assert (machines (observer live_run.2) !! "CNC-01" = Some live_data) as Hm
      by (vm_compute; reflexivity).
    by rewrite Hm in Hd.
  - vm_compute. discriminate.
  - vm_compute. discriminate.
  - vm_compute. reflexivity.
  - split; vm_compute; discriminate.
Defined.

(** The snapshot of a machine whose accumulator follows its history always
    comes from an open interval, which is closed at the time of the tick, and
    never says so: [OpenIntervalClipped] is false in all of them. *)
Theorem clipped_unflagged {R} `{ShiftReader R} (shifts : R) now id d h s :
  chain h → follows_history d h → snapshot shifts now id d = Some s →
  ∃ ivs iv, intervals d = ivs ++ [iv] ∧ IsOpen iv = true ∧
    close_last now (intervals d) = ivs ++ [close_interval now iv] ∧
    OpenIntervalClipped (Flags s) = false.
Proof.
  intros Hch Hd Hs. destruct (follows_last d h Hd Hch) as (ivs & iv & _ & Hivs & Ho & _).
  exists ivs, iv. split; [done|]. split; [done|]. rewrite Hivs, close_last_snoc, Ho. split; [done|].
  unfold snapshot in Hs. destruct (ForMachineWindow _ _ _) as [[]|]; [|done]. by injection Hs as <-.
Qed.

Lemma clipped_unflagged_witness :
  match snapshot tt (at_unix 40) "CNC-01" live_data with
  | Some s =>
      (∃ ivs iv, intervals live_data = ivs ++ [iv] ∧ IsOpen iv = true ∧
        close_last (at_unix 40) (intervals live_data) = ivs ++ [close_interval (at_unix 40) iv] ∧
        OpenIntervalClipped (Flags s) = false) ∧ SnapshotHasData s = true
  | None => False
  end.
Proof.
  destruct (snapshot tt (at_unix 40) "CNC-01" live_data) as [s|] eqn:Hs; [|vm_compute in Hs; discriminate].
  split; [|vm_compute in Hs; by injection Hs as <-].
  destruct (live_run_in_sync "CNC-01") as [Hch Hd].
  assert (machines (observer live_run.2) !! "CNC-01" = Some live_data) as Hm by (vm_compute; reflexivity).
  rewrite Hm in Hd. exact (clipped_unflagged tt (at_unix 40) "CNC-01" live_data _ s Hch Hd Hs).
Defined.

(** A tick sends the sink one snapshot for each machine whose shift can be
    read, whatever the order of the visits and whichever updates fail: the
    sink ends as if it had been given the list [snapshots], which holds the
    snapshot of each such machine exactly once. *)
Theorem tick_updates {R K} `{ShiftReader R, AvailabilitySink K}
    (shifts : R) now ids (e : Engine) (sink : K) :
  visits ids e →
  tick shifts now ids e sink = foldl (λ k s, (Update s k).2) sink (snapshots shifts now ids e) ∧
  ∀ id d s, machines e !! id = Some d → snapshot shifts now id d = Some s →
    filter (λ s, SnapshotMachineID s = id) (snapshots shifts now ids e) = [s].
Proof.
  intros [Hnd Hids]. split; [apply tick_snapshots|]. intros id d s Hd Hs.
  apply snapshots_machine; [done|by rewrite Hd|apply Hids; eauto].
Qed.

(** A sink that fails for one machine and keeps the snapshots of the others. *)
#[export] Instance list_sink : AvailabilitySink (list AvailabilitySnapshot) := λ s k,
  if decide (SnapshotMachineID s = "broken") then (Err tt, k) else (Ok tt, k ++ [s]).

Definition two_machines : Engine :=
  Engine_Apply (sample_transition Running 10)
    {| machines := {["broken" := {| intervals := [sample_interval Running 0 None];
                                    windowStart := at_unix 0 |}]};
       tickInterval := Second |}.

Lemma tick_updates_witness :
  let ids := ["broken"; "CNC-01"] in
  (tick tt (at_unix 40) ids two_machines [] =
     foldl (λ (k : list AvailabilitySnapshot) s, (Update s k).2) []
       (snapshots tt (at_unix 40) ids two_machines) ∧
   ∀ id d s, machines two_machines !! id = Some d → snapshot tt (at_unix 40) id d = Some s →
     filter (λ s, SnapshotMachineID s = id) (snapshots tt (at_unix 40) ids two_machines) = [s]) ∧
  SnapshotMachineID <$> tick tt (at_unix 40) ids two_machines [] = ["CNC-01"].
Proof.
  split; [|by vm_compute].
  apply (tick_updates tt (at_unix 40) ["broken"; "CNC-01"] two_machines []).
  split.
  - apply NoDup_cons. split; [set_solver|apply NoDup_singleton].
  - intros id. unfold two_machines, Engine_Apply. simpl.
    rewrite lookup_insert_is_Some, lookup_singleton_is_Some.
    destruct (decide (id = "broken")), (decide (id = "CNC-01")); subst; set_solver.
Defined.

(** ** After a restart *)

(** [Start(ctx, nil)] tracks no machine, and a machine whose state does not
    change is then never tracked: [Apply] ignores a transition to the state of
    the persisted open interval and does not tell the engine. *)
Lemma restarted_machine_untracked :
  let st := {| failures := []; table := {["CNC-01" := [sample_interval Running 0 None]]} |} in
  let '(e, st) := rehydrate [] (NewEngine Second) st in
  let '(r, uc) := Apply (sample_transition Running 100) {| store := st; observer := e |} in
  r = Ok tt ∧ machines (observer uc) !! "CNC-01" = None ∧
  snapshots tt (at_unix 200) ["CNC-01"] (observer uc) = [].
Proof. by vm_compute. Qed.
