(* ===== verification/Sinks.v ===== *)
(** * The sinks of the live engine

    [oee/availability/features/live/adapters]: the composite sink, which hands
    every snapshot to the sinks behind it without waiting for them; the log
    sink, which keeps the latest snapshot of each machine; and the WebSocket
    hub, which broadcasts to the connections registered for a machine.

    - [CompositeSink.Update] never blocks, and each sink is given, once and in
      order, some of the snapshots, so that it cannot disturb the others;
      what was accepted can be delivered ([composite_delivers]);
    - a snapshot is dropped for a sink only when one is queued there already;
      with several machines this can starve one ([second_machine_starves]);
    - [Latest] of the log sink is the last snapshot it was given;
    - a broadcast reaches every subscriber and unregisters those it fails for
      ([Broadcast_spec]).

    A gorilla connection is a number; which writes fail is a parameter of a
    broadcast. *)

From S2P Require Export AvailabilityJson Live.

Local Open Scope Z_scope.

(** ** The log sink (sink/logsink/sink.go) *)

Definition LogSink : Type := gmap string AvailabilitySnapshot.
Definition NewLogSink : LogSink := ∅.

Definition LogSink_Update (s : AvailabilitySnapshot) (k : LogSink) : result unit unit * LogSink :=
  (Ok tt, <[SnapshotMachineID s := s]> k).
Definition Latest (k : LogSink) (machineID : string) : option AvailabilitySnapshot := k !! machineID.

#[export] Instance LogSink_sink : AvailabilitySink LogSink := LogSink_Update.

(** ** The hub (sink/websocket/sink.go) *)

Record Hub := {
  hub_conns : gmap string (list nat);       (* field conns *)
  hub_closed : gset nat;                    (* the connections that were closed *)
}.
Definition NewHub : Hub := {| hub_conns := ∅; hub_closed := ∅ |}.

Definition subscribers (h : Hub) (machineID : string) : list nat :=
  default [] (hub_conns h !! machineID).

Definition Register (machineID : string) (conn : nat) (h : Hub) : Hub :=
  {| hub_conns := <[machineID := subscribers h machineID ++ [conn]]> (hub_conns h);
     hub_closed := hub_closed h |}.

(** The first occurrence goes. *)
Fixpoint remove_conn (conn : nat) (conns : list nat) : list nat :=
  match conns with
  | [] => []
  | c :: conns => if bool_decide (c = conn) then conns else c :: remove_conn conn conns
  end.

Definition removeUnsafe (machineID : string) (conn : nat) (h : Hub) : Hub :=
  if bool_decide (conn ∈ subscribers h machineID) then
    {| hub_conns := <[machineID := remove_conn conn (subscribers h machineID)]> (hub_conns h);
       hub_closed := hub_closed h |}
  else h.

Definition Unregister (machineID : string) (conn : nat) (h : Hub) : Hub :=
  let h := removeUnsafe machineID conn h in
  {| hub_conns := hub_conns h; hub_closed := {[conn]} ∪ hub_closed h |}.

(** [Broadcast]: what was written, and the hub after the failed connections
    were unregistered; between the copy of the list and that, others may have
    changed the hub to [h']. *)
Definition broadcast_writes (machineID : string) (payload : list byte) (h : Hub) :
    list (nat * list byte) := (λ c, (c, payload)) <$> subscribers h machineID.

Definition unregister_dead (machineID : string) (fails : nat → bool) (conns : list nat) (h' : Hub) : Hub :=
  foldl (λ h c, Unregister machineID c h) h' (List.filter fails conns).

Definition Broadcast (machineID : string) (payload : list byte) (fails : nat → bool) (h : Hub) :
    list (nat * list byte) * Hub :=
  (broadcast_writes machineID payload h,
   unregister_dead machineID fails (subscribers h machineID) h).

Definition ConnCount (h : Hub) (machineID : string) : Z := Z.of_nat (length (subscribers h machineID)).

(** The sink: its hub and everything it has written. *)
Record WebsocketSink := { hub : Hub; ws_written : list (nat * list byte) }.

Section websocket.
Variable fails : nat → bool.

Definition WebsocketSink_Update (s : AvailabilitySnapshot) (k : WebsocketSink) :
    result unit unit * WebsocketSink :=
  match snapshot_text s with
  | None => (Err tt, k)
  | Some payload =>
      let '(written, h) := Broadcast (SnapshotMachineID s) payload fails (hub k) in
      (Ok tt, {| hub := h; ws_written := ws_written k ++ written |})
  end.
End websocket.

(** The endpoint (http_handler/handler.go): [serveWS] registers a connection
    that could be upgraded, and its [readLoop] unregisters it when a read
    fails. *)
Definition serveWS (machineID : string) (upgraded : option nat) (h : Hub) : Hub :=
  match upgraded with Some conn => Register machineID conn h | None => h end.
Definition readLoop_returns (machineID : string) (conn : nat) (h : Hub) : Hub :=
  Unregister machineID conn h.

(** ** The composite sink (sink/composite/sink.go) *)

(** Where the goroutine [drain] of a sink is. *)
Inductive drain_state :=
  | DrainWaiting
  | DrainUpdating (s : AvailabilitySnapshot)    (* in sink.Update *)
  | DrainReturned.

(** A sink with its channel and its goroutine. *)
Record drain (K : Type) := {
  drain_chan : chan AvailabilitySnapshot;
  drain_at : drain_state;
  drain_sink : K;
}.
Arguments drain_chan {K} d.
Arguments drain_at {K} d.
Arguments drain_sink {K} d.

Record CompositeSink (K : Type) := { drains : list (drain K); comp_cancelled : bool }.
Arguments drains {K} c.
Arguments comp_cancelled {K} c.

Section composite.
Context {K : Type} `{AvailabilitySink K}.
Implicit Types (c : CompositeSink K) (d : drain K) (s : AvailabilitySnapshot).

Definition NewCompositeSink (sinks : list K) : CompositeSink K := {|
  drains := (λ k, {| drain_chan := make_chan 1; drain_at := DrainWaiting; drain_sink := k |}) <$> sinks;
  comp_cancelled := false
|}.

(** [select { case ch <- s: default: }]. *)
Definition offer s d : drain K :=
  match send s (drain_chan d) with
  | Some ch => {| drain_chan := ch; drain_at := drain_at d; drain_sink := drain_sink d |}
  | None => d
  end.

Definition CompositeSink_Update s c : result unit unit * CompositeSink K :=
  (Ok tt, {| drains := offer s <$> drains c; comp_cancelled := comp_cancelled c |}).

Definition CompositeSink_Close c : CompositeSink K :=
  {| drains := drains c; comp_cancelled := true |}.

Inductive comp_action :=
  | CompUpdate (s : AvailabilitySnapshot)   (* the engine *)
  | CompTake (i : nat)
  | CompDeliver (i : nat)
  | CompStop (i : nat)
  | CompClose.

Inductive comp_event :=
  | Offered (s : AvailabilitySnapshot)
  | Delivered (i : nat) (s : AvailabilitySnapshot).

(** The steps of [drain]: its select receives a snapshot; [sink.Update]
    returns, an error is only logged; its select sees the cancellation. *)
Definition drain_take d : option (list comp_event * drain K) :=
  match drain_at d, recv (drain_chan d) with
  | DrainWaiting, Some (s, ch) =>
      Some ([], {| drain_chan := ch; drain_at := DrainUpdating s; drain_sink := drain_sink d |})
  | _, _ => None
  end.
Definition drain_update (i : nat) d : option (list comp_event * drain K) :=
  match drain_at d with
  | DrainUpdating s =>
      Some ([Delivered i s], {| drain_chan := drain_chan d; drain_at := DrainWaiting;
                                drain_sink := (Update s (drain_sink d)).2 |})
  | _ => None
  end.
Definition drain_stop (cancelled : bool) d : option (list comp_event * drain K) :=
  match drain_at d, cancelled with
  | DrainWaiting, true =>
      Some ([], {| drain_chan := drain_chan d; drain_at := DrainReturned; drain_sink := drain_sink d |})
  | _, _ => None
  end.

Definition set_drain (i : nat) d c : CompositeSink K :=
  {| drains := <[i := d]> (drains c); comp_cancelled := comp_cancelled c |}.

(** A step of the goroutine of the sink [i]. *)
Definition at_drain (i : nat) (f : drain K → option (list comp_event * drain K)) c :
    option (list comp_event * CompositeSink K) :=
  match drains c !! i with
  | Some d =>
      match f d with
      | Some (ls, d') => Some (ls, set_drain i d' c)
      | None => None
      end
  | None => None
  end.

Definition comp_step (a : comp_action) c : option (list comp_event * CompositeSink K) :=
  match a with
  | CompUpdate s => Some ([Offered s], (CompositeSink_Update s c).2)
  | CompTake i => at_drain i drain_take c
  | CompDeliver i => at_drain i (drain_update i) c
  | CompStop i => at_drain i (drain_stop (comp_cancelled c)) c
  | CompClose => Some ([], CompositeSink_Close c)
  end.

(** Sinks of two kinds, as [InitModules] gives the composite sink a log sink
    and a WebSocket sink. *)
#[export] Instance sum_sink {K1 K2} `{AvailabilitySink K1, AvailabilitySink K2} :
    AvailabilitySink (K1 + K2) := λ s k,
  match k with
  | inl k => let '(r, k) := Update s k in (r, inl k)
  | inr k => let '(r, k) := Update s k in (r, inr k)
  end.

#[export] Instance CompositeSink_sink : AvailabilitySink (CompositeSink K) := CompositeSink_Update.

(** ** What each sink is given *)

Definition offered (ls : list comp_event) : list AvailabilitySnapshot :=
  omap (λ e, match e with Offered s => Some s | _ => None end) ls.
Definition delivered_to (i : nat) (ls : list comp_event) : list AvailabilitySnapshot :=
  omap (λ e, match e with Delivered j s => if decide (j = i) then Some s else None | _ => None end) ls.

(** The snapshots accepted for a sink and not yet delivered, oldest first. *)
Definition accepted_for d : list AvailabilitySnapshot :=
  (match drain_at d with DrainUpdating s => [s] | _ => [] end) ++ queued (drain_chan d).

(** The state a sink reaches by the snapshots it is given. *)
Definition update_all (k : K) (ss : list AvailabilitySnapshot) : K :=
  foldl (λ k s, (Update s k).2) k ss.

Definition comp_inv (sinks : list K) (ls : list comp_event) c : Prop :=
  length (drains c) = length sinks ∧
  ∀ i k, sinks !! i = Some k → ∃ d, drains c !! i = Some d ∧
    delivered_to i ls ++ accepted_for d `sublist_of` offered ls ∧
    drain_sink d = update_all k (delivered_to i ls) ∧
    capacity (drain_chan d) = 1%nat ∧ chan_ok (drain_chan d).

Lemma offered_app ls ls' : offered (ls ++ ls') = offered ls ++ offered ls'.
Proof. apply omap_app. Qed.
Lemma delivered_app i ls ls' : delivered_to i (ls ++ ls') = delivered_to i ls ++ delivered_to i ls'.
Proof. apply omap_app. Qed.

Lemma offer_cases s d :
  (has_room (drain_chan d) = true ∧ offer s d = {| drain_chan :=
     Chan (capacity (drain_chan d)) (queued (drain_chan d) ++ [s]);
     drain_at := drain_at d; drain_sink := drain_sink d |}) ∨
  (has_room (drain_chan d) = false ∧ offer s d = d).
Proof. unfold offer, send. destruct (has_room (drain_chan d)); auto. Qed.

(** A step of the goroutine of one sink. *)
Lemma comp_inv_at sinks ls ls' c c' i f :
  comp_inv sinks ls c → at_drain i f c = Some (ls', c') →
  (∀ d d' : drain K, f d = Some (ls', d') →
    offered ls' = [] ∧ (∀ j, j ≠ i → delivered_to j ls' = []) ∧
    delivered_to i ls' ++ accepted_for d' = accepted_for d ∧
    drain_sink d' = update_all (drain_sink d) (delivered_to i ls') ∧
    capacity (drain_chan d') = capacity (drain_chan d) ∧
    (chan_ok (drain_chan d) → chan_ok (drain_chan d'))) →
  comp_inv sinks (ls ++ ls') c'.
Proof.
  intros [Hlen Hall] Hat Hf. unfold at_drain in Hat.
  destruct (drains c !! i) as [d|] eqn:Hd; [|done].
  destruct (f d) as [[ls1 d']|] eqn:Hfd; [|done]. injection Hat as -> <-.
  destruct (Hf d d' Hfd) as (Hoff & Hother & Hacc & Hsink' & Hcap' & Hok').
  split; [simpl; by rewrite length_insert|].
  intros j k Hk. destruct (Hall j k Hk) as (d0 & Hd0 & Hsub & Hsink & Hcap & Hok).
  rewrite offered_app, delivered_app, Hoff, app_nil_r. simpl.
  destruct (decide (j = i)) as [->|Hne].
  - assert (d0 = d) as -> by congruence. exists d'.
    rewrite list_lookup_insert_eq by by eapply lookup_lt_Some. split_and!; try done.
    + by rewrite <-(assoc_L (++)), Hacc.
    + rewrite Hsink', Hsink. unfold update_all. by rewrite foldl_app.
    + by rewrite Hcap'.
    + by apply Hok'.
  - exists d0. rewrite list_lookup_insert_ne, (Hother j Hne), app_nil_r by done. done.
Qed.

Lemma comp_update_inv sinks ls c s :
  comp_inv sinks ls c → comp_inv sinks (ls ++ [Offered s]) (CompositeSink_Update s c).2.
Proof.
  intros [Hlen Hall]. split; [simpl; by rewrite length_fmap|].
  intros i k Hk. destruct (Hall i k Hk) as (d & Hd & Hsub & Hsink & Hcap & Hok).
  rewrite offered_app, delivered_app. simpl. rewrite app_nil_r.
  exists (offer s d). rewrite list_lookup_fmap, Hd. split; [done|].
  destruct (offer_cases s d) as [[Hroom ->]|[_ ->]]; simpl.
  - split_and!; try done.
    + unfold accepted_for in *. simpl. rewrite !(assoc_L (++)) in *. by apply sublist_app.
    + unfold has_room, chan_ok in *. simpl. apply bool_decide_eq_true in Hroom.
      rewrite length_app. simpl. lia.
  - split_and!; try done. by apply sublist_inserts_r.
Qed.

Lemma comp_step_inv sinks ls c a ls' c' :
  comp_inv sinks ls c → comp_step a c = Some (ls', c') → comp_inv sinks (ls ++ ls') c'.
Proof.
  intros Hinv Hs. destruct a; simpl in Hs.
  - injection Hs as <- <-. by apply comp_update_inv.
  - eapply comp_inv_at; [done..|]. intros d d'. unfold drain_take.
    destruct (drain_at d) eqn:Hat; try done. destruct (recv (drain_chan d)) as [[s ch]|] eqn:Hr; [|done].
    intros [= <- <-]. pose proof (λ H, recv_ok _ _ _ H Hr) as Hok. apply recv_Some in Hr as [Hq Hcap].
    unfold accepted_for. simpl. rewrite Hat, Hq. by split_and!.
  - eapply comp_inv_at; [done..|]. intros d d'. unfold drain_update.
    destruct (drain_at d) as [|s|] eqn:Hat; simpl; try done. intros [= <- <-].
    unfold accepted_for, delivered_to. csimpl. rewrite decide_True, Hat by done.
    split_and!; try done. intros j Hj. by rewrite decide_False.
  - eapply comp_inv_at; [done..|]. intros d d'. unfold drain_stop.
    destruct (drain_at d) eqn:Hat; try done. destruct (comp_cancelled c); [|done].
    intros [= <- <-]. unfold accepted_for. simpl. rewrite Hat. by split_and!.
  - injection Hs as <- <-. by rewrite app_nil_r.
Qed.

Lemma reachable_comp_inv acts sinks ls c :
  execute comp_step acts (NewCompositeSink sinks) = Some (ls, c) → comp_inv sinks ls c.
Proof.
  apply (execute_ind comp_step (comp_inv sinks)).
  - split; [simpl; by rewrite length_fmap|]. intros i k Hk. simpl. rewrite list_lookup_fmap, Hk.
    eexists. split; [done|]. split_and!; try done. unfold chan_ok. simpl. lia.
  - intros. by eapply comp_step_inv.
Qed.
(** C37: The composite sink over any sinks, in any interleaving of the engine
    and the goroutines: [Update] never blocks and never fails; each sink is
    given, once and in the order of the engine, some of the snapshots, and at
    most two more wait for it; what happens to the other sinks does not reach
    it: its state is the one these snapshots alone lead to. *)
Theorem composite_isolates acts (sinks : list K) ls c :
  execute comp_step acts (NewCompositeSink sinks) = Some (ls, c) →
  (∀ s, ∃ c', comp_step (CompUpdate s) c = Some ([Offered s], c') ∧
     (CompositeSink_Update s c).1 = Ok tt) ∧
  ∀ i k, sinks !! i = Some k → ∃ d, drains c !! i = Some d ∧
    delivered_to i ls ++ accepted_for d `sublist_of` offered ls ∧
    (length (accepted_for d) ≤ 2)%nat ∧
    drain_sink d = update_all k (delivered_to i ls).
Proof.
  intros Hex. apply reachable_comp_inv in Hex as [_ Hall]. split; [intros s; by eexists|].
  intros i k Hk. destruct (Hall i k Hk) as (d & Hd & Hsub & Hsink & Hcap & Hok).
  exists d. split_and!; try done. unfold accepted_for, chan_ok in *. rewrite length_app.
  destruct (drain_at d); simpl; lia.
Qed.

(** One step of the goroutine of the sink [i], followed by others. *)
Lemma execute_drain i f a acts c d ls d' :
  comp_step a c = at_drain i f c → drains c !! i = Some d → f d = Some (ls, d') →
  execute comp_step (a :: acts) c =
    '(ls', c') ← execute comp_step acts (set_drain i d' c); Some (ls ++ ls', c').
Proof. intros Ha Hd Hf. simpl. rewrite Ha. unfold at_drain. by rewrite Hd, Hf. Qed.

Lemma lookup_set_drain i d d' c : drains c !! i = Some d → drains (set_drain i d' c) !! i = Some d'.
Proof. intros Hd. simpl. rewrite list_lookup_insert_eq; [done|by eapply lookup_lt_Some]. Qed.

Lemma lookup_set_drain_ne i j d' c : j ≠ i → drains (set_drain i d' c) !! j = drains c !! j.
Proof. intros Hj. simpl. by rewrite list_lookup_insert_ne. Qed.

(** The goroutine of the sink [i] empties its channel. *)
Fixpoint empty_channel (i : nat) (q : list AvailabilitySnapshot) : list comp_action :=
  match q with [] => [] | _ :: q => CompTake i :: CompDeliver i :: empty_channel i q end.

Definition gave_all (i : nat) d (q : list AvailabilitySnapshot) c c' : Prop :=
  drains c' !! i = Some {| drain_chan := Chan (capacity (drain_chan d)) [];
    drain_at := DrainWaiting; drain_sink := update_all (drain_sink d) q |} ∧
  ∀ j, j ≠ i → drains c' !! j = drains c !! j.

Lemma empty_channel_delivers i q : ∀ c d,
  drains c !! i = Some d → drain_at d = DrainWaiting → queued (drain_chan d) = q →
  ∃ c', execute comp_step (empty_channel i q) c = Some (Delivered i <$> q, c') ∧ gave_all i d q c c'.
Proof.
  unfold gave_all. induction q as [|s q IH]; intros c [[n q0] at0 k] Hd Hat Hq;
    simpl drain_at in Hat; simpl queued in Hq; subst.
  { exists c. by split_and!. }
  change (empty_channel i (s :: q)) with (CompTake i :: CompDeliver i :: empty_channel i q).
  set (d1 := {| drain_chan := Chan n q; drain_at := DrainUpdating s; drain_sink := k |}).
  set (d2 := {| drain_chan := Chan n q; drain_at := DrainWaiting; drain_sink := (Update s k).2 |}).
  destruct (IH (set_drain i d2 (set_drain i d1 c)) d2) as (c' & Hex & Hc' & Hother); [|done..|].
  { exact (lookup_set_drain i _ d2 _ (lookup_set_drain i _ d1 c Hd)). }
  exists c'. split_and!; [|done|].
  - rewrite (execute_drain i drain_take (CompTake i) _ c _ [] d1 eq_refl Hd eq_refl).
    rewrite (execute_drain i (drain_update i) (CompDeliver i) _ _ d1 [Delivered i s] d2 eq_refl
      (lookup_set_drain i _ d1 c Hd) eq_refl).
    by rewrite Hex.
  - intros j Hj. by rewrite Hother, !lookup_set_drain_ne.
Qed.

(** A sink whose goroutine runs catches up: from any state, steps of its
    goroutine alone give it everything that was accepted for it, in order, and
    leave the other sinks as they are. *)
Theorem composite_delivers c i d :
  drains c !! i = Some d → drain_at d ≠ DrainReturned →
  ∃ acts c', execute comp_step acts c = Some (Delivered i <$> accepted_for d, c') ∧
    gave_all i d (accepted_for d) c c'.
Proof.
  intros Hd Hat. unfold accepted_for. destruct (drain_at d) as [|s|] eqn:Heq; [| |done].
  - destruct (empty_channel_delivers i (queued (drain_chan d)) c d) as (c' & Hex & Hg); [done..|].
    by exists (empty_channel i (queued (drain_chan d))), c'.
  - set (d1 := {| drain_chan := drain_chan d; drain_at := DrainWaiting;
                  drain_sink := (Update s (drain_sink d)).2 |}).
    destruct (empty_channel_delivers i (queued (drain_chan d)) (set_drain i d1 c) d1)
      as (c' & Hex & Hc' & Hother); [by eapply lookup_set_drain|done..|].
    exists (CompDeliver i :: empty_channel i (queued (drain_chan d))), c'. split.
    + rewrite (execute_drain i (drain_update i) _ _ c d [Delivered i s] d1); try done;
        [by rewrite Hex|]. unfold drain_update. by rewrite Heq.
    + split; [done|]. intros j Hj. by rewrite Hother, lookup_set_drain_ne.
Qed.
End composite.

(** ** Removing a connection *)

Lemma remove_conn_id c l : c ∉ l → remove_conn c l = l.
Proof.
  induction l as [|x l IH]; intros Hin; simpl; [done|]. rewrite bool_decide_eq_false_2 by set_solver.
  rewrite IH; [done|]. set_solver.
Qed.

Lemma remove_conn_middle c kept l : c ∉ kept → remove_conn c (kept ++ c :: l) = kept ++ l.
Proof.
  induction kept as [|x kept IH]; intros Hin; simpl.
  - by rewrite bool_decide_eq_true_2.
  - rewrite bool_decide_eq_false_2 by set_solver. rewrite IH; [done|]. set_solver.
Qed.

(** ** The log sink keeps the latest *)

Lemma Latest_Update s (k : LogSink) id :
  Latest (Update s k).2 id = if bool_decide (SnapshotMachineID s = id) then Some s else Latest k id.
Proof.
  destruct (bool_decide_reflect (SnapshotMachineID s = id)) as [<-|Hne].
  - exact (lookup_insert_eq (M:=gmap string) k (SnapshotMachineID s) s).
  - exact (lookup_insert_ne (M:=gmap string) k (SnapshotMachineID s) id s Hne).
Qed.

Lemma Latest_update_all ss (k : LogSink) id :
  Latest (update_all k ss) id =
    match last (List.filter (λ s, bool_decide (SnapshotMachineID s = id)) ss) with
    | Some s => Some s
    | None => Latest k id
    end.
Proof.
  revert k. induction ss as [|s ss IH] using rev_ind; intros k; [done|].
  unfold update_all in *. rewrite foldl_app, List.filter_app.
  cbn [List.filter foldl]. rewrite Latest_Update.
  destruct (bool_decide _); [by rewrite last_snoc|]. by rewrite app_nil_r.
Qed.

(** What [Latest] of a log sink behind the composite sink answers for a
    machine is the last of the snapshots of that machine that the sink was
    given; nothing, when it was given none. *)
Theorem Latest_last_given acts sinks ls c i :
  execute comp_step acts (NewCompositeSink sinks) = Some (ls, c) → sinks !! i = Some NewLogSink →
  ∃ d, drains c !! i = Some d ∧ ∀ id,
    Latest (drain_sink d) id =
      last (List.filter (λ s, bool_decide (SnapshotMachineID s = id)) (delivered_to i ls)).
Proof.
  intros Hex Hi. apply reachable_comp_inv in Hex as [_ Hall].
  destruct (Hall i _ Hi) as (d & Hd & _ & Hsink & _). exists d. split; [done|]. intros id.
  rewrite Hsink, Latest_update_all. by destruct (last _).
Qed.

(** ** The hub *)

Lemma subscribers_Unregister m c h m' :
  subscribers (Unregister m c h) m' =
    if decide (m' = m) then remove_conn c (subscribers h m') else subscribers h m'.
Proof.
  unfold Unregister, removeUnsafe. destruct (bool_decide_reflect (c ∈ subscribers h m)) as [Hin|Hin].
  - unfold subscribers at 1. simpl. destruct (decide (m' = m)) as [->|Hne].
    + by rewrite lookup_insert_eq.
    + by rewrite lookup_insert_ne.
  - unfold subscribers in *. simpl. destruct (decide (m' = m)) as [->|]; [|done].
    symmetry. by apply remove_conn_id.
Qed.

Lemma closed_Unregister m c h : hub_closed (Unregister m c h) = {[c]} ∪ hub_closed h.
Proof. unfold Unregister, removeUnsafe. by destruct (bool_decide _). Qed.

(** Removing every occurrence that fails leaves the others, in order. *)
Lemma remove_failing (fails : nat → bool) l : ∀ kept, Forall (λ c, fails c = false) kept →
  foldl (λ l c, remove_conn c l) (kept ++ l) (List.filter fails l) =
    kept ++ List.filter (λ c, negb (fails c)) l.
Proof.
  induction l as [|c l IH]; intros kept Hk; simpl; [done|]. destruct (fails c) eqn:Hc; simpl.
  - rewrite remove_conn_middle; [by apply IH|]. intros Hin.
    rewrite Forall_forall in Hk. by rewrite (Hk _ Hin) in Hc.
  - rewrite (cons_middle c), (assoc_L (++)), IH; [by rewrite <-(assoc_L (++))|].
    apply Forall_app. by repeat constructor.
Qed.

Lemma unregister_dead_spec m fails conns h :
  (∀ m', subscribers (unregister_dead m fails conns h) m' =
     if decide (m' = m) then foldl (λ l c, remove_conn c l) (subscribers h m') (List.filter fails conns)
     else subscribers h m') ∧
  hub_closed (unregister_dead m fails conns h) = hub_closed h ∪ list_to_set (List.filter fails conns).
Proof.
  unfold unregister_dead. generalize (List.filter fails conns) as dead. intros dead. revert h.
  induction dead as [|c dead IH]; intros h; simpl.
  - split; [intros m'; by destruct (decide _)|]. by rewrite (right_id_L ∅ (∪)).
  - destruct (IH (Unregister m c h)) as [Hsub Hclosed]. split.
    + intros m'. rewrite Hsub, subscribers_Unregister. by destruct (decide _).
    + rewrite Hclosed, closed_Unregister, (comm_L (∪) {[c]}), (assoc_L (∪)). done.
Qed.

(** A broadcast writes the payload once to every connection registered for
    the machine, in the order they registered; the connections a write fails
    for are closed and unregistered, every other connection, and the
    connections of the other machines, stay as they are. *)
Theorem Broadcast_spec m payload fails h :
  let '(written, h') := Broadcast m payload fails h in
  written = (λ c, (c, payload)) <$> subscribers h m ∧
  subscribers h' m = List.filter (λ c, negb (fails c)) (subscribers h m) ∧
  ConnCount h' m = ConnCount h m - Z.of_nat (length (List.filter fails (subscribers h m))) ∧
  (∀ m', m' ≠ m → subscribers h' m' = subscribers h m') ∧
  hub_closed h' = hub_closed h ∪ list_to_set (List.filter fails (subscribers h m)).
Proof.
  unfold Broadcast. destruct (unregister_dead_spec m fails (subscribers h m) h) as [Hsub Hclosed].
  assert (Hm : subscribers (unregister_dead m fails (subscribers h m) h) m =
    List.filter (λ c, negb (fails c)) (subscribers h m)).
  { rewrite Hsub, decide_True by done. by apply (remove_failing fails (subscribers h m) []). }
  split_and!; [done|exact Hm| | |exact Hclosed].
  - unfold ConnCount. rewrite Hm. rewrite <-(List.filter_length fails (subscribers h m)). lia.
  - intros m' Hne. by rewrite Hsub, decide_False.
Qed.

(** [Update] of the WebSocket sink is a broadcast of the encoded snapshot to
    the machine's connections, and does nothing else; what cannot be encoded
    is an error. *)
Lemma WebsocketSink_Update_spec fails s k :
  match snapshot_text s with
  | None => WebsocketSink_Update fails s k = (Err tt, k)
  | Some payload =>
      (WebsocketSink_Update fails s k).1 = Ok tt ∧
      ws_written (WebsocketSink_Update fails s k).2 =
        ws_written k ++ ((λ c, (c, payload)) <$> subscribers (hub k) (SnapshotMachineID s))
  end.
Proof. unfold WebsocketSink_Update. by destruct (snapshot_text s). Qed.

(** ** Two machines and one slot *)

Definition snapshot_of (id : string) : AvailabilitySnapshot := {|
  SnapshotMachineID := id; WindowFrom := (at_unix 0); WindowTo := (at_unix 0);
  SnapshotAvailability := Fzero; SnapshotPlannedTime := 0; SnapshotRunTime := 0;
  SnapshotPlannedDowntime := 0; SnapshotUnplannedDowntime := 0; SnapshotIntervalCount := 0;
  SnapshotHasData := false; ComputedAt := (at_unix 0);
  Flags := {| ShiftConfigMissing := false; OpenIntervalClipped := false; NoData := true |}
|}.

(** A tick of an engine with two machines offers two snapshots in a row; the
    goroutine then handles what it can. *)
Definition tick_then_drain : list comp_action :=
  [CompUpdate (snapshot_of "m1"); CompUpdate (snapshot_of "m2"); CompTake 0; CompDeliver 0].

Fixpoint ticks_then_drain (n : nat) : list comp_action :=
  match n with O => [] | S n => tick_then_drain ++ ticks_then_drain n end.

(** A sink that is idle at every tick, and still is never given the second
    machine. *)
Theorem second_machine_starves n :
  ∃ ls c, execute comp_step (ticks_then_drain n) (NewCompositeSink [NewLogSink]) = Some (ls, c) ∧
    offered ls = mjoin (replicate n [snapshot_of "m1"; snapshot_of "m2"]) ∧
    delivered_to 0 ls = replicate n (snapshot_of "m1").
Proof.
  cut (∀ k : LogSink, ∃ ls c, execute comp_step (ticks_then_drain n) (NewCompositeSink [k]) = Some (ls, c) ∧
    offered ls = mjoin (replicate n [snapshot_of "m1"; snapshot_of "m2"]) ∧
    delivered_to 0 ls = replicate n (snapshot_of "m1")); [auto|].
  induction n as [|n IH]; intros k; [by eexists _, _|].
  destruct (IH (<["m1" := snapshot_of "m1"]> k)) as (ls & c & Hex & Hoff & Hdel).
  eexists (_ :: _ :: _ :: ls), c. split_and!.
  - change (ticks_then_drain (S n)) with (tick_then_drain ++ ticks_then_drain n). rewrite execute_app.
    change (execute comp_step tick_then_drain (NewCompositeSink [k])) with
      (Some ([Offered (snapshot_of "m1"); Offered (snapshot_of "m2"); Delivered 0 (snapshot_of "m1")],
             NewCompositeSink [<["m1" := snapshot_of "m1"]> k])).
    simpl. by rewrite Hex.
  - unfold offered in *. csimpl. by rewrite Hoff.
  - unfold delivered_to in *. csimpl. by rewrite Hdel.
Qed.

(** ** Witnesses *)

Definition sample_comp_actions : list comp_action :=
  [CompUpdate (snapshot_of "m1"); CompTake 1; CompUpdate (snapshot_of "m2"); CompDeliver 1].

Definition sample_comp : list comp_event * CompositeSink LogSink :=
  default ([], NewCompositeSink []) (execute comp_step sample_comp_actions (NewCompositeSink [NewLogSink; NewLogSink])).

(** The first sink still holds the first snapshot, the second has the first
    and holds the second. *)
Lemma composite_isolates_witness :
  execute comp_step sample_comp_actions (NewCompositeSink [NewLogSink; NewLogSink]) = Some sample_comp ∧
  delivered_to 0 sample_comp.1 = [] ∧ delivered_to 1 sample_comp.1 = [snapshot_of "m1"] ∧
  ∃ d, drains sample_comp.2 !! 1%nat = Some d ∧ Latest (drain_sink d) "m1" = Some (snapshot_of "m1").
Proof.
  split_and!; [by vm_compute..|].
  destruct (proj2 (composite_isolates sample_comp_actions [NewLogSink; NewLogSink]
    sample_comp.1 sample_comp.2 eq_refl) 1%nat NewLogSink eq_refl) as (d & Hd & _).
  exists d. split; [exact Hd|]. vm_compute in Hd. injection Hd as <-. reflexivity.
Defined.

Lemma composite_delivers_witness :
  ∃ acts c', execute comp_step acts sample_comp.2 =
    Some ([Delivered 1 (snapshot_of "m2")], c') ∧ drains c' !! 0%nat = drains sample_comp.2 !! 0%nat.
Proof.
  destruct (composite_delivers sample_comp.2 1 {| drain_chan := Chan 1 [snapshot_of "m2"];
    drain_at := DrainWaiting; drain_sink := <["m1" := snapshot_of "m1"]> NewLogSink |})
    as (acts & c' & Hex & _ & Hother); [reflexivity|done|].
  exists acts, c'. split; [exact Hex|by apply Hother].
Defined.

Lemma Latest_last_given_witness :
  ∃ d, drains sample_comp.2 !! 1%nat = Some d ∧
    Latest (drain_sink d) "m1" = Some (snapshot_of "m1") ∧ Latest (drain_sink d) "m2" = None.
Proof.
  destruct (Latest_last_given sample_comp_actions [NewLogSink; NewLogSink]
    sample_comp.1 sample_comp.2 1 eq_refl eq_refl) as (d & Hd & Hlast).
  exists d. split; [exact Hd|]. by rewrite !Hlast.
Defined.
