(* ===== verification/Query.v ===== *)
(** * Availability on demand

    [oee/availability/features/query]: the use case that computes the
    availability of a machine over any window from the persisted intervals,
    and the HTTP handler in front of it, up to the encoding of its answer
    ([Api]).  [live_agrees_with_query] relates it to the live engine. *)

From S2P Require Export AvailabilityJson Live.

Local Open Scope Z_scope.

(** ** Ports (interface.go) *)

Class IntervalReader (D : Type) :=
  ByMachineRange : D → string → Time → Time → result unit (list StateInterval).

(** ** Output (dto.go) *)

Record Output := {
  OutMachineID : string;
  OutWindowFrom : Time;
  OutWindowTo : Time;
  OutAvailability : spec_float;
  OutPlannedTime : Z;
  OutRunTime : Z;
  OutPlannedDowntime : Z;
  OutUnplannedDowntime : Z;
  OutIntervalCount : Z;
  OutHasData : bool;
  OutFlags : SnapshotFlags;     (* type OutputFlags, with the same fields *)
}.

Section query.
Context {D R : Type} `{IntervalReader D, ShiftReader R}.
Implicit Types (db : D) (shifts : R).

(** ** The use case (usecase.go) *)

Definition Execute db shifts (machineID : string) (w : Window) : result unit Output :=
  match ByMachineRange db machineID (From w) (To w) with
  | Err e => Err e
  | Ok intervals =>
      match ForMachineWindow shifts machineID w with
      | Err e => Err e
      | Ok (planned, found) =>
          let planned := if found then planned else Sub (To w) (From w) in
          let clipped := close_interval (To w) <$> intervals in
          let i := Aggregate w clipped planned in
          let r := Availability i in
          let hasData := HasData r && (0 <? IntervalCount i) in
          Ok {|
            OutMachineID := machineID; OutWindowFrom := From w; OutWindowTo := To w;
            OutAvailability := if hasData then ResAvailability r else Fzero;
            OutPlannedTime := PlannedTime r; OutRunTime := RunTime r;
            OutPlannedDowntime := PlannedDowntime r; OutUnplannedDowntime := UnplannedDowntime r;
            OutIntervalCount := IntervalCount i; OutHasData := hasData;
            OutFlags := {| ShiftConfigMissing := negb found;
                           OpenIntervalClipped := existsb IsOpen intervals;
                           NoData := negb hasData |}
          |}
      end
  end.

(** ** The handler (http_handler/handler.go) *)

(** [http.Error] with its status and text, or the output encoded as JSON. *)
Inductive response :=
  | HttpError (status : Z) (text : string)
  | JSON (output : Output).

(** [time.Parse(time.RFC3339, s)]. *)
Variable ParseTime : string → option Time.

Definition getAvailability db shifts (machine fromStr toStr : string) : response :=
  if bool_decide (fromStr = "") || bool_decide (toStr = "") then
    HttpError 400 "from and to are required"
  else
    match ParseTime fromStr with
    | None => HttpError 400 "invalid from timestamp"
    | Some from =>
        match ParseTime toStr with
        | None => HttpError 400 "invalid to timestamp"
        | Some to =>
            if negb (Before from to) then HttpError 400 "from must be before to"
            else
              match Execute db shifts machine {| From := from; To := to |} with
              | Err _ => HttpError 500 "internal server error"
              | Ok output => JSON output
              end
        end
    end.
End query.

(** ** What a query returns *)

(** The planned time used: that of the shifts, or without any the window. *)
Definition planned_or_window (w : Window) (planned : Z) (found : bool) : Z :=
  if found then planned else ns (To w) - ns (From w).

Record answers (ivs : list StateInterval) (w : Window) (planned : Z) (found : bool) (o : Output) :
    Prop := {
  ans_window : OutWindowFrom o = From w ∧ OutWindowTo o = To w;
  ans_flags : OutFlags o = {| ShiftConfigMissing := negb found;
    OpenIntervalClipped := existsb IsOpen ivs; NoData := negb (OutHasData o) |};
  ans_data : OutHasData o = bool_decide (planned ≠ 0) && existsb (in_window w) ivs;
  ans_count : OutIntervalCount o = Z.of_nat (length (List.filter (in_window w) ivs));
  ans_planned_down : planned ≠ 0 →
    OutPlannedDowntime o = measure (down_at planned_stop ivs) w;
  ans_unplanned_down : planned ≠ 0 →
    OutUnplannedDowntime o = measure (down_at unplanned_stop ivs) w;
  ans_run : planned ≠ 0 →
    OutPlannedTime o = planned ∧
    OutRunTime o = Z.max 0 (planned - measure (down_at planned_stop ivs) w
                                    - measure (down_at unplanned_stop ivs) w);
  ans_range : SFleb Fzero (OutAvailability o) = true ∧ SFleb (OutAvailability o) Fone = true;
}.

Lemma filter_pos {A} (P : A → bool) l :
  (0 <? Z.of_nat (length (List.filter P l))) = existsb P l.
Proof.
  induction l as [|x l IH]; simpl; [done|]. destruct (P x); [|done].
  apply Z.ltb_lt. simpl. lia.
Qed.

Lemma close_intervals_same w ivs : Forall2 (same_part w) ivs (close_interval (To w) <$> ivs).
Proof. induction ivs; constructor; [apply close_interval_same|done]. Qed.

Section answers.
Context {D R : Type} `{IntervalReader D, ShiftReader R}.
Implicit Types (db : D) (shifts : R).

Lemma Execute_answers db shifts m w ivs planned found :
  ns (From w) ≤ ns (To w) → short_window w →
  all_apart ivs → Z.of_nat (length ivs) ≤ int64_max → 0 ≤ planned ≤ int64_max →
  ByMachineRange db m (From w) (To w) = Ok ivs →
  ForMachineWindow shifts m w = Ok (planned, found) →
  ∃ o, Execute db shifts m w = Ok o ∧ OutMachineID o = m ∧
    answers ivs w (planned_or_window w planned found) found o.
Proof.
  intros Hle Hw Hap Hlen Hp Hivs Hplan. unfold Execute. rewrite Hivs, Hplan.
  rewrite <-(Aggregate_same w ivs) by apply close_intervals_same.
  assert ((if found then planned else Sub (To w) (From w)) = planned_or_window w planned found)
    as -> by (unfold planned_or_window, Sub, short_window, int64_min, int64_max in *;
              destruct found; lia).
  set (P := planned_or_window w planned found).
  assert (0 ≤ P ≤ int64_max) as HP
    by (unfold P, planned_or_window, short_window in *; destruct found; lia).
  pose proof (Aggregate_aggregated w ivs P Hw Hap Hlen) as [Ha1 Ha2 Ha3 Ha4 Ha5].
  set (i := Aggregate w ivs P) in *.
  pose proof (measure_range (down_at planned_stop ivs) w).
  pose proof (measure_range (down_at unplanned_stop ivs) w).
  assert (downtime i ≤ int64_max) as Hdown
    by (unfold downtime, short_window, int64_max in *; lia).
  destruct (Availability_available i) as [Hv1 Hv2 Hv3 Hv4 Hv5 Hv6 _ _ _ _]; [lia..|].
  rewrite Ha1 in Hv1, Hv2, Hv3.
  assert (P ≠ 0 → HasData (Availability i) = true) as Hdata
    by (intros; rewrite Hv1; by apply bool_decide_eq_true).
  eexists. split; [done|]. split; [done|].
  split; simpl; [done|done| |done|intros Hne; specialize (Hdata Hne)..|].
  - by rewrite Hv1, Ha5, filter_pos.
  - by rewrite Hv4.
  - by rewrite Hv5.
  - rewrite Hv2, Hv3 by done. split; [done|]. unfold downtime. lia.
  - by destruct (_ && _).
Qed.
End answers.

(** ** The live engine and the query *)

(** The part of a history [ByMachineRange] selects for a window. *)
Definition overlaps (w : Window) (a : span) : bool :=
  (span_from a <? ns (To w)) &&
  match span_to a with Some e => ns (From w) <? e | None => true end.

Lemma down_span_overlaps kind w h t : ns (From w) ≤ t < ns (To w) →
  down_span kind (List.filter (overlaps w) h) t = down_span kind h t.
Proof.
  intros Ht. unfold down_span. induction h as [|a h IH]; simpl; [done|].
  destruct (overlaps w a) eqn:Ha; simpl; [by rewrite IH|]. rewrite IH.
  replace (span_covers a t) with false; [by rewrite andb_false_r|].
  unfold overlaps, span_covers in *. destruct (span_to a); lia.
Qed.

(** A filter keeps the order of a chain. *)
Lemma sorted_apart ivs : StronglySorted before (span_of <$> ivs) → all_apart ivs.
Proof.
  induction ivs as [|iv ivs IH]; simpl; [done|]. intros [Hiv Hivs]%StronglySorted_cons.
  split; [|by apply IH]. rewrite Forall_fmap in Hiv. eapply Forall_impl; [done|].
  intros iv' (e & He & ?) t. simpl in *. apply fmap_Some in He as (e' & He & ->).
  unfold covers. rewrite He. intros. bool_simpl. lia.
Qed.

Lemma filter_sorted (P : span → bool) h :
  StronglySorted before h → StronglySorted before (List.filter P h).
Proof.
  induction 1 as [|a h Hh IH Ha]; simpl; [constructor|].
  destruct (P a); [|done]. constructor; [done|].
  apply Forall_forall. intros b Hb. rewrite list_elem_of_In, filter_In in Hb.
  rewrite Forall_forall in Ha. apply Ha, list_elem_of_In, Hb.
Qed.

Section agree.
Context {D R : Type} `{IntervalReader D, ShiftReader R}.
Implicit Types (db : D) (shifts : R).

Lemma query_measure kind w h ivs :
  span_of <$> ivs = List.filter (overlaps w) h →
  measure (down_at kind ivs) w = measure (down_span kind h) w.
Proof.
  intros Hivs. apply measure_ext. intros t Ht. rewrite down_at_span, Hivs.
  by apply down_span_overlaps.
Qed.

(** The first span of the window is in it. *)
Lemma query_has_interval d h now ivs :
  follows_history d h → chain h → ns (windowStart d) < ns now →
  let w := {| From := windowStart d; To := now |} in
  span_of <$> ivs = List.filter (overlaps w) h → existsb (in_window w) ivs = true.
Proof.
  intros (old & -> & Hne & Hw) Hch Hnow w Hivs.
  destruct (intervals d) as [|iv rest]; [done|]. simpl in Hw, Hivs, Hch.
  pose proof (chain_positive _ Hch) as Hpos. rewrite Forall_forall in Hpos.
  specialize (Hpos (span_of iv) ltac:(set_solver)).
  assert (overlaps w (span_of iv) = true) as Hov
    by (unfold overlaps, w; simpl in *; destruct (EndedAt iv); simpl in *; lia).
  assert (span_of iv ∈ span_of <$> ivs) as (iv' & Heq & Hin)%list_elem_of_fmap.
  { rewrite Hivs, list_elem_of_In, filter_In. split; [|done].
    rewrite <-list_elem_of_In. set_solver. }
  apply existsb_exists. exists iv'. rewrite <-list_elem_of_In. split; [done|].
  unfold in_window, clip_start, clip_end, Before, After, w.
  injection Heq as _ Hfrom Hto. simpl in *. rewrite Hw in *.
  destruct (EndedAt iv), (EndedAt iv'); simplify_eq/=;
    repeat (case_match; simpl in *; bool_simpl); lia.
Qed.

(** What a query and a snapshot agree on, given whether the query has met an
    open interval: everything but the flag for it, which the engine never
    sets. *)
Record agree_on (open : bool) (o : Output) (s : AvailabilitySnapshot) : Prop := {
  agree_data : OutHasData o = SnapshotHasData s;
  agree_no_data : NoData (OutFlags o) = NoData (Flags s);
  agree_missing : ShiftConfigMissing (OutFlags o) = ShiftConfigMissing (Flags s);
  agree_availability : OutAvailability o = SnapshotAvailability s;
  agree_planned : OutPlannedTime o = SnapshotPlannedTime s;
  agree_run : OutRunTime o = SnapshotRunTime s;
  agree_planned_down : OutPlannedDowntime o = SnapshotPlannedDowntime s;
  agree_unplanned_down : OutUnplannedDowntime o = SnapshotUnplannedDowntime s;
  agree_not_clipped : OpenIntervalClipped (OutFlags o) = open ∧
    OpenIntervalClipped (Flags s) = false;
}.

(** The query over a history that the engine follows meets an open interval
    exactly when the machine's last state began before the end of the window. *)
Lemma query_meets_open d h w ivs :
  follows_history d h → chain h → span_of <$> ivs = List.filter (overlaps w) h →
  ns (From w) ≤ ns (To w) →
  ∃ iv, last (intervals d) = Some iv ∧ IsOpen iv = true ∧
    existsb IsOpen ivs = (ns (StartedAt iv) <? ns (To w)).
Proof.
  intros Hd Hch Hivs Hw. destruct (follows_last d h Hd Hch) as (pre & iv & k & Hi & Ho & -> & Hk & _).
  exists iv. rewrite Hi, last_snoc. split; [done|]. split; [done|].
  assert (existsb IsOpen ivs = existsb is_open (span_of <$> ivs)) as ->.
  { clear. induction ivs as [|x ivs IH]; simpl; [done|]. by rewrite IH, is_open_span. }
  assert (∀ l, Forall (λ a, is_open a = false) l → existsb is_open (List.filter (overlaps w) l) = false) as Hnone.
  { clear. induction 1 as [|a l Ha _ IH]; simpl; [done|]. destruct (overlaps w a); simpl; [by rewrite Ha|done]. }
  rewrite Hivs, List.filter_app, existsb_app, (Hnone k Hk). simpl.
  unfold overlaps. simpl. unfold IsOpen in Ho. destruct (EndedAt iv) eqn:He; [done|]. simpl.
  rewrite andb_true_r. destruct (_ <? _); simpl; [|done]. unfold is_open. simpl. by rewrite He.
Qed.

(** On the window of its accumulator a snapshot and a query say the same. *)
Lemma snapshot_agrees db shifts m now d h ivs planned :
  let w := {| From := windowStart d; To := now |} in
  chain h → follows_history d h → ns (windowStart d) < ns now → short_window w →
  Z.of_nat (length (intervals d)) ≤ int64_max → Z.of_nat (length ivs) ≤ int64_max →
  0 ≤ planned ≤ int64_max →
  ByMachineRange db m (windowStart d) now = Ok ivs →
  span_of <$> ivs = List.filter (overlaps w) h →
  ForMachineWindow shifts m w = Ok (planned, true) →
  ∃ s o iv, snapshot shifts now m d = Some s ∧ Execute db shifts m w = Ok o ∧
    last (intervals d) = Some iv ∧ agree_on (ns (StartedAt iv) <? ns now) o s.
Proof.
  intros w Hch Hd Hnow Hw Hlen Hlen' Hp Hivs Hspans Hplan.
  assert (all_apart ivs) as Hap
    by (apply sorted_apart; rewrite Hspans; by apply filter_sorted, chain_sorted).
  assert (chronological (intervals d)) as Hchr
    by (destruct Hd as (old & -> & _); by eapply chain_chronological_suffix).
  pose proof (Aggregate_aggregated w ivs planned Hw Hap Hlen') as [Ha1 Ha2 Ha3 _ Ha5].
  pose proof (Aggregate_aggregated w (intervals d) planned Hw
    (chronological_apart _ Hchr) Hlen) as [Hb1 Hb2 Hb3 _ _].
  rewrite (query_measure _ w h) in Ha2 by done. rewrite (query_measure _ w h) in Ha3 by done.
  rewrite (follows_down d h _ now) in Hb2 by done. rewrite (follows_down d h _ now) in Hb3 by done.
  assert (Availability (Aggregate w ivs planned) = Availability (Aggregate w (intervals d) planned))
    as Hav by (unfold Availability; by rewrite Ha1, Ha2, Ha3, Hb1, Hb2, Hb3).
  unfold snapshot, Execute. simpl. fold w. rewrite Hivs, Hplan.
  rewrite <-(Aggregate_same w ivs (close_interval now <$> ivs)) by apply (close_intervals_same w).
  rewrite <-(Aggregate_same w (intervals d) (close_last now (intervals d)))
    by apply (close_last_same w).
  rewrite Ha5, filter_pos, (query_has_interval d h now), andb_true_r, Hav by done.
  destruct (query_meets_open d h w ivs Hd Hch Hspans) as (iv & Hlast & _ & Hopen); [simpl; lia|].
  do 2 eexists. exists iv. split; [done|]. split; [done|]. split; [done|]. split; simpl; try done.
  unfold Availability. by destruct (InPlannedProductionTime _ =? 0).
Qed.
End agree.

(** ** Properties *)

(** A query whose reads succeed answers for intervals that do not overlap:
    the downtimes are the time spent in planned and unplanned stops in the
    window, the run time what they leave of the planned time, which is the
    whole window when no shift is configured; the availability is between 0
    and 1; the flags say that the shift is missing, that an interval was open
    and that there is no data, which is so without planned time or without an
    interval in the window. *)
Theorem Execute_spec {D R} `{IntervalReader D, ShiftReader R} (db : D) (shifts : R) m w ivs
    planned found :
  ns (From w) ≤ ns (To w) → short_window w →
  all_apart ivs → Z.of_nat (length ivs) ≤ int64_max → 0 ≤ planned ≤ int64_max →
  ByMachineRange db m (From w) (To w) = Ok ivs →
  ForMachineWindow shifts m w = Ok (planned, found) →
  ∃ o, Execute db shifts m w = Ok o ∧ OutMachineID o = m ∧
    answers ivs w (planned_or_window w planned found) found o.
Proof. apply Execute_answers. Qed.

(** A table without errors, read in the order it is in. *)
#[export] Instance memory_reader : IntervalReader memory_store := λ db m from to,
  Ok (List.filter (λ iv, overlaps {| From := from; To := to |} (span_of iv)) (intervals_of db m)).

(** No shift is configured. *)
Definition no_shifts : ShiftReader nat := λ _ _ _, Ok (0, false).
#[export] Existing Instance no_shifts.

Definition sample_db : memory_store :=
  {| failures := []; table := {["CNC-01" := sample_intervals]} |}.

Lemma Execute_spec_witness :
  (∃ o, Execute sample_db 0%nat "CNC-01" two_hours = Ok o ∧ OutMachineID o = "CNC-01" ∧
    answers sample_intervals two_hours (planned_or_window two_hours 0 false) false o) ∧
  (λ o, (OutAvailability o, OutFlags o)) <$> Execute sample_db 0%nat "CNC-01" two_hours =
    Ok (Fdiv Fone (Float64 2),
        {| ShiftConfigMissing := true; OpenIntervalClipped := true; NoData := false |}).
Proof.
  split; [|by vm_compute].
  apply (Execute_spec sample_db 0%nat "CNC-01" two_hours sample_intervals 0 false);
    [by vm_compute|by vm_compute|apply sample_apart|by vm_compute|by vm_compute|..];
    vm_compute; reflexivity.
Defined.

(** The live engine and the query agree: on the window of the engine's
    accumulator, with the planned time of the same shifts, the query over the
    persisted intervals returns the availability, the run time and the
    downtimes of the engine's snapshot, and both have data or neither; the
    flags are the same but for that of an open interval, which the query sets
    when the machine's last state began before now and the engine never. *)
Theorem live_agrees_with_query {D R} `{IntervalReader D, ShiftReader R}
    (db : D) (shifts : R) m now d h ivs planned :
  let w := {| From := windowStart d; To := now |} in
  chain h → follows_history d h → ns (windowStart d) < ns now → short_window w →
  Z.of_nat (length (intervals d)) ≤ int64_max → Z.of_nat (length ivs) ≤ int64_max →
  0 ≤ planned ≤ int64_max →
  ByMachineRange db m (windowStart d) now = Ok ivs →
  span_of <$> ivs = List.filter (overlaps w) h →
  ForMachineWindow shifts m w = Ok (planned, true) →
  ∃ s o iv, snapshot shifts now m d = Some s ∧ Execute db shifts m w = Ok o ∧
    last (intervals d) = Some iv ∧ agree_on (ns (StartedAt iv) <? ns now) o s.
Proof. apply snapshot_agrees. Qed.

Lemma live_agrees_with_query_witness :
  let db := store live_run.2 in
  let now := at_unix 40 in
  let w := {| From := windowStart live_data; To := now |} in
  (∃ s o iv, snapshot tt now "CNC-01" live_data = Some s ∧ Execute db tt "CNC-01" w = Ok o ∧
    last (intervals live_data) = Some iv ∧ agree_on (ns (StartedAt iv) <? ns now) o s) ∧
  OutUnplannedDowntime <$> Execute db tt "CNC-01" w = Ok (10 * Second).
Proof.
  intros db now w. split; [|by vm_compute].
  destruct (live_run_in_sync "CNC-01") as [Hch Hd].
  refine (live_agrees_with_query db tt "CNC-01" now live_data _ (intervals_of db "CNC-01")
    (30 * Second) Hch _ _ _ _ _ _ _ _ _).
  - assert (machines (observer live_run.2) !! "CNC-01" = Some live_data) as Hm
      by (vm_compute; reflexivity).
    by rewrite Hm in Hd.
  - vm_compute. reflexivity.
  - vm_compute. discriminate.
  - vm_compute. discriminate.
  - vm_compute. discriminate.
  - split; vm_compute; discriminate.
  - vm_compute. reflexivity.
  - vm_compute. reflexivity.
  - vm_compute. reflexivity.
Defined.

(** What a response says about its request. *)
Definition responds {D R} `{IntervalReader D, ShiftReader R} (ParseTime : string → option Time)
    (db : D) (shifts : R) (machine fromStr toStr : string) (r : response) : Prop :=
  match ParseTime fromStr, ParseTime toStr with
  | Some from, Some to =>
      if bool_decide (fromStr = "") || bool_decide (toStr = "") || (ns to <=? ns from)
      then ∃ text, r = HttpError 400 text
      else match Execute db shifts machine {| From := from; To := to |} with
           | Ok o => r = JSON o
           | Err _ => r = HttpError 500 "internal server error"
           end
  | _, _ => ∃ text, r = HttpError 400 text
  end.

(** The handler answers every request: with status 400 when a bound is
    missing, is not a time or the window is empty, with 500 when the query
    fails, and with the query's output otherwise; a query only ever runs on a
    window that is not empty. *)
Theorem getAvailability_responds {D R} `{IntervalReader D, ShiftReader R} ParseTime
    (db : D) (shifts : R) machine fromStr toStr :
  responds ParseTime db shifts machine fromStr toStr
    (getAvailability ParseTime db shifts machine fromStr toStr).
Proof.
  unfold responds, getAvailability.
  destruct (bool_decide (fromStr = "")), (bool_decide (toStr = "")); simpl;
    destruct (ParseTime fromStr) as [from|], (ParseTime toStr) as [to|]; eauto.
  unfold Before. rewrite Z.ltb_antisym, negb_involutive.
  destruct (ns to <=? ns from); [eauto|]. by destruct (Execute _ _ _ _).
Qed.
