(* ===== verification/IntervalRepo.v ===== *)
(** * The intervals in the database

    The two repositories over the table state_intervals (migration 002):
    [IntervalStore] of ingest-state and [IntervalReader] of query.  Times are
    kept as text.

    - the store keeps the contract [IntervalStoreSpec], for times that a text
      can say and whatever statements fail;
    - a query compares texts: for times in UTC with whole seconds it selects
      exactly the intervals that overlap the window, and then the live engine
      and the query over the database agree ([stored_states_agree]);
    - for other times it does not ([offset_missed], [fraction_missed]).

    The order of rows with equal [started_at] is left open by SQL: they stay in
    the order of insertion here. *)

From S2P Require Export GoRfc3339 Sql Query.

Local Open Scope Z_scope.

(** ** The table (migrations/002_create_oee_availability.sql) *)

Record interval_row := {
  iv_machine : string;
  iv_state : string;
  is_downtime : Z;
  is_planned_stop : Z;
  started_at : string;
  ended_at : option string;     (* NULL while open *)
  iv_reason : string;
}.

Definition interval_table : Type := list interval_row.

Definition boolToInt (b : bool) : Z := if b then 1 else 0.

(** ** The store (ingest-state/adapters/outbound/database/repository.go) *)

Definition open_row (machineID : string) (state : MachineState) (startedAt : Time) : interval_row := {|
  iv_machine := machineID; iv_state := state; is_downtime := boolToInt (IsDowntime state);
  is_planned_stop := boolToInt (IsPlannedStop state); started_at := Format startedAt;
  ended_at := None; iv_reason := ""
|}.

(** [machine_id = ? AND ended_at IS NULL]. *)
Definition open_of (machineID : string) (r : interval_row) : bool :=
  bool_decide (iv_machine r = machineID) && bool_decide (ended_at r = None).

Definition end_row (endedAt : Time) (r : interval_row) : interval_row := {|
  iv_machine := iv_machine r; iv_state := iv_state r; is_downtime := is_downtime r;
  is_planned_stop := is_planned_stop r; started_at := started_at r;
  ended_at := Some (Format endedAt); iv_reason := iv_reason r
|}.

Definition OpenInterval_db (machineID : string) (state : MachineState) (startedAt : Time) :
    sql interval_table unit :=
  transaction (update (λ t, t ++ [open_row machineID state startedAt])).

Definition CloseOpen_db (machineID : string) (endedAt : Time) : sql interval_table unit :=
  transaction (update (fmap (λ r, if open_of machineID r then end_row endedAt r else r))).

(** [ORDER BY started_at DESC LIMIT 1]. *)
Fixpoint latest (rows : list interval_row) : option interval_row :=
  match rows with
  | [] => None
  | r :: rows =>
      match latest rows with
      | Some r' =>
          if text_lt (bytes_of (started_at r)) (bytes_of (started_at r')) then Some r' else Some r
      | None => Some r
      end
  end.

Definition LastOpen_db (machineID : string) (db : database interval_table) :
    result unit (option StateInterval) * database interval_table :=
  match query (T:=interval_table) (λ t, latest (List.filter (open_of machineID) t)) db with
  | (Err e, db) => (Err e, db)
  | (Ok None, db) => (Ok None, db)
  | (Ok (Some r), db) =>
      match Parse (started_at r) with
      | None => (Err (), db)
      | Some ts =>
          (Ok (Some {| IntervalMachineID := machineID; State := iv_state r; StartedAt := ts;
                       EndedAt := None; Reason := iv_reason r |}), db)
      end
  end.

#[export] Instance sql_IntervalStore : IntervalStore (database interval_table) := {|
  OpenInterval := OpenInterval_db;
  CloseOpen := CloseOpen_db;
  LastOpen := LastOpen_db
|}.

(** ** The reader (query/adapters/outbound/database/repository.go) *)

(** [machine_id = ? AND started_at < ? AND (ended_at IS NULL OR ended_at > ?)]. *)
Definition in_range (machineID : string) (from to : list byte) (r : interval_row) : bool :=
  bool_decide (iv_machine r = machineID) && text_lt (bytes_of (started_at r)) to &&
  match ended_at r with Some e => text_lt from (bytes_of e) | None => true end.

(** [ORDER BY started_at ASC]. *)
Fixpoint insert_row (r : interval_row) (rows : list interval_row) : list interval_row :=
  match rows with
  | [] => [r]
  | r' :: rest =>
      if text_lt (bytes_of (started_at r)) (bytes_of (started_at r')) then r :: rows
      else r' :: insert_row r rest
  end.
Definition order_rows (rows : list interval_row) : list interval_row :=
  foldl (λ acc r, insert_row r acc) [] rows.

(** The loop over the rows. *)
Fixpoint scan_rows (machineID : string) (rows : list interval_row) :
    result unit (list StateInterval) :=
  match rows with
  | [] => Ok []
  | r :: rows =>
      match Parse (started_at r) with
      | None => Err ()
      | Some ts =>
          let endedAt :=
            match ended_at r with
            | None => Ok None
            | Some e => match Parse e with Some t => Ok (Some t) | None => Err () end
            end in
          match endedAt with
          | Err e => Err e
          | Ok endedAt =>
              match scan_rows machineID rows with
              | Err e => Err e
              | Ok ivs =>
                  Ok ({| IntervalMachineID := machineID; State := iv_state r;
                         StartedAt := GoTime.In ts UTC; EndedAt := endedAt;
                         Reason := iv_reason r |} :: ivs)
              end
          end
      end
  end.

Definition ByMachineRange_db (machineID : string) (from to : Time) (db : database interval_table) :
    result unit (list StateInterval) :=
  match query (T:=interval_table) (λ t, order_rows (List.filter
    (in_range machineID (format (GoTime.In from UTC)) (format (GoTime.In to UTC))) t)) db with
  | (Err e, _) => Err e
  | (Ok rows, _) => scan_rows machineID rows
  end.

#[export] Instance sql_IntervalReader : IntervalReader (database interval_table) :=
  λ db machineID from to, ByMachineRange_db machineID from to db.

(** ** The history a table holds *)

(** The instant a text says. *)
Definition instant (s : string) : Z := from_option ns 0 (Parse s).

Definition span_of_row (r : interval_row) : span := {|
  span_state := iv_state r; span_from := instant (started_at r); span_to := instant <$> ended_at r
|}.

Definition machine_rows (machineID : string) (t : interval_table) : list interval_row :=
  List.filter (λ r, bool_decide (iv_machine r = machineID)) t.

Definition table_history (t : interval_table) (machineID : string) : list span :=
  span_of_row <$> machine_rows machineID t.

Lemma instant_Format t : storable t → instant (Format t) = ns t.
Proof. intros Ht. unfold instant. by rewrite Parse_Format. Qed.

Lemma is_open_row r : is_open (span_of_row r) = bool_decide (ended_at r = None).
Proof. unfold is_open. simpl. apply bool_decide_ext. by destruct (ended_at r). Qed.

Lemma machine_rows_closed m m' t rows : storable t →
  table_history ((λ r, if open_of m r then end_row t r else r) <$> rows) m' =
  if bool_decide (m' = m) then close (ns t) <$> table_history rows m else table_history rows m'.
Proof.
  intros Ht. unfold table_history, machine_rows.
  induction rows as [|r rows IH]; [by case_bool_decide|]. csimpl.
  assert (iv_machine (if open_of m r then end_row t r else r) = iv_machine r) as ->
    by (by destruct (open_of m r)).
  destruct (bool_decide_reflect (m' = m)) as [->|Hne];
    (case_bool_decide as Hm; [|exact IH]); csimpl; rewrite IH; f_equal; unfold open_of.
  - rewrite Hm, bool_decide_true by done. simpl. unfold close. rewrite is_open_row.
    case_bool_decide; [|done]. unfold span_of_row. simpl. by rewrite instant_Format.
  - rewrite Hm, bool_decide_false by done. done.
Qed.

Lemma latest_open m t : (length (List.filter is_open (table_history t m)) ≤ 1)%nat →
  span_of_row <$> latest (List.filter (open_of m) t) = List.find is_open (table_history t m).
Proof.
  assert (List.filter (open_of m) t =
    List.filter (λ r, bool_decide (ended_at r = None)) (machine_rows m t)) as ->.
  { unfold machine_rows. induction t as [|r t IH]; [done|]. simpl. unfold open_of at 1.
    destruct (bool_decide (iv_machine r = m)); simpl; [|exact IH].
    destruct (bool_decide (ended_at r = None)); simpl; by rewrite IH. }
  unfold table_history. induction (machine_rows m t) as [|r rows IH]; [done|]. csimpl.
  rewrite is_open_row. destruct (bool_decide (ended_at r = None)); [|exact IH]. simpl.
  intros Hlen. assert (List.filter (λ r, bool_decide (ended_at r = None)) rows = []) as ->; [|done].
  clear IH. induction rows as [|r' rows IH]; [done|]. csimpl in Hlen. csimpl.
  rewrite is_open_row in Hlen. destruct (bool_decide (ended_at r' = None)); simpl in Hlen; [lia|].
  by apply IH.
Qed.

Lemma latest_in rows r : Some r = latest rows → r ∈ rows.
Proof.
  revert r. induction rows as [|r0 rows IH]; intros r; simpl; [done|].
  destruct (latest rows) as [r'|]; [case_match|]; intros [= ->]; [right; by apply IH|left|left].
Qed.

Lemma query_None {T A} (f : T → A) (db : database T) r db' :
  query f db = (r, db') → tables db' = tables db ∧ ∀ a, r = Ok a → a = f (tables db).
Proof.
  intros Hq. split; [by eapply query_tables|]. intros a ->. by apply query_Ok in Hq.
Qed.

#[export, refine] Instance sql_IntervalStoreSpec : IntervalStoreSpec (database interval_table) := {|
  history db m := table_history (tables db) m;
  writable := storable
|}.
Proof.
  - intros m s t db r db' Ht HO m'. simpl in HO. unfold OpenInterval_db in HO. destruct r as [[]|].
    + apply transaction_Ok in HO as (db1 & db2 & Hd & Hu%update_Ok & ->). rewrite Hu, Hd.
      unfold table_history, machine_rows. rewrite List.filter_app, fmap_app. simpl.
      destruct (bool_decide_reflect (m' = m)) as [->|Hne].
      * rewrite bool_decide_true by done. csimpl. f_equal. unfold span_of_row, opened. simpl.
        by rewrite instant_Format.
      * rewrite bool_decide_false by done. csimpl. by rewrite app_nil_r.
    + apply transaction_Err in HO. by rewrite HO.
  - intros m t db r db' Ht HC m'. simpl in HC. unfold CloseOpen_db in HC. destruct r as [[]|].
    + apply transaction_Ok in HC as (db1 & db2 & Hd & Hu%update_Ok & ->). rewrite Hu, Hd.
      by rewrite machine_rows_closed.
    + apply transaction_Err in HC. by rewrite HC.
  - intros m db r db'. simpl. unfold LastOpen_db.
    match goal with |- context [query ?f db] => destruct (query f db) as [r1 db1] eqn:Hq end.
    apply query_None in Hq as [Ht Hr].
    destruct r1 as [[row|]|]; [|intros [= <- <-]..].
    + pose proof (Hr _ eq_refl) as Hrow.
      destruct (Parse (started_at row)) as [ts|] eqn:Hp; intros [= <- <-];
        (split; [intros m'; by rewrite Ht|]); [|done]. intros o [= <-] Hone.
      rewrite <-latest_open, <-Hrow by done. simpl. f_equal. unfold span_of, span_of_row, instant.
      simpl. rewrite Hp. simpl. f_equal.
      assert (row ∈ List.filter (open_of m) (tables db)) as Hin by by apply latest_in.
      rewrite list_elem_of_In, filter_In in Hin. unfold open_of in Hin.
      destruct Hin as [_ [_ ->%bool_decide_eq_true]%andb_true_iff]. done.
    + split; [intros m'; by rewrite Ht|]. intros o [= <-] Hone.
      by rewrite <-latest_open, <-(Hr _ eq_refl).
    + split; [intros m'; by rewrite Ht|done].
Defined.

(** ** Texts of canonical times *)

Definition canonical_text (s : string) : Prop := ∃ t, canonical t ∧ s = Format t.

Definition canonical_row (r : interval_row) : Prop :=
  canonical_text (started_at r) ∧ ∀ e, ended_at r = Some e → canonical_text e.

Lemma bytes_Format t : bytes_of (Format t) = format t.
Proof. apply bytes_of_string_of. Qed.

Lemma canonical_parse s : canonical_text s → ∃ ts, Parse s = Some ts ∧ ns ts = instant s.
Proof.
  intros (t & Ht & ->). unfold instant. rewrite Parse_Format by by apply canonical_storable. eauto.
Qed.

Lemma canonical_lt a t : canonical_text a → canonical t →
  text_lt (bytes_of a) (format t) = (instant a <? ns t) ∧
  text_lt (format t) (bytes_of a) = (ns t <? instant a).
Proof.
  intros (u & Hu & ->) Ht. rewrite bytes_Format, instant_Format by by apply canonical_storable.
  by rewrite !format_order.
Qed.

Lemma canonical_texts_lt a b : canonical_text a → canonical_text b →
  text_lt (bytes_of a) (bytes_of b) = (instant a <? instant b).
Proof.
  intros Ha (u & Hu & ->). rewrite bytes_Format, instant_Format by by apply canonical_storable.
  by apply canonical_lt.
Qed.

(** An instant in UTC is canonical whatever zone it was shown in. *)
Lemma canonical_UTC t u : ns t = ns u → canonical t → canonical (GoTime.In u UTC).
Proof. intros Hns (_ & Hs & Hy). unfold canonical. simpl. by rewrite <-Hns. Qed.

Lemma in_range_overlaps m from to r : canonical_row r →
  canonical (GoTime.In from UTC) → canonical (GoTime.In to UTC) →
  in_range m (format (GoTime.In from UTC)) (format (GoTime.In to UTC)) r =
  bool_decide (iv_machine r = m) && overlaps {| From := from; To := to |} (span_of_row r).
Proof.
  intros [Hs He] Hf Ht. unfold in_range, overlaps. rewrite <-andb_assoc. f_equal.
  rewrite (proj1 (canonical_lt _ _ Hs Ht)). simpl. f_equal.
  destruct (ended_at r) as [e|]; [|done]. exact (proj2 (canonical_lt e _ (He e eq_refl) Hf)).
Qed.

(** ** Ordering and scanning *)

Definition not_after (a b : interval_row) : Prop :=
  text_lt (bytes_of (started_at b)) (bytes_of (started_at a)) = false.

Lemma insert_row_last r rows : Forall (λ a, not_after a r) rows → insert_row r rows = rows ++ [r].
Proof. induction 1 as [|a rows Ha _ IH]; simpl; [done|]. unfold not_after in Ha. by rewrite Ha, IH. Qed.

Lemma order_rows_sorted rows : StronglySorted not_after rows → order_rows rows = rows.
Proof.
  unfold order_rows. induction rows as [|r rows IH] using rev_ind; [done|]. intros Hs.
  apply StronglySorted_app in Hs as (Hlast & Hrows & _). rewrite foldl_app. simpl.
  rewrite IH by done. apply insert_row_last, Forall_forall. intros a Ha. apply Hlast; [done|]. by left.
Qed.

Lemma scan_rows_Ok m rows : Forall canonical_row rows →
  ∃ ivs, scan_rows m rows = Ok ivs ∧ span_of <$> ivs = span_of_row <$> rows.
Proof.
  induction 1 as [|r rows [Hs He] _ IH]; [by exists []|].
  destruct IH as (ivs & Hscan & Hivs). destruct (canonical_parse _ Hs) as (ts & Hts & Hns).
  cbn [scan_rows]. rewrite Hts, Hscan.
  destruct (ended_at r) as [e|] eqn:Hend.
  - destruct (canonical_parse e (He e eq_refl)) as (te & Hte & Hne). rewrite Hte.
    eexists. split; [done|]. csimpl. rewrite Hivs. f_equal. unfold span_of, span_of_row. simpl.
    rewrite Hend. csimpl. by rewrite Hns, Hne.
  - eexists. split; [done|]. csimpl. rewrite Hivs. f_equal. unfold span_of, span_of_row. simpl.
    by rewrite Hend, Hns.
Qed.

Lemma sorted_rows rows : Forall canonical_row rows → StronglySorted before (span_of_row <$> rows) →
  StronglySorted not_after rows.
Proof.
  induction rows as [|r rows IH]; [constructor|]. csimpl.
  intros [[Hr _] Hrows]%Forall_cons [Hb Hs]%StronglySorted_cons. constructor; [by apply IH|].
  rewrite Forall_fmap in Hb. apply Forall_forall. intros r' Hr'. unfold not_after.
  rewrite Forall_forall in Hb, Hrows. destruct (Hrows r' Hr') as [Hr0 _].
  destruct (Hb r' Hr') as (e & _ & Hlt). simpl in Hlt.
  rewrite canonical_texts_lt by done. apply Z.ltb_ge. lia.
Qed.

Lemma range_rows m from to t : Forall canonical_row (machine_rows m t) →
  canonical (GoTime.In from UTC) → canonical (GoTime.In to UTC) →
  List.filter (in_range m (format (GoTime.In from UTC)) (format (GoTime.In to UTC))) t =
  List.filter (λ r, overlaps {| From := from; To := to |} (span_of_row r)) (machine_rows m t).
Proof.
  intros Hrows Hf Ht. unfold machine_rows in *. induction t as [|r t IH]; [done|]. simpl in *.
  destruct (bool_decide_reflect (iv_machine r = m)) as [Hm|Hm].
  - apply Forall_cons in Hrows as [Hr Hrows]. rewrite in_range_overlaps by done.
    rewrite bool_decide_true by done. simpl. destruct (overlaps _ _); by rewrite IH.
  - unfold in_range at 1. rewrite bool_decide_false by done. simpl. by apply IH.
Qed.

(** The query selects the intervals that overlap its window. *)
Lemma range_overlaps m from to (db : database interval_table) :
  Forall canonical_row (machine_rows m (tables db)) → chain (table_history (tables db) m) →
  canonical (GoTime.In from UTC) → canonical (GoTime.In to UTC) →
  head (Sql.failures db) ≠ Some true →
  ∃ ivs, ByMachineRange db m from to = Ok ivs ∧
    span_of <$> ivs = List.filter (overlaps {| From := from; To := to |})
      (table_history (tables db) m).
Proof.
  intros Hrows Hch Hf Ht Hok. unfold ByMachineRange, sql_IntervalReader, ByMachineRange_db.
  set (w := {| From := from; To := to |}).
  set (sel := List.filter (λ r, overlaps w (span_of_row r)) (machine_rows m (tables db))).
  assert (Forall canonical_row sel) as Hsel by by apply Forall_filter_bool.
  assert (span_of_row <$> sel = List.filter (overlaps w) (table_history (tables db) m)) as Hspans.
  { unfold sel, table_history. clear. induction (machine_rows m (tables db)) as [|r rows IH]; [done|].
    csimpl. destruct (overlaps w (span_of_row r)); csimpl; by rewrite IH. }
  assert (order_rows sel = sel) as Hord.
  { apply order_rows_sorted, sorted_rows; [done|]. rewrite Hspans. by apply filter_sorted, chain_sorted. }
  match goal with |- context [query ?f db] => pose proof (query_result f db) as Hq;
    destruct (query f db) as [r1 db1] end.
  simpl in Hq. rewrite decide_False in Hq by done. subst r1.
  rewrite range_rows by done. fold w sel. rewrite Hord.
  destruct (scan_rows_Ok m sel Hsel) as (ivs & Hscan & Hivs). exists ivs. by rewrite Hscan, Hivs.
Qed.

(** ** Tables of canonical times *)

Definition canonical_table (db : database interval_table) : Prop := Forall canonical_row (tables db).

Lemma open_canonical m s t db r db' : canonical t → canonical_table db →
  OpenInterval m s t db = (r, db') → canonical_table db'.
Proof.
  unfold canonical_table. intros Ht Hdb HO. simpl in HO. unfold OpenInterval_db in HO.
  destruct r as [[]|].
  - apply transaction_Ok in HO as (db1 & db2 & Hd & Hu%update_Ok & ->). rewrite Hu, Hd.
    apply Forall_app. split; [done|]. apply Forall_singleton. split; [by exists t|done].
  - apply transaction_Err in HO. by rewrite HO.
Qed.

Lemma close_canonical m t db r db' : canonical t → canonical_table db →
  CloseOpen m t db = (r, db') → canonical_table db'.
Proof.
  unfold canonical_table. intros Ht Hdb HC. simpl in HC. unfold CloseOpen_db in HC.
  destruct r as [[]|].
  - apply transaction_Ok in HC as (db1 & db2 & Hd & Hu%update_Ok & ->). rewrite Hu, Hd.
    apply Forall_fmap. eapply Forall_impl; [exact Hdb|]. intros row [Hs He]. simpl.
    destruct (open_of m row); [|done]. split; [done|]. simpl. intros e [= <-]. by exists t.
  - apply transaction_Err in HC. by rewrite HC.
Qed.

Lemma last_canonical m db r db' : canonical_table db →
  LastOpen m db = (r, db') → canonical_table db'.
Proof.
  unfold canonical_table. intros Hdb HL.
  assert (tables db' = tables db) as ->; [|done]. simpl in HL. unfold LastOpen_db in HL.
  match type of HL with context [query ?f db] => destruct (query f db) as [r1 db1] eqn:Hq end.
  apply query_None in Hq as [<- _]. by repeat case_match; simplify_eq.
Qed.

Lemma machine_rows_canonical m t : Forall canonical_row t → Forall canonical_row (machine_rows m t).
Proof. apply Forall_filter_bool. Qed.

Lemma history_length t m : (length (table_history t m) ≤ length t)%nat.
Proof.
  unfold table_history, machine_rows. rewrite length_fmap.
  induction t as [|r t IH]; simpl; [done|]. case_bool_decide; simpl; lia.
Qed.

Lemma history_canonical t m a : Forall canonical_row t → a ∈ table_history t m →
  ∃ u, canonical u ∧ ns u = span_from a.
Proof.
  intros Ht. unfold table_history. intros (r & -> & Hr)%list_elem_of_fmap.
  pose proof (machine_rows_canonical m t Ht) as Hm. rewrite Forall_forall in Hm.
  destruct (Hm r Hr) as [(u & Hu & Hs) _]. exists u. split; [done|]. simpl.
  by rewrite Hs, instant_Format by by apply canonical_storable.
Qed.

(** The start of an engine's window is the start of a span of the history. *)
Lemma window_canonical d t m : Forall canonical_row t → follows_history d (table_history t m) →
  canonical (GoTime.In (windowStart d) UTC).
Proof.
  intros Ht (old & Hh & Hne & Hw). destruct (intervals d) as [|iv ivs]; [done|]. simpl in Hw.
  destruct (history_canonical t m (span_of iv)) as (u & Hu & Hns); [done|rewrite Hh; set_solver|].
  apply (canonical_UTC u); [|done]. rewrite Hns, Hw. done.
Qed.

Lemma filter_length {A} (P : A → bool) l : (length (List.filter P l) ≤ length l)%nat.
Proof. induction l as [|x l IH]; simpl; [done|]. destruct (P x); simpl; lia. Qed.

(** ** Properties *)

(** C18: The repository of intervals refines the histories of [record]: whatever
    statements and commits fail, and for times that a text can say, opening
    appends an open span to the history the table holds of the machine,
    closing ends its open span, both leave it as it is when they fail, neither
    touches another machine; and when at most one span is open [LastOpen] finds
    it, at its instant. *)
Theorem repository_refines (db : database interval_table) m s t : storable t →
  (∀ r db', OpenInterval_db m s t db = (r, db') → ∀ m',
    table_history (tables db') m' = if is_ok r && bool_decide (m' = m)
      then table_history (tables db) m ++ [opened s (ns t)] else table_history (tables db) m') ∧
  (∀ r db', CloseOpen_db m t db = (r, db') → ∀ m',
    table_history (tables db') m' = if is_ok r && bool_decide (m' = m)
      then close (ns t) <$> table_history (tables db) m else table_history (tables db) m') ∧
  (∀ r db', LastOpen_db m db = (r, db') →
    tables db' = tables db ∧
    ∀ o, r = Ok o → one_open (table_history (tables db) m) →
      span_of <$> o = List.find is_open (table_history (tables db) m)).
Proof.
  intros Ht. split; [|split].
  - intros r db' HO. exact (OpenInterval_history m s t db r db' Ht HO).
  - intros r db' HC. exact (CloseOpen_history m t db r db' Ht HC).
  - intros r db' HL. split; [|exact (proj2 (LastOpen_history m db r db' HL))].
    unfold LastOpen_db in HL.
    match type of HL with context [query ?f db] => destruct (query f db) as [r1 db1] eqn:Hq end.
    apply query_None in Hq as [<- _]. by repeat case_match; simplify_eq.
Qed.

(** C17: From messages to figures over the database: from an empty table, when
    the calls of the worker over the repository have succeeded, all timestamps
    are in UTC with whole seconds, the machine has a shift and the query does
    not fail, the live engine's snapshot and
    the query over the table give the same availability and times for the
    window of the engine, and the same flags but for one: the query flags that
    it has clipped an open interval, exactly when the machine's last state
    began before now, and the engine, which clips it as well, never does. *)
Theorem stored_states_agree {R} `{ShiftReader R} (shifts : R) topic msgs
    (db : database interval_table) tick os (uc : UseCase (database interval_table) Engine)
    m d now planned :
  let w := {| From := windowStart d; To := now |} in
  tables db = [] → times_are topic canonical msgs →
  process_all topic msgs {| store := db; observer := NewEngine tick |} = (os, uc) →
  Forall (λ o, o = Succeeded) os → machines (observer uc) !! m = Some d →
  canonical (GoTime.In now UTC) → ns (windowStart d) < ns now → short_window w →
  Z.of_nat (length (tables (store uc))) ≤ int64_max → 0 ≤ planned ≤ int64_max →
  head (Sql.failures (store uc)) ≠ Some true → ForMachineWindow shifts m w = Ok (planned, true) →
  ∃ s o iv, snapshot shifts now m d = Some s ∧ Execute (store uc) shifts m w = Ok o ∧
    last (intervals d) = Some iv ∧ agree_on (ns (StartedAt iv) <? ns now) o s.
Proof.
  intros w Hdb Htimes Hp Hos Hd Hnow Hlt Hw Hlen Hpl Hok Hshift.
  assert (canonical_table (store uc)) as Hcan.
  { eapply (process_all_keeps topic canonical_table canonical); [..|exact Hp].
    - apply open_canonical.
    - apply close_canonical.
    - apply last_canonical.
    - done.
    - unfold canonical_table. simpl. rewrite Hdb. constructor. }
  assert (in_sync uc) as Hsync.
  { eapply process_all_in_sync; [|  |exact Hp|done].
    - intros msg t Hin Ht Hd'. by eapply canonical_storable, Htimes.
    - intros m'. unfold histories. simpl. rewrite Hdb. split; [apply chain_nil|by rewrite lookup_empty]. }
  destruct (Hsync m) as [Hch Hfol]. rewrite Hd in Hfol. simpl in Hfol.
  change (histories uc m) with (table_history (tables (store uc)) m) in Hch, Hfol.
  destruct (range_overlaps m (windowStart d) now (store uc)) as (ivs & Hivs & Hspans);
    [by apply machine_rows_canonical|done|by eapply window_canonical|done|done|].
  pose proof (history_length (tables (store uc)) m).
  eapply (snapshot_agrees (store uc) shifts m now d _ ivs planned Hch Hfol); try done.
  - destruct Hfol as (old & Hh & _). apply (f_equal length) in Hh.
    rewrite length_app, length_fmap in Hh. lia.
  - apply (f_equal length) in Hspans. rewrite length_fmap in Hspans.
    pose proof (filter_length (overlaps w) (table_history (tables (store uc)) m)). fold w in Hspans. lia.
Qed.

(** ** Concrete runs *)

Definition empty_db (failures : list bool) : database interval_table :=
  {| tables := []; Sql.failures := failures |}.

Lemma repository_refines_witness :
  let opened_db := (OpenInterval_db "CNC-01" Stopped local_time (empty_db [])).2 in
  tables opened_db = [open_row "CNC-01" Stopped local_time] ∧
  table_history (tables opened_db) "CNC-01" = [opened Stopped (ns local_time)] ∧
  started_at (open_row "CNC-01" Stopped local_time) = "2026-02-02T10:00:00.25-03:00"%string.
Proof.
  intros opened_db. split; [vm_compute; reflexivity|]. split; [|vm_compute; reflexivity].
  destruct (repository_refines (empty_db []) "CNC-01" Stopped local_time) as [Hopen _].
  - split; [split; vm_compute; discriminate|split; [vm_compute; reflexivity|split; vm_compute; reflexivity]].
  - exact (Hopen (Ok ()) opened_db ltac:(vm_compute; reflexivity) "CNC-01"%string).
Defined.

#[export] Instance canonical_dec t : Decision (canonical t).
Proof. unfold canonical. apply _. Defined.

Lemma sample_messages_canonical : times_are "machine/state" canonical sample_messages.
Proof. apply times_are_check with (H := canonical_dec). vm_compute. reflexivity. Qed.

Definition stored_run := process_all "machine/state" sample_messages
  {| store := empty_db []; observer := NewEngine Second |}.

Lemma stored_states_agree_witness :
  let now := at_unix 40 in
  let w := {| From := windowStart live_data; To := now |} in
  (∃ s o iv, snapshot tt now "CNC-01" live_data = Some s ∧
    Execute (store stored_run.2) tt "CNC-01" w = Ok o ∧
    last (intervals live_data) = Some iv ∧ agree_on (ns (StartedAt iv) <? ns now) o s) ∧
  OutUnplannedDowntime <$> Execute (store stored_run.2) tt "CNC-01" w = Ok (10 * Second).
Proof.
  intros now w. split; [|by vm_compute].
  refine (stored_states_agree tt "machine/state" sample_messages (empty_db []) Second
    stored_run.1 stored_run.2 "CNC-01" live_data now (30 * Second) eq_refl sample_messages_canonical
    _ _ _ _ _ _ _ _ _ _).
  - apply surjective_pairing.
  - apply (bool_decide_unpack _). vm_compute. exact I.
  - vm_compute. reflexivity.
  - split; [reflexivity|split; [reflexivity|split; vm_compute; discriminate]].
  - vm_compute. reflexivity.
  - vm_compute. discriminate.
  - vm_compute. discriminate.
  - split; vm_compute; discriminate.
  - vm_compute. discriminate.
  - vm_compute. reflexivity.
Defined.

(** A device in India reports a stop at 16:30 local time, which is 11:00 in
    UTC: a query of the hour from 11:00 does not see the stop, although the
    interval is open and overlaps the hour. *)
Theorem offset_missed :
  let stop := {| ns := 1770030000 * Second; loc := fixed 19800 |} in
  let db := (OpenInterval_db "CNC-01" Stopped stop (empty_db [])).2 in
  let hour := {| From := at_unix 1770030000; To := at_unix 1770033600 |} in
  started_at <$> tables db = ["2026-02-02T16:30:00+05:30"%string] ∧
  overlaps hour <$> table_history (tables db) "CNC-01" = [true] ∧
  ByMachineRange db "CNC-01" (From hour) (To hour) = Ok [].
Proof. vm_compute. done. Qed.

(** Fractions of a second sort before the full second: an interval that ends
    half a second after the start of the window is not selected. *)
Theorem fraction_missed :
  let start := at_unix 1770030000 in
  let db := (CloseOpen_db "CNC-01" (Plus start 500000000)
    (OpenInterval_db "CNC-01" Stopped (Plus start (-60 * Second)) (empty_db [])).2).2 in
  let hour := {| From := start; To := at_unix 1770033600 |} in
  overlaps hour <$> table_history (tables db) "CNC-01" = [true] ∧
  ByMachineRange db "CNC-01" (From hour) (To hour) = Ok [].
Proof. vm_compute. done. Qed.
