(* ===== verification/StuckMachine.v ===== *)
(** * Timestamps that cannot be read back

    A timestamp whose offset is 25 hours (+24:60, which [time.Parse] lets pass)
    is written as +25:00, which no [time.Parse] reads.  Its interval stays open
    for good and every later state change of the machine fails
    ([stuck_machine]); all other timestamps a message can carry are read back,
    so that without such an offset the promises of the interval store hold for
    whatever the devices send ([offsets_writable]). *)

From S2P Require Export IntervalRepo.

Local Open Scope Z_scope.

(** The zone of the timestamp is an offset of 25 hours. *)
Definition unsayable (t : Time) : Prop := Z.abs (zone_offset (loc t) (ns t / Second)) = 90000.

#[export] Instance unsayable_dec t : Decision (unsayable t).
Proof. unfold unsayable. apply _. Defined.

Lemma decoded_storable payload t : DecodeStateChange payload = Ok t → ¬ unsayable (At t) → storable (At t).
Proof.
  intros Hd Hn. destruct (decoded_time payload t Hd) as [bs Hbs].
  destruct (parse_storable bs (At t) Hbs) as (o & Ho & _ & Hs). apply Hs. intros Heq. apply Hn.
  unfold unsayable. by rewrite Ho.
Qed.

(** ** The rows of a machine *)

Lemma Apply_err {O} `{StateObserver O} (t : StateTransition) (uc : UseCase (database interval_table) O) r :
  List.filter (open_of (TransitionMachineID t)) (tables (store uc)) = [r] →
  Parse (started_at r) = None →
  ∃ e uc', Apply t uc = (Err e, uc') ∧ tables (store uc') = tables (store uc).
Proof.
  intros Hf Hp. unfold Apply. simpl. unfold LastOpen_db.
  match goal with |- context [query ?f ?db] => destruct (query f db) as [r1 db1] eqn:Hq end.
  apply query_None in Hq as [Ht Hr].
  destruct r1 as [o|]; [|by eexists _, _].
  rewrite (Hr o eq_refl), Hf. simpl. rewrite Hp. by eexists _, _.
Qed.

(** What the operations keep of another machine. *)
Definition keeps_machine (m : string) (db db' : database interval_table) : Prop :=
  machine_rows m (tables db') = machine_rows m (tables db).

Lemma OpenInterval_other m m' s t db r db' : m ≠ m' → OpenInterval_db m' s t db = (r, db') →
  keeps_machine m db db'.
Proof.
  intros Hne HO. unfold keeps_machine, OpenInterval_db in *. destruct r as [[]|].
  - apply transaction_Ok in HO as (db1 & db2 & Hd & Hu%update_Ok & ->). rewrite Hu, Hd.
    unfold machine_rows. rewrite List.filter_app. simpl. rewrite bool_decide_false by done.
    by rewrite app_nil_r.
  - apply transaction_Err in HO. by rewrite HO.
Qed.

Lemma end_rows_other m m' t rows : m ≠ m' →
  machine_rows m ((λ r, if open_of m' r then end_row t r else r) <$> rows) = machine_rows m rows.
Proof.
  intros Hne. unfold machine_rows. induction rows as [|row rows IH]; [done|].
  rewrite fmap_cons. cbn [List.filter]. rewrite IH. destruct (open_of m' row) eqn:Ho; [|done].
  unfold open_of in Ho. apply andb_true_iff in Ho as [Hm _]. apply bool_decide_eq_true in Hm.
  cbn [end_row iv_machine]. by rewrite Hm, bool_decide_false.
Qed.

Lemma CloseOpen_other m m' t db r db' : m ≠ m' → CloseOpen_db m' t db = (r, db') →
  keeps_machine m db db'.
Proof.
  intros Hne HC. unfold keeps_machine, CloseOpen_db in *. destruct r as [[]|].
  - apply transaction_Ok in HC as (db1 & db2 & Hd & Hu%update_Ok & ->). rewrite Hu, Hd.
    by apply end_rows_other.
  - apply transaction_Err in HC. by rewrite HC.
Qed.

Lemma LastOpen_tables m db r db' : LastOpen_db m db = (r, db') → tables db' = tables db.
Proof.
  unfold LastOpen_db.
  match goal with |- context [query ?f db] => destruct (query f db) as [r1 db1] eqn:Hq end.
  apply query_None in Hq as [<- _]. intros HL. by repeat case_match; simplify_eq.
Qed.

Section observed.
Context {O : Type} `{StateObserver O}.
Implicit Types (uc : UseCase (database interval_table) O).

Lemma Apply_other m t uc r uc' : m ≠ TransitionMachineID t → Apply t uc = (r, uc') →
  keeps_machine m (store uc) (store uc').
Proof.
  intros Hne. unfold Apply, open_new. simpl.
  destruct (LastOpen_db _ _) as [r1 db1] eqn:HL. apply LastOpen_tables in HL.
  assert (keeps_machine m (store uc) db1) as Hk by (unfold keeps_machine; by rewrite HL).
  assert (∀ uc1 r uc', keeps_machine m (store uc) (store uc1) →
    (let '(r, st) := OpenInterval_db (TransitionMachineID t) (NewState t) (At t) (store uc1) in
     match r with
     | Ok _ => (Ok (), {| store := st; observer := Notify t (observer uc1) |})
     | Err e => (Err e, {| store := st; observer := observer uc1 |})
     end) = (r, uc') → keeps_machine m (store uc) (store uc')) as Hopen.
  { intros uc1 r0 uc0 Hk1. destruct (OpenInterval_db _ _ _ _) as [r2 db2] eqn:HO.
    apply (OpenInterval_other m) in HO; [|done]. unfold keeps_machine in *.
    destruct r2; intros [= <- <-]; simpl; congruence. }
  destruct r1 as [[last|]|]; [|by apply (Hopen {| store := db1; observer := observer uc |})|by intros [= <- <-]].
  destruct (bool_decide _); [by intros [= <- <-]|]. destruct (negb _); [by intros [= <- <-]|].
  destruct (CloseOpen_db _ _ _) as [r2 db2] eqn:HC. apply (CloseOpen_other m) in HC; [|done].
  assert (keeps_machine m (store uc) db2) by (unfold keeps_machine in *; congruence).
  destruct r2; [|by intros [= <- <-]]. by apply (Hopen {| store := db2; observer := observer uc |}).
Qed.

Lemma open_rows m t : List.filter (open_of m) t =
  List.filter (λ r, bool_decide (ended_at r = None)) (machine_rows m t).
Proof.
  unfold machine_rows. induction t as [|r t IH]; [done|]. simpl. unfold open_of at 1.
  destruct (bool_decide (iv_machine r = m)); simpl; [|exact IH].
  destruct (bool_decide (ended_at r = None)); simpl; by rewrite IH.
Qed.

(** The machine has one open interval, whose start cannot be read. *)
Definition stuck m uc : Prop := ∃ r,
  List.filter (open_of m) (tables (store uc)) = [r] ∧ Parse (started_at r) = None.

Lemma stuck_process topic m msg uc o uc' : stuck m uc → process topic msg uc = (o, uc') →
  stuck m uc' ∧ keeps_machine m (store uc) (store uc') ∧
  (is_Some (transition_of topic m msg) → o = Errored).
Proof.
  intros (r & Hf & Hp). unfold process, StateChangeWorker_Process, transition_of.
  assert (stuck m uc) as Hst by (by exists r).
  destruct (bool_decide (MsgTopic msg = topic)); simpl; [|intros [= <- <-]; naive_solver].
  destruct (DecodeStateChange (MsgPayload msg)) as [t|]; [|intros [= <- <-]; naive_solver].
  destruct (Apply t uc) as [r1 uc1] eqn:HA.
  destruct (bool_decide_reflect (TransitionMachineID t = m)) as [<-|Hne].
  - destruct (Apply_err t uc r Hf Hp) as (e & uc2 & HA' & Ht). rewrite HA in HA'.
    injection HA' as -> ->. intros [= <- <-]. unfold stuck, keeps_machine. rewrite Ht. eauto.
  - apply (Apply_other m) in HA; [|done]. unfold keeps_machine in *. intros Hr.
    assert (uc' = uc1) as -> by (by destruct r1; injection Hr).
    split; [|split; [exact HA|by intros []]].
    exists r. split; [|done]. by rewrite open_rows, HA, <-open_rows.
Qed.

Lemma stuck_process_all topic m msgs uc os uc' : stuck m uc →
  process_all topic msgs uc = (os, uc') →
  keeps_machine m (store uc) (store uc') ∧
  ∀ i msg, msgs !! i = Some msg → is_Some (transition_of topic m msg) → os !! i = Some Errored.
Proof.
  revert uc os. induction msgs as [|msg msgs IH]; intros uc os Hst; simpl.
  { by intros [= <- <-]. }
  destruct (process topic msg uc) as [o uc1] eqn:Hp.
  destruct (process_all topic msgs uc1) as [os1 uc2] eqn:Hps. intros [= <- <-].
  destruct (stuck_process topic m msg uc o uc1 Hst Hp) as (Hst1 & Hk & Ho).
  destruct (IH uc1 os1 Hst1 Hps) as [Hk2 Hos]. split; [unfold keeps_machine in *; congruence|].
  intros [|i] msg'; simpl; [intros [= <-] Hs; by rewrite Ho|apply Hos].
Qed.
End observed.

(** ** Properties *)

(** C15: For whatever bytes the devices publish, the state worker over the
    database keeps at most one open interval per machine and, when no call
    fails, records exactly what [record] makes of the valid transitions, as a
    chain: the only condition on the messages is that no timestamp has an
    offset of 25 hours. *)
Theorem states_stored {O} `{StateObserver O} topic msgs
    (uc uc' : UseCase (database interval_table) O) os :
  times_are topic (λ t, ¬ unsayable t) msgs → (∀ m, chain (histories uc m)) →
  process_all topic msgs uc = (os, uc') →
  (∀ m, one_open (histories uc' m)) ∧
  (Forall (λ o, o = Succeeded) os → ∀ m,
   histories uc' m = foldl record (histories uc m) (omap (transition_of topic m) msgs) ∧
   chain (histories uc' m)).
Proof.
  intros Hn. apply process_all_chains. intros msg t Hin Ht Hd.
  eapply decoded_storable; [exact Hd|]. by eapply Hn.
Qed.

Definition list_run := process_all "machine/state" sample_messages
  {| store := empty_db []; observer := [] |}.

Lemma list_run_eq : process_all "machine/state" sample_messages
  {| store := empty_db []; observer := [] |} = (list_run.1, list_run.2).
Proof. unfold list_run. apply surjective_pairing. Qed.

Lemma states_stored_witness :
  (∀ m, one_open (histories list_run.2 m)) ∧
  histories list_run.2 "CNC-01" =
    [close (20 * Second) (opened Running (10 * Second));
     close (30 * Second) (opened Stopped (20 * Second)); opened Idle (30 * Second)].
Proof.
  split; [|vm_compute; reflexivity].
  refine (proj1 (states_stored "machine/state" sample_messages _ _ list_run.1 _ _ list_run_eq)).
  - refine (times_are_check _ _ _ _). vm_compute. reflexivity.
  - intros m. exact chain_nil.
Defined.

(** A state change at an offset of 24 hours and 60 minutes. *)
Definition poison : Message := {|
  MsgClientID := "edge"; MsgTopic := "machine/state"; Timezone := "UTC"; Timestamp := 0;
  MsgPayload := print (marshal_struct [
    ("machine_id", marshal_string "CNC-01"); ("state", marshal_string Stopped);
    ("timestamp", JString (bytes_of "2026-02-02T10:00:00+24:60"))]%string)
|}.

(** It is accepted and stored as +25:00; from then on no state change of the
    machine is ever applied again: whatever messages follow, the rows of the
    machine stay as they are and each of its state changes is an error. *)
Theorem stuck_machine :
  let uc0 := {| store := empty_db []; observer := [] |} in
  let uc := (process "machine/state" poison uc0).2 in
  (process "machine/state" poison uc0).1 = Succeeded ∧
  started_at <$> tables (store uc) = ["2026-02-02T10:00:00+25:00"%string] ∧
  ∀ msgs os uc', process_all "machine/state" msgs uc = (os, uc') →
    machine_rows "CNC-01" (tables (store uc')) = machine_rows "CNC-01" (tables (store uc)) ∧
    ∀ i msg, msgs !! i = Some msg → is_Some (transition_of "machine/state" "CNC-01" msg) →
      os !! i = Some Errored.
Proof.
  intros uc0 uc. split; [vm_compute; reflexivity|]. split; [vm_compute; reflexivity|].
  intros msgs os uc'. apply stuck_process_all. exists (default (open_row (EmptyString) Stopped zero_time) (head (tables (store uc)))).
  split; vm_compute; reflexivity.
Qed.
