(* ===== verification/Api.v ===== *)
(** * The HTTP API

    The routes that [StartServers] registers (cmd/broker/bootstrap/server.go)
    and the four handlers behind them, from a request to the bytes of its
    answer: the two audit features of [RawStore], the availability query of
    [Query] and the endpoint of the websocket ([Sinks]).

    - what each path asks for ([asks]), and that every request gets the answer
      of exactly that, or is redirected, refused or not found
      ([request_routing]);
    - every topic can be asked for ([audit_route]), every machine but [/]
      ([machine_route]);
    - the body of an audit says the records it was made from ([audit_body]), of
      every execution of the pipeline ([audit_over_http]);
    - what answers there are, and that none changes the database
      ([api_answers]). *)

From S2P Require Export Http AvailabilityJson RawStore Query.

Local Open Scope Z_scope.

(** ** Requests and answers *)

Record request := {
  req_method : string;
  req_path : list byte;         (* r.URL.EscapedPath() *)
  req_query : list byte;        (* r.URL.RawQuery *)
}.

Inductive content_type := TextPlain | ApplicationJSON.

Inductive answer :=
  | Answered (status : Z) (type : content_type) (body : list byte)
  | Redirected                                      (* 301, to a clean path *)
  | ToWebsocket (machineID : string).               (* the connection goes to the upgrader *)

Definition newline : byte := x0a.

(** [http.Error] with an error as JSON. *)
Definition error_answer (status : Z) (text : string) : answer :=
  Answered status TextPlain (print (marshal_struct [("error"%string, marshal_string text)]) ++ [newline]).
Definition text_answer (status : Z) (text : string) : answer :=
  Answered status TextPlain (bytes_of text ++ [newline]).

(** [json.NewEncoder(w).Encode]: nothing is written when it fails, and its
    error is ignored. *)
Definition json_answer (v : option json) : answer :=
  Answered 200 ApplicationJSON (match v with Some v => print v ++ [newline] | None => [] end).

(** ** The JSON of the answers *)

(** [domain.Record]. *)
Definition marshal_record (r : audit_record) : json := marshal_struct [
  ("client_id", marshal_string (rec_client r)); ("topic", marshal_string (rec_topic r));
  ("timezone", marshal_string (rec_timezone r)); ("timestamp", marshal_string (rec_timestamp r));
  ("payload", marshal_string (rec_payload r))]%string.

Definition marshal_count (n : Z) : json := marshal_struct [("count"%string, marshal_int n)].

Section api.
Context {D R : Type} `{IntervalReader D, ShiftReader R}.
(** [application.Output]. *)
Definition marshal_output (o : Output) : option json :=
  from ← marshal_time (OutWindowFrom o);
  to ← marshal_time (OutWindowTo o);
  availability ← marshal_float (OutAvailability o);
  Some (marshal_struct [
    ("machine_id", marshal_string (OutMachineID o)); ("window_from", from); ("window_to", to);
    ("availability", availability); ("planned_time_ns", marshal_int (OutPlannedTime o));
    ("run_time_ns", marshal_int (OutRunTime o));
    ("planned_downtime_ns", marshal_int (OutPlannedDowntime o));
    ("unplanned_downtime_ns", marshal_int (OutUnplannedDowntime o));
    ("interval_count", marshal_int (OutIntervalCount o)); ("has_data", JBool (OutHasData o));
    ("flags", marshal_flags (OutFlags o))]%string).

(** ** Routes (server.go and the three [RegisterRoutes]) *)

Inductive endpoint := GetByTopicRoute | CountByTopicRoute | AvailabilityRoute | LiveRoute.

Definition route (segments : list segment) (e : endpoint) : pattern endpoint :=
  {| pat_method := "GET"; pat_segments := segments; pat_handler := e |}.

Definition routes (oee : bool) : list (pattern endpoint) :=
  [route [Literal (bytes_of "audit"); Multi] GetByTopicRoute;
   route [Literal (bytes_of "audit-count"); Multi] CountByTopicRoute] ++
  if oee then
    [route [Literal (bytes_of "availability"); Wildcard] AvailabilityRoute;
     route [Literal (bytes_of "availability"); Wildcard; Literal (bytes_of "ws")] LiveRoute]
  else [].

(** ** Handlers *)

Definition audit_answer {A} (marshal : A → json) (r : http_response A) : answer :=
  match r with
  | RawStore.HttpError status text => error_answer status text
  | HttpOK output => json_answer (Some (marshal output))
  end.

Definition availability_answer (r : response) : answer :=
  match r with
  | Query.HttpError status text => error_answer status text
  | JSON output => json_answer (marshal_output output)
  end.

(** [r.PathValue] of the only wildcard, and [r.URL.Query().Get]. *)
Definition path_value (values : list (list byte)) : string := string_of (default [] (head values)).
Definition query_value (req : request) (key : string) : string :=
  string_of (Values_Get (ParseQuery (req_query req)) (bytes_of key)).

(** A handler; [db] may be left with fewer failures to come. *)
Definition handle (e : endpoint) (values : list (list byte)) (req : request)
    (db : database raw_data) (ivs : D) (shifts : R) : answer * database raw_data :=
  let v := path_value values in
  match e with
  | GetByTopicRoute =>
      let '(r, db) := getByTopic v db in (audit_answer (marshal_slice marshal_record) r, db)
  | CountByTopicRoute => let '(r, db) := countByTopic v db in (audit_answer marshal_count r, db)
  | AvailabilityRoute =>
      (availability_answer
         (getAvailability Parse ivs shifts v (query_value req "from") (query_value req "to")), db)
  | LiveRoute => (ToWebsocket v, db)
  end.

(** The body of an answer to HEAD is not sent. *)
Definition send (method : string) (a : answer) : answer :=
  match a with
  | Answered status type body =>
      Answered status type (if bool_decide (method = "HEAD") then [] else body)
  | a => a
  end.

Definition serve (oee : bool) (req : request) (db : database raw_data) (ivs : D) (shifts : R) :
    answer * database raw_data :=
  let '(a, db) :=
    match findHandler (routes oee) (req_method req) (req_path req) with
    | Handled e values => handle e values req db ivs shifts
    | MovedPermanently => (Redirected, db)
    | MethodNotAllowed => (text_answer 405 "Method Not Allowed", db)
    | NotFound => (text_answer 404 "404 page not found", db)
    end in
  (send (req_method req) a, db).
End api.

(** ** Routing *)

Definition reads (method : string) : Prop := method = "GET"%string ∨ method = "HEAD"%string.

Lemma segments_cons e rest : slash ∉ e →
  segments_of (slash :: e ++ slash :: rest) =
    (pathUnescape e, e ++ slash :: rest) :: path_segments (split_bytes slash rest).
Proof.
  intros He. unfold segments_of. rewrite split_app by done.
  pose proof (join_split slash rest) as Hj. pose proof (split_not_nil slash rest) as Hne.
  destruct (split_bytes slash rest) as [|p ps]; [done|]. cbn [path_segments].
  by rewrite <-Hj.
Qed.

Lemma segments_one e : slash ∉ e → e ≠ [] → segments_of (slash :: e) = [(pathUnescape e, e)].
Proof.
  intros He Hne. unfold segments_of. rewrite split_none by done. cbn [path_segments].
  by rewrite bool_decide_false.
Qed.

(** GET and HEAD find the same handlers. *)
Lemma tree_match_reads oee method path : reads method →
  tree_match (routes oee) method path =
    matchPath (segments_of path) ((λ p, (pat_segments p, p)) <$> routes oee) [].
Proof.
  intros [-> | ->]; unfold tree_match.
  - assert (List.filter (λ p, bool_decide (pat_method p = "GET"%string)) (routes oee) = routes oee) as ->
      by by destruct oee.
    by destruct (matchPath _ _ _).
  - assert (List.filter (λ p, bool_decide (pat_method p = "HEAD"%string)) (routes oee) = []) as ->
      by by destruct oee.
    assert (List.filter (λ p, bool_decide (pat_method p = "GET"%string)) (routes oee) = routes oee) as ->
      by by destruct oee.
    cbn [fmap list_fmap]. by rewrite matchPath_no_patterns.
Qed.

(** The two routes that end in the rest of the path. *)
Definition rest_route (name : string) (e : endpoint) : Prop :=
  name = "audit"%string ∧ e = GetByTopicRoute ∨ name = "audit-count"%string ∧ e = CountByTopicRoute.

Lemma match_rest name e oee method rest : rest_route name e → reads method →
  tree_match (routes oee) method (slash :: bytes_of name ++ slash :: rest) =
    Some (route [Literal (bytes_of name); Multi] e, [pathUnescape rest]).
Proof.
  intros Hn Hm. rewrite (tree_match_reads _ _ _ Hm), segments_cons
    by by destruct Hn as [[-> _]|[-> _]]; apply (bool_decide_unpack _); vm_compute.
  destruct (path_segments_from rest) as (seg & segs & ->). apply matchPath_literal.
  assert (below (Literal (pathUnescape (bytes_of name))) ((λ p, (pat_segments p, p)) <$> routes oee) =
    [([Multi], route [Literal (bytes_of name); Multi] e)]) as ->
    by (by destruct Hn as [[-> ->]|[-> ->]], oee).
  apply matchPath_multi.
Qed.

(** A clean path is routed by what it matches, unless it lacks a slash only. *)
Lemma findHandler_clean oee method path p found : reads method → cleanPath path = path →
  tree_match (routes oee) method path = Some (p, found) →
  exactMatch (tree_match (routes oee) method (path ++ [slash])) (path ++ [slash]) = false →
  findHandler (routes oee) method path = Handled (pat_handler p) found.
Proof.
  intros Hm Hc Ht He. unfold findHandler.
  rewrite (bool_decide_false (method = "CONNECT"%string)) by (by destruct Hm as [-> | ->]).
  rewrite Hc, He, andb_false_r, bool_decide_true by done. cbn [negb]. by rewrite Ht.
Qed.

Lemma route_rest name e oee method rest : rest_route name e → reads method →
  let path := slash :: bytes_of name ++ slash :: rest in
  cleanPath path = path →
  findHandler (routes oee) method path = Handled e [pathUnescape rest].
Proof.
  intros Hn Hm path Hc.
  apply (findHandler_clean _ _ _ (route [Literal (bytes_of name); Multi] e)); [done|done|by apply match_rest|].
  assert (path ++ [slash] = slash :: bytes_of name ++ slash :: (rest ++ [slash])) as Hp.
  { unfold path. cbn [app]. by rewrite <-!(assoc_L (++)). }
  rewrite Hp at 1. rewrite (match_rest _ _ _ _ _ Hn Hm). unfold exactMatch. cbn [route pat_segments].
  rewrite (bool_decide_true (last [Literal (bytes_of name); Multi] = Some Multi)) by done.
  rewrite Hp, bool_decide_false; [by destruct (ends_with_slash _)|].
  change (2%nat ≠ slashes ([slash] ++ bytes_of name ++ [slash] ++ rest ++ [slash])).
  rewrite !slashes_app. change (slashes [slash]) with 1%nat. lia.
Qed.

Lemma percent_nil bs : percent bs = [] → bs = [].
Proof. by destruct bs. Qed.

Lemma audit_reached oee method (t : string) : reads method → t ≠ ""%string →
  let path name := slash :: bytes_of name ++ slash :: percent (bytes_of t) in
  findHandler (routes oee) method (path "audit"%string) = Handled GetByTopicRoute [bytes_of t] ∧
  findHandler (routes oee) method (path "audit-count"%string) = Handled CountByTopicRoute [bytes_of t].
Proof.
  intros Hm Ht path.
  assert (bytes_of t ≠ []) as Hne.
  { intros Hb. apply Ht. by rewrite <-(string_of_bytes_of t), Hb. }
  assert (∀ name, proper (bytes_of name) → cleanPath (path name) = path name) as Hc.
  { intros name Hp. refine (cleanPath_proper [bytes_of name; percent (bytes_of t)] _ _); [done|].
    constructor; [done|]. constructor; [by apply percent_proper|constructor]. }
  split; (rewrite <-(pathUnescape_percent (bytes_of t)); apply route_rest; [|done|apply Hc]);
    first [by left|by right|apply (bool_decide_unpack _); vm_compute; exact I].
Qed.

(** Every topic can be asked for: with each of its bytes percent-escaped it
    is the topic the audit handlers get, for GET and HEAD, whatever slashes,
    dots or other bytes it has, with and without OEE. *)
Theorem audit_route oee method (t : string) : reads method → t ≠ ""%string →
  let path name := slash :: bytes_of name ++ slash :: percent (bytes_of t) in
  findHandler (routes oee) method (path "audit"%string) = Handled GetByTopicRoute [bytes_of t] ∧
  findHandler (routes oee) method (path "audit-count"%string) = Handled CountByTopicRoute [bytes_of t].
Proof. apply audit_reached. Qed.

(** A route of the program matches the path. *)
Definition routable (oee : bool) (path : list byte) : Prop :=
  ∃ p vs, p ∈ routes oee ∧ matches (pat_segments p) (segments_of path) vs.

Lemma tree_match_other oee method path : ¬ reads method → tree_match (routes oee) method path = None.
Proof.
  intros Hm. unfold tree_match.
  assert (List.filter (λ p, bool_decide (pat_method p = method)) (routes oee) = []) as ->.
  { assert (bool_decide ("GET"%string = method) = false) as Hg
      by (apply bool_decide_false; intros <-; apply Hm; by left).
    destruct oee; cbn [routes app List.filter pat_method route]; by rewrite !Hg. }
  cbn [fmap list_fmap]. rewrite matchPath_no_patterns, bool_decide_false; [done|].
  intros ->. apply Hm. by right.
Qed.

Lemma tree_match_Some oee method path p vs : tree_match (routes oee) method path = Some (p, vs) →
  reads method ∧ p ∈ routes oee ∧ matches (pat_segments p) (segments_of path) vs.
Proof.
  intros Ht. destruct (decide (method = "GET"%string ∨ method = "HEAD"%string)) as [Hm|Hm];
    [|by rewrite tree_match_other in Ht].
  rewrite (tree_match_reads _ _ _ Hm) in Ht. apply matchPath_sound in Ht as (ss & vs' & Hin & Hma & ->).
  apply list_elem_of_fmap in Hin as (q & [= -> ->] & Hin). done.
Qed.

(** A handler that is found belongs to a route. *)
Lemma findHandler_routes oee method path e values :
  findHandler (routes oee) method path = Handled e values → e ∈ pat_handler <$> routes oee.
Proof.
  unfold findHandler. destruct (_ && _); [done|]. destruct (negb _); [done|].
  destruct (tree_match _ _ _) as [[p vs]|] eqn:Ht; [|by destruct (_ || _)].
  intros [= <- <-]. apply list_elem_of_fmap. exists p. split; [done|].
  by apply tree_match_Some in Ht as (_ & Hin & _).
Qed.

Lemma tree_match_routable oee method path : reads method → routable oee path →
  is_Some (tree_match (routes oee) method path).
Proof.
  intros Hm (p & vs & Hin & Hma). rewrite (tree_match_reads _ _ _ Hm).
  apply (matchPath_complete _ _ _ Hma _ p). apply list_elem_of_fmap. by exists p.
Qed.

Lemma exactMatch_routable oee method path n : tree_match (routes oee) method path = n →
  exactMatch n path = true → reads method ∧ routable oee path.
Proof.
  intros Ht. destruct n as [[p vs]|]; [|done]. intros _.
  apply tree_match_Some in Ht as (Hm & Hin & Hma). split; [done|]. by exists p, vs.
Qed.

Lemma matches_any_routable oee path :
  existsb (λ p, bool_decide (is_Some (matchPath (segments_of path) [(pat_segments p, p)] []))) (routes oee)
    = true ↔ routable oee path.
Proof.
  rewrite existsb_exists. split.
  - intros (p & Hin & [[q vs] Hs]%bool_decide_eq_true).
    apply matchPath_sound in Hs as (ss & vs' & [= -> ->]%list_elem_of_singleton & Hma & ->).
    exists p, vs'. split; [by apply list_elem_of_In|done].
  - intros (p & vs & Hin & Hma). exists p. split; [by apply list_elem_of_In|].
    apply bool_decide_eq_true. apply (matchPath_complete _ _ _ Hma _ p). by left.
Qed.

Lemma tree_match_slash oee method path : cleanPath path = path → ends_with_slash path = false →
  ¬ routable oee path → routable oee (path ++ [slash]) → reads method →
  exactMatch (tree_match (routes oee) method (path ++ [slash])) (path ++ [slash]) = true.
Proof.
  intros Hc Hs Hn Hr Hm. destruct (tree_match_routable oee method _ Hm Hr) as [[p vs] Ht].
  rewrite Ht. apply tree_match_Some in Ht as (_ & Hin & Hma).
  destruct (cleanPath_shape path) as (es & Hes & [Hp|[_ Hp]]); rewrite Hc in Hp; subst path.
  2: { by rewrite app_comm_cons, ends_slash in Hs. }
  destruct (bool_decide_reflect (last (pat_segments p) = Some Multi)) as [Hl|Hl];
    [|unfold exactMatch; by rewrite bool_decide_false].
  assert (∃ n h, p = route [Literal n; Multi] h) as (n & h & ->).
  { destruct oee; repeat (apply elem_of_cons in Hin as [->|Hin]; [by eauto|]); by apply elem_of_nil in Hin. }
  destruct es as [|e es]; [done|].
  destruct (segments_proper (e :: es) ltac:(done) Hes) as [Hs1 Hs2].
  cbn [app] in Hma. rewrite Hs2 in Hma. unfold routable in Hn. rewrite Hs1 in Hn.
  destruct es as [|e2 es].
  - apply Forall_cons in Hes as [[He _] _].
    unfold exactMatch. rewrite (bool_decide_true _ Hl), ends_slash. cbn [negb].
    apply bool_decide_eq_true. cbn [join_bytes].
    change (2%nat = slashes ([slash] ++ e ++ [slash])).
    by rewrite !slashes_app, (slashes_none e).
  - exfalso. apply Hn. inversion Hma as [|? ? ? ? ? Hm2| |]; subst.
    assert (∃ seg from segs, path_segments (e2 :: es) = (seg, from) :: segs)
      as (seg & from & segs & Hseg) by (destruct es; by eexists _, _, _).
    eexists _, [pathUnescape from]. split; [exact Hin|].
    change (path_segments (e :: e2 :: es)) with
      ((pathUnescape e, join_bytes slash (e :: e2 :: es)) :: path_segments (e2 :: es)).
    rewrite Hseg. repeat constructor.
Qed.

Lemma routed_requests oee method path : method ≠ "CONNECT"%string →
  match findHandler (routes oee) method path with
  | Handled e vs => reads method ∧ cleanPath path = path ∧
      ∃ p, p ∈ routes oee ∧ pat_handler p = e ∧ matches (pat_segments p) (segments_of path) vs
  | MovedPermanently => cleanPath path ≠ path ∨
      reads method ∧ ends_with_slash path = false ∧ routable oee (path ++ [slash])
  | MethodNotAllowed => cleanPath path = path ∧ ¬ reads method ∧
      (routable oee path ∨ ends_with_slash path = false ∧ routable oee (path ++ [slash]))
  | NotFound => cleanPath path = path ∧ ¬ routable oee path ∧
      (reads method ∨ ends_with_slash path = true ∨ ¬ routable oee (path ++ [slash]))
  end.
Proof.
  intros Hne. unfold findHandler. rewrite (bool_decide_false (method = _)) by done.
  destruct (decide (cleanPath path = path)) as [Hc|Hc].
  2: { rewrite (bool_decide_false (cleanPath path = path)) by done. cbn [negb].
       destruct (_ && exactMatch _ _); by left. }
  rewrite Hc, (bool_decide_true (path = path)) by done. cbn [negb].
  destruct (negb (exactMatch _ path) && negb (ends_with_slash path) && _) eqn:Hr.
  { apply andb_true_iff in Hr as [[_ Hs%negb_true_iff]%andb_true_iff He].
    apply (exactMatch_routable _ _ _ _ eq_refl) in He as [Hm He]. right. done. }
  destruct (tree_match (routes oee) method path) as [[p vs]|] eqn:Ht.
  { apply tree_match_Some in Ht as (Hm & Hin & Hma). split; [done|]. split; [done|]. by exists p. }
  assert (reads method → ¬ routable oee path) as Hnr.
  { intros Hm Hro. destruct (tree_match_routable oee method path Hm Hro) as [? Hs]. congruence. }
  destruct (_ || _) eqn:Hany.
  - assert (routable oee path ∨ ends_with_slash path = false ∧ routable oee (path ++ [slash])) as Hro.
    { apply orb_true_iff in Hany as [Ha|[Hs%negb_true_iff Ha]%andb_true_iff];
        apply matches_any_routable in Ha; [by left|by right]. }
    split; [done|]. split; [|done]. intros Hm. destruct Hro as [Hro|[Hs Hro]]; [by apply Hnr in Hro|].
    rewrite Hs, (tree_match_slash _ _ _ Hc Hs (Hnr Hm) Hro Hm) in Hr. discriminate.
  - apply orb_false_iff in Hany as [Ha Hb]. split; [done|].
    split; [rewrite <-matches_any_routable; congruence|].
    apply andb_false_iff in Hb as [Hb%negb_false_iff|Hb]; [by right; left|].
    right; right. rewrite <-matches_any_routable. congruence.
Qed.

(** ** What a path asks for *)

(** The requests that the program's routes are for, in terms of the bytes of a
    path.  [/audit/{topic...}] and [/audit-count/{topic...}] take the rest of
    the path, slashes and all; the machine of [/availability/{machine}] and
    [/availability/{machine}/ws], with OEE only, is one element of it.  Escapes
    are decoded in what is compared and in what is taken. *)
Inductive asks (oee : bool) : list byte → endpoint → list byte → Prop :=
  | asks_audit name topic : slash ∉ name → pathUnescape name = bytes_of "audit" →
      asks oee (slash :: name ++ slash :: topic) GetByTopicRoute (pathUnescape topic)
  | asks_count name topic : slash ∉ name → pathUnescape name = bytes_of "audit-count" →
      asks oee (slash :: name ++ slash :: topic) CountByTopicRoute (pathUnescape topic)
  | asks_availability name machine : oee = true →
      slash ∉ name → pathUnescape name = bytes_of "availability" →
      slash ∉ machine → machine ≠ [] → pathUnescape machine ≠ [slash] →
      asks oee (slash :: name ++ slash :: machine) AvailabilityRoute (pathUnescape machine)
  | asks_live name machine ws : oee = true →
      slash ∉ name → pathUnescape name = bytes_of "availability" →
      slash ∉ machine → pathUnescape machine ≠ [slash] →
      slash ∉ ws → pathUnescape ws = bytes_of "ws" →
      asks oee (slash :: name ++ slash :: machine ++ slash :: ws) LiveRoute (pathUnescape machine).

Definition asked (oee : bool) (path : list byte) : Prop := ∃ e v, asks oee path e v.

Lemma first_slash bs : slash ∉ bs ∨ ∃ e rest, bs = e ++ slash :: rest ∧ slash ∉ e.
Proof.
  destruct (decide (slash ∈ bs)) as [Hin|]; [right|by left].
  apply list_elem_of_split_l in Hin as (e & rest & -> & He). by exists e, rest.
Qed.

Lemma first_slash_inj e1 r1 e2 r2 : slash ∉ e1 → slash ∉ e2 →
  e1 ++ slash :: r1 = e2 ++ slash :: r2 → e1 = e2 ∧ r1 = r2.
Proof.
  intros H1 H2 Heq. pose proof (split_app slash e1 r1 H1) as S1. rewrite Heq, split_app in S1 by done.
  injection S1 as -> _. apply app_inv_head in Heq. by injection Heq.
Qed.

Lemma segments_last bs : slash ∉ bs →
  segments_of (slash :: bs) = [(if bool_decide (bs = []) then [slash] else pathUnescape bs, bs)].
Proof. intros Hb. unfold segments_of. by rewrite split_none. Qed.

Lemma segments_more e rest : slash ∉ e →
  segments_of (slash :: e ++ slash :: rest) =
    (pathUnescape e, e ++ slash :: rest) :: segments_of (slash :: rest).
Proof. apply segments_cons. Qed.

Lemma matches_rest bs vs : matches [Multi] (segments_of (slash :: bs)) vs ↔ vs = [pathUnescape bs].
Proof.
  unfold segments_of. destruct (path_segments_from bs) as (seg & segs & ->). split.
  - by inversion 1.
  - intros ->. constructor.
Qed.

Lemma matches_name n s ss bs vs : matches (Literal n :: s :: ss) (segments_of (slash :: bs)) vs ↔
  ∃ e rest, bs = e ++ slash :: rest ∧ (slash ∉ e) ∧ pathUnescape e = n ∧
    matches (s :: ss) (segments_of (slash :: rest)) vs.
Proof.
  split.
  - intros (from & segs & Hs & Hm)%matches_literal_inv. destruct (first_slash bs) as [Hb|(e & rest & -> & He)].
    + rewrite segments_last in Hs by done. injection Hs as _ _ <-. by inversion Hm.
    + rewrite segments_more in Hs by done. injection Hs as Hn _ <-. by exists e, rest.
  - intros (e & rest & -> & He & <- & Hm). rewrite segments_more by done. by constructor.
Qed.

Lemma matches_element s ss bs vs : matches (Wildcard :: s :: ss) (segments_of (slash :: bs)) vs ↔
  ∃ e rest vs', bs = e ++ slash :: rest ∧ (slash ∉ e) ∧ pathUnescape e ≠ [slash] ∧
    vs = pathUnescape e :: vs' ∧ matches (s :: ss) (segments_of (slash :: rest)) vs'.
Proof.
  split.
  - intros (seg & from & segs & vs' & Hs & -> & Hne & Hm)%matches_wildcard_inv.
    destruct (first_slash bs) as [Hb|(e & rest & -> & He)].
    + rewrite segments_last in Hs by done. injection Hs as _ _ <-. by inversion Hm.
    + rewrite segments_more in Hs by done. injection Hs as <- _ <-. by exists e, rest, vs'.
  - intros (e & rest & vs' & -> & He & Hne & -> & Hm). rewrite segments_more by done. by constructor.
Qed.

Lemma matches_last s bs vs : s ≠ Multi → matches [s] (segments_of (slash :: bs)) vs →
  (slash ∉ bs) ∧ matches [s] [(if bool_decide (bs = []) then [slash] else pathUnescape bs, bs)] vs.
Proof.
  intros Hs Hm. destruct (first_slash bs) as [Hb|(e & rest & -> & He)].
  - by rewrite segments_last in Hm.
  - exfalso. rewrite segments_more in Hm by done.
    assert (segments_of (slash :: rest) ≠ []) as Hne.
    { unfold segments_of. by destruct (path_segments_from rest) as (? & ? & ->). }
    inversion Hm as [|? ? ? ? ? Hm'|? ? ? ? ? ? Hm'|]; subst; [..|done]; by apply matches_nil_inv in Hm' as [? _].
Qed.

Lemma matches_machine bs vs : matches [Wildcard] (segments_of (slash :: bs)) vs ↔
  (slash ∉ bs) ∧ bs ≠ [] ∧ pathUnescape bs ≠ [slash] ∧ vs = [pathUnescape bs].
Proof.
  split.
  - intros [Hb (? & ? & ? & vs' & [= <- <- <-] & -> & Hne & [_ ->]%matches_nil_inv)%matches_wildcard_inv]%matches_last;
      [|done].
    destruct (bool_decide_reflect (bs = [])); [done|]. done.
  - intros (Hb & Hne & Hs & ->). rewrite segments_last, bool_decide_false by done.
    constructor; [done|constructor].
Qed.

Lemma matches_ws bs vs : matches [Literal (bytes_of "ws")] (segments_of (slash :: bs)) vs ↔
  (slash ∉ bs) ∧ pathUnescape bs = bytes_of "ws" ∧ vs = [].
Proof.
  split.
  - intros [Hb (? & ? & [= Hw <- <-] & [_ ->]%matches_nil_inv)%matches_literal_inv]%matches_last; [|done].
    destruct (bool_decide_reflect (bs = [])); [by vm_compute in Hw|]. done.
  - intros (Hb & Hw & ->). rewrite segments_last, bool_decide_false, Hw by (done || by intros ->).
    repeat constructor.
Qed.

(** The routes match what they are for. *)
Lemma routes_asks oee bs e vs :
  (∃ p, p ∈ routes oee ∧ pat_handler p = e ∧ matches (pat_segments p) (segments_of (slash :: bs)) vs) ↔
  ∃ v, vs = [v] ∧ asks oee (slash :: bs) e v.
Proof.
  split.
  - intros (p & Hin & He & Hm).
    assert (p ∈ routes false ∨ oee = true ∧ p ∈ drop 2 (routes true)) as Hp
      by (destruct oee; cbn [routes app drop] in *; set_solver).
    clear Hin. destruct Hp as [Hin|[-> Hin]];
      repeat (apply elem_of_cons in Hin as [->|Hin]); try (by apply elem_of_nil in Hin);
      cbn [route pat_segments pat_handler] in *; subst e;
      apply matches_name in Hm as (name & rest & -> & Hn & Hu & Hm).
    + apply matches_rest in Hm as ->. eexists. split; [done|]. by constructor.
    + apply matches_rest in Hm as ->. eexists. split; [done|]. by constructor.
    + apply matches_machine in Hm as (? & ? & ? & ->). eexists. split; [done|]. by constructor.
    + apply matches_element in Hm as (m & ws & vs' & -> & ? & ? & -> & (? & ? & ->)%matches_ws).
      eexists. split; [done|]. by constructor.
  - intros (v & -> & Ha). inversion Ha as [name topic Hn Hu|name topic Hn Hu|name m Ho Hn Hu Hm Hne Hs
      |name m ws Ho Hn Hu Hm Hs Hw Huw]; subst; try subst oee.
    + exists (route [Literal (bytes_of "audit"); Multi] GetByTopicRoute). split; [by left|]. split; [done|].
      apply matches_name. exists name, topic. split_and!; [done..|]. by apply matches_rest.
    + exists (route [Literal (bytes_of "audit-count"); Multi] CountByTopicRoute).
      split; [by right; left|]. split; [done|].
      apply matches_name. exists name, topic. split_and!; [done..|]. by apply matches_rest.
    + exists (route [Literal (bytes_of "availability"); Wildcard] AvailabilityRoute).
      split; [by do 2 right; left|]. split; [done|].
      apply matches_name. exists name, m. split_and!; [done..|]. by apply matches_machine.
    + exists (route [Literal (bytes_of "availability"); Wildcard; Literal (bytes_of "ws")] LiveRoute).
      split; [by do 3 right; left|]. split; [done|].
      apply matches_name. exists name, (m ++ slash :: ws). split_and!; [done..|].
      apply matches_element. exists m, ws, []. split_and!; [done..|]. by apply matches_ws.
Qed.

Lemma asks_rooted oee path e v : asks oee path e v → ∃ bs, path = slash :: bs.
Proof. destruct 1; by eexists. Qed.

Lemma routable_asked oee bs : routable oee (slash :: bs) ↔ asked oee (slash :: bs).
Proof.
  split.
  - intros (p & vs & Hin & Hm).
    destruct (proj1 (routes_asks oee bs (pat_handler p) vs)) as (v & _ & Ha); [by exists p|]. by eexists _, _.
  - intros (e & v & Ha). destruct (proj2 (routes_asks oee bs e [v])) as (p & Hin & _ & Hm); [by exists v|].
    by eexists _, _.
Qed.

(** A path asks for one thing. *)
Lemma asks_functional oee path e1 v1 e2 v2 : asks oee path e1 v1 → asks oee path e2 v2 → e1 = e2 ∧ v1 = v2.
Proof.
  destruct 1 as [n1 t1 Hn1 Hu1|n1 t1 Hn1 Hu1|n1 t1 _ Hn1 Hu1 Hm1 _ _|n1 m1 w1 _ Hn1 Hu1 Hm1 _ Hw1 _];
    inversion 1 as [n2 t2 Hn2 Hu2 Heq|n2 t2 Hn2 Hu2 Heq|n2 t2 _ Hn2 Hu2 Hm2 _ _ Heq
      |n2 m2 w2 _ Hn2 Hu2 Hm2 _ Hw2 _ Heq];
    destruct (first_slash_inj _ _ _ _ Hn2 Hn1 Heq) as [<- Ht]; clear Heq;
    rewrite Hu1 in Hu2; try (vm_compute in Hu2; discriminate); clear Hu1 Hu2.
  - by subst.
  - by subst.
  - by subst.
  - subst t1. set_solver.
  - subst t2. set_solver.
  - by destruct (first_slash_inj _ _ _ _ Hm2 Hm1 Ht) as [<- _].
Qed.

Lemma clean_rooted path : cleanPath path = path → ∃ bs, path = slash :: bs.
Proof.
  intros Hc. destruct (cleanPath_shape path) as (es & _ & [Hp|[_ Hp]]); rewrite Hc in Hp; by eexists.
Qed.

(** With a slash behind it a path can only ask for the rest of a path. *)
Lemma asks_with_slash oee path e v : asks oee (path ++ [slash]) e v → ∃ name, rest_route name e.
Proof.
  assert (∀ x y, slash ∉ y → x ++ slash :: y = path ++ [slash] → y = []) as Hend.
  { intros x y Hy Heq. destruct (exists_last_or_nil y) as [->|(y' & b & ->)]; [done|].
    rewrite app_comm_cons, app_assoc in Heq. apply app_inj_tail in Heq as [_ ->]. set_solver. }
  inversion 1 as [? ? ? ? Heq|? ? ? ? Heq|n m ? ? ? Hm Hne ? Heq|n m ws ? ? ? ? ? Hw Hu Heq].
  - by exists "audit"%string; left.
  - by exists "audit-count"%string; right.
  - exfalso. apply Hne, (Hend (slash :: n)); [done|exact Heq].
  - exfalso. assert (ws = []) as -> by (apply (Hend (slash :: n ++ slash :: m)); [done|];
      rewrite <-Heq; cbn [app]; by rewrite <-(assoc_L (++))). by vm_compute in Hu.
Qed.

Lemma asks_slashes oee path e v : asks oee path e v → (2 ≤ slashes path)%nat.
Proof.
  assert (∀ x y, (2 ≤ slashes ([slash] ++ x ++ [slash] ++ y))%nat) as Hs.
  { intros x y. rewrite !slashes_app. change (slashes [slash]) with 1%nat. lia. }
  destruct 1; apply Hs.
Qed.

(** Redirections of clean paths. *)
Lemma redirected_clean oee method path : method ≠ "CONNECT"%string → cleanPath path = path →
  findHandler (routes oee) method path = MovedPermanently ↔
    reads method ∧ ends_with_slash path = false ∧ ¬ asked oee path ∧ asked oee (path ++ [slash]).
Proof.
  intros Hne Hc. destruct (clean_rooted path Hc) as [bs Hbs].
  assert (routable oee path ↔ asked oee path) as Hra by (rewrite Hbs; apply routable_asked).
  assert (routable oee (path ++ [slash]) ↔ asked oee (path ++ [slash])) as Hras
    by (rewrite Hbs; apply (routable_asked oee (bs ++ [slash]))).
  split.
  - unfold findHandler. rewrite (bool_decide_false (method = _)), Hc, (bool_decide_true (path = path)) by done.
    cbn [negb]. destruct (negb (exactMatch _ path) && _ && _) eqn:Hr.
    2: { destruct (tree_match (routes oee) method path) as [[? ?]|]; [done|]. by destruct (_ || _). }
    intros _. apply andb_true_iff in Hr as [[Hx%negb_true_iff Hs%negb_true_iff]%andb_true_iff He].
    destruct (exactMatch_routable _ _ _ _ eq_refl He) as [Hm Hro]. split; [done|]. split; [done|].
    split; [|by apply Hras]. intros (e & v & Ha).
    destruct (tree_match (routes oee) method (path ++ [slash])) as [[p vs]|] eqn:Ht; [|done].
    apply tree_match_Some in Ht as (_ & Hin & Hma). rewrite Hbs in Hma.
    destruct (proj1 (routes_asks oee (bs ++ [slash]) (pat_handler p) vs)) as (v' & _ & Ha'); [by exists p|].
    change (slash :: bs ++ [slash]) with ((slash :: bs) ++ [slash]) in Ha'.
    apply asks_with_slash in Ha' as [name Hn].
    assert (∃ n, pat_segments p = [Literal n; Multi]) as [n Hp].
    { destruct Hn as [[_ Hn]|[_ Hn]]; destruct oee; repeat (apply elem_of_cons in Hin as [->|Hin]);
        try (by apply elem_of_nil in Hin); try done; by eexists. }
    unfold exactMatch in He. rewrite Hp, ends_slash in He. simpl in He. apply bool_decide_eq_true in He.
    change (2%nat = slashes (path ++ [slash])) in He. rewrite slashes_app in He.
    apply asks_slashes in Ha. change (slashes [slash]) with 1%nat in He. lia.
  - intros (Hm & Hs & Hn & Ha). unfold findHandler.
    rewrite (bool_decide_false (method = _)), Hc by done.
    rewrite (tree_match_slash oee method path Hc Hs) by (by rewrite ?Hra, ?Hras).
    destruct (tree_match (routes oee) method path) as [[p vs]|] eqn:Ht; [|by rewrite Hs].
    exfalso. apply Hn, Hra. apply tree_match_Some in Ht as (_ & Hin & Hma). by exists p, vs.
Qed.

(** The handler found is the one of what the path asks for. *)
Lemma handled_asks oee method path e v : reads method → cleanPath path = path → asks oee path e v →
  findHandler (routes oee) method path = Handled e [v].
Proof.
  intros Hm Hc Ha. assert (method ≠ "CONNECT"%string) as Hne by (by destruct Hm as [-> | ->]).
  pose proof (routed_requests oee method path Hne) as Hr.
  destruct (asks_rooted _ _ _ _ Ha) as [bs Hbs].
  assert (routable oee path) as Hro by (rewrite Hbs; apply routable_asked; rewrite <-Hbs; by exists e, v).
  destruct (findHandler (routes oee) method path) as [e' vs| | |] eqn:Hf.
  - destruct Hr as (_ & _ & p & Hp). rewrite Hbs in Hp.
    destruct (proj1 (routes_asks oee bs e' vs)) as (v' & -> & Ha'); [by exists p|].
    rewrite <-Hbs in Ha'. by destruct (asks_functional _ _ _ _ _ _ Ha Ha') as [-> ->].
  - apply redirected_clean in Hf as (_ & _ & Hn & _); [|done|done]. exfalso. apply Hn. by exists e, v.
  - by destruct Hr as (_ & Hn & _).
  - by destruct Hr as (_ & Hn & _).
Qed.

(** ** Machines *)

Definition machine_path (m : string) (more : list (list byte)) : list byte :=
  slash :: join_bytes slash (bytes_of "availability" :: percent (bytes_of m) :: more).

Lemma machine_proper m more : m ≠ ""%string → Forall proper more →
  Forall proper (bytes_of "availability" :: percent (bytes_of m) :: more).
Proof.
  intros Hm Hmore. constructor; [apply (bool_decide_unpack _); vm_compute; exact I|].
  constructor; [|done]. apply percent_proper. intros Hb. apply Hm. by rewrite <-(string_of_bytes_of m), Hb.
Qed.

(** The node of the routes below /availability. *)
Definition machine_node : list (list segment * pattern endpoint) :=
  [([Wildcard], route [Literal (bytes_of "availability"); Wildcard] AvailabilityRoute);
   ([Wildcard; Literal (bytes_of "ws")],
    route [Literal (bytes_of "availability"); Wildcard; Literal (bytes_of "ws")] LiveRoute)].

Lemma match_machine from1 from2 seg segs p vs : seg ≠ [slash] →
  matchPath segs (below Wildcard machine_node) [seg] = Some (p, vs) →
  matchPath ((bytes_of "availability", from1) :: (seg, from2) :: segs)
    ((λ p, (pat_segments p, p)) <$> routes true) [] = Some (p, vs).
Proof.
  intros Hs Hm. apply matchPath_literal.
  assert (below (Literal (bytes_of "availability")) ((λ p, (pat_segments p, p)) <$> routes true) =
    machine_node) as -> by reflexivity.
  by apply matchPath_wildcard.
Qed.

(** What the routes of the machines match. *)
Lemma machine_routes_inv p segs vs : p ∈ routes true → matches (pat_segments p) segs vs →
  (pat_handler p = GetByTopicRoute ∨ pat_handler p = CountByTopicRoute) ∧
    (∃ from rest, segs = (bytes_of "audit", from) :: rest ∨ segs = (bytes_of "audit-count", from) :: rest) ∨
  ∃ m from1 from2 rest, vs = [m] ∧ m ≠ [slash] ∧
    segs = (bytes_of "availability", from1) :: (m, from2) :: rest ∧
    (pat_handler p = AvailabilityRoute ∧ rest = [] ∨
     pat_handler p = LiveRoute ∧ ∃ f, rest = [(bytes_of "ws", f)]).
Proof.
  intros Hin Hma. repeat (apply elem_of_cons in Hin as [->|Hin]); [..|by apply elem_of_nil in Hin];
    cbn [route pat_segments pat_handler] in *; apply matches_literal_inv in Hma as (f1 & segs1 & -> & Hma).
  - left. split; [by left|]. eauto.
  - left. split; [by right|]. eauto.
  - apply matches_wildcard_inv in Hma as (m & f2 & segs2 & vs2 & -> & -> & Hne & Hma).
    apply matches_nil_inv in Hma as [-> ->]. right. eexists _, _, _, _. eauto 9.
  - apply matches_wildcard_inv in Hma as (m & f2 & segs2 & vs2 & -> & -> & Hne & Hma).
    apply matches_literal_inv in Hma as (f3 & segs3 & -> & Hma).
    apply matches_nil_inv in Hma as [-> ->]. right. eexists _, _, _, _. eauto 12.
Qed.

Lemma machine_segments m more : m ≠ ""%string → Forall proper more →
  (∃ from1 from2, segments_of (machine_path m more) =
    (bytes_of "availability", from1) :: (bytes_of m, from2) :: path_segments more) ∧
  (∃ from1 from2, segments_of (machine_path m more ++ [slash]) =
    (bytes_of "availability", from1) :: (bytes_of m, from2) :: path_segments (more ++ [[]])).
Proof.
  intros Hm Hmore. pose proof (machine_proper m more Hm Hmore) as Hes.
  apply segments_proper in Hes as [H1 H2]; [|done].
  unfold machine_path. cbn [app]. rewrite H1, H2.
  assert (percent (bytes_of m) ≠ []) as Hne.
  { intros Hp%percent_nil. apply Hm. by rewrite <-(string_of_bytes_of m), Hp. }
  pose proof (pathUnescape_percent (bytes_of m)) as Hu. revert Hne Hu.
  generalize (percent (bytes_of m)) as e. intros e Hne Hu.
  split; (destruct more as [|e' more]; cbn [app path_segments];
    rewrite ?(bool_decide_false (e = [])), Hu by done; by eexists _, _).
Qed.

(** With a slash behind it such a path is not found. *)
Lemma machine_slash m more : m ≠ ""%string → more = [] ∨ more = [bytes_of "ws"] →
  tree_match (routes true) "GET" (machine_path m more ++ [slash]) = None.
Proof.
  intros Hm Hmore. destruct (tree_match _ _ _) as [[p vs]|] eqn:Ht; [|done]. exfalso.
  apply tree_match_Some in Ht as (_ & Hin & Hma).
  assert (Forall proper more) as Hp.
  { destruct Hmore as [-> | ->]; [constructor|]. constructor; [|constructor].
    apply (bool_decide_unpack _); vm_compute; exact I. }
  destruct (machine_segments m more Hm Hp) as [_ (f1 & f2 & Hs)]. rewrite Hs in Hma.
  apply machine_routes_inv in Hma as [[_ (f & rest & [[=]|[=]])]|(m' & ? & ? & rest & _ & _ & [= _ _ _ <-] & Hr)]; [|done].
  destruct Hmore as [-> | ->], Hr as [[_ Hr]|[_ [f Hr]]]; by vm_compute in Hr.
Qed.

Lemma machine_reached m : m ≠ ""%string → m ≠ "/"%string →
  findHandler (routes true) "GET" (machine_path m []) = Handled AvailabilityRoute [bytes_of m] ∧
  findHandler (routes true) "GET" (machine_path m [bytes_of "ws"]) = Handled LiveRoute [bytes_of m].
Proof.
  intros Hm Hs.
  assert (bytes_of m ≠ [slash]) as Hne.
  { intros Hb. apply Hs. by rewrite <-(string_of_bytes_of m), Hb. }
  assert (Forall proper [bytes_of "ws"]) as Hws
    by (apply Forall_singleton, (bool_decide_unpack _); vm_compute; exact I).
  assert (reads "GET") as Hg by by left.
  assert (∀ more, Forall proper more → cleanPath (machine_path m more) = machine_path m more) as Hc
    by (intros more Hmore; apply cleanPath_proper; [done|by apply machine_proper]).
  split.
  - apply (findHandler_clean true _ _ (route [Literal (bytes_of "availability"); Wildcard] AvailabilityRoute));
      [done|by apply Hc; constructor| |by rewrite machine_slash by auto].
    destruct (machine_segments m [] Hm ltac:(constructor)) as [(f1 & f2 & Hseg) _].
    rewrite (tree_match_reads _ _ _ Hg), Hseg. by apply match_machine.
  - apply (findHandler_clean true _ _
      (route [Literal (bytes_of "availability"); Wildcard; Literal (bytes_of "ws")] LiveRoute));
      [done|by apply Hc| |by rewrite machine_slash by auto].
    destruct (machine_segments m [bytes_of "ws"] Hm Hws) as [(f1 & f2 & Hseg) _].
    rewrite (tree_match_reads _ _ _ Hg), Hseg. by apply match_machine.
Qed.

(** The machines that can be asked for, over both routes: all that have a
    name, but for the one whose name is a slash, which no request reaches: the
    multiplexer takes an escaped slash for the end of the path. *)
Theorem machine_route m :
  (m ≠ ""%string ∧ m ≠ "/"%string ↔
    ∃ path, findHandler (routes true) "GET" path = Handled AvailabilityRoute [bytes_of m]) ∧
  (m ≠ ""%string ∧ m ≠ "/"%string ↔
    ∃ path, findHandler (routes true) "GET" path = Handled LiveRoute [bytes_of m]).
Proof.
  assert (∀ e path, e = AvailabilityRoute ∨ e = LiveRoute →
    findHandler (routes true) "GET" path = Handled e [bytes_of m] → m ≠ ""%string ∧ m ≠ "/"%string) as Hs.
  { intros e path He Hf. pose proof (routed_requests true "GET" path ltac:(done)) as Hr. rewrite Hf in Hr.
    destruct Hr as (_ & Hc & p & Hin & Hp & Hma). apply clean_segments in Hc.
    apply machine_routes_inv in Hma as [[Hh _]|(m' & f1 & f2 & rest & [= Hm'] & Hne & Hseg & _)]; [| |exact Hin].
    - rewrite Hp in Hh. destruct He as [-> | ->], Hh; discriminate.
    - rewrite Hseg in Hc. apply Forall_cons in Hc as [_ [Hc _]%Forall_cons]. simpl in Hc.
      rewrite <-Hm' in *. split; by intros ->. }
  split; (split; [intros [Hm Hn]; eexists; by apply machine_reached|intros [path Hf]; eapply Hs; [|exact Hf]; auto]).
Qed.

(** ** Records over HTTP *)

(** [[]domain.Record] as a client decodes it. *)
Definition zero_record : audit_record := {|
  rec_client := ""; rec_topic := ""; rec_timezone := ""; rec_timestamp := ""; rec_payload := ""
|}.
Definition record_fields : fields audit_record := [
  (bytes_of "client_id", on_field rec_client (λ x r,
     {| rec_client := x; rec_topic := rec_topic r; rec_timezone := rec_timezone r;
     rec_timestamp := rec_timestamp r; rec_payload := rec_payload r |}) decode_string);
  (bytes_of "topic", on_field rec_topic (λ x r,
     {| rec_client := rec_client r; rec_topic := x; rec_timezone := rec_timezone r;
     rec_timestamp := rec_timestamp r; rec_payload := rec_payload r |}) decode_string);
  (bytes_of "timezone", on_field rec_timezone (λ x r,
     {| rec_client := rec_client r; rec_topic := rec_topic r; rec_timezone := x;
     rec_timestamp := rec_timestamp r; rec_payload := rec_payload r |}) decode_string);
  (bytes_of "timestamp", on_field rec_timestamp (λ x r,
     {| rec_client := rec_client r; rec_topic := rec_topic r; rec_timezone := rec_timezone r;
     rec_timestamp := x; rec_payload := rec_payload r |}) decode_string);
  (bytes_of "payload", on_field rec_payload (λ x r,
     {| rec_client := rec_client r; rec_topic := rec_topic r; rec_timezone := rec_timezone r;
     rec_timestamp := rec_timestamp r; rec_payload := x |}) decode_string)
].
Definition read_records (body : list byte) : option (list audit_record) :=
  slice_elems <$> Unmarshal nil_slice (decode_slice zero_record (decode_struct record_fields)) body.

(** What JSON can say of a record. *)
Definition said_record (r : audit_record) : audit_record := {|
  rec_client := said (rec_client r); rec_topic := said (rec_topic r);
  rec_timezone := said (rec_timezone r); rec_timestamp := said (rec_timestamp r);
  rec_payload := said (rec_payload r)
|}.

Lemma record_printable d r : printable (S d) (marshal_record r).
Proof. apply struct_printable. print_fields. Qed.

Lemma decode_marshal_record r :
  decode_struct record_fields zero_record (marshal_record r) = Some (said_record r).
Proof.
  unfold marshal_record, marshal_struct. cbn [fmap list_fmap]. cbn [decode_struct].
  do 5 decode_next decode_marshal_string. reflexivity.
Qed.

Lemma read_marshalled rs :
  read_records (print (marshal_slice marshal_record rs) ++ [newline]) = Some (said_record <$> rs).
Proof.
  unfold read_records. edestruct (Unmarshal_print nil_slice (decode_slice zero_record (decode_struct record_fields)) 2)
    as [_ ->]; [apply slice_printable; intros; apply record_printable|done|].
  rewrite (decode_marshal_slice zero_record _ _ said_record) by (intros; apply decode_marshal_record).
  cbn [fmap option_fmap option_map]. by rewrite slice_elems_all by by rewrite length_fmap.
Qed.

Section served.
Context {D R : Type} `{IntervalReader D, ShiftReader R}.
Implicit Types (ivs : D) (shifts : R).

Definition audit_request (name t : string) : request := {|
  req_method := "GET"; req_path := slash :: bytes_of name ++ slash :: percent (bytes_of t);
  req_query := []
|}.

Lemma serve_audit oee t db ivs shifts : t ≠ ""%string →
  (serve oee (audit_request "audit" t) db ivs shifts).1 =
    audit_answer (marshal_slice marshal_record) (getByTopic t db).1 ∧
  (serve oee (audit_request "audit-count" t) db ivs shifts).1 =
    audit_answer marshal_count (countByTopic t db).1.
Proof.
  intros Ht. destruct (audit_reached oee "GET" t (or_introl eq_refl) Ht) as [H1 H2].
  unfold serve. cbn [audit_request req_method req_path]. rewrite H1, H2.
  cbn [handle path_value head default]. unfold path_value. cbn [head from_option id].
  rewrite string_of_bytes_of. split.
  - destruct (getByTopic t db) as [[] ?]; done.
  - destruct (countByTopic t db) as [[] ?]; done.
Qed.

(** C20: The routing, of every request but CONNECT, from the bytes of its path
    to its answer.  GET and HEAD of a clean path that asks for something are
    answered by the use case of exactly that: the records of the topic, their
    number, the availability of the machine over the window of the query, or
    the websocket of the machine.  A path that is not clean is redirected, and
    so is, for GET and HEAD, one that asks for something only with a slash
    behind it; other methods on these paths are answered 405; and all other
    requests 404.  These are all cases. *)
Theorem request_routing oee req db ivs shifts :
  let method := req_method req in
  let path := req_path req in
  let a := (serve oee req db ivs shifts).1 in
  let almost := ends_with_slash path = false ∧ asked oee (path ++ [slash]) in
  method ≠ "CONNECT"%string →
  (∀ e v, reads method → cleanPath path = path → asks oee path e v → a = send method
     match e with
     | GetByTopicRoute => audit_answer (marshal_slice marshal_record) (getByTopic (string_of v) db).1
     | CountByTopicRoute => audit_answer marshal_count (countByTopic (string_of v) db).1
     | AvailabilityRoute => availability_answer
         (getAvailability Parse ivs shifts (string_of v) (query_value req "from") (query_value req "to"))
     | LiveRoute => ToWebsocket (string_of v)
     end) ∧
  (cleanPath path ≠ path ∨ reads method ∧ ¬ asked oee path ∧ almost → a = Redirected) ∧
  (cleanPath path = path ∧ ¬ reads method ∧ (asked oee path ∨ almost) →
     a = send method (text_answer 405 "Method Not Allowed")) ∧
  (cleanPath path = path ∧ ¬ asked oee path ∧ ¬ almost →
     a = send method (text_answer 404 "404 page not found")).
Proof.
  intros method path a almost Hne. pose proof (routed_requests oee method path Hne) as Hr.
  pose proof (redirected_clean oee method path Hne) as Hd.
  assert (cleanPath path = path → (routable oee path ↔ asked oee path) ∧
    (routable oee (path ++ [slash]) ↔ asked oee (path ++ [slash]))) as Hro.
  { intros [bs ->]%clean_rooted. split; [apply routable_asked|apply (routable_asked oee (bs ++ [slash]))]. }
  split.
  { intros e v Hm Hc Ha. unfold a, serve. fold method path. rewrite (handled_asks oee method path e v Hm Hc Ha).
    destruct e; cbn [handle]; unfold path_value; cbn [head from_option id]; [..|done|done].
    - by destruct (getByTopic (string_of v) db).
    - by destruct (countByTopic (string_of v) db). }
  unfold a, serve. fold method path. unfold almost in *.
  destruct (findHandler (routes oee) method path) as [e vs| | |] eqn:Hf.
  - destruct Hr as (Hm & Hc & p & Hin & _ & Hma). destruct (Hro Hc) as [Ha _].
    assert (asked oee path) by (apply Ha; by exists p, vs).
    split; [by intros [?|(_ & ? & _)]|]. split; [by intros (_ & ? & _)|by intros (_ & ? & _)].
  - split; [done|].
    split; intros (Hc & Hx & Hy); destruct (proj1 (Hd Hc) eq_refl) as (Hm & Hs & _ & Has); [done|].
    by destruct Hy.
  - destruct Hr as (Hc & Hm & Hx). destruct (Hro Hc) as [Ha Has]. rewrite Ha, Has in Hx.
    split; [by intros [?|(? & _)]|]. split; [done|]. intros (_ & ? & ?). by destruct Hx.
  - destruct Hr as (Hc & Hn & Hx). destruct (Hro Hc) as [Ha Has]. rewrite Ha in Hn. rewrite Has in Hx.
    specialize (Hd Hc). split; [|split; [|done]].
    + intros [?|(Hm & Hy & Hz & Hw)]; [done|]. by discriminate (proj2 Hd (conj Hm (conj Hz (conj Hy Hw)))).
    + intros (_ & Hm & [?|[Hz Hw]]); [done|]. destruct Hx as [?|[Hs|?]]; [done| |done].
      by rewrite Hs in Hz.
Qed.

(** C6: What was published, over HTTP: of every execution of the ingestion
    pipeline over the repository, a GET of the topic's path, with its bytes
    percent-escaped, is answered with status 200 and a JSON body that is read
    back as the records of the topic that were there before and then, in
    order, one for every message of it that was saved, their strings as UTF-8
    can say them; the count route answers with their number; and both answer
    500 exactly when the query fails. *)
Theorem audit_over_http Local oee acts topics (db : database raw_data) n ls p t ivs shifts :
  t ≠ ""%string → execute (pl_step (H := raw_Store Local)) acts (NewPipeline topics db n) = Some (ls, p) →
  let before := List.filter (λ r, bool_decide (topic r = t)) (tables db) in
  let shown := before ++ (raw_of Local <$> at_topic t (saves ls)) in
  let get name := (serve oee (audit_request name t) (Ingestion.store p) ivs shifts).1 in
  if decide (head (Sql.failures (Ingestion.store p)) = Some true) then
    get "audit"%string = error_answer 500 "internal server error" ∧
    get "audit-count"%string = error_answer 500 "internal server error"
  else
    (∃ body, get "audit"%string = Answered 200 ApplicationJSON body ∧
      read_records body = Some (said_record <$> (record_of <$> shown))) ∧
    get "audit-count"%string =
      json_answer (Some (marshal_count (Z.of_nat (length shown)))).
Proof.
  intros Ht Hx before shown get. destruct (audit_shown Local acts topics db n ls p t Hx) as [Hget Hcount].
  unfold get. destruct (serve_audit oee t (Ingestion.store p) ivs shifts Ht) as [-> ->]. rewrite Hget, Hcount.
  destruct (decide (t = ""%string)) as [|_]; [done|]. destruct (decide (head _ = _)); [done|]. split; [|done].
  eexists. split; [reflexivity|]. apply read_marshalled.
Qed.

(** ** All answers *)

Definition json_body (body : list byte) : Prop := body = [] ∨ ∃ v, Parse_json body = Some v.

Lemma printed_body d v : printable d v → Z.of_nat d ≤ maxNestingDepth → json_body (print v ++ [newline]).
Proof. intros Hv Hd. right. exists v. by apply (parse_print d). Qed.

Lemma output_printable o v : marshal_output o = Some v → printable 2 v.
Proof.
  unfold marshal_output. intros (from & H1 & Hv)%bind_Some. apply bind_Some in Hv as (to & H2 & Hv).
  apply bind_Some in Hv as (av & H3 & Hv). apply (inj Some) in Hv. subst v. apply struct_printable.
  repeat (apply Forall_cons; split); [..|apply Forall_nil; exact I]; (split; [by vm_compute|]);
    first [apply string_printable|apply int_printable|by eapply time_printable
          |by eapply float_printable|apply flags_printable|constructor].
Qed.

Lemma error_body text : json_body (print (marshal_struct [("error"%string, marshal_string text)]) ++ [newline]).
Proof. apply (printed_body 1); [apply struct_printable; print_fields|done]. Qed.

(** What an answer can be. *)
Record well_answered (oee : bool) (db : database raw_data) ivs shifts (a : answer) : Prop := {
  wa_status : ∀ status type body, a = Answered status type body →
    status ∈ [200; 400; 404; 405; 500] ∧ (type = ApplicationJSON ↔ status = 200);
  wa_body : ∀ status type body, a = Answered status type body → status ∈ [200; 400; 500] → json_body body;
  wa_failed : ∀ type body, a = Answered 500 type body →
    head (Sql.failures db) = Some true ∨ oee = true ∧ ∃ m w e, Execute ivs shifts m w = Err e;
  wa_websocket : ∀ m, a = ToWebsocket m → oee = true;
}.

Lemma error_answered oee db ivs shifts status text : status = 400 ∨
  status = 500 ∧ (head (Sql.failures db) = Some true ∨ oee = true ∧ ∃ m w e, Execute ivs shifts m w = Err e) →
  well_answered oee db ivs shifts (error_answer status text).
Proof.
  intros Hs. split; try done.
  - intros ? ? ? [= <- <- <-]. split; [set_solver|]. split; [done|]. naive_solver.
  - intros ? ? ? [= <- <- <-] _. apply error_body.
  - intros ? ? [= -> <- <-]. naive_solver.
Qed.

Lemma json_answered oee db ivs shifts v d : (∀ v', v = Some v' → printable d v') →
  Z.of_nat d ≤ maxNestingDepth → well_answered oee db ivs shifts (json_answer v).
Proof.
  intros Hv Hd. split; try done.
  - intros ? ? ? [= <- <- <-]. split; [set_solver|done].
  - intros ? ? ? [= <- <- <-] _. destruct v as [v|]; [by eapply printed_body; [apply Hv|]|by left].
Qed.

Lemma audit_answered {A} (marshal : A → json) (execute : string → sql raw_data A) d t oee db ivs shifts :
  (∀ a, printable d (marshal a)) → Z.of_nat d ≤ maxNestingDepth →
  (∀ db r db', execute t db = (r, db') → tables db' = tables db ∧ ∀ e, r = Err e → head (Sql.failures db) = Some true) →
  let '(r, db') := audit_handler execute t db in
  tables db' = tables db ∧ well_answered oee db ivs shifts (audit_answer marshal r).
Proof.
  intros Hm Hd Hx. unfold audit_handler. destruct (bool_decide _); [split; [done|]; apply error_answered; by left|].
  destruct (execute t db) as [[a|e] db'] eqn:He; destruct (Hx _ _ _ He) as [Ht Hf]; (split; [done|]).
  - apply (json_answered _ _ _ _ _ d); [|done]. intros v' [= <-]. apply Hm.
  - apply error_answered. right. split; [done|]. left. by apply (Hf e).
Qed.

Lemma handle_answered oee e values req db ivs shifts :
  (e = AvailabilityRoute ∨ e = LiveRoute → oee = true) →
  let '(a, db') := handle e values req db ivs shifts in
  tables db' = tables db ∧ well_answered oee db ivs shifts a.
Proof.
  intros Hoee. unfold handle. destruct e.
  - pose proof (audit_answered (marshal_slice marshal_record) audit_GetByTopic 2 (path_value values)
      oee db ivs shifts) as Ha. unfold getByTopic.
    destruct (audit_handler audit_GetByTopic (path_value values) db) as [r db']. apply Ha.
    + intros rs. apply slice_printable. intros r0 _. apply record_printable.
    + done.
    + intros db0 r0 db1 Hr. pose proof (audit_GetByTopic_result (path_value values) db0) as Hres.
      rewrite Hr in Hres. simpl in Hres. split.
      * unfold audit_GetByTopic, mbind, sql_bind in Hr.
        destruct (select_topic _ db0) as [[rows|] db2] eqn:Hs; apply query_tables in Hs; by injection Hr as _ <-.
      * intros e ->. by case_decide.
  - pose proof (audit_answered marshal_count CountByTopic 1 (path_value values) oee db ivs shifts) as Ha.
    unfold countByTopic. destruct (audit_handler CountByTopic (path_value values) db) as [r db']. apply Ha.
    + intros n. apply struct_printable. print_fields.
    + done.
    + intros db0 r0 db1 Hr. pose proof (query_result
        (λ rows, Z.of_nat (length (List.filter (λ r, bool_decide (topic r = path_value values)) rows))) db0) as Hres.
      unfold CountByTopic in Hr. rewrite Hr in Hres. split; [by apply query_tables in Hr|].
      intros e ->. simpl in Hres. by case_decide.
  - split; [done|]. unfold getAvailability.
    repeat case_match; try (apply error_answered; by left).
    + apply (json_answered _ _ _ _ _ 2); [|done]. intros v'. apply output_printable.
    + apply error_answered. right. split; [done|]. right. split; [by apply Hoee; left|]. by eexists _, _, _.
  - split; [done|]. split; try done. intros m _. apply Hoee. by right.
Qed.

(** C21: Every answer of the API, to any request in any state: it leaves the
    tables as they are; its status is 200, 301, 400, 404, 405 or 500; it is
    declared as JSON exactly when the status is 200, and then, and for 400 and
    500, the body is empty or valid JSON; 500 means that a query failed; and
    nothing is handed to the websocket without OEE. *)
Theorem api_answers oee req db ivs shifts :
  let '(a, db') := serve oee req db ivs shifts in
  tables db' = tables db ∧ well_answered oee db ivs shifts a.
Proof.
  assert (∀ status text, status = 404 ∨ status = 405 → well_answered oee db ivs shifts (text_answer status text)) as Htext.
  { intros status text Hs. split; try done.
    - intros ? ? ? [= <- <- <-]. split; [set_solver|]. split; [done|]. intros ->. by destruct Hs.
    - intros ? ? ? [= <- <- <-] Hin. exfalso. destruct Hs as [-> | ->]; set_solver.
    - intros ? ? [= -> _ _]. by destruct Hs. }
  assert (∀ a, well_answered oee db ivs shifts a → well_answered oee db ivs shifts (send (req_method req) a)) as Hsend.
  { intros a [H1 H2 H3 H4]. destruct a as [status type body| |m]; [|by split..].
    split; try done; cbn [send]; intros ? ? ? [= <- <- <-] || intros ? ? [= -> <- <-]; eauto.
    intros Hin. destruct (bool_decide _); [by left|eauto]. }
  unfold serve. destruct (findHandler (routes oee) (req_method req) (req_path req)) as [e values| | |] eqn:Hf.
  - pose proof (handle_answered oee e values req db ivs shifts) as Hh.
    destruct (handle e values req db ivs shifts) as [a db']. destruct Hh as [Ht Ha]; [|split; [done|by apply Hsend]].
    intros He. destruct oee; [done|]. exfalso. apply findHandler_routes in Hf. destruct He; subst; set_solver.
  - split; [done|]. by split.
  - split; [done|]. apply Hsend, Htext. by right.
  - split; [done|]. apply Hsend, Htext. by left.
Qed.
End served.

(** ** Concrete requests *)

Lemma audit_route_witness :
  findHandler (routes false) "HEAD" (slash :: bytes_of "audit" ++ slash :: percent (bytes_of "/line a/temp")) =
    Handled GetByTopicRoute [bytes_of "/line a/temp"].
Proof. apply (audit_route false "HEAD" "/line a/temp"); [by right|done]. Defined.

(** Unescaped, a topic that starts with a slash is not asked for: the request is
    redirected to the path of another topic. *)
Theorem leading_slash_lost :
  findHandler (routes false) "GET" (bytes_of "/audit//line/temp") = MovedPermanently ∧
  cleanPath (bytes_of "/audit//line/temp") = bytes_of "/audit/line/temp" ∧
  findHandler (routes false) "GET" (bytes_of "/audit/line/temp") =
    Handled GetByTopicRoute [bytes_of "line/temp"].
Proof. split_and!; vm_compute; reflexivity. Qed.

#[local] Instance no_intervals : IntervalReader unit := λ _ _ _ _, Ok [].

Definition get_of (path : string) : request :=
  {| req_method := "GET"; req_path := bytes_of path; req_query := [] |}.

Definition served_audit : database raw_data :=
  {| tables := [{| client := "cnc"; topic := "line/temp"; row_tz := "UTC";
                   timestamp := "2026-02-02T02:40:00Z"; payload := "1" |}]; Sql.failures := [] |}.

(** A request for a number, with escapes in the name of the route and in the
    topic; and what is redirected, refused and not found. *)
Lemma request_routing_witness :
  (serve true (get_of "/a%75dit-count/line%2ftemp") served_audit tt tt).1 =
    json_answer (Some (marshal_count 1)) ∧
  (serve true (get_of "/availability/CNC%2D01/ws") served_audit tt tt).1 = ToWebsocket "CNC-01" ∧
  (serve true (get_of "/audit") served_audit tt tt).1 = Redirected ∧
  (serve false (get_of "/availability/CNC-01") served_audit tt tt).1 =
    text_answer 404 "404 page not found" ∧
  (serve true {| req_method := "POST"; req_path := bytes_of "/audit/a"; req_query := [] |} served_audit tt tt).1 =
    text_answer 405 "Method Not Allowed".
Proof.
  split; [|split_and!; vm_compute; reflexivity].
  destruct (request_routing true (get_of "/a%75dit-count/line%2ftemp") served_audit tt tt ltac:(done)) as [Hr _].
  rewrite (Hr CountByTopicRoute (bytes_of "line/temp")).
  - vm_compute. reflexivity.
  - by left.
  - apply (bool_decide_unpack _). vm_compute. exact I.
  - apply (asks_count true (bytes_of "a%75dit-count") (bytes_of "line%2ftemp")).
    + apply (bool_decide_unpack _). vm_compute. exact I.
    + vm_compute. reflexivity.
Defined.

Lemma audit_over_http_witness :
  ∃ ls p body, raw_pl = Some (ls, p) ∧
    (serve false (audit_request "audit" "a") (Ingestion.store p) tt tt).1 =
      Answered 200 ApplicationJSON body ∧
    read_records body = Some [{| rec_client := "cnc"; rec_topic := "a";
      rec_timezone := "UTC"; rec_timestamp := "2026-02-02T02:40:00Z"; rec_payload := "1" |}].
Proof.
  destruct raw_pl as [[ls p]|] eqn:Hpl; [|vm_compute in Hpl; discriminate].
  pose proof (audit_over_http UTC false raw_actions ["a"%string] {| tables := []; Sql.failures := [] |} 2 ls p
    "a" tt tt ltac:(done) Hpl) as Hover.
  rewrite decide_False in Hover by (vm_compute in Hpl; injection Hpl as <- <-; vm_compute; discriminate).
  destruct Hover as [(body & Hget & Hread) _]. exists ls, p, body.
  split; [reflexivity|]. split; [exact Hget|].
  rewrite Hread. vm_compute in Hpl. injection Hpl as <- <-. vm_compute. reflexivity.
Defined.
