(* ===== verification/ApiWindows.v ===== *)
(** * Windows over HTTP

    The route of the availability query with its two bounds, which are the
    texts of times in the query string.

    - a window whose bounds are percent-escaped is answered with the query over
      it ([window_over_http]), and with a body unless JSON cannot say one of its
      bounds ([unsayable_bound]);
    - bounds whose offset is written with a plus sign are refused
      ([plus_refused]): in a query it is a space. *)

From S2P Require Export Api IntervalRepo.

Local Open Scope Z_scope.

(** from=...&to=... *)
Definition window_query (from to : list byte) : list byte :=
  bytes_of "from" ++ x3d :: from ++ x26 :: bytes_of "to" ++ x3d :: to.

Definition window_request (m : string) (from to : list byte) : request := {|
  req_method := "GET"; req_path := machine_path m []; req_query := window_query from to
|}.

(** The value of a parameter; nothing when it is malformed. *)
Definition parameter (v : list byte) : list byte :=
  if bool_decide (x3b ∈ v) then [] else default [] (QueryUnescape v).

Lemma window_values from to : x26 ∉ from → x26 ∉ to →
  Values_Get (ParseQuery (window_query from to)) (bytes_of "from") = parameter from ∧
  Values_Get (ParseQuery (window_query from to)) (bytes_of "to") = parameter to.
Proof.
  intros Hf Ht. unfold window_query.
  assert (x26 ∉ bytes_of "from" ++ x3d :: from) as H1.
  { rewrite elem_of_app, elem_of_cons. intros [Hin|[Hin|Hin]]; [|discriminate|done].
    revert Hin. by apply (bool_decide_unpack _); vm_compute. }
  assert (x26 ∉ bytes_of "to" ++ x3d :: to) as H2.
  { rewrite elem_of_app, elem_of_cons. intros [Hin|[Hin|Hin]]; [|discriminate|done].
    revert Hin. by apply (bool_decide_unpack _); vm_compute. }
  assert (bytes_of "from" ++ x3d :: from ++ x26 :: bytes_of "to" ++ x3d :: to =
    (bytes_of "from" ++ x3d :: from) ++ x26 :: bytes_of "to" ++ x3d :: to) as ->
    by by rewrite <-(assoc_L (++)).
  rewrite (ParseQuery_cons _ _ H1), (ParseQuery_one _ H2).
  rewrite !query_pair_value by (reflexivity || by apply (bool_decide_unpack _); vm_compute).
  unfold parameter. destruct (bool_decide (x3b ∈ from)), (bool_decide (x3b ∈ to));
    destruct (QueryUnescape from), (QueryUnescape to); done.
Qed.

Lemma parameter_percent bs : parameter (percent bs) = bs.
Proof.
  unfold parameter. rewrite bool_decide_false by (by apply percent_without).
  unfold QueryUnescape. by rewrite unescape_percent.
Qed.

Section windows.
Context {D R : Type} `{IntervalReader D, ShiftReader R}.
Implicit Types (ivs : D) (shifts : R).

(** The request is answered by the handler with the values of the bounds. *)
Lemma serve_window m from to db ivs shifts : m ≠ ""%string → m ≠ "/"%string →
  x26 ∉ from → x26 ∉ to →
  (serve true (window_request m from to) db ivs shifts).1 =
    availability_answer (getAvailability Parse ivs shifts m
      (string_of (parameter from)) (string_of (parameter to))).
Proof.
  intros Hm Hs Hf Ht. unfold serve, window_request. cbn [req_method req_path].
  rewrite (proj1 (machine_reached m Hm Hs)). cbn [handle].
  unfold query_value. cbn [req_query]. destruct (window_values from to Hf Ht) as [-> ->].
  unfold path_value. cbn [head default from_option id]. rewrite string_of_bytes_of.
  by destruct (availability_answer _).
Qed.

Lemma format_not_nil t : format t ≠ [].
Proof.
  unfold format. destruct (date_of _) as [[y m] d]. intros Hn%app_nil. by destruct Hn.
Qed.

(** The answer for a window. *)
Definition window_answer ivs shifts (m : string) (from to : Time) : answer :=
  if ns to <=? ns from then error_answer 400 "from must be before to"
  else match Execute ivs shifts m {| From := said_time from; To := said_time to |} with
  | Err _ => error_answer 500 "internal server error"
  | Ok o => json_answer (marshal_output o)
  end.

(** C19: A window over HTTP: with its bounds written in RFC 3339 and
    percent-escaped in the query string, the route of a machine answers with
    the JSON of the availability query over exactly that window, with 400 when
    it is empty, and with 500 when the query fails. *)
Theorem window_over_http m from to db ivs shifts :
  m ≠ ""%string → m ≠ "/"%string → storable from → storable to →
  (serve true (window_request m (percent (format from)) (percent (format to))) db ivs shifts).1 =
    window_answer ivs shifts m from to.
Proof.
  intros Hm Hs Hf Ht. rewrite serve_window by (done || by apply percent_without).
  rewrite !parameter_percent. unfold getAvailability.
  rewrite !bool_decide_false by (by rewrite string_of_nil; apply format_not_nil). cbn [orb].
  fold (Format from). fold (Format to). rewrite !Parse_Format by done.
  fold (said_time from). fold (said_time to). unfold Before, window_answer.
  change (ns (said_time from)) with (ns from). change (ns (said_time to)) with (ns to).
  rewrite Z.leb_antisym. destruct (ns from <? ns to); [|done]. cbn [negb]. by destruct (Execute _ _ _ _).
Qed.

(** What a query returns has a text when its window has. *)
Lemma output_marshalled ivs shifts m w o : Execute ivs shifts m w = Ok o →
  (∀ p found, ForMachineWindow shifts m w = Ok (p, found) → 0 ≤ p ≤ int64_max) →
  ns (From w) ≤ ns (To w) → json_time (From w) → json_time (To w) → is_Some (marshal_output o).
Proof.
  unfold Execute. intros Hx Hp Hle Hf Ht. destruct (ByMachineRange _ _ _ _) as [rows|]; [|done].
  destruct (ForMachineWindow shifts m w) as [[p found]|] eqn:Hw; [|done].
  specialize (Hp p found eq_refl). injection Hx as <-.
  set (planned := if found then p else Sub (To w) (From w)).
  assert (0 ≤ planned ≤ int64_max) as Hpl.
  { unfold planned, Sub, int64_min, int64_max in *. destruct found; lia. }
  unfold marshal_output. cbn [OutWindowFrom OutWindowTo OutAvailability].
  rewrite (marshal_json_time _ Hf), (marshal_json_time _ Ht). cbn [mbind option_bind].
  set (i := Aggregate _ _ _). assert (InPlannedProductionTime i = planned) as Hi.
  { unfold i, Aggregate. by destruct (foldl _ _ _) as [[? ?] ?]. }
  assert (finite (ResAvailability (Availability i))) as Hfin by (apply Availability_finite; by rewrite Hi).
  assert (is_Some (marshal_float (if HasData (Availability i) && (0 <? IntervalCount i)
    then ResAvailability (Availability i) else Fzero))) as [v ->].
  { apply marshal_float_finite. by destruct (_ && _). }
  by eexists.
Qed.

(** A bound whose offset is written with a bare plus sign is refused: the
    query string makes a space of it, and no text with a space is a time. *)
Theorem plus_refused m from to db ivs shifts :
  m ≠ ""%string → m ≠ "/"%string → x26 ∉ from → x26 ∉ to → x2b ∈ from →
  ∃ text, (serve true (window_request m from to) db ivs shifts).1 = error_answer 400 text.
Proof.
  intros Hm Hs Hf Ht Hplus. rewrite serve_window by done. unfold getAvailability.
  destruct (bool_decide (string_of (parameter from) = "")) eqn:He; [by eexists|].
  destruct (bool_decide (string_of (parameter to) = "")); [by eexists|]. cbn [orb].
  destruct (Parse (string_of (parameter from))) as [t|] eqn:Hp; [exfalso|by eexists].
  unfold Parse in Hp. rewrite bytes_of_string_of in Hp. apply (parse_no_space _ _ Hp).
  unfold parameter in *. destruct (bool_decide (x3b ∈ from)); [by rewrite bool_decide_true in He|].
  destruct (QueryUnescape from) as [u|] eqn:Hu; [|by rewrite bool_decide_true in He].
  by apply (unescape_plus from).
Qed.
End windows.

(** ** Concrete requests *)

Definition sample_start : Time := {| ns := 1770030000 * Second; loc := fixed 19800 |}.
Definition sample_end : Time := {| ns := 1770033600 * Second; loc := UTC |}.

Lemma sample_bounds : storable sample_start ∧ storable sample_end.
Proof.
  split; (split; [split; vm_compute; discriminate|split; [vm_compute; reflexivity|split; vm_compute; reflexivity]]).
Qed.

Definition no_records : database raw_data := {| tables := []; Sql.failures := [] |}.

(** An hour of a machine that stopped at its start. *)
Definition stopped_db : database interval_table :=
  (OpenInterval_db "CNC-01" Stopped sample_end
    (OpenInterval_db "CNC-01" Running (at_unix 1770030000) (empty_db [])).2).2.

Definition hour_answer (from to : list byte) : answer :=
  (serve true (window_request "CNC-01" from to) no_records stopped_db tt).1.

Lemma window_over_http_witness :
  hour_answer (percent (format sample_start)) (percent (format sample_end)) =
    window_answer stopped_db tt "CNC-01" sample_start sample_end ∧
  hour_answer (percent (format sample_start)) (percent (format sample_end)) =
    json_answer (Some (marshal_struct [
      ("machine_id", marshal_string "CNC-01");
      ("window_from", JString (bytes_of "2026-02-02T16:30:00+05:30"));
      ("window_to", JString (bytes_of "2026-02-02T12:00:00Z"));
      ("availability", JNumber (bytes_of "1")); ("planned_time_ns", marshal_int (3600 * Second));
      ("run_time_ns", marshal_int (3600 * Second)); ("planned_downtime_ns", marshal_int 0);
      ("unplanned_downtime_ns", marshal_int 0); ("interval_count", marshal_int 1);
      ("has_data", JBool true);
      ("flags", marshal_struct [("open_interval_clipped", JBool true)])]%string)).
Proof.
  split; [|vm_compute; reflexivity].
  apply (window_over_http "CNC-01" sample_start sample_end); [done|done|apply sample_bounds..].
Defined.

Lemma plus_refused_witness :
  let from := bytes_of "2026-02-02T16:30:00+05:30" in
  ∃ text, hour_answer from (percent (format sample_end)) = error_answer 400 text.
Proof.
  apply (plus_refused "CNC-01" (bytes_of "2026-02-02T16:30:00+05:30") (percent (format sample_end)));
    [done|done|by apply (bool_decide_unpack _); vm_compute|by apply percent_without|].
  apply (bool_decide_unpack _). vm_compute. exact I.
Defined.

(** A bound that [time.Parse] accepts and JSON cannot say, at an offset of 24
    hours: the query runs, its encoding fails, and the answer is 200 with an
    empty body. *)
Theorem unsayable_bound :
  hour_answer (percent (bytes_of "2026-02-02T11:00:00Z")) (percent (bytes_of "2026-02-03T12:00:00+24:00")) =
    Answered 200 ApplicationJSON [].
Proof. vm_compute. reflexivity. Qed.
