(* ===== verification/Bootstrap.v ===== *)
(** * Bootstrap

    [cmd/broker/bootstrap/modules.go] and [server.go]: from a configuration to
    the running system.  [InitModules] builds the parts that [System] runs,
    with the logger worker and, when OEE is enabled, the worker of the machine
    states; it seeds the shifts on the way.  [InitModules_spec] says what
    becomes of a configuration that [Load] returned; [end_to_end] and
    [states_end_to_end] follow a message from a client's session to the store,
    the log and the history of its machine.

    The query handler, the sinks and the WebSocket handler that
    [buildOEEModules] also makes have no part in the path of a message;
    [LiveSystem] adds the live engine with its sinks and [Api] the HTTP side. *)

From S2P Require Export Config ShiftStore Live System.

Local Open Scope Z_scope.

(** ** Workers of different states in one fan-out *)

Definition lift_worker {A B} (inj : A → B) (prj : B → option A) (w : Worker A unit) :
    Worker B unit := {|
  FanOut.Name := FanOut.Name w;
  Process msg b := match prj b with
    | Some a => let '(o, a') := Process w msg a in (o, inj a')
    | None => (Succeeded, b)
    end;
  Close b := match prj b with
    | Some a => let '(r, a') := Close w a in (r, inj a')
    | None => (Ok (), b)
    end;
|}.

Inductive worker_state (Q : Type) :=
  | LogState (log : list log_entry)
  | OeeState (uc : UseCase Q Engine).
Arguments LogState {Q} log.
Arguments OeeState {Q} uc.

Definition log_state {Q} (b : worker_state Q) : option (list log_entry) :=
  match b with LogState log => Some log | OeeState _ => None end.
Definition oee_state {Q} (b : worker_state Q) : option (UseCase Q Engine) :=
  match b with OeeState uc => Some uc | LogState _ => None end.

Record Modules (St Q : Type) := {
  Pipeline : pipeline St;
  Fan : FanOut (worker_state Q) unit;             (* field FanOut *)
  mod_server : Server EnvAuthenticator;           (* field Server *)
  mod_topics : TopicRegistry;                     (* the registry the server holds *)
  ClientMgr : ClientManager;
  MsgChan : chan Message;
}.
Arguments Pipeline {St Q} _.
Arguments Fan {St Q} _.
Arguments mod_server {St Q} _.
Arguments mod_topics {St Q} _.
Arguments ClientMgr {St Q} _.
Arguments MsgChan {St Q} _.

(** [make] panics on a size that is negative or too large ("size out of
    range"). *)
Inductive startup (St Q : Type) :=
  | Panics
  | Fails (e : topic_error)
  | Initialised (m : Modules St Q) (db : database shift_tables).
Arguments Panics {St Q}.
Arguments Fails {St Q} e.
Arguments Initialised {St Q} m db.

Lemma valid_registry c : valid c → (length (CfgTopics c) ≤ 5)%nat →
  NewTopicRegistry (CfgTopics c) = Ok {| allowed := list_to_set (CfgTopics c); owners := ∅ |}.
Proof.
  intros [_ _ _ [Hne Hl]] H5. unfold NewTopicRegistry.
  destruct (Nat.eqb_spec (length (CfgTopics c)) 0) as [Hz|_]; [by apply nil_length_inv in Hz|].
  destruct (Nat.ltb_spec 5 (length (CfgTopics c))); [lia|]. simpl.
  assert (TrimSpace <$> CfgTopics c = CfgTopics c) as Htrim.
  { clear -Hl. induction Hl as [|t ts (Ht & _) _ IH]; [done|]. csimpl. by rewrite Ht, IH. }
  rewrite (proj2 (add_topics_Ok (CfgTopics c) ∅ (list_to_set (CfgTopics c)))); [done|].
  rewrite Htrim. split; [|set_solver]. eapply Forall_impl; [exact Hl|].
  intros t (Ht & Hnt & _). by rewrite Ht.
Qed.

Section bootstrap.
Context {St Q : Type} `{Store St, IntervalStore Q}.
Variable ReadFile : string → option (list byte).

(** The largest size for which [make(chan message.Message, n)] does not panic;
    it depends on the platform. *)
Variable chan_limit : Z.

Definition log_worker : Worker (worker_state Q) unit := lift_worker LogState log_state LoggerWorker.
Definition oee_worker (topic : string) : Worker (worker_state Q) unit :=
  lift_worker OeeState oee_state (StateChangeWorker topic).

Definition seedShifts (path : string) : sql shift_tables unit := λ db,
  match ReadFile path with
  | None => (Err (), db)
  | Some data =>
      match LoadShiftsFromJSON data with
      | Err _ => (Err (), db)
      | Ok shifts => Seed shifts db
      end
  end.

(** The error of the seeding is logged only. *)
Definition buildOEEModules (c : Config) (q : Q) (db : database shift_tables)
    (allWorkers : list (Worker (worker_state Q) unit * worker_state Q)) :
    list (Worker (worker_state Q) unit * worker_state Q) * database shift_tables :=
  let db := if bool_decide (OEEShiftsPath c ≠ "") then (seedShifts (OEEShiftsPath c) db).2 else db in
  let engine := NewEngine (OEETickInterval c) in
  (allWorkers ++ [(oee_worker (OEEStateTopic c), OeeState {| IngestState.store := q; observer := engine |})], db).

Definition InitModules (c : Config) (st : St) (q : Q) (db : database shift_tables) : startup St Q :=
  if (QueueBufferSize c <? 0) || (chan_limit <? QueueBufferSize c) then Panics
  else
    let n := Z.to_nat (QueueBufferSize c) in
    let msgChan := make_chan n in
    let processChan := make_chan n in
    let allWorkers := [(log_worker, LogState [])] in
    let '(allWorkers, db) :=
      if OEEEnabled c then buildOEEModules c q db allWorkers else (allWorkers, db) in
    let p := NewPipeline (CfgTopics c) st n in
    let fo := NewFanOut processChan allWorkers in
    let authenticator := NewEnvAuthenticator (CfgUsername c) (CfgPassword c) in
    match NewTopicRegistry (CfgTopics c) with
    | Err e => Fails e
    | Ok topics =>
        let connMgr := NewClientManager (MaxClients c) in
        Initialised {| Pipeline := p; Fan := fo;
          mod_server := {| auth := authenticator; timezone := CfgTimezone c |};
          mod_topics := topics; ClientMgr := connMgr; MsgChan := msgChan |} db
    end.

(** What [StartServers] launches, of [server.go]: no connection yet. *)
Definition StartServers (m : Modules St Q) : system St (worker_state Q) unit := {|
  sys_broker := {|
    shared := {| connMgr := ClientMgr m; topics := mod_topics m; msgChan := MsgChan m;
                 conns := ∅; ctx_done := false; clock := 0 |};
    running := ∅ |};
  sys_pipeline := Pipeline m;
  sys_fan := Fan m;
|}.

(** The workers of a configuration, with the states they start in. *)
Definition workers_of (c : Config) (q : Q) : list (Worker (worker_state Q) unit * worker_state Q) :=
  (log_worker, LogState []) ::
  if OEEEnabled c
  then [(oee_worker (OEEStateTopic c),
         OeeState {| IngestState.store := q; observer := NewEngine (OEETickInterval c) |})]
  else [].

(** ** What [InitModules] makes of a valid configuration *)

Definition built (c : Config) (st : St) (q : Q) : Modules St Q :=
  let n := Z.to_nat (QueueBufferSize c) in {|
  Pipeline := NewPipeline (CfgTopics c) st n;
  Fan := NewFanOut (make_chan n) (workers_of c q);
  mod_server := {| auth := NewEnvAuthenticator (CfgUsername c) (CfgPassword c);
                   timezone := CfgTimezone c |};
  mod_topics := {| allowed := list_to_set (CfgTopics c); owners := ∅ |};
  ClientMgr := NewClientManager (MaxClients c);
  MsgChan := make_chan n
|}.

Lemma InitModules_cases c st q db : valid c →
  match InitModules c st q db with
  | Panics => QueueBufferSize c < 0 ∨ chan_limit < QueueBufferSize c
  | Fails e => e = ErrInvalidTopicCount ∧ (5 < length (CfgTopics c))%nat ∧
      0 ≤ QueueBufferSize c ≤ chan_limit
  | Initialised m db' =>
      0 ≤ QueueBufferSize c ≤ chan_limit ∧ (length (CfgTopics c) ≤ 5)%nat ∧ m = built c st q ∧
      (db' ≠ db → OEEEnabled c = true ∧ OEEShiftsPath c ≠ ""%string)
  end.
Proof.
  intros Hc. unfold InitModules. destruct (Z.ltb_spec (QueueBufferSize c) 0); [by left|].
  destruct (Z.ltb_spec chan_limit (QueueBufferSize c)); [by right|]. cbn [orb].
  destruct (if OEEEnabled c then _ else _) as [ws db'] eqn:Hb.
  assert (ws = workers_of c q ∧ (db' ≠ db → OEEEnabled c = true ∧ OEEShiftsPath c ≠ ""%string))
    as [-> Hdb].
  { unfold workers_of, buildOEEModules in *. destruct (OEEEnabled c); injection Hb as <- <-; [|done].
    split; [done|]. case_bool_decide; done. }
  destruct (decide (length (CfgTopics c) ≤ 5)%nat) as [H5|H5].
  - rewrite valid_registry by done. done.
  - unfold NewTopicRegistry. destruct (Nat.ltb_spec 5 (length (CfgTopics c))); [|lia].
    rewrite orb_true_r. done.
Qed.

(** From a configuration that [Load] returned [InitModules] builds a broker
    whose parts agree on it, or says why not: it panics exactly for a queue
    size that is negative or larger than a channel can be, and otherwise fails
    exactly for more than five topics; [Load] lets all of these pass.  Otherwise the registry allows the configured topics and the
    pipeline has a queue for each of them and no other; exactly the configured
    credentials are accepted; a first client is; the workers are the logger
    and, with OEE enabled, the one of a state topic that can be published on;
    and the database is touched only to seed shifts from a configured file. *)
Theorem InitModules_spec Getenv c st q db :
  Load Getenv = Ok c →
  match InitModules c st q db with
  | Panics => QueueBufferSize c < 0 ∨ chan_limit < QueueBufferSize c
  | Fails e => e = ErrInvalidTopicCount ∧ (5 < length (CfgTopics c))%nat ∧
      0 ≤ QueueBufferSize c ≤ chan_limit
  | Initialised m db' =>
      0 ≤ QueueBufferSize c ≤ chan_limit ∧
      (∀ t, IsAllowed (mod_topics m) t = true ↔ t ∈ CfgTopics c) ∧
      dom (queues (Pipeline m)) = allowed (mod_topics m) ∧
      (∀ u p, Authenticate (auth (mod_server m)) u p = true ↔ u = CfgUsername c ∧ p = CfgPassword c) ∧
      CanAccept (ClientMgr m) = true ∧
      (λ '(w, _), FanOut.Name w) <$> workers (Fan m) =
        "logger"%string :: (if OEEEnabled c then ["oee-state-change"%string] else []) ∧
      (OEEEnabled c = true → IsAllowed (mod_topics m) (OEEStateTopic c) = true) ∧
      (db' ≠ db → OEEEnabled c = true ∧ OEEShiftsPath c ≠ ""%string)
  end.
Proof.
  intros Hc%Load_Ok. pose proof (InitModules_cases c st q db Hc) as Hi.
  destruct (InitModules c st q db) as [|e|m db']; [done|done|].
  destruct Hi as (Hsz & _ & -> & Hdb). destruct Hc as [_ _ (_ & Hu & _ & Hp) _ [Hm _] _ _ [_ Hoee]].
  assert (∀ t, IsAllowed {| allowed := list_to_set (CfgTopics c); owners := ∅ |} t = true ↔
    t ∈ CfgTopics c) as Hal.
  { intros t. unfold IsAllowed. rewrite bool_decide_eq_true. simpl. apply elem_of_list_to_set. }
  split; [done|]. split_and!; simpl.
  - done.
  - rewrite new_queues_dom. set_solver.
  - intros u p. unfold Authenticate, EnvAuthenticator_Authenticator.
    rewrite EnvAuthenticate_true. simpl. naive_solver.
  - unfold CanAccept, Count, NewClientManager. simpl. rewrite map_size_empty. apply Z.ltb_lt. lia.
  - unfold workers_of. by destruct (OEEEnabled c).
  - intros Hen. by apply Hal, Hoee.
  - done.
Qed.

(** ** A message from end to end *)

Lemma StartServers_start c st q db m db' : valid c → InitModules c st q db = Initialised m db' →
  let n := Z.to_nat (QueueBufferSize c) in
  StartServers m = start_system (MaxClients c) (mod_topics m) n (CfgTopics c) st (workers_of c q) ∧
  workers (Fan m) = workers_of c q ∧ wf_registry (mod_topics m) ∧ 0 ≤ MaxClients c ∧
  ∀ t, t ∈ allowed (mod_topics m) → t ∈ CfgTopics c.
Proof.
  intros Hc Hm. pose proof (InitModules_cases c st q db Hc) as Hi. rewrite Hm in Hi.
  destruct Hi as (_ & _ & -> & _). destruct Hc as [_ _ _ _ [Hmax _] _ _ _]. split_and!; simpl.
  - done.
  - done.
  - unfold wf_registry. simpl. set_solver.
  - lia.
  - intros t. apply elem_of_list_to_set.
Qed.

(** C1: From the environment to the workers: in every execution of the broker
    that [Load], [InitModules] and [StartServers] bring up, whatever clients
    do and however the goroutines interleave, no message is dropped for want
    of a queue; topic by topic, what the sessions sent is what was finished
    followed by what is still on its way, in order; each worker processes
    persisted messages only, each once and in order, and all of them but those
    on their way until the context is cancelled; and every message a worker
    sees was sent by a session that had registered under the message's client
    ID with the configured credentials and had claimed its topic. *)
Theorem end_to_end `{!StoreSpec St} Getenv c st q db m db' acts ls y i w s0 :
  Load Getenv = Ok c → 0 < QueueBufferSize c →
  InitModules c st q db = Initialised m db' → workers (Fan m) !! i = Some (w, s0) →
  execute (sys_step (mod_server m)) acts (StartServers m) = Some (ls, y) →
  message_flow (mod_server m) (mod_topics m) st i w s0 ls y.
Proof.
  intros Hc%Load_Ok _ Hm Hi Hx.
  destruct (StartServers_start c st q db m db' Hc Hm) as (Hs & Hws & Hwf & Hmax & Ht).
  rewrite Hs in Hx. rewrite Hws in Hi. by eapply message_path.
Qed.

(** The state worker inside the fan-out. *)
Lemma oee_process_all topic msgs uc :
  FanOut.process_all (oee_worker topic) msgs (OeeState uc) =
  OeeState (IngestState.process_all topic msgs uc).2.
Proof.
  unfold FanOut.process_all. revert uc. induction msgs as [|msg msgs IH]; intros uc; [done|].
  cbn [foldl]. simpl.
  change (StateChangeWorker_Process topic msg uc) with (process topic msg uc).
  destruct (process topic msg uc) as [o uc1] eqn:Hp. simpl. rewrite IH.
  by destruct (IngestState.process_all topic msgs uc1).
Qed.

Lemma states_path `{!StoreSpec St, !IntervalStoreSpec Q}
    c st q db m db' acts ls y :
  valid c → OEEEnabled c = true →
  InitModules c st q db = Initialised m db' → (∀ id, chain (history q id)) →
  execute (sys_step (mod_server m)) acts (StartServers m) = Some (ls, y) →
  let msgs := processed 1 (on_fan ls) in times_are (OEEStateTopic c) writable msgs →
  let uc0 := {| IngestState.store := q; observer := NewEngine (OEETickInterval c) |} in
  ∃ os uc, IngestState.process_all (OEEStateTopic c) msgs uc0 = (os, uc) ∧
    workers (sys_fan y) !! 1%nat = Some (oee_worker (OEEStateTopic c), OeeState uc) ∧
    (∀ msg, msg ∈ msgs → authorised (mod_server m) (mod_topics m) (on_broker ls) msg ∧
      msg ∈ saves (on_pipeline ls)) ∧
    (∀ id, one_open (histories uc id)) ∧
    (Forall (λ o, o = Succeeded) os → in_sync uc ∧ ∀ id,
      histories uc id =
        foldl record (history q id) (omap (transition_of (OEEStateTopic c) id) msgs)).
Proof.
  intros Hc Hen Hm Hch Hx msgs Hw uc0.
  destruct (StartServers_start c st q db m db' Hc Hm) as (Hs & Hws & Hwf & Hmax & Ht).
  rewrite Hs in Hx.
  assert (workers_of c q !! 1%nat = Some (oee_worker (OEEStateTopic c), OeeState uc0)) as Hi
    by by (unfold workers_of; rewrite Hen).
  pose proof (message_path _ _ _ _ _ _ _ Hmax Hwf acts ls y 1%nat _ _ Ht Hi Hx) as Hflow.
  destruct (IngestState.process_all (OEEStateTopic c) msgs uc0) as [os uc] eqn:Hp.
  exists os, uc. split; [done|]. split; [|split; [|split]].
  - rewrite (flow_state _ _ _ _ _ _ _ _ Hflow). fold msgs. by rewrite oee_process_all, Hp.
  - intros msg Hin. split; [by eapply flow_authorised|].
    apply (at_topic_in (MsgTopic msg)).
    eapply sublist_subseteq; [by eapply flow_processed|]. by apply at_topic_elem.
  - intros id. eapply process_all_history; [done| |exact Hp]. intros id'. apply chain_one_open, Hch.
  - intros Hos. split.
    + eapply process_all_in_sync; [done| |exact Hp|done]. intros id. split; [apply Hch|].
      unfold uc0. simpl. by rewrite lookup_empty.
    + exact (proj2 (process_all_history (OEEStateTopic c) msgs uc0 os uc Hw
        (λ id, chain_one_open _ (Hch id)) Hp) Hos).
Qed.

(** C2: And to the histories of the machines: with OEE enabled, over a store of
    intervals that keeps its promises and can write the timestamps, in every
    execution of the broker the state worker has turned the messages it has processed, all of them
    authorised and persisted, into histories with at most one open span per
    machine; and as long as no call of the interval store fails each history
    is the fold of its transitions, without gaps or overlaps, and the live
    engine follows it. *)
Theorem states_end_to_end `{!StoreSpec St, !IntervalStoreSpec Q}
    Getenv c st q db m db' acts ls y :
  Load Getenv = Ok c → 0 < QueueBufferSize c → OEEEnabled c = true →
  InitModules c st q db = Initialised m db' → (∀ id, chain (history q id)) →
  execute (sys_step (mod_server m)) acts (StartServers m) = Some (ls, y) →
  let msgs := processed 1 (on_fan ls) in times_are (OEEStateTopic c) writable msgs →
  let uc0 := {| IngestState.store := q; observer := NewEngine (OEETickInterval c) |} in
  ∃ os uc, IngestState.process_all (OEEStateTopic c) msgs uc0 = (os, uc) ∧
    workers (sys_fan y) !! 1%nat = Some (oee_worker (OEEStateTopic c), OeeState uc) ∧
    (∀ msg, msg ∈ msgs → authorised (mod_server m) (mod_topics m) (on_broker ls) msg ∧
      msg ∈ saves (on_pipeline ls)) ∧
    (∀ id, one_open (histories uc id)) ∧
    (Forall (λ o, o = Succeeded) os → in_sync uc ∧ ∀ id,
      histories uc id =
        foldl record (history q id) (omap (transition_of (OEEStateTopic c) id) msgs)).
Proof. intros Hc%Load_Ok _. by apply states_path. Qed.
End bootstrap.

(** ** A run of the broker *)

(** On linux/amd64 [make] allows an allocation of 2^48 bytes, of which 96 are
    the header of the channel; a message has 96. *)
Definition amd64_chan_limit : Z := (2 ^ 48 - 96) / 96.

Definition sample_env : string → string := getenv_in (variables sample_config).

Lemma sample_loaded : Load sample_env = Ok sample_config.
Proof. vm_compute. reflexivity. Qed.

Definition sample_init : startup (list Message) memory_store :=
  InitModules (λ _, None) amd64_chan_limit sample_config [] {| failures := []; table := ∅ |}
    {| tables := empty_tables; Sql.failures := [] |}.
Definition sample_modules : Modules (list Message) memory_store :=
  built sample_config [] {| failures := []; table := ∅ |}.

Lemma sample_init_eq :
  sample_init = Initialised sample_modules {| tables := empty_tables; Sql.failures := [] |}.
Proof.
  unfold sample_init, InitModules.
  rewrite (valid_registry sample_config sample_config_valid) by (simpl; lia). reflexivity.
Qed.

(** A client connects and publishes two states of a machine; the messages go
    through the pipeline; both workers process the first of them, the logger
    the second. *)
Definition state_client : reader :=
  Reader (BuildConnectPacket "cnc" "admin" "secret" 60 ++
    BuildPublishPacket "machine/state" (sample_text Running 10) x00 0 ++
    BuildPublishPacket "machine/state" (sample_text Stopped 20) x00 0) EOF.

Definition through : list sys_action :=
  [OfPipeline Route; OfPipeline Route; OfPipeline (Consume "machine/state");
   OfPipeline (Consume "machine/state"); OfPipeline (Consume "machine/state")].
Definition sample_sys_actions : list sys_action :=
  [OfBroker (Accept 0%nat state_client)] ++ replicate 22 (OfBroker (Run 0%nat 0)) ++
  through ++ through ++ [OfFan Take; OfFan (Work 1); OfFan (Work 0); OfFan WaitDone; OfFan Take;
  OfFan (Work 0)].

Definition sample_sys := execute (sys_step (mod_server sample_modules)) sample_sys_actions
  (StartServers sample_modules).

Definition sample_sys_labels : list sys_label := from_option fst [] sample_sys.
Definition sample_system : system (list Message) (worker_state memory_store) unit :=
  from_option snd (StartServers sample_modules) sample_sys.

Lemma sample_sys_eq : execute (sys_step (mod_server sample_modules)) sample_sys_actions
  (StartServers sample_modules) = Some (sample_sys_labels, sample_system).
Proof. apply (computed_run sample_sys). vm_compute. reflexivity. Qed.

Definition cnc_message (state : string) (sec : Z) : Message := {|
  MsgClientID := "cnc"; MsgTopic := "machine/state"; MsgPayload := sample_text state sec;
  Timezone := "America/Sao_Paulo"; Timestamp := 0
|}.

Lemma InitModules_spec_witness :
  mod_topics sample_modules = {| allowed := {["machine/state"; "line a/temp"]}; owners := ∅ |} ∧
  CanAccept (ClientMgr sample_modules) = true ∧
  IsAllowed (mod_topics sample_modules) "machine/state" = true.
Proof.
  pose proof (InitModules_spec (λ _, None) amd64_chan_limit sample_env
    sample_config ([] : list Message) {| failures := []; table := ∅ |}
    {| tables := empty_tables; Sql.failures := [] |} sample_loaded) as Hspec.
  pose proof sample_init_eq as Heq. unfold sample_init in Heq. rewrite Heq in Hspec.
  destruct Hspec as (_ & _ & _ & _ & Hacc & _ & Hst & _).
  split; [vm_compute; reflexivity|]. split; [exact Hacc|exact (Hst eq_refl)].
Defined.

Lemma end_to_end_witness :
  processed 0 (on_fan sample_sys_labels) = [cnc_message Running 10; cnc_message Stopped 20] ∧
  message_flow (mod_server sample_modules) (mod_topics sample_modules) [] 0 log_worker (LogState [])
    sample_sys_labels sample_system.
Proof.
  split; [vm_compute; reflexivity|].
  refine (end_to_end (λ _, None) amd64_chan_limit sample_env sample_config []
    {| failures := []; table := ∅ |} _ sample_modules _ sample_sys_actions _ _ _ _ _ sample_loaded _
    sample_init_eq _ sample_sys_eq).
  - reflexivity.
  - reflexivity.
Defined.

Lemma states_end_to_end_witness :
  processed 1 (on_fan sample_sys_labels) = [cnc_message Running 10] ∧
  ∃ os uc, IngestState.process_all "machine/state" (processed 1 (on_fan sample_sys_labels))
      {| IngestState.store := {| failures := []; table := ∅ |}; observer := NewEngine (5 * Second) |} =
      (os, uc) ∧
    (Forall (λ o, o = Succeeded) os → in_sync uc).
Proof.
  split; [vm_compute; reflexivity|].
  destruct (states_end_to_end (λ _, None) amd64_chan_limit sample_env
    sample_config [] {| failures := []; table := ∅ |} _ sample_modules _ sample_sys_actions
    sample_sys_labels sample_system sample_loaded eq_refl eq_refl sample_init_eq)
    as (os & uc & Hp & _ & _ & _ & Hos).
  - intros id. exact chain_nil.
  - exact sample_sys_eq.
  - apply memory_writable.
  - exists os, uc. split; [exact Hp|]. intros Hall. exact (proj1 (Hos Hall)).
Defined.

(** ** Sizes that no channel can have *)

Definition queue_size_env (size : string) (key : string) : string :=
  if String.eqb key "BROKER_QUEUE_BUFFER_SIZE" then size else sample_env key.

(** [Load] accepts sizes of the queues that make [InitModules] panic: those
    below zero, and those that no channel can have. *)
Theorem unmakeable_queues size : size ∈ ["-1"; "9000000000000000000"]%string →
  ∃ c, Load (queue_size_env size) = Ok c ∧
  ∀ ReadFile (st : list Message) (q : memory_store) db,
    InitModules ReadFile amd64_chan_limit c st q db = Panics.
Proof.
  intros Hs. destruct (Load (queue_size_env size)) as [c|] eqn:Hl.
  2: { repeat (apply elem_of_cons in Hs as [->|Hs]; [vm_compute in Hl; discriminate|]). by apply elem_of_nil in Hs. }
  exists c. split; [done|]. intros ReadFile st q db. unfold InitModules.
  assert ((QueueBufferSize c <? 0) || (amd64_chan_limit <? QueueBufferSize c) = true) as ->; [|done].
  repeat (apply elem_of_cons in Hs as [->|Hs]; [vm_compute in Hl; by injection Hl as <-|]). by apply elem_of_nil in Hs.
Qed.

Lemma unmakeable_queues_witness :
  ∃ c, Load (queue_size_env "9000000000000000000") = Ok c ∧
  ∀ ReadFile (st : list Message) (q : memory_store) db,
    InitModules ReadFile amd64_chan_limit c st q db = Panics.
Proof. apply (unmakeable_queues "9000000000000000000"). by right; left. Defined.
