(* ===== verification/Delivery.v ===== *)
(** * Delivery

    The liveness side of [Bootstrap.end_to_end]: in the broker that [Load],
    [InitModules] and [StartServers] bring up, every message that a session has
    sent reaches the store or is refused by it and, once saved, reaches every
    worker, whatever the scheduler does, as long as the context is not
    cancelled ([every_message_arrives]). *)

From S2P Require Export Bootstrap SystemDrain.

Local Open Scope Z_scope.

Section delivery.
Context {St Q : Type} `{Store St, IntervalStore Q}.
Variable ReadFile : string → option (list byte).
Variable chan_limit : Z.

(** Everything a trace has sent is saved or refused, and every worker has
    processed all that is saved. *)
Record delivered (k : nat) (ls : list sys_label) : Prop := {
  delivered_routed m : OnPipeline (Discarded m) ∉ ls;
  delivered_finished t : at_topic t (finished (on_pipeline ls)) = at_topic t (sent (on_broker ls));
  delivered_processed i t : (i < k)%nat →
    at_topic t (processed i (on_fan ls)) = at_topic t (saves (on_pipeline ls));
}.

Lemma flow_at_rest `{!StoreSpec St} {T : Type} `{Authenticator T} (s : Server T) {S E : Type}
    r (st : St) i (w : Worker S E) s0 ls (y : system St S E) t :
  message_flow s r st i w s0 ls y → stopped (sys_pipeline y) = false → at_rest y →
  at_topic t (finished (on_pipeline ls)) = at_topic t (sent (on_broker ls)) ∧
  at_topic t (processed i (on_fan ls)) = at_topic t (saves (on_pipeline ls)).
Proof.
  intros Hflow Hs Hrest. rewrite (flow_sent _ _ _ _ _ _ _ _ Hflow).
  rewrite (flow_dispatched _ _ _ _ _ _ _ _ Hflow Hs).
  by rewrite (rest_pending _ Hrest), (rest_held _ Hrest), (rest_input _ Hrest), (rest_owed _ Hrest),
    !app_nil_r.
Qed.

(** C3: Every message arrives: from every state that the started broker can
    reach while its context is not cancelled, let the goroutines behind the
    message channel run in any order while the sessions pause.  They run for
    at most [work_left] steps more, whatever the order, so that they come to
    rest under every scheduler; and they come to rest, no step of theirs being
    possible, only when every message the sessions have sent was saved or
    refused by the store, in the order of its topic and none discarded, and
    every worker has processed, in that order, all that was saved.  So there is
    no deadlock between the router, the queues, the consumers, the dispatch
    channel and the fan-out, for any positive size of the channels. *)
Theorem every_message_arrives `{!StoreSpec St} Getenv c st q db m db' acts ls y :
  Load Getenv = Ok c → 0 < QueueBufferSize c →
  InitModules ReadFile chan_limit c st q db = Initialised m db' →
  execute (sys_step (mod_server m)) acts (StartServers m) = Some (ls, y) →
  stopped (sys_pipeline y) = false →
  ∀ acts' ls' y', Forall working acts' →
    execute (sys_step (mod_server m)) acts' y = Some (ls', y') →
    (length acts' + work_left y' ≤ work_left y)%nat ∧
    sent (on_broker (ls ++ ls')) = sent (on_broker ls) ∧
    ((∃ a ls1 y1, working a ∧ sys_step (mod_server m) a y' = Some (ls1, y1)) ∨
     delivered (length (workers (Fan m))) (ls ++ ls')).
Proof.
  intros Hc%Load_Ok Hpos Hm Hx Hs acts' ls' y' Hwk Hx'.
  destruct (StartServers_start ReadFile chan_limit c st q db m db' Hc Hm) as (Hst & Hws & Hwf & Hmax & Ht).
  rewrite Hst in Hx. destruct (reachable_fan_alive _ _ _ _ _ _ _ _ _ _ Hx) as [Hy _].
  destruct (working_bounded _ acts' y ls' y' Hy Hwk Hx') as [_ Hlen].
  destruct (working_sends _ acts' y ls' y' Hy Hwk Hx') as [Hsent Hs']. rewrite Hs in Hs'.
  assert (execute (sys_step (mod_server m)) (acts ++ acts') (start_system (MaxClients c)
    (mod_topics m) (Z.to_nat (QueueBufferSize c)) (CfgTopics c) st (workers_of c q)) =
    Some (ls ++ ls', y')) as Hall by by rewrite execute_app, Hx; simpl; rewrite Hx'.
  split; [done|]. split; [unfold sent, on_broker in *; by rewrite !omap_app, Hsent, app_nil_r|].
  assert (0 < Z.to_nat (QueueBufferSize c))%nat as Hn by lia.
  destruct (rest_or_enabled _ _ _ _ _ _ _ _ _ _ Hn Hall Hs') as [?|Hrest]; [by left|right].
  assert (∀ i w s0, workers_of c q !! i = Some (w, s0) →
    message_flow (mod_server m) (mod_topics m) st i w s0 (ls ++ ls') y') as Hflow.
  { intros i w s0 Hi. by eapply message_path. }
  split.
  - eapply flow_routed, (Hflow 0%nat). done.
  - intros t. by eapply flow_at_rest; [apply (Hflow 0%nat)|..].
  - intros i t Hi. rewrite Hws in Hi. apply lookup_lt_is_Some in Hi as [[w s0] Hi].
    by eapply flow_at_rest; [apply (Hflow i)|..].
Qed.
End delivery.

(** The sample run stops in the middle of the fan-out's second message; the
    state worker's goroutine and [wg.Wait()] are what is left. *)
Definition rest_actions : list sys_action := [OfFan (Work 1); OfFan WaitDone].
Definition rest_run := execute (sys_step (mod_server sample_modules)) rest_actions sample_system.
Definition rest_labels : list sys_label := from_option fst [] rest_run.
Definition rest_system : system (list Message) (worker_state memory_store) unit :=
  from_option snd sample_system rest_run.

Lemma rest_run_eq :
  execute (sys_step (mod_server sample_modules)) rest_actions sample_system =
  Some (rest_labels, rest_system).
Proof. apply (computed_run rest_run). vm_compute. reflexivity. Qed.

Lemma every_message_arrives_witness :
  work_left sample_system = 2%nat ∧
  (2 + work_left rest_system ≤ work_left sample_system)%nat ∧
  delivered 2 (sample_sys_labels ++ rest_labels).
Proof.
  assert (work_left sample_system = 2%nat) as Hleft by (vm_compute; reflexivity).
  split; [exact Hleft|].
  pose proof (every_message_arrives (λ _, None) amd64_chan_limit sample_env sample_config []
    {| failures := []; table := ∅ |} _ sample_modules _ sample_sys_actions sample_sys_labels sample_system
    sample_loaded eq_refl sample_init_eq sample_sys_eq ltac:(vm_compute; reflexivity)) as Hall.
  assert (Forall working rest_actions) as Hwk by (repeat constructor).
  destruct (Hall rest_actions rest_labels rest_system Hwk rest_run_eq) as (Hlen & _ & Hend).
  split; [exact Hlen|]. destruct Hend as [(a & ls1 & y1 & Ha & Hs)|Hd]; [exfalso|exact Hd].
  destruct (Hall (rest_actions ++ [a]) (rest_labels ++ ls1) y1) as (Hlong & _ & _).
  - apply Forall_app. split; [exact Hwk|]. by apply Forall_singleton.
  - rewrite execute_app, rest_run_eq. cbn [mbind option_bind]. by rewrite execute_one, Hs.
  - rewrite Hleft in Hlong. simpl in Hlong. lia.
Defined.
