(* ===== verification/EndToEnd.v ===== *)
(** * From a publication to the audit

    The broker of [Bootstrap] over the SQLite repository of [RawStore] with the
    HTTP API of [Api]: what [GET /audit/...] and [GET /audit-count/...] answer,
    in any execution of the broker built from a loaded configuration, about
    what clients published. *)

From S2P Require Export Api Bootstrap.

Local Open Scope Z_scope.

Lemma finished_sublist ls : saves ls `sublist_of` finished ls.
Proof.
  unfold saves, finished. induction ls as [|[] ls IH]; csimpl; try done; by constructor.
Qed.

Lemma finished_saves ls : (∀ m, Discarded m ∉ ls) → (∀ m, Failed m ∉ ls) → finished ls = saves ls.
Proof.
  unfold saves, finished. induction ls as [|f ls IH]; intros Hd Hf; [done|].
  assert (omap (λ f, match f with Discarded m | Saved m | Failed m => Some m | _ => None end) ls =
    omap (λ f, match f with Saved m => Some m | _ => None end) ls) as IH'.
  { apply IH; intros m Hm; [apply (Hd m)|apply (Hf m)]; by right. }
  destruct f; csimpl; rewrite ?IH'; try done.
  - destruct (Hd msg). by left.
  - destruct (Hf msg). by left.
Qed.

Section audited.
Context {Q : Type} `{IntervalStore Q}.
Variable ReadFile : string → option (list byte).
Variable chan_limit : Z.
Variable Local : Location.

#[local] Instance repository : Store (database raw_data) := raw_Store Local.
#[local] Instance repository_spec : StoreSpec (database raw_data) := raw_StoreSpec Local.

(** The records the audit shows of a topic. *)
Definition shown (t : string) (db : database raw_data) : list raw_row :=
  List.filter (λ r, bool_decide (topic r = t)) (tables db).

(** C5: From a publication to the audit: in every execution of the broker that
    a loaded configuration brings up over the database, the audit of a topic
    shows, after what was there before, messages that sessions entitled to
    the topic had published, in the order they were sent and none twice; and
    all of them once nothing is pending on the topic, if no save failed.  Over
    HTTP it is a JSON body that is read back as their records, the strings as
    UTF-8 can say them, and the count is their number. *)
Theorem published_then_audited {D R} `{IntervalReader D, ShiftReader R} oee (ivs : D) (shifts : R)
    Getenv c (db : database raw_data) (q : Q) sdb m sdb' acts ls y t :
  Load Getenv = Ok c → 0 < QueueBufferSize c →
  InitModules ReadFile chan_limit c db q sdb = Initialised m sdb' →
  execute (sys_step (mod_server m)) acts (StartServers m) = Some (ls, y) →
  let db' := store (sys_pipeline y) in
  ∃ msgs, shown t db' = shown t db ++ (raw_of Local <$> msgs) ∧
    msgs `sublist_of` at_topic t (sent (on_broker ls)) ∧
    Forall (authorised (mod_server m) (mod_topics m) (on_broker ls)) msgs ∧
    (pending t (sys_pipeline y) = [] → (∀ msg, OnPipeline (Failed msg) ∉ ls) →
     msgs = at_topic t (sent (on_broker ls))) ∧
    (t ≠ ""%string → head (Sql.failures db') ≠ Some true →
     let get name := (serve oee (audit_request name t) db' ivs shifts).1 in
     (∃ body, get "audit"%string = Answered 200 ApplicationJSON body ∧
        read_records body = Some (said_record <$> (record_of <$> shown t db'))) ∧
     get "audit-count"%string = json_answer (Some (marshal_count (Z.of_nat (length (shown t db')))))).
Proof.
  intros Hc%Load_Ok _ Hm Hx db'.
  destruct (StartServers_start ReadFile chan_limit c db q sdb m sdb' Hc Hm)
    as (Hs & Hws & Hwf & Hmax & Ht).
  rewrite Hs in Hx.
  assert (workers_of c q !! 0%nat = Some (log_worker, LogState [])) as Hi by done.
  pose proof (message_path _ _ _ _ _ _ _ Hmax Hwf acts ls y 0%nat _ _ Ht Hi Hx) as Hflow.
  exists (at_topic t (saves (on_pipeline ls))). split_and!.
  - unfold shown. pose proof (flow_stored _ _ _ _ _ _ _ _ Hflow) as Hst.
    change (tables db' = tables db ++ (raw_of Local <$> saves (on_pipeline ls))) in Hst.
    by rewrite Hst, List.filter_app, filter_raw_of.
  - rewrite (flow_sent _ _ _ _ _ _ _ _ Hflow t). apply sublist_inserts_r, at_topic_sublist, finished_sublist.
  - apply Forall_forall. intros msg Hin%at_topic_in. by eapply flow_saved.
  - intros Hp Hf. rewrite (flow_sent _ _ _ _ _ _ _ _ Hflow t), Hp, app_nil_r, finished_saves; [done| |].
    + intros msg Hin. apply (flow_routed _ _ _ _ _ _ _ _ Hflow msg). unfold on_pipeline in Hin.
      apply list_elem_of_omap in Hin as ([] & Hin & [= ->]). done.
    + intros msg Hin. apply (Hf msg). unfold on_pipeline in Hin.
      apply list_elem_of_omap in Hin as ([] & Hin & [= ->]). done.
  - intros Hne Hok get. unfold get. destruct (serve_audit oee t db' ivs shifts Hne) as [-> ->].
    unfold getByTopic, countByTopic. split.
    + rewrite (audit_handler_result _ _ _ _ Hne (audit_GetByTopic_result t db')).
      destruct (decide (_ = Some true)); [done|]. eexists. split; [reflexivity|]. apply read_marshalled.
    + erewrite (audit_handler_result _ _ _ _ Hne); [|apply query_result].
      by destruct (decide (_ = Some true)).
Qed.
End audited.

(** ** Witness: the run of [Bootstrap] over an empty database *)

Definition empty_raw : database raw_data := {| tables := []; Sql.failures := [] |}.
Definition empty_shifts : database shift_tables := {| tables := empty_tables; Sql.failures := [] |}.
Definition empty_intervals : memory_store := {| IngestState.failures := []; table := ∅ |}.

#[local] Instance no_interval_reader : IntervalReader unit := λ _ _ _ _, Ok [].
#[local] Instance utc_repository : Store (database raw_data) := raw_Store UTC.

Definition audited_modules : Modules (database raw_data) memory_store :=
  built sample_config empty_raw empty_intervals.

Lemma audited_init : InitModules (λ _, None) amd64_chan_limit sample_config
  empty_raw empty_intervals empty_shifts = Initialised audited_modules empty_shifts.
Proof.
  unfold InitModules. rewrite (valid_registry sample_config sample_config_valid) by (simpl; lia).
  reflexivity.
Qed.

Definition audited_run := execute (sys_step (mod_server audited_modules)) sample_sys_actions
  (StartServers audited_modules).
Definition audited_labels : list sys_label := from_option fst [] audited_run.
Definition audited_system : system (database raw_data) (worker_state memory_store) unit :=
  from_option snd (StartServers audited_modules) audited_run.

Lemma audited_run_eq : execute (sys_step (mod_server audited_modules)) sample_sys_actions
  (StartServers audited_modules) = Some (audited_labels, audited_system).
Proof. apply (computed_run audited_run). vm_compute. reflexivity. Qed.

Lemma published_then_audited_witness :
  (serve false (audit_request "audit-count" "machine/state") (store (sys_pipeline audited_system)) () ()).1 =
    json_answer (Some (marshal_count 2)) ∧
  ∃ msgs, shown "machine/state" (store (sys_pipeline audited_system)) = raw_of UTC <$> msgs ∧
    msgs `sublist_of` [cnc_message Running 10; cnc_message Stopped 20].
Proof.
  split; [vm_compute; reflexivity|].
  destruct (published_then_audited (λ _, None) amd64_chan_limit UTC false () () sample_env
    sample_config empty_raw empty_intervals empty_shifts audited_modules empty_shifts
    sample_sys_actions audited_labels audited_system "machine/state" sample_loaded eq_refl
    audited_init audited_run_eq) as (msgs & Hshown & Hsub & _).
  exists msgs. split; [exact Hshown|].
  assert (at_topic "machine/state" (sent (on_broker audited_labels)) =
    [cnc_message Running 10; cnc_message Stopped 20]) as <- by (vm_compute; reflexivity).
  exact Hsub.
Defined.
