(* ===== verification/LiveSystem.v ===== *)
(** * The running broker with its live engine

    What [StartServers] launches when OEE is enabled
    (cmd/broker/bootstrap/server.go): the system of [System], the loop of the
    live engine ([Engine.Start] of live/application/engine.go), the composite
    sink that [buildOEEModules] puts behind it, with its two goroutines, and
    the connections of the WebSocket endpoint, which share the hub of the
    WebSocket sink.

    The engine is the observer of the state worker: a tick copies its
    accumulators in one step (under the lock) and then computes and offers the
    snapshots one at a time, while everything else goes on.

    - what a subscriber is sent is the JSON of a snapshot of its own machine,
      and shows the history that the state changes processed by a moment of
      the execution make, all of them published by entitled sessions
      ([subscribers_see_history]);
    - a tick is never blocked and offers what [Live.tick] sends
      ([tick_returns]);
    - an interval that is not positive makes [time.NewTicker] panic, in a
      goroutine: the process is gone ([bad_interval_crashes]). *)

From S2P Require Export Bootstrap Sinks.

Local Open Scope Z_scope.

(** Where the goroutine of [Engine.Start] is. *)
Inductive engine_at :=
  | EngineStarting
  | EngineSelecting
  | EngineTicking (now : Time) (copied : gmap string machineData) (ids : list string)
  | EngineReturned
  | EnginePanicked.

#[export] Instance panicked_dec (e : engine_at) : Decision (e = EnginePanicked).
Proof. destruct e; first [by left|by right]. Defined.

(** The sinks of [buildOEEModules]: the log sink and the WebSocket sink, whose
    state, the hub, is shared with the endpoint and kept in [live_ws]. *)
#[export] Instance shared_hub_sink : AvailabilitySink unit := λ _ k, (Ok tt, k).
Definition buildSinks : list (LogSink + unit) := [inl NewLogSink; inr tt].

Record live_system (St Q : Type) := {
  live_parts : system St (worker_state Q) unit;
  live_engine : engine_at;
  live_sinks : CompositeSink (LogSink + unit);
  live_ws : WebsocketSink;
}.
Arguments live_parts {St Q} l.
Arguments live_engine {St Q} l.
Arguments live_sinks {St Q} l.
Arguments live_ws {St Q} l.

(** [R] is the state of the shift reader, which may differ from call to call. *)
Inductive live_action (R : Type) :=
  | OnParts (a : sys_action)
  | EngineBegin
  | EngineTick (now : Time) (ids : list string)   (* [ids]: the order of the map *)
  | EngineNext (shifts : R)
  | EngineStop
  | SinkTake (i : nat)
  | SinkDeliver (i : nat) (fails : nat → bool)    (* [fails]: which writes fail *)
  | SinkStop (i : nat)
  | SinksClose
  | ConnOpened (machineID : string) (conn : nat)
  | ConnLost (machineID : string) (conn : nat).
Arguments OnParts {R} a.
Arguments EngineBegin {R}.
Arguments EngineTick {R} now ids.
Arguments EngineNext {R} shifts.
Arguments EngineStop {R}.
Arguments SinkTake {R} i.
Arguments SinkDeliver {R} i fails.
Arguments SinkStop {R} i.
Arguments SinksClose {R}.
Arguments ConnOpened {R} machineID conn.
Arguments ConnLost {R} machineID conn.

Inductive live_label :=
  | OfParts (l : sys_label)
  | OfSinks (e : comp_event)
  | Connected (machineID : string) (conn : nat).

Definition on_parts (ls : list live_label) : list sys_label :=
  omap (λ l, match l with OfParts l => Some l | _ => None end) ls.
Definition on_sinks (ls : list live_label) : list comp_event :=
  omap (λ l, match l with OfSinks e => Some e | _ => None end) ls.

Section live.
Context {St Q R : Type} `{Store St, IntervalStore Q, ShiftReader R}.
Context {T : Type} `{Authenticator T} (s : Server T).
Implicit Types (l : live_system St Q) (y : system St (worker_state Q) unit).

(** The engine, which the state worker holds too. *)
Definition shared_engine y : option Engine :=
  match workers (sys_fan y) !! 1%nat with
  | Some (_, OeeState uc) => Some (observer uc)
  | _ => None
  end.

Definition with_parts y l : live_system St Q :=
  {| live_parts := y; live_engine := live_engine l; live_sinks := live_sinks l; live_ws := live_ws l |}.
Definition with_engine (e : engine_at) l : live_system St Q :=
  {| live_parts := live_parts l; live_engine := e; live_sinks := live_sinks l; live_ws := live_ws l |}.
Definition with_sinks (c : CompositeSink (LogSink + unit)) l : live_system St Q :=
  {| live_parts := live_parts l; live_engine := live_engine l; live_sinks := c; live_ws := live_ws l |}.
Definition with_hub (h : Hub) l : live_system St Q :=
  {| live_parts := live_parts l; live_engine := live_engine l; live_sinks := live_sinks l;
     live_ws := {| hub := h; ws_written := ws_written (live_ws l) |} |}.

(** [Start(ctx, nil)]: nothing is rehydrated; [NewTicker] panics on an interval
    that is not positive. *)
Definition engine_begin l : option (live_system St Q) :=
  match live_engine l, shared_engine (live_parts l) with
  | EngineStarting, Some e =>
      Some (with_engine (if tickInterval e <=? 0 then EnginePanicked else EngineSelecting) l)
  | _, _ => None
  end.

(** [case <-ticker.C]: the copy of [tick], and the time. *)
Definition engine_tick (now : Time) (ids : list string) l : option (live_system St Q) :=
  match live_engine l, shared_engine (live_parts l) with
  | EngineSelecting, Some e =>
      if bool_decide (NoDup ids) && bool_decide (list_to_set ids = dom (machines e))
      then Some (with_engine (EngineTicking now (machines e) ids) l) else None
  | _, _ => None
  end.

(** A round of the loop of [tick] over the copy, or its end. *)
Definition engine_next (shifts : R) l : option (list live_label * live_system St Q) :=
  match live_engine l with
  | EngineTicking now copied (id :: ids) =>
      let l := with_engine (EngineTicking now copied ids) l in
      match copied !! id ≫= snapshot shifts now id with
      | Some x => Some ([OfSinks (Offered x)], with_sinks (CompositeSink_Update x (live_sinks l)).2 l)
      | None => Some ([], l)
      end
  | EngineTicking now copied [] => Some ([], with_engine EngineSelecting l)
  | _ => None
  end.

(** [case <-ctx.Done()]. *)
Definition engine_stop l : option (live_system St Q) :=
  match live_engine l with
  | EngineSelecting =>
      if ctx_done (shared (sys_broker (live_parts l))) then Some (with_engine EngineReturned l) else None
  | _ => None
  end.

(** What the delivery of a snapshot to the second sink does to the hub.  The
    writes are one step: a connection that is unregistered while they go on
    could as well have been lost before or after them. *)
Definition ws_deliver (fails : nat → bool) (es : list comp_event) (k : WebsocketSink) : WebsocketSink :=
  foldl (λ k x, (WebsocketSink_Update fails x k).2) k (delivered_to 1 es).

Definition sinks_step (a : comp_action) (fails : nat → bool) l : option (list live_label * live_system St Q) :=
  '(es, c) ← comp_step a (live_sinks l);
  Some (OfSinks <$> es,
    {| live_parts := live_parts l; live_engine := live_engine l; live_sinks := c;
       live_ws := ws_deliver fails es (live_ws l) |}).

Definition silent {A} (o : option A) : option (list live_label * A) := l ← o; Some ([], l).

Definition parts_step (a : sys_action) l : option (list live_label * live_system St Q) :=
  match sys_step s a (live_parts l) with
  | Some (ls, y) => Some (OfParts <$> ls, with_parts y l)
  | None => None
  end.

(** A panic in any goroutine ends the process. *)
Definition live_step (a : live_action R) l : option (list live_label * live_system St Q) :=
  if bool_decide (live_engine l = EnginePanicked) then None
  else match a with
  | OnParts a => parts_step a l
  | EngineBegin => silent (engine_begin l)
  | EngineTick now ids => silent (engine_tick now ids l)
  | EngineNext shifts => engine_next shifts l
  | EngineStop => silent (engine_stop l)
  | SinkTake i => sinks_step (CompTake i) (λ _, false) l
  | SinkDeliver i fails => sinks_step (CompDeliver i) fails l
  | SinkStop i => sinks_step (CompStop i) (λ _, false) l
  | SinksClose => sinks_step CompClose (λ _, false) l
  | ConnOpened m conn =>
      Some ([Connected m conn], with_hub (serveWS m (Some conn) (hub (live_ws l))) l)
  | ConnLost m conn => Some ([], with_hub (readLoop_returns m conn (hub (live_ws l))) l)
  end.
End live.

(** What [StartServers] launches with OEE. *)
Definition StartLive {St Q} (m : Modules St Q) : live_system St Q := {|
  live_parts := StartServers m; live_engine := EngineStarting;
  live_sinks := NewCompositeSink buildSinks;
  live_ws := {| hub := NewHub; ws_written := [] |}
|}.

(** ** What each part does *)

Lemma on_parts_parts (ls : list sys_label) : on_parts (OfParts <$> ls) = ls.
Proof. by apply omap_fmap_some. Qed.
Lemma on_parts_sinks (es : list comp_event) : on_parts (OfSinks <$> es) = [].
Proof. by apply omap_fmap_none. Qed.
Lemma on_sinks_parts (ls : list sys_label) : on_sinks (OfParts <$> ls) = [].
Proof. by apply omap_fmap_none. Qed.
Lemma on_sinks_sinks (es : list comp_event) : on_sinks (OfSinks <$> es) = es.
Proof. by apply omap_fmap_some. Qed.
Lemma on_parts_app ls ls' : on_parts (ls ++ ls') = on_parts ls ++ on_parts ls'.
Proof. apply omap_app. Qed.
Lemma on_sinks_app ls ls' : on_sinks (ls ++ ls') = on_sinks ls ++ on_sinks ls'.
Proof. apply omap_app. Qed.
Create Rewrite HintDb live.
#[export] Hint Rewrite on_parts_parts on_parts_sinks on_sinks_parts on_sinks_sinks on_parts_app on_sinks_app
  @app_nil_r : live.

Lemma subscribers_Register m c h m' :
  subscribers (Register m c h) m' = subscribers h m' ++ if decide (m' = m) then [c] else [].
Proof.
  unfold subscribers at 1, Register. simpl. destruct (decide (m' = m)) as [->|].
  - by rewrite lookup_insert_eq.
  - by rewrite lookup_insert_ne, app_nil_r.
Qed.

Lemma elem_remove_conn c x conns : x ∈ remove_conn c conns → x ∈ conns.
Proof.
  induction conns as [|y conns IH]; simpl; [done|].
  destruct (bool_decide _); [by right|]. intros [->|Hx]%elem_of_cons; [by left|right; auto].
Qed.

Lemma elem_Unregister m c h m' x : x ∈ subscribers (Unregister m c h) m' → x ∈ subscribers h m'.
Proof. rewrite subscribers_Unregister. destruct (decide _); [apply elem_remove_conn|done]. Qed.

Lemma elem_unregister_dead m fails conns h m' x :
  x ∈ subscribers (unregister_dead m fails conns h) m' → x ∈ subscribers h m'.
Proof.
  unfold unregister_dead. generalize (List.filter fails conns) as dead. intros dead. revert h.
  induction dead as [|c dead IH]; intros h; [done|]. intros Hx%IH. by eapply elem_Unregister.
Qed.

(** The subscribers of a hub have connected, and were written snapshots of
    their machine. *)
Definition ws_inv (ls : list live_label) (k : WebsocketSink) : Prop :=
  (∀ m conn, conn ∈ subscribers (hub k) m → Connected m conn ∈ ls) ∧
  ∀ conn payload, (conn, payload) ∈ ws_written k → ∃ x,
    x ∈ delivered_to 1 (on_sinks ls) ∧ snapshot_text x = Some payload ∧
    Connected (SnapshotMachineID x) conn ∈ ls.

Lemma ws_inv_app ls ls' k : ws_inv ls k → ws_inv (ls ++ ls') k.
Proof.
  intros [Hs Hw]. split.
  - intros m conn Hc. apply elem_of_app. left. by apply Hs.
  - intros conn payload Hp. destruct (Hw conn payload Hp) as (x & Hx & Ht & Hc). exists x.
    rewrite on_sinks_app, delivered_app, !elem_of_app. auto.
Qed.

Lemma ws_update_inv fails x ls k : ws_inv ls k → x ∈ delivered_to 1 (on_sinks ls) →
  ws_inv ls (WebsocketSink_Update fails x k).2.
Proof.
  intros [Hs Hw] Hx. unfold WebsocketSink_Update. destruct (snapshot_text x) as [payload|] eqn:Ht; [|done].
  unfold Broadcast, broadcast_writes. split; simpl.
  - intros m conn Hc. apply Hs. by eapply elem_unregister_dead.
  - intros conn payload'. rewrite elem_of_app. intros [Hc|Hc]; [by apply Hw|].
    apply list_elem_of_fmap in Hc as (? & [= <- ->] & Hc). exists x. split; [done|]. split; [done|by apply Hs].
Qed.

Lemma ws_deliver_inv fails ls es k : ws_inv ls k →
  ws_inv (ls ++ (OfSinks <$> es)) (ws_deliver fails es k).
Proof.
  intros Hk. apply (ws_inv_app _ (OfSinks <$> es)) in Hk. unfold ws_deliver.
  assert (∀ x, x ∈ delivered_to 1 es → x ∈ delivered_to 1 (on_sinks (ls ++ (OfSinks <$> es)))) as Hin.
  { intros x Hx. autorewrite with live. rewrite delivered_app. apply elem_of_app. by right. }
  revert k Hk Hin. generalize (delivered_to 1 es) as xs. induction xs as [|x xs IH]; intros k Hk Hin; [done|].
  apply IH; [|set_solver]. apply ws_update_inv; [done|]. apply Hin. by left.
Qed.

Lemma with_hub_inv ls ls' h (k : WebsocketSink) : ws_inv ls k →
  (∀ m conn, conn ∈ subscribers h m → conn ∈ subscribers (hub k) m ∨ Connected m conn ∈ ls') →
  ws_inv (ls ++ ls') {| hub := h; ws_written := ws_written k |}.
Proof.
  intros Hk Hh. split; [|exact (proj2 (ws_inv_app ls ls' k Hk))].
  intros m conn [Hc|Hc]%Hh; apply elem_of_app; [left; by apply Hk|by right].
Qed.

(** ** What holds in every execution *)

Section running.
Context {St Q R : Type} `{Store St, IntervalStore Q, ShiftReader R}.
Context {T : Type} `{Authenticator T} (s : Server T).
Variable m : Modules St Q.
Implicit Types (l : live_system St Q) (ls : list live_label) (x : AvailabilitySnapshot).

(** The broker has come to [y]. *)
Definition reached ls (y : system St (worker_state Q) unit) : Prop :=
  ∃ acts, execute (sys_step s) acts (StartServers m) = Some (on_parts ls, y).

(** At a moment of the execution the accumulators were [copied]. *)
Definition moment ls (ls1 : list live_label) (copied : gmap string machineData) : Prop :=
  ∃ ls2 y e, ls = ls1 ++ ls2 ∧ reached ls1 y ∧ shared_engine y = Some e ∧ machines e = copied.

(** A snapshot computed from the accumulators of a moment. *)
Definition computed_at ls ls1 (data : machineData) (shifts : R) x : Prop :=
  ∃ copied, moment ls ls1 copied ∧ copied !! SnapshotMachineID x = Some data ∧
    snapshot shifts (WindowTo x) (SnapshotMachineID x) data = Some x.

Record live_inv ls l : Prop := {
  inv_parts : reached ls (live_parts l);
  inv_ticking now copied ids : live_engine l = EngineTicking now copied ids → ∃ ls1, moment ls ls1 copied;
  inv_offered x : x ∈ offered (on_sinks ls) → ∃ ls1 data shifts, computed_at ls ls1 data shifts x;
  inv_sinks : ∃ acts, execute comp_step acts (NewCompositeSink buildSinks) =
    Some (on_sinks ls, live_sinks l);
  inv_ws : ws_inv ls (live_ws l);
}.

Lemma reached_app ls ls' y y' a lp : reached ls y → sys_step s a y = Some (lp, y') →
  on_parts ls' = lp → reached (ls ++ ls') y'.
Proof.
  intros [acts Hx] Ha <-. exists (acts ++ [a]). rewrite on_parts_app, execute_app, Hx. cbn [mbind option_bind].
  by rewrite execute_one, Ha.
Qed.

Lemma reached_same ls ls' y : reached ls y → on_parts ls' = [] → reached (ls ++ ls') y.
Proof. intros [acts Hx] Hn. exists acts. by rewrite on_parts_app, Hn, app_nil_r. Qed.

Lemma moment_app ls ls' ls1 copied : moment ls ls1 copied → moment (ls ++ ls') ls1 copied.
Proof.
  intros (ls2 & y & e & -> & Hr & He & Hm). exists (ls2 ++ ls'), y, e. by rewrite (assoc_L (++)).
Qed.

Lemma moment_now ls y e : reached ls y → shared_engine y = Some e → moment ls ls (machines e).
Proof. intros Hr He. exists [], y, e. by rewrite app_nil_r. Qed.

(** What a step keeps, and what it has to show. *)
Lemma live_inv_step ls l ls' l' : live_inv ls l →
  reached (ls ++ ls') (live_parts l') →
  (live_engine l' = live_engine l ∨ ∀ now copied ids, live_engine l' = EngineTicking now copied ids →
    ∃ ls1, moment (ls ++ ls') ls1 copied) →
  (∀ x, x ∈ offered (on_sinks ls') → ∃ ls1 data shifts, computed_at (ls ++ ls') ls1 data shifts x) →
  (∃ acts, execute comp_step acts (live_sinks l) = Some (on_sinks ls', live_sinks l')) →
  ws_inv (ls ++ ls') (live_ws l') →
  live_inv (ls ++ ls') l'.
Proof.
  intros [Hr Ht Ho [acts Hs] Hw] Hr' Ht' Ho' [acts' Hs'] Hw'. split; try done.
  - intros now copied ids Heq. destruct Ht' as [Hsame|Ht']; [|by eapply Ht'].
    rewrite Hsame in Heq. destruct (Ht _ _ _ Heq) as [ls1 Hm]. exists ls1. by apply moment_app.
  - intros x. rewrite on_sinks_app, offered_app, elem_of_app. intros [Hx|Hx]; [|by apply Ho'].
    destruct (Ho x Hx) as (ls1 & data & shifts & copied & Hm & Hc). exists ls1, data, shifts, copied.
    split; [by apply moment_app|done].
  - exists (acts ++ acts'). rewrite on_sinks_app, execute_app, Hs. simpl. by rewrite Hs'.
Qed.

(** A step of the engine that only changes where it is. *)
Lemma live_inv_engine ls l e : live_inv ls l →
  (∀ now copied ids, e = EngineTicking now copied ids → ∃ ls1, moment ls ls1 copied) →
  live_inv ls (with_engine e l).
Proof.
  intros Hi He. rewrite <-(app_nil_r ls). apply (live_inv_step _ l); rewrite ?app_nil_r; try done.
  - apply Hi.
  - by right.
  - set_solver.
  - by exists [].
  - apply Hi.
Qed.

Lemma live_inv_hub ls l ls' h : live_inv ls l → on_parts ls' = [] → on_sinks ls' = [] →
  (∀ id conn, conn ∈ subscribers h id → conn ∈ subscribers (hub (live_ws l)) id ∨ Connected id conn ∈ ls') →
  live_inv (ls ++ ls') (with_hub h l).
Proof.
  intros Hi Hp Hs Hh. apply (live_inv_step _ l); try done.
  - apply reached_same; [apply Hi|done].
  - by left.
  - rewrite Hs. set_solver.
  - exists []. by rewrite Hs.
  - apply with_hub_inv; [apply Hi|done].
Qed.

Lemma engine_next_inv shifts ls l ls' l' : live_inv ls l →
  engine_next shifts l = Some (ls', l') → live_inv (ls ++ ls') l'.
Proof.
  intros Hi. unfold engine_next. destruct (live_engine l) as [| |now copied [|id ids]| |] eqn:He; try done.
  { intros [= <- <-]. rewrite app_nil_r. by apply live_inv_engine. }
  destruct (inv_ticking _ _ Hi _ _ _ He) as [ls1 Hm].
  assert (live_inv ls (with_engine (EngineTicking now copied ids) l)) as Hi'.
  { apply live_inv_engine; [done|]. intros ? ? ? [= <- <- <-]. by exists ls1. }
  destruct (copied !! id ≫= snapshot shifts now id) as [x|] eqn:Hx.
  2: { intros [= <- <-]. by rewrite app_nil_r. }
  intros [= <- <-]. apply (live_inv_step _ _ _ _ Hi').
  - apply reached_same; [apply Hi|done].
  - by left.
  - intros x' Hx'. apply list_elem_of_singleton in Hx' as ->.
    apply bind_Some in Hx as (data & Hd & Hx).
    assert (SnapshotMachineID x = id ∧ WindowTo x = now) as [Hid Hto].
    { unfold snapshot in Hx. destruct (ForMachineWindow _ _ _) as [[]|]; [|done]. by injection Hx as <-. }
    exists ls1, data, shifts. exists copied. split; [by apply moment_app|]. by rewrite Hid, Hto.
  - exists [CompUpdate x]. done.
  - apply ws_inv_app, Hi.
Qed.

Lemma sinks_step_inv a fails ls l ls' l' : live_inv ls l → (∀ x, a ≠ CompUpdate x) →
  sinks_step a fails l = Some (ls', l') → live_inv (ls ++ ls') l'.
Proof.
  intros Hi Ha. unfold sinks_step. destruct (comp_step a (live_sinks l)) as [[es c]|] eqn:Hc; [|done].
  intros [= <- <-]. apply (live_inv_step _ l); try done.
  - apply reached_same; [apply Hi|apply on_parts_sinks].
  - by left.
  - intros x. rewrite on_sinks_sinks. intros Hx. exfalso.
    assert (offered es = []) as Hno; [|by rewrite Hno in Hx; apply elem_of_nil in Hx].
    destruct a; simpl in Hc; [by destruct (Ha s0)|..];
      unfold at_drain, drain_take, drain_update, drain_stop in Hc; repeat case_match; by simplify_eq.
  - exists [a]. by rewrite execute_one, Hc, on_sinks_sinks.
  - apply ws_deliver_inv, Hi.
Qed.

Lemma live_step_inv a ls l ls' l' : live_inv ls l →
  live_step s a l = Some (ls', l') → live_inv (ls ++ ls') l'.
Proof.
  intros Hi. unfold live_step. destruct (bool_decide _); [done|].
  destruct a as [a| |now ids|shifts| |i|i fails|i| |id conn|id conn].
  - unfold parts_step. destruct (sys_step s a (live_parts l)) as [[lp y]|] eqn:Ha; [|done].
    intros [= <- <-]. apply (live_inv_step _ l); try done.
    + eapply reached_app; [apply Hi|exact Ha|apply on_parts_parts].
    + by left.
    + rewrite on_sinks_parts. set_solver.
    + exists []. by rewrite on_sinks_parts.
    + apply ws_inv_app, Hi.
  - unfold silent, engine_begin. destruct (live_engine l), (shared_engine (live_parts l)) as [e|]; try done.
    intros [= <- <-]. rewrite app_nil_r. apply live_inv_engine; [done|]. by destruct (_ <=? _).
  - unfold silent, engine_tick. destruct (live_engine l), (shared_engine (live_parts l)) as [e|] eqn:He; try done.
    destruct (_ && _); [|done]. intros [= <- <-]. rewrite app_nil_r. apply live_inv_engine; [done|].
    intros ? ? ? [= <- <- <-]. exists ls. apply (moment_now ls (live_parts l)); [apply Hi|done].
  - by apply engine_next_inv.
  - unfold silent, engine_stop. destruct (live_engine l); try done. destruct (ctx_done _); [|done].
    intros [= <- <-]. rewrite app_nil_r. by apply live_inv_engine.
  - by apply sinks_step_inv.
  - by apply sinks_step_inv.
  - by apply sinks_step_inv.
  - by apply sinks_step_inv.
  - intros [= <- <-]. apply live_inv_hub; [done..|]. intros id' conn'. simpl.
    rewrite subscribers_Register, elem_of_app. intros [Hc|Hc]; [by left|right].
    destruct (decide (id' = id)) as [->|]; [|by apply elem_of_nil in Hc].
    apply list_elem_of_singleton in Hc as ->. by left.
  - intros [= <- <-]. apply live_inv_hub; [done..|]. intros id' conn' Hc. left.
    by eapply elem_Unregister.
Qed.

Lemma reachable_live_inv acts ls l :
  execute (live_step s) acts (StartLive m) = Some (ls, l) → live_inv ls l.
Proof.
  apply (execute_ind (live_step s) live_inv); [|intros; by eapply live_step_inv]. split; try done.
  - by exists [].
  - simpl. set_solver.
  - by exists [].
  - split; simpl; [|set_solver]. intros id conn. unfold subscribers. simpl. rewrite lookup_empty. set_solver.
Qed.

(** What was delivered had been offered. *)
Lemma delivered_offered ls l i k x : live_inv ls l → buildSinks !! i = Some k →
  x ∈ delivered_to i (on_sinks ls) → x ∈ offered (on_sinks ls).
Proof.
  intros Hi Hk Hx. destruct (inv_sinks _ _ Hi) as [acts Hex]. apply reachable_comp_inv in Hex as [_ Hall].
  destruct (Hall i k Hk) as (d & _ & Hsub & _).
  eapply sublist_subseteq; [exact Hsub|]. apply elem_of_app. by left.
Qed.
End running.

(** ** From publications to subscribers *)

Section shown.
Context {St Q R : Type} `{Store St, !StoreSpec St, IntervalStore Q, !IntervalStoreSpec Q, ShiftReader R}.
Implicit Types (ls : list live_label) (x : AvailabilitySnapshot).

(** What is behind a snapshot [x] of an execution [ls].  At some moment [ls1]
    of it some messages had been processed, every one of them published by an
    entitled session and persisted, and the observer that processing them one
    after the other leaves holds for the machine the intervals from which [x]
    is computed: this holds whatever calls fail.  When moreover no call of the
    interval store failed for them, these intervals are the end of the history
    [h] that the messages make, and the figures of [x] are those of [h]. *)
Definition history_shown (c : Config) (m : Modules St Q) (q : Q) ls x : Prop :=
  let id := SnapshotMachineID x in
  let w := {| From := WindowFrom x; To := WindowTo x |} in
  ∃ ls1 ls2, ls = ls1 ++ ls2 ∧
    let msgs := processed 1 (on_fan (on_parts ls1)) in
    let h := foldl record (history q id) (omap (transition_of (OEEStateTopic c) id) msgs) in
    (∀ msg, msg ∈ msgs → authorised (mod_server m) (mod_topics m) (on_broker (on_parts ls1)) msg ∧
      msg ∈ saves (on_pipeline (on_parts ls1))) ∧
    ∃ os uc data (shifts : R), IngestState.process_all (OEEStateTopic c) msgs
        {| IngestState.store := q; observer := NewEngine (OEETickInterval c) |} = (os, uc) ∧
      machines (observer uc) !! id = Some data ∧ snapshot shifts (WindowTo x) id data = Some x ∧
      (Forall (λ o, o = Succeeded) os → chain h ∧ follows_history data h ∧
       ∃ planned found, ForMachineWindow shifts id w = Ok (planned, found) ∧
         (0 ≤ planned ≤ int64_max → short_window w → Z.of_nat (length h) ≤ int64_max →
          shows h w planned x)).

Lemma processed_elem ls1 ls2 i msg : msg ∈ processed i (on_fan (on_parts ls1)) →
  msg ∈ processed i (on_fan (on_parts (ls1 ++ ls2))).
Proof.
  rewrite on_parts_app. unfold on_fan, processed. rewrite !omap_app, elem_of_app. by left.
Qed.

Lemma follows_length d h : follows_history d h → (length (intervals d) ≤ length h)%nat.
Proof. intros (old & -> & _). rewrite length_app, length_fmap. lia. Qed.

Lemma snapshot_window (shifts : R) now id data x : snapshot shifts now id data = Some x →
  WindowFrom x = windowStart data ∧ WindowTo x = now ∧
  ∃ planned found, ForMachineWindow shifts id {| From := windowStart data; To := now |} = Ok (planned, found).
Proof.
  unfold snapshot. destruct (ForMachineWindow _ _ _) as [[planned found]|] eqn:Hp; [|done].
  intros [= <-]. split; [done|]. split; [done|]. by exists planned, found.
Qed.

Lemma computed_shown ReadFile chan_limit c st q db m db' ls ls1 data (shifts : R) x :
  valid c → OEEEnabled c = true → InitModules ReadFile chan_limit c st q db = Initialised m db' →
  (∀ id, chain (history q id)) →
  times_are (OEEStateTopic c) writable (processed 1 (on_fan (on_parts ls))) →
  computed_at (mod_server m) m ls ls1 data shifts x → history_shown c m q ls x.
Proof.
  intros Hc Hen Hm Hch Hw (copied & (ls2 & y & e & -> & [acts Hx] & He & Hcop) & Hd & Hs).
  destruct (states_path ReadFile chan_limit c st q db m db' acts (on_parts ls1) y) as (os & uc & Hp & Hwk & Ha & _ & Hok);
    [done..| |].
  { intros msg t Hin. apply Hw. by apply processed_elem. }
  destruct (snapshot_window _ _ _ _ _ Hs) as (Hfrom & _ & planned & found & Hplan).
  assert (e = observer uc) as -> by (unfold shared_engine in He; rewrite Hwk in He; by injection He as <-).
  rewrite <-Hcop in Hd.
  exists ls1, ls2. split; [done|]. split; [done|]. exists os, uc, data, shifts.
  split; [done|]. split; [done|]. split; [done|]. intros Hos.
  destruct (Hok Hos) as [Hsync Hh]. destruct (Hsync (SnapshotMachineID x)) as [Hchx Hfol].
  rewrite Hh in Hchx, Hfol. rewrite Hd in Hfol. split; [done|]. split; [done|].
  exists planned, found. rewrite Hfrom. split; [done|].
  intros Hpl Hsw Hlen. pose proof (follows_length _ _ Hfol).
  destruct (snapshot_shows shifts (WindowTo x) (SnapshotMachineID x) data _ planned found Hchx Hfol)
    as (x' & Hx' & _ & Hshow); [done|lia|done|done|].
  rewrite Hs in Hx'. injection Hx' as <-. exact Hshow.
Qed.

(** C4: From publications to subscribers.  In every execution of the broker
    with OEE, built from a loaded configuration on an interval store with one
    open span per machine at most, whatever clients, subscribers and goroutines
    do, as long as the state changes carry times the store can write: each snapshot offered to the sinks is the snapshot
    computed from the intervals that processing the messages processed by some
    moment leaves for its machine, and all of these messages were published by
    entitled sessions and persisted.  As long as no call of the interval store
    failed for these messages, the intervals are the end of the history the
    messages make, and the figures of the snapshot are the time that history
    spends in stops (after a failed call only the first part holds).  The
    no-data flag is set exactly without planned time; the other two flags are
    never set, although the last interval was clipped.  And everything ever
    written to a WebSocket connection is the JSON of such a snapshot, of the
    machine the connection was opened for. *)
Theorem subscribers_see_history Getenv ReadFile chan_limit c st q db m db' acts ls (l : live_system St Q) :
  Load Getenv = Ok c → 0 < QueueBufferSize c → OEEEnabled c = true →
  InitModules ReadFile chan_limit c st q db = Initialised m db' → (∀ id, chain (history q id)) →
  execute (live_step (R := R) (mod_server m)) acts (StartLive m) = Some (ls, l) →
  times_are (OEEStateTopic c) writable (processed 1 (on_fan (on_parts ls))) →
  (∀ x, x ∈ offered (on_sinks ls) → history_shown c m q ls x) ∧
  (∀ conn payload, (conn, payload) ∈ ws_written (live_ws l) → ∃ x,
     snapshot_text x = Some payload ∧ Connected (SnapshotMachineID x) conn ∈ ls ∧
     x ∈ offered (on_sinks ls) ∧ history_shown c m q ls x).
Proof.
  intros Hc%Load_Ok _ Hen Hm Hch Hx Hw. apply reachable_live_inv in Hx as Hi.
  assert (∀ x, x ∈ offered (on_sinks ls) → history_shown c m q ls x) as Hoff.
  { intros x Ho. destruct (inv_offered _ _ _ _ Hi x Ho) as (ls1 & data & shifts & Hcomp).
    by eapply computed_shown. }
  split; [exact Hoff|]. intros conn payload Hp.
  destruct (proj2 (inv_ws _ _ _ _ Hi) conn payload Hp) as (x & Hdel & Ht & Hcon). exists x.
  assert (x ∈ offered (on_sinks ls)) by by eapply (delivered_offered _ _ _ _ 1). auto.
Qed.
End shown.

(** ** A tick *)

Section ticking.
Context {St Q R : Type} `{Store St, IntervalStore Q, ShiftReader R}.
Context {T : Type} `{Authenticator T} (s : Server T).

Lemma next_step (shifts : R) (l : live_system St Q) now copied ids : live_engine l = EngineTicking now copied ids →
  live_step s (EngineNext shifts) l = engine_next shifts l.
Proof. intros He. unfold live_step. rewrite bool_decide_false; [done|]. congruence. Qed.

(** A tick is never blocked: from the copy on, as many rounds as there are
    machines, and one more, take the engine back to its select, and they offer
    the snapshots that [Live.tick] of the copied engine sends, leaving all
    else as it is. *)
Theorem tick_returns (shifts : R) now (e : Engine) ids (l : live_system St Q) :
  live_engine l = EngineTicking now (machines e) ids →
  execute (live_step s) (replicate (S (length ids)) (EngineNext shifts)) l =
    Some (OfSinks ∘ Offered <$> snapshots shifts now ids e,
      with_engine EngineSelecting (with_sinks (tick shifts now ids e (live_sinks l)) l)).
Proof.
  rewrite tick_snapshots. unfold snapshots. revert l. induction ids as [|id ids IH]; intros l He.
  - cbn [replicate length]. rewrite execute_one, (next_step shifts l now (machines e) []) by done.
    unfold engine_next. rewrite He. by destruct l.
  - change (replicate (S (length (id :: ids))) (EngineNext shifts)) with
      ([EngineNext shifts] ++ replicate (S (length ids)) (EngineNext shifts)).
    rewrite execute_app, execute_one, (next_step shifts l now (machines e) (id :: ids)) by done.
    unfold engine_next. rewrite He. cbn [omap list_omap].
    destruct (machines e !! id ≫= snapshot shifts now id) as [x|]; cbn [mbind option_bind];
      by rewrite IH.
Qed.
End ticking.

(** ** A concrete execution *)

Definition sample_live_actions : list (live_action unit) :=
  (OnParts <$> sample_sys_actions) ++
  [EngineBegin; ConnOpened "CNC-01" 7; EngineTick (at_unix 40) ["CNC-01"]; EngineNext (); EngineNext ();
   SinkTake 1; SinkDeliver 1 (λ _, false); ConnLost "CNC-01" 7].

Definition sample_live := execute (live_step (R := unit) (mod_server sample_modules)) sample_live_actions
  (StartLive sample_modules).

Definition sample_live_labels : list live_label := from_option fst [] sample_live.
Definition sample_live_system : live_system (list Message) memory_store :=
  from_option snd (StartLive sample_modules) sample_live.

Lemma sample_live_eq : execute (live_step (R := unit) (mod_server sample_modules)) sample_live_actions
  (StartLive sample_modules) = Some (sample_live_labels, sample_live_system).
Proof. apply (computed_run sample_live). vm_compute. reflexivity. Qed.

Lemma subscribers_see_history_witness :
  ((∀ x, x ∈ offered (on_sinks sample_live_labels) →
      history_shown (R := unit) sample_config sample_modules {| failures := []; table := ∅ |} sample_live_labels x) ∧
   (∀ conn payload, (conn, payload) ∈ ws_written (live_ws sample_live_system) → ∃ x,
      snapshot_text x = Some payload ∧ Connected (SnapshotMachineID x) conn ∈ sample_live_labels ∧
      x ∈ offered (on_sinks sample_live_labels) ∧
      history_shown (R := unit) sample_config sample_modules {| failures := []; table := ∅ |} sample_live_labels x)) ∧
  ws_written (live_ws sample_live_system) = [(7%nat, print (marshal_struct [
    ("machine_id", marshal_string "CNC-01"); ("window_from", JString (bytes_of "1970-01-01T00:00:10Z"));
    ("window_to", JString (bytes_of "1970-01-01T00:00:40Z")); ("availability", JNumber (bytes_of "1"));
    ("planned_time_ns", marshal_int (30 * Second)); ("run_time_ns", marshal_int (30 * Second));
    ("planned_downtime_ns", marshal_int 0); ("unplanned_downtime_ns", marshal_int 0);
    ("interval_count", marshal_int 1); ("has_data", JBool true);
    ("computed_at", JString (bytes_of "1970-01-01T00:00:40Z")); ("flags", JObject [])]%string))].
Proof.
  split; [|vm_compute; reflexivity].
  refine (subscribers_see_history sample_env (λ _, None) amd64_chan_limit sample_config [] {| failures := []; table := ∅ |} _
    sample_modules _ sample_live_actions sample_live_labels sample_live_system
    sample_loaded eq_refl eq_refl sample_init_eq _ sample_live_eq _).
  - intros id. exact chain_nil.
  - apply memory_writable.
Defined.

Lemma tick_returns_witness :
  let e := (live_run.2).(observer) in
  let l := with_engine (EngineTicking (at_unix 40) (machines e) ["CNC-01"]) (StartLive sample_modules) in
  execute (live_step (mod_server sample_modules)) (replicate 2 (EngineNext ())) l =
    Some (OfSinks ∘ Offered <$> snapshots () (at_unix 40) ["CNC-01"] e,
      with_engine EngineSelecting (with_sinks (tick () (at_unix 40) ["CNC-01"] e (live_sinks l)) l)) ∧
  length (snapshots () (at_unix 40) ["CNC-01"] e) = 1%nat.
Proof.
  split; [|vm_compute; reflexivity].
  apply (tick_returns (mod_server sample_modules) () (at_unix 40) (observer live_run.2) ["CNC-01"]). reflexivity.
Defined.

(** ** What a step does to the parts and to the engine *)

Lemma fan_step_workers {S E} a (f : FanOut S E) ls f' : fan_step a f = Some (ls, f') →
  workers f' = workers f ∨ ∃ i msg w s0, workers f !! i = Some (w, s0) ∧
    workers f' = <[i := (w, (Process w msg s0).2)]> (workers f).
Proof.
  destruct a; simpl.
  - intros (ch & _ & [= _ <-])%bind_Some. by left.
  - unfold take_message. destruct (processing f), (fan_returned f); try done.
    intros ([msg ch] & _ & [= _ <-])%bind_Some. by left.
  - unfold run_worker. intros (msg & _ & Hs)%bind_Some. apply bind_Some in Hs as ([w s0] & Hw & Hs).
    destruct (bool_decide _); [|done]. destruct (Process w msg s0) as [o s1] eqn:Hp. injection Hs as _ <-.
    right. exists i, msg, w, s0. split; [done|]. by rewrite Hp.
  - unfold wait_done. repeat case_match; intros Hs; simplify_eq; by left.
  - unfold stop_start. repeat case_match; intros Hs; simplify_eq; by left.
  - intros [= _ <-]. by left.
Qed.

Section steps.
Context {St Q R : Type} `{Store St, IntervalStore Q, ShiftReader R}.
Context {T : Type} `{Authenticator T} (s : Server T).
Implicit Types (l : live_system St Q) (y : system St (worker_state Q) unit).

Lemma sys_step_workers a y ls y' : agree y → sys_step s a y = Some (ls, y') →
  workers (sys_fan y') = workers (sys_fan y) ∨ ∃ i msg w s0, workers (sys_fan y) !! i = Some (w, s0) ∧
    workers (sys_fan y') = <[i := (w, (Process w msg s0).2)]> (workers (sys_fan y)).
Proof.
  intros Hy Hs. pose proof (sys_step_cases s a y ls y' Hy Hs) as Hc. destruct a as [a|a|a|].
  - destruct Hc as (lb & b & _ & _ & ->). by left.
  - destruct Hc as (lp & p & outs & _ & _ & _ & ->). by left.
  - destruct Hc as (lf & f & Hf & _ & _ & ->). by apply fan_step_workers in Hf.
  - destruct Hc as (b & f & _ & Hf & _ & ->). by apply fan_step_workers in Hf.
Qed.

(** A step is one of the parts, or leaves them as they are. *)
Lemma live_step_parts (a : live_action R) l ls l' : live_step s a l = Some (ls, l') →
  (∃ sa, a = OnParts sa ∧ sys_step s sa (live_parts l) = Some (on_parts ls, live_parts l')) ∨
  on_parts ls = [] ∧ live_parts l' = live_parts l.
Proof.
  unfold live_step. destruct (bool_decide _); [done|].
  assert (∀ c fails, sinks_step c fails l = Some (ls, l') → on_parts ls = [] ∧ live_parts l' = live_parts l)
    as Hsinks.
  { unfold sinks_step. intros c fails ([es k] & _ & [= <- <-])%bind_Some. split; [apply on_parts_sinks|done]. }
  destruct a as [a| |now ids|shifts| |i|i fails|i| |id conn|id conn]; intros Hs.
  - unfold parts_step in Hs. destruct (sys_step s a (live_parts l)) as [[lp y]|] eqn:Ha; [|done].
    injection Hs as <- <-. left. exists a. split; [done|]. rewrite on_parts_parts. exact Ha.
  - apply bind_Some in Hs as (l1 & Hl & [= <- <-]). right. revert Hl. unfold engine_begin.
    repeat case_match; intros; simplify_eq; done.
  - apply bind_Some in Hs as (l1 & Hl & [= <- <-]). right. revert Hl. unfold engine_tick.
    repeat case_match; intros; simplify_eq; done.
  - right. revert Hs. unfold engine_next. repeat case_match; intros; simplify_eq; done.
  - apply bind_Some in Hs as (l1 & Hl & [= <- <-]). right. revert Hl. unfold engine_stop.
    repeat case_match; intros; simplify_eq; done.
  - right. by eapply Hsinks.
  - right. by eapply Hsinks.
  - right. by eapply Hsinks.
  - right. by eapply Hsinks.
  - injection Hs as <- <-. by right.
  - injection Hs as <- <-. by right.
Qed.

(** The engine panics only where it begins. *)
Lemma live_step_panic (a : live_action R) l ls l' : live_step s a l = Some (ls, l') →
  live_engine l' = EnginePanicked →
  ∃ e, shared_engine (live_parts l) = Some e ∧ tickInterval e ≤ 0.
Proof.
  unfold live_step. destruct (bool_decide_reflect (live_engine l = EnginePanicked)) as [|Hne]; [done|].
  assert (∀ c fails, sinks_step c fails l = Some (ls, l') → live_engine l' = live_engine l) as Hsinks.
  { unfold sinks_step. by intros c fails ([es k] & _ & [= <- <-])%bind_Some. }
  destruct a as [a| |now ids|shifts| |i|i fails|i| |id conn|id conn]; intros Hs Hp;
    try (apply Hsinks in Hs; congruence).
  - unfold parts_step in Hs. destruct (sys_step s a (live_parts l)) as [[lp y]|]; [|done].
    by injection Hs as <- <-.
  - apply bind_Some in Hs as (l1 & Hl & [= <- <-]). revert Hl. unfold engine_begin.
    destruct (live_engine l), (shared_engine (live_parts l)) as [e|]; try done. intros [= <-].
    exists e. split; [done|]. simpl in Hp. destruct (Z.leb_spec (tickInterval e) 0); [done|discriminate].
  - apply bind_Some in Hs as (l1 & Hl & [= <- <-]). revert Hl. unfold engine_tick.
    repeat case_match; intros; simplify_eq; done.
  - revert Hs. unfold engine_next. repeat case_match; intros; simplify_eq; done.
  - apply bind_Some in Hs as (l1 & Hl & [= <- <-]). revert Hl. unfold engine_stop.
    repeat case_match; intros; simplify_eq; done.
  - by injection Hs as <- <-.
  - by injection Hs as <- <-.
Qed.

(** The workers of a configuration stay what they are, and the engine of the
    state worker keeps its interval. *)
Definition right_workers (c : Config) (ws : list (Worker (worker_state Q) unit * worker_state Q)) : Prop :=
  ∃ log, if OEEEnabled c
    then ∃ uc, ws = [(log_worker, LogState log); (oee_worker (OEEStateTopic c), OeeState uc)] ∧
      tickInterval (observer uc) = OEETickInterval c
    else ws = [(log_worker, LogState log)].

Lemma workers_of_right c (q : Q) : right_workers c (workers_of c q).
Proof. exists []. unfold workers_of. destruct (OEEEnabled c); [by eexists|done]. Qed.

Lemma Apply_interval t (uc : UseCase Q Engine) :
  tickInterval (observer (Apply t uc).2) = tickInterval (observer uc).
Proof.
  assert (∀ t (uc : UseCase Q Engine), tickInterval (observer (open_new t uc).2) = tickInterval (observer uc))
    as Hopen by (intros t' uc'; unfold open_new; by repeat case_match).
  unfold Apply. repeat case_match; try done; by rewrite Hopen.
Qed.

Lemma log_worker_kind msg log : ∃ log', (Process (log_worker (Q := Q)) msg (LogState log)).2 = LogState log'.
Proof. simpl. destruct (FanOut.Process LoggerWorker msg log) as [o log'] eqn:Hp. by eexists. Qed.

Lemma oee_worker_kind topic msg (uc : UseCase Q Engine) : ∃ uc',
  (Process (oee_worker topic) msg (OeeState uc)).2 = OeeState uc' ∧
  tickInterval (observer uc') = tickInterval (observer uc).
Proof.
  simpl. unfold StateChangeWorker_Process. destruct (negb _); [by eexists|].
  destruct (DecodeStateChange _) as [t|]; [|by eexists].
  pose proof (Apply_interval t uc) as Ht. destruct (Apply t uc) as [[[]|] uc']; by eexists.
Qed.

Lemma process_right c ws i msg w s0 : right_workers c ws → ws !! i = Some (w, s0) →
  right_workers c (<[i := (w, (Process w msg s0).2)]> ws).
Proof.
  intros [log Hws]. unfold right_workers. destruct (OEEEnabled c).
  - destruct Hws as (uc & -> & Hi). destruct i as [|[|i]]; [| |done]; intros [= <- <-].
    + destruct (log_worker_kind msg log) as [log' ->]. exists log'. by exists uc.
    + destruct (oee_worker_kind (OEEStateTopic c) msg uc) as (uc' & -> & Hi'). exists log, uc'.
      split; [done|congruence].
  - subst ws. destruct i as [|i]; [|done]; intros [= <- <-].
    destruct (log_worker_kind msg log) as [log' ->]. by exists log'.
Qed.

Lemma close_right c ws : right_workers c ws → right_workers c ((λ '(w, s), (w, (Close w s).2)) <$> ws).
Proof.
  intros [log Hws]. unfold right_workers. exists log. destruct (OEEEnabled c).
  - destruct Hws as (uc & -> & Hi). by exists uc.
  - by subst ws.
Qed.

Lemma right_engine c y e : right_workers c (workers (sys_fan y)) → shared_engine y = Some e →
  OEEEnabled c = true ∧ tickInterval e = OEETickInterval c.
Proof.
  intros [log Hws]. unfold shared_engine. destruct (OEEEnabled c).
  - destruct Hws as (uc & -> & Hi). by intros [= <-].
  - by rewrite Hws.
Qed.
End steps.

(** ** The interval of the ticks *)

Lemma workers_start {St Q} `{Store St, IntervalStore Q} ReadFile chan_limit c (st : St) (q : Q) db m db' :
  valid c → OEEEnabled c = true → InitModules ReadFile chan_limit c st q db = Initialised m db' →
  shared_engine (StartServers m) = Some (NewEngine (OEETickInterval c)).
Proof.
  intros Hc Hen Hm. destruct (StartServers_start ReadFile chan_limit c st q db m db' Hc Hm) as (_ & Hws & _).
  unfold shared_engine. simpl. rewrite Hws. unfold workers_of. by rewrite Hen.
Qed.

(** The engine starts its loop exactly when the interval is positive; otherwise
    the process panics when the goroutine of the engine is scheduled, and
    nothing runs any more. *)
Lemma interval_decides {St Q R} `{Store St, IntervalStore Q, ShiftReader R} Getenv ReadFile chan_limit c (st : St) (q : Q) db m db' :
  Load Getenv = Ok c → OEEEnabled c = true → InitModules ReadFile chan_limit c st q db = Initialised m db' →
  ∃ l : live_system St Q, live_step (R := R) (mod_server m) EngineBegin (StartLive m) = Some ([], l) ∧
    if bool_decide (0 < OEETickInterval c) then live_engine l = EngineSelecting
    else ∀ a, live_step (R := R) (mod_server m) a l = None.
Proof.
  intros Hc%Load_Ok Hen Hm. unfold live_step at 1. simpl bool_decide. cbn iota. unfold silent, engine_begin.
  cbn [StartLive live_engine live_parts]. rewrite (workers_start ReadFile chan_limit c st q db m db' Hc Hen Hm).
  cbn [NewEngine tickInterval]. eexists. split; [reflexivity|].
  destruct (Z.leb_spec (OEETickInterval c) 0) as [Hle|Hlt].
  - rewrite bool_decide_false by lia. intros a. reflexivity.
  - by rewrite bool_decide_true.
Qed.

Definition zero_interval_env (key : string) : string :=
  if String.eqb key "BROKER_OEE_TICK_INTERVAL" then "0s" else sample_env key.

Lemma zero_interval :
  ∃ c, Load zero_interval_env = Ok c ∧ OEEEnabled c = true ∧ OEETickInterval c = 0 ∧
  ∃ m db', InitModules (λ _, None) amd64_chan_limit c ([] : list Message) {| failures := []; table := ∅ |}
      {| tables := empty_tables; Sql.failures := [] |} = Initialised m db'.
Proof.
  destruct (Load zero_interval_env) as [c|] eqn:Hl; [|vm_compute in Hl; discriminate].
  assert (OEETickInterval c = 0 ∧ OEEEnabled c = true ∧ (length (CfgTopics c) ≤ 5)%nat ∧
    (QueueBufferSize c <? 0) || (amd64_chan_limit <? QueueBufferSize c) = false) as (Ht & Hen & Hn & Hq).
  { vm_compute in Hl. injection Hl as <-. simpl. split_and!; [done..|lia|done]. }
  exists c. split; [done|]. split; [done|]. split; [done|].
  unfold InitModules. rewrite Hq, Hen. destruct (buildOEEModules _ _ _ _ _).
  rewrite valid_registry by (by eauto using Load_Ok). by eexists _, _.
Qed.

(** An interval of zero is accepted by [Load], and ends the process. *)
Theorem bad_interval_crashes :
  ∃ c, Load zero_interval_env = Ok c ∧ OEETickInterval c = 0 ∧
  ∃ m db', InitModules (λ _, None) amd64_chan_limit c ([] : list Message) {| failures := []; table := ∅ |}
      {| tables := empty_tables; Sql.failures := [] |} = Initialised m db' ∧
  ∃ l, live_step (R := unit) (mod_server m) EngineBegin (StartLive m) = Some ([], l) ∧
    ∀ a, live_step (R := unit) (mod_server m) a l = None.
Proof.
  destruct zero_interval as (c & Hl & Hen & Ht & m & db' & Hm).
  exists c. split; [done|]. split; [done|]. exists m, db'. split; [exact Hm|].
  destruct (interval_decides (R := unit) zero_interval_env (λ _, None) amd64_chan_limit c [] _ _ m db' Hl Hen Hm)
    as (l & Hs & Hdec).
  exists l. split; [exact Hs|]. rewrite Ht in Hdec. exact Hdec.
Qed.
