(* ===== verification/Process.v ===== *)
(** * The process

    [cmd/broker/main.go], [bootstrap/shutdown.go] and the rest of
    [bootstrap/server.go]: what happens from the start of the process to its
    end.  [main] loads the configuration, migrates the database, builds the
    modules and starts them, or exits, or panics; what runs then is a
    [process], the system of [LiveSystem] with its two servers;
    [GracefulShutdown] runs on a signal.

    - [main_starts]: when the process runs, and what it then serves; why it
      exits or panics otherwise;
    - [GracefulShutdown_spec]: what is closed, and what is not: the context is
      not cancelled, so the pipeline, the fan-out and the live engine go on, on
      workers that were closed;
    - [restart_forgets]: the engine is started without machines to rehydrate.

    When the signal comes, and what happens between the calls, is in
    [Lifecycle]; of the HTTP server only whether it serves is kept here ([Api]
    has what it answers). *)

From S2P Require Export Listener Migrator Query LiveSystem.

Local Open Scope Z_scope.

(** ** A running process *)

(** The MQTT server: [s.listener] is nil until [net.Listen] has returned, and
    stays nil when it fails. *)
Inductive mqtt_server :=
  | Unlistened
  | Listening (l : listener)
  | ListenFailed.

(** [Server.Close]. *)
Definition Server_Close (m : mqtt_server) : mqtt_server :=
  match m with Listening l => Listening (stop_listening l) | m => m end.

(** What [StartServers] has launched.  Without OEE there are no live engine and
    no sinks, and those of [proc_live] are never used. *)
Record process (St Q : Type) := {
  proc_mqtt : mqtt_server;
  proc_http : bool;                  (* the HTTP server serves *)
  proc_oee : bool;                   (* the OEE fields of [Modules] are not nil *)
  proc_live : live_system St Q;
}.
Arguments proc_mqtt {St Q} p.
Arguments proc_http {St Q} p.
Arguments proc_oee {St Q} p.
Arguments proc_live {St Q} p.

Definition proc_system {St Q} (p : process St Q) : system St (worker_state Q) unit :=
  live_parts (proc_live p).

Definition start_process {St Q} (c : Config) (m : Modules St Q) : process St Q := {|
  proc_mqtt := Unlistened; proc_http := true; proc_oee := OEEEnabled c; proc_live := StartLive m
|}.

(** ** [main], up to the wait for a signal *)

Inductive process_start (Sch St Q : Type) :=
  | Exits                                   (* os.Exit(1) *)
  | PanicsAtStart
  | Running (c : Config) (migs : database (mig_tables Sch)) (m : Modules St Q) (p : process St Q).
Arguments Exits {Sch St Q}.
Arguments PanicsAtStart {Sch St Q}.
Arguments Running {Sch St Q} c migs m p.

Section main.
Context {Sch St Q : Type} `{Store St, IntervalStore Q}.
Variable Getenv : string → string.
Variable exec_sql : string → Sch → option Sch.
Variable ReadFile : string → option (list byte).
Variable chan_limit : Z.

Definition main (sql_Open : string → option (database (mig_tables Sch)))
    (Ping : database (mig_tables Sch) → bool) (MkdirAll : string → bool)
    (dir : option (list dir_entry)) (st : St) (q : Q) (db : database shift_tables) :
    process_start Sch St Q :=
  match Load Getenv with
  | Err _ => Exits
  | Ok cfg =>
      match InitDatabase exec_sql sql_Open Ping MkdirAll (DBPath cfg) dir with
      | NotOpened | ClosedAgain _ => Exits
      | DatabaseReady migs =>
          match InitModules ReadFile chan_limit cfg st q db with
          | Panics => PanicsAtStart
          | Fails _ => Exits
          | Initialised m _ => Running cfg migs m (start_process cfg m)
          end
      end
  end.
End main.

(** ** The start of the live engine (server.go) *)

(** [go modules.OEEEngine.Start(ctx, nil)]: rehydrates the machines it is
    given. *)
Definition start_engine {Q} `{IntervalStore Q} (e : Engine) (q : Q) : Engine * Q := rehydrate [] e q.

(** ** [GracefulShutdown] (shutdown.go) *)

Section shutdown.
Context {St Q : Type}.
Implicit Types (p : process St Q) (y : system St (worker_state Q) unit).

Definition set_workers {S E} (ws : list (Worker S E * S)) (f : FanOut S E) : FanOut S E := {|
  workers := ws; input := input f; processing := processing f; unfinished := unfinished f;
  fan_stopped := fan_stopped f; fan_returned := fan_returned f |}.

(** [modules.FanOut.Close()]; its error is dropped. *)
Definition close_fan y : system St (worker_state Q) unit := {|
  sys_broker := sys_broker y; sys_pipeline := sys_pipeline y;
  sys_fan := set_workers (CloseFanOut (sys_fan y)).2 (sys_fan y) |}.

(** [modules.ClientMgr.CloseAll()]. *)
Definition close_clients y : system St (worker_state Q) unit :=
  let w := shared (sys_broker y) in
  let '(cs, cm) := CloseAll (connMgr w) in {|
    sys_broker := {| shared := set_connMgr cm (close_conns cs w); running := running (sys_broker y) |};
    sys_pipeline := sys_pipeline y; sys_fan := sys_fan y |}.

Definition with_mqtt (m : mqtt_server) p : process St Q := {|
  proc_mqtt := m; proc_http := proc_http p; proc_oee := proc_oee p; proc_live := proc_live p |}.
Definition with_http (h : bool) p : process St Q := {|
  proc_mqtt := proc_mqtt p; proc_http := h; proc_oee := proc_oee p; proc_live := proc_live p |}.
Definition with_live (l : live_system St Q) p : process St Q := {|
  proc_mqtt := proc_mqtt p; proc_http := proc_http p; proc_oee := proc_oee p; proc_live := l |}.
Definition with_system y p : process St Q := with_live (with_parts y (proc_live p)) p.

(** [modules.OEECompositeSink.Close()], if there is one. *)
Definition close_sinks p : process St Q :=
  if proc_oee p
  then with_live (with_sinks (CompositeSink_Close (live_sinks (proc_live p))) (proc_live p)) p
  else p.

(** The calls of [GracefulShutdown], in order; other goroutines run between
    them. *)
Definition shutdown_calls : list (process St Q → process St Q) := [
  (λ p, with_mqtt (Server_Close (proc_mqtt p)) p);
  with_http false;                                          (* Shutdown(...) *)
  (λ p, with_system (close_fan (proc_system p)) p);
  (λ p, with_system (close_clients (proc_system p)) p);
  close_sinks].

Definition GracefulShutdown p : process St Q := foldl (λ p call, call p) p shutdown_calls.
End shutdown.

(** ** What the start makes *)

(** What the process runs on, and how it begins. *)
Record serves {St Q} (c : Config) (st : St) (m : Modules St Q) (p : process St Q) : Prop := {
  serves_topics t : IsAllowed (mod_topics m) t = true ↔ t ∈ CfgTopics c;
  serves_queues : dom (queues (sys_pipeline (proc_system p))) = allowed (mod_topics m);
  serves_credentials u pw :
    Authenticate (auth (mod_server m)) u pw = true ↔ u = CfgUsername c ∧ pw = CfgPassword c;
  serves_room : CanAccept (connMgr (shared (sys_broker (proc_system p)))) = true ∧
    maxClients (connMgr (shared (sys_broker (proc_system p)))) = MaxClients c;
  serves_channels : Z.of_nat (capacity (msgChan (shared (sys_broker (proc_system p))))) = QueueBufferSize c ∧
    Z.of_nat (capacity (input (sys_fan (proc_system p)))) = QueueBufferSize c;
  serves_workers : (λ '(w, _), FanOut.Name w) <$> workers (sys_fan (proc_system p)) =
    "logger"%string :: (if OEEEnabled c then ["oee-state-change"%string] else []);
  serves_engine : shared_engine (proc_system p) =
    if OEEEnabled c then Some (NewEngine (OEETickInterval c)) else None;
  serves_fresh : Broker.running (sys_broker (proc_system p)) = ∅ ∧
    (∀ t, pending t (sys_pipeline (proc_system p)) = []) ∧
    queued (input (sys_fan (proc_system p))) = [] ∧ processing (sys_fan (proc_system p)) = None ∧
    Ingestion.store (sys_pipeline (proc_system p)) = st ∧
    ctx_done (shared (sys_broker (proc_system p))) = false;
}.

Section start.
Context {Sch St Q : Type} `{Store St, IntervalStore Q}.
Variable exec_sql : string → Sch → option Sch.

Variable sql_Open : string → option (database (mig_tables Sch)).
Variable Ping : database (mig_tables Sch) → bool.
Variable MkdirAll : string → bool.
#[local] Abbreviation InitDatabase := (InitDatabase exec_sql sql_Open Ping MkdirAll).

(** A database with every migration applied, in order, and recorded. *)
Definition ready_from (path : string) (dir : option (list dir_entry))
    (migs : database (mig_tables Sch)) : Prop :=
  ∃ db0 entries, MkdirAll (Dir path) = true ∧
    NewSQLiteConnection sql_Open Ping path = Migrator.Connected db0 ∧ dir = Some entries ∧
    migrated exec_sql (tables db0) (pending_migrations (tables db0) entries) (tables migs).

(** Why there is none: its directory cannot be made, it cannot be opened or
    does not answer, or the migrations stopped after some of them. *)
Definition not_ready (path : string) (dir : option (list dir_entry)) : Prop :=
  MkdirAll (Dir path) = false ∨ NewSQLiteConnection sql_Open Ping path = NotOpen ∨
  ∃ db0, NewSQLiteConnection sql_Open Ping path = NotPinged db0 ∨
    NewSQLiteConnection sql_Open Ping path = Migrator.Connected db0 ∧ ∃ db1,
      Migrator.Run exec_sql dir db0 = (Err tt, db1) ∧
      ∀ entries, dir = Some entries → ∃ past rest,
        pending_migrations (tables db0) entries = past ++ rest ∧
        migrated exec_sql (tables db0) past (tables db1).

Lemma InitDatabase_result path dir :
  match InitDatabase path dir with
  | DatabaseReady migs => ready_from path dir migs
  | NotOpened | ClosedAgain _ => not_ready path dir
  end.
Proof.
  unfold Migrator.InitDatabase, ready_from, not_ready. destruct (MkdirAll (Dir path)); [|by left].
  destruct (NewSQLiteConnection sql_Open Ping path) as [|db0|db0] eqn:Hc.
  - by right; left.
  - right; right. exists db0. by left.
  - destruct (Migrator.Run exec_sql dir db0) as [[[]|[]] db1] eqn:Hr.
    + destruct dir as [entries|]; [|by apply Run_no_dir in Hr].
      exists db0, entries. split_and!; [done..|].
      apply Run_prefix in Hr as (past & rest & Hp & Hm & Hrest).
      by rewrite Hp, (Hrest eq_refl), app_nil_r.
    + right; right. exists db0. right. split; [done|]. exists db1. split; [done|]. intros entries ->.
      apply Run_prefix in Hr as (past & rest & Hp & Hm & _). by exists past, rest.
Qed.

(** Nothing is on its way in a new pipeline. *)
Lemma pending_new (st : St) tps n t : pending t (NewPipeline tps st n) = [].
Proof.
  unfold pending. simpl. rewrite app_nil_r.
  destruct (new_queues tps n ∅ !! t) as [l|] eqn:Hl; [|done]. simpl.
  by apply new_queues_lookup in Hl as [->|Hl]; [|rewrite lookup_empty in Hl].
Qed.

Lemma start_serves Getenv ReadFile chan_limit c (st : St) (q : Q) db m db' :
  Load Getenv = Ok c → InitModules ReadFile chan_limit c st q db = Initialised m db' →
  serves c st m (start_process c m).
Proof.
  intros Hc Hm. pose proof (InitModules_spec ReadFile chan_limit Getenv c st q db Hc) as Hs.
  pose proof (InitModules_cases ReadFile chan_limit c st q db (Load_Ok _ _ Hc)) as Hb.
  rewrite Hm in Hs, Hb. destruct Hs as (Hn & Htop & Hq & Hcr & Hacc & Hw & _).
  destruct Hb as (_ & _ & -> & _). split; try done.
  - simpl. lia.
  - unfold shared_engine. simpl. unfold workers_of. by destruct (OEEEnabled c).
  - split_and!; try done. intros t. apply pending_new.
Qed.

(** C22: From the start of [main] to the wait for a signal.  The process runs
    exactly when the configuration loads, the database is ready, the channels
    can be made and there are at most five topics.  Its database then has
    every migration applied, in order, and recorded; its registry and its
    queues are those of the configured topics and no others; it accepts
    exactly the configured credentials, and a first client; its channels have
    the configured size; its workers are the logger and, with OEE, the state
    worker, whose observer is an engine with the configured interval; and no
    session, message or cancellation is under way.  It panics exactly when,
    after the same start, the size of the channels is negative or larger than
    the platform allows: [Load] accepts both.  And it exits with an error when
    the configuration does not load, when the database cannot be had, for one
    of the reasons of [not_ready], or for more than five topics. *)
Theorem main_starts Getenv ReadFile chan_limit dir (st : St) (q : Q) db :
  let sizeable c := 0 ≤ QueueBufferSize c ≤ chan_limit in
  match main Getenv exec_sql ReadFile chan_limit sql_Open Ping MkdirAll dir st q db with
  | Running c migs m p =>
      Load Getenv = Ok c ∧ valid c ∧ ready_from (DBPath c) dir migs ∧
      sizeable c ∧ (length (CfgTopics c) ≤ 5)%nat ∧
      proc_mqtt p = Unlistened ∧ proc_oee p = OEEEnabled c ∧ serves c st m p
  | PanicsAtStart => ∃ c migs, Load Getenv = Ok c ∧ ready_from (DBPath c) dir migs ∧ ¬ sizeable c
  | Exits =>
      is_ok (Load Getenv) = false ∨
      ∃ c, Load Getenv = Ok c ∧
        (not_ready (DBPath c) dir ∨
         ∃ migs, ready_from (DBPath c) dir migs ∧ sizeable c ∧ (5 < length (CfgTopics c))%nat)
  end.
Proof.
  intros sizeable. unfold main. destruct (Load Getenv) as [c|e] eqn:Hl; [|by left].
  pose proof (InitDatabase_result (DBPath c) dir) as Hi.
  destruct (InitDatabase (DBPath c) dir) as [|db1|migs]; [right; exists c; auto..|].
  pose proof (InitModules_cases ReadFile chan_limit c st q db (Load_Ok _ _ Hl)) as Hm.
  destruct (InitModules ReadFile chan_limit c st q db) as [|e|m db'] eqn:Him.
  - exists c, migs. split; [done|]. split; [done|]. unfold sizeable. lia.
  - right. exists c. split; [done|]. right. exists migs. split; [done|].
    by destruct Hm as (_ & ? & ?).
  - destruct Hm as (Hn & H5 & _ & _). split_and!; try done; [by eapply Load_Ok|..].
    by eapply start_serves.
Qed.
End start.

(** ** What the shutdown closes *)

Lemma lookup_close_conns cs w c :
  conns (close_conns cs w) !! c = if decide (c ∈ cs) then closed <$> conns w !! c else conns w !! c.
Proof.
  revert w. induction cs as [|c' cs IH]; intros w; simpl; [done|]. rewrite IH. simpl.
  destruct (decide (c = c')) as [->|Hne].
  - rewrite lookup_alter_eq, (decide_True (P:=c' ∈ c' :: cs)) by set_solver.
    destruct (decide _); [|done]. by destruct (conns w !! c').
  - rewrite lookup_alter_ne by done. destruct (decide (c ∈ cs)).
    + by rewrite decide_True by set_solver.
    + by rewrite decide_False by set_solver.
Qed.

Lemma close_conns_ctx_done cs w : ctx_done (close_conns cs w) = ctx_done w.
Proof. revert w. induction cs as [|c cs IH]; intros w; simpl; [done|]. by rewrite IH. Qed.

Lemma closed_clients cm c : c ∈ (CloseAll cm).1 ↔ ∃ id, clients cm !! id = Some c.
Proof.
  unfold CloseAll. rewrite close_loop_all. simpl. rewrite list_elem_of_fmap. split.
  - intros ([id c'] & -> & Hin). apply elem_of_map_to_list in Hin. by exists id.
  - intros [id Hid]. exists (id, c). by rewrite elem_of_map_to_list.
Qed.

(** What a signal does: the listener and the HTTP server are closed, every
    registered connection is closed and none stays registered, every worker
    of the fan-out is closed once, and with OEE the goroutines of the sinks are
    told to stop; but connections that have not registered yet stay open, no
    context is cancelled, the live engine stays where it is, and so do the
    messages on their way. *)
Theorem GracefulShutdown_spec {St Q} (p : process St Q) :
  let y := proc_system p in let y' := proc_system (GracefulShutdown p) in
  let w := shared (sys_broker y) in let w' := shared (sys_broker y') in
  proc_mqtt (GracefulShutdown p) = Server_Close (proc_mqtt p) ∧ proc_http (GracefulShutdown p) = false ∧
  clients (connMgr w') = ∅ ∧
  (∀ c, conns w' !! c =
    if decide (map_Exists (λ _ c', c' = c) (clients (connMgr w))) then closed <$> conns w !! c
    else conns w !! c) ∧
  workers (sys_fan y') = (λ '(w, s), (w, (Close w s).2)) <$> workers (sys_fan y) ∧
  (proc_oee p = true → comp_cancelled (live_sinks (proc_live (GracefulShutdown p))) = true) ∧
  live_engine (proc_live (GracefulShutdown p)) = live_engine (proc_live p) ∧
  (∀ l, proc_mqtt (GracefulShutdown p) = Listening l →
    listening l = false ∧ ∃ l0, proc_mqtt p = Listening l0 ∧ cancelled l = cancelled l0) ∧
  ctx_done w' = ctx_done w ∧ fan_stopped (sys_fan y') = fan_stopped (sys_fan y) ∧
  sys_pipeline y' = sys_pipeline y ∧ msgChan w' = msgChan w ∧
  input (sys_fan y') = input (sys_fan y).
Proof.
  intros y y' w w'. subst y' w'.
  assert (proc_system (GracefulShutdown p) = close_clients (close_fan y) ∧
    live_engine (proc_live (GracefulShutdown p)) = live_engine (proc_live p) ∧
    proc_mqtt (GracefulShutdown p) = Server_Close (proc_mqtt p) ∧ proc_http (GracefulShutdown p) = false)
    as (-> & He & Hmq & Hht).
  { unfold GracefulShutdown, shutdown_calls, close_sinks. cbn [foldl]. by destruct (proc_oee _). }
  rewrite Hmq. unfold close_clients, close_fan. simpl. fold w.
  destruct (CloseAll (connMgr w)) as [cs cm] eqn:Hca.
  assert (cs = (CloseAll (connMgr w)).1) as Hcs by by rewrite Hca.
  assert (cm = (CloseAll (connMgr w)).2) as Hcm by by rewrite Hca.
  split_and!; simpl; try done.
  - rewrite Hcm. apply CloseAll_clients.
  - intros c. rewrite lookup_close_conns. rewrite Hcs.
    destruct (decide (c ∈ _)) as [Hin|Hin]; destruct (decide (map_Exists _ _)) as [Hm|Hm]; try done.
    + apply closed_clients in Hin as [id Hid]. destruct Hm. by exists id, c.
    + destruct Hm as (id & c' & Hid & ->). destruct Hin. apply closed_clients. by exists id.
  - unfold CloseFanOut. by rewrite close_workers_spec.
  - intros Hoee. unfold GracefulShutdown, shutdown_calls, close_sinks. cbn [foldl proc_oee with_http with_mqtt
      with_system with_live]. by rewrite Hoee.
  - intros l. destruct (proc_mqtt p) as [|l0|]; intros [= <-]. by split; [|exists l0].
  - apply close_conns_ctx_done.
  - apply close_conns_msgChan.
Qed.

(** After the shutdown the fan-out takes the next message and hands it to the
    workers that were closed. *)
Theorem shutdown_keeps_processing {St Q} (p : process St Q) i w s msg q :
  let f := sys_fan (proc_system p) in
  let f' := sys_fan (proc_system (GracefulShutdown p)) in
  processing f = None → fan_returned f = false → queued (input f) = msg :: q →
  workers f !! i = Some (w, s) →
  ∃ f1 f2 evs, take_message f' = Some ([Taken msg], f1) ∧ run_worker i f1 = Some (evs, f2) ∧
    head evs = Some (Processed i msg (Process w msg (Close w s).2).1).
Proof.
  intros f f' Hp Hr Hq Hw.
  assert (f' = set_workers (CloseFanOut f).2 f) as ->.
  { unfold f', f, GracefulShutdown, shutdown_calls, close_sinks. cbn [foldl].
    destruct (proc_oee _); unfold close_clients; simpl; by destruct (CloseAll _). }
  unfold CloseFanOut. rewrite close_workers_spec.
  unfold take_message, set_workers, recv. simpl. rewrite Hp, Hr, Hq. simpl.
  destruct (Process w msg (Close w s).2) as [o s'] eqn:Ho.
  eexists _, _, _. split; [done|]. unfold run_worker. simpl. rewrite list_lookup_fmap, Hw. simpl.
  rewrite bool_decide_true.
  - rewrite Ho. by split.
  - apply elem_of_seq. rewrite length_fmap. apply lookup_lt_Some in Hw. lia.
Qed.

(** ** What a restart forgets *)

(** The store has an open interval of the machine and [rehydrate] would find
    it, but the engine that is started holds no machine: its ticks send
    nothing until the next transition. *)
Theorem restart_forgets {Q R K} `{IntervalStore Q, ShiftReader R, AvailabilitySink K}
    d (q q' : Q) id iv :
  LastOpen id q = (Ok (Some iv), q') →
  is_Some (machines (rehydrate [id] (NewEngine d) q).1 !! id) ∧
  ∀ (shifts : R) now ids (sink : K), tick shifts now ids (start_engine (NewEngine d) q).1 sink = sink.
Proof.
  intros Hl. split.
  - simpl. unfold rehydrate_one. simpl. rewrite lookup_empty, Hl. simpl. by rewrite lookup_insert_eq.
  - intros shifts now ids sink. unfold tick. induction ids as [|x ids IH]; simpl; [done|].
    unfold tick_one at 2. simpl. rewrite lookup_empty. exact IH.
Qed.
