(* ===== verification/Lifecycle.v ===== *)
(** * The life of the process

    [cmd/broker/main.go] from [StartServers] to the end: the MQTT server
    begins to listen or fails to, connections come in through its accept loop,
    the goroutines of [LiveSystem] work, among them the live engine, a signal
    arrives, [main] makes the calls of [GracefulShutdown] and its own deferred
    calls one by one while everything else goes on, and returns, which ends
    every goroutine.  A panic of the live engine ends the process too.

    - [exit_account]: what is in the store and what is lost, at every moment
      and so at the end, and what ends the process;
    - [failed_listener_deaf]: without its listener the process stays and does
      nothing;
    - [acknowledged_lost]: a publication that was acknowledged and is gone. *)

From S2P Require Export Process.

Local Open Scope Z_scope.

(** Where [main] is. *)
Inductive phase :=
  | Serving                     (* in <-sigCh *)
  | ShuttingDown (made : nat)   (* after it, with these calls made *)
  | Exited.

Record life (St Q : Type) := {
  life_process : process St Q;
  life_phase : phase;
}.
Arguments life_process {St Q} l.
Arguments life_phase {St Q} l.

Inductive life_action (R : Type) :=
  | MqttListens                     (* net.Listen returns a listener *)
  | MqttListenFails                 (* or an error: cancel() *)
  | Connect (c : conn_id) (r : reader)
  | AcceptFails
  | WatcherCloses                   (* the listener, after the cancellation *)
  | HttpFails                       (* ListenAndServe of net/http; logged *)
  | Works (a : live_action R)       (* a goroutine of the system *)
  | Signalled
  | ShutdownCall
  | MainReturns.
Arguments MqttListens {R}.
Arguments MqttListenFails {R}.
Arguments Connect {R} c r.
Arguments AcceptFails {R}.
Arguments WatcherCloses {R}.
Arguments HttpFails {R}.
Arguments Works {R} a.
Arguments Signalled {R}.
Arguments ShutdownCall {R}.
Arguments MainReturns {R}.

(** The steps that no other action stands for, of the goroutines there are:
    without OEE there is no engine and no sink, and a WebSocket connection is
    opened through the HTTP server. *)
Definition works {St Q R} (p : process St Q) (a : live_action R) : bool :=
  match a with
  | OnParts (OfBroker (Accept _ _ | Broker.Shutdown) | CancelContext) | SinksClose => false
  | OnParts _ => true
  | ConnOpened _ _ => proc_oee p && proc_http p
  | _ => proc_oee p
  end.

(** Inverts a step into what its calls returned. *)
Ltac life_cases := repeat match goal with
  | H : _ ≫= _ = Some _ |- _ => apply bind_Some in H as (? & ? & H)
  | H : Some _ = Some _ |- _ => injection H as <- <-
  | _ => case_match; try done
  end.

Section life.
Context {T : Type} `{Authenticator T} (s : Server T).
Context {St Q R : Type} `{Store St, IntervalStore Q, ShiftReader R}.
Implicit Types (p : process St Q) (l : life St Q) (y : system St (worker_state Q) unit).

Definition with_process p l : life St Q := {| life_process := p; life_phase := life_phase l |}.
Definition with_phase ph l : life St Q := {| life_process := life_process l; life_phase := ph |}.

(** [cancel()]: every part and the accept loop see the same context. *)
Definition cancel p : process St Q :=
  let p := with_system (from_option snd (proc_system p) (sys_step s CancelContext (proc_system p))) p in
  match proc_mqtt p with
  | Listening li => with_mqtt (Listening (default li (listen_step EvCancel li))) p
  | _ => p
  end.

(** What [main] still does once it has a signal: [GracefulShutdown], and on its
    return the deferred [db.Close()], after which the calls of the stores
    fail, as they may at any time, and the deferred [cancel()]. *)
Definition main_calls : list (process St Q → process St Q) :=
  shutdown_calls ++ [(λ p, p); cancel].

(** A step of the running process. *)
Definition running_step (a : life_action R) l : option (list live_label * life St Q) :=
  let p := life_process l in
  match a with
  | MqttListens =>
      match proc_mqtt p with
      | Unlistened => Some ([], with_process (with_mqtt (Listening listen) p) l)
      | _ => None
      end
  | MqttListenFails =>
      match proc_mqtt p with
      | Unlistened => Some ([], with_process (cancel (with_mqtt ListenFailed p)) l)
      | _ => None
      end
  | Connect c r =>
      match proc_mqtt p with
      | Listening li =>
          li ← listen_step (EvConnect c (CanAccept (connMgr (shared (sys_broker (proc_system p)))))) li;
          '(ls, live) ← live_step (R := R) s (OnParts (OfBroker (Accept c r))) (proc_live p);
          Some (ls, with_process (with_mqtt (Listening li) (with_live live p)) l)
      | _ => None
      end
  | AcceptFails =>
      match proc_mqtt p with
      | Listening li =>
          li ← listen_step EvAcceptError li;
          Some ([], with_process (with_mqtt (Listening li) p) l)
      | _ => None
      end
  | WatcherCloses =>
      match proc_mqtt p with
      | Listening li =>
          li ← listen_step EvWatcher li;
          Some ([], with_process (with_mqtt (Listening li) p) l)
      | _ => None
      end
  | HttpFails => if proc_http p then Some ([], with_process (with_http false p) l) else None
  | Works a =>
      if works p a then
        '(ls, live) ← live_step s a (proc_live p);
        Some (ls, with_process (with_live live p) l)
      else None
  | Signalled =>
      match life_phase l with Serving => Some ([], with_phase (ShuttingDown 0) l) | _ => None end
  | ShutdownCall =>
      match life_phase l with
      | ShuttingDown k =>
          call ← main_calls !! k;
          Some ([], {| life_process := call p; life_phase := ShuttingDown (Datatypes.S k) |})
      | _ => None
      end
  | MainReturns =>
      match life_phase l with
      | ShuttingDown k =>
          if bool_decide (k = length main_calls) then Some ([], with_phase Exited l) else None
      | _ => None
      end
  end.

(** Nothing runs after [main] has returned, or a goroutine has panicked. *)
Definition gone l : bool :=
  match life_phase l with
  | Exited => true
  | _ => bool_decide (live_engine (proc_live (life_process l)) = EnginePanicked)
  end.

Definition life_step (a : life_action R) l : option (list live_label * life St Q) :=
  if gone l then None else running_step a l.

(** ** What a step does to the system *)

(** [CloseAll] is the broker's action of that name. *)
Lemma close_clients_step y : sys_step s (OfBroker Broker.Shutdown) y = Some ([], close_clients y).
Proof.
  unfold sys_step, close_clients. simpl. by destruct (CloseAll _).
Qed.

(** Everything else a call of [GracefulShutdown] changes is the state of the
    workers, when they are closed. *)
Definition same_messages y y' : Prop :=
  sys_broker y' = sys_broker y ∧ sys_pipeline y' = sys_pipeline y ∧
  input (sys_fan y') = input (sys_fan y) ∧
  (workers (sys_fan y') = workers (sys_fan y) ∨
   workers (sys_fan y') = (λ '(w, s), (w, (Close w s).2)) <$> workers (sys_fan y)).

Lemma same_messages_refl y : same_messages y y.
Proof. split_and!; [done..|by left]. Qed.

Lemma cancel_system p : sys_step s CancelContext (proc_system p) = Some ([], proc_system (cancel p)).
Proof.
  assert (proc_system (cancel p) = from_option snd (proc_system p) (sys_step s CancelContext (proc_system p)))
    as -> by (unfold cancel; by destruct (proc_mqtt _)).
  reflexivity.
Qed.

Lemma cancel_engine p : live_engine (proc_live (cancel p)) = live_engine (proc_live p).
Proof. unfold cancel. by destruct (proc_mqtt _). Qed.

Lemma close_sinks_system p : proc_system (close_sinks p) = proc_system p.
Proof. unfold close_sinks. by destruct (proc_oee p). Qed.

Lemma main_call_system (k : nat) (call : process St Q → process St Q) p : main_calls !! k = Some call →
  (sys_step s (OfBroker Broker.Shutdown) (proc_system p) = Some ([], proc_system (call p)) ∨
   sys_step s CancelContext (proc_system p) = Some ([], proc_system (call p))) ∨
  same_messages (proc_system p) (proc_system (call p)).
Proof.
  destruct k as [|[|[|[|[|[|[|k]]]]]]]; intros Hk; try done; apply (inj Some) in Hk; subst call;
    try (right; apply same_messages_refl).
  - right. split_and!; [done..|right]. simpl. unfold CloseFanOut. by rewrite close_workers_spec.
  - left. left. by rewrite close_clients_step.
  - right. rewrite close_sinks_system. apply same_messages_refl.
  - left. right. apply cancel_system.
Qed.

Definition hears l : Prop := ∃ li, proc_mqtt (life_process l) = Listening li.

Definition accepts (a : sys_action) : bool := match a with OfBroker (Accept _ _) => true | _ => false end.

Lemma life_step_system a l ls l' : life_step a l = Some (ls, l') →
  (∃ sa, sys_step s sa (proc_system (life_process l)) = Some (on_parts ls, proc_system (life_process l')) ∧
    (accepts sa = true → hears l)) ∨
  (on_parts ls = [] ∧ same_messages (proc_system (life_process l)) (proc_system (life_process l'))).
Proof.
  unfold life_step, hears. destruct (gone l); [done|]. intros Hr. destruct a; simpl in Hr.
  - destruct (proc_mqtt _); try done. injection Hr as <- <-. right. split; [done|apply same_messages_refl].
  - destruct (proc_mqtt _); try done. injection Hr as <- <-. left. exists CancelContext.
    split; [|done]. exact (cancel_system (with_mqtt ListenFailed (life_process l))).
  - destruct (proc_mqtt _) as [|li|]; try done. apply bind_Some in Hr as (li' & _ & Hr).
    apply bind_Some in Hr as ([ls1 y] & Hy & [= <- <-]).
    apply live_step_parts in Hy as [(sa & [= <-] & Hy)|[Hy1 Hy2]]; [left; eauto|].
    right. split; [done|]. unfold proc_system. simpl. rewrite Hy2. apply same_messages_refl.
  - destruct (proc_mqtt _) as [|li|]; try done. apply bind_Some in Hr as (li' & _ & [= <- <-]). right. split; [done|apply same_messages_refl].
  - destruct (proc_mqtt _) as [|li|]; try done. apply bind_Some in Hr as (li' & _ & [= <- <-]). right. split; [done|apply same_messages_refl].
  - destruct (proc_http _); [|done]. injection Hr as <- <-. right. split; [done|apply same_messages_refl].
  - destruct (works _ a) eqn:Hw; [|done]. apply bind_Some in Hr as ([ls1 y] & Hy & [= <- <-]).
    apply live_step_parts in Hy as [(sa & -> & Hy)|[Hy1 Hy2]].
    + left. exists sa. split; [done|]. by destruct sa as [[]|?|?|].
    + right. split; [done|]. unfold proc_system. simpl. rewrite Hy2. apply same_messages_refl.
  - destruct (life_phase l); try done. injection Hr as <- <-. right. split; [done|apply same_messages_refl].
  - destruct (life_phase l) as [|k|]; try done. apply bind_Some in Hr as (call & Hk & [= <- <-]).
    destruct (main_call_system k call (life_process l) Hk) as [[|]|]; [..|by right].
    + left. by exists (OfBroker Broker.Shutdown).
    + left. by exists CancelContext.
  - destruct (life_phase l) as [|k|]; try done. destruct (bool_decide _); [|done].
    injection Hr as <- <-. right. split; [done|apply same_messages_refl].
Qed.

(** What a step does to the listener. *)
Lemma cancel_mqtt p : proc_mqtt (cancel p) = proc_mqtt p ∨
  ∃ li li', proc_mqtt p = Listening li ∧ proc_mqtt (cancel p) = Listening li'.
Proof. unfold cancel. simpl. destruct (proc_mqtt p) as [|li|] eqn:Hm; simpl; rewrite ?Hm; eauto. Qed.

Lemma main_call_mqtt (k : nat) (call : process St Q → process St Q) p : main_calls !! k = Some call →
  proc_mqtt (call p) = proc_mqtt p ∨
  ∃ li li', proc_mqtt p = Listening li ∧ proc_mqtt (call p) = Listening li'.
Proof.
  destruct k as [|[|[|[|[|[|[|k]]]]]]]; intros Hk; try done; apply (inj Some) in Hk; subst call; auto.
  - simpl. destruct (proc_mqtt p); simpl; eauto.
  - left. unfold close_sinks. by destruct (proc_oee p).
  - apply cancel_mqtt.
Qed.

Lemma life_step_mqtt a l ls l' : life_step a l = Some (ls, l') →
  (hears l → hears l') ∧
  (a = MqttListenFails ∨ proc_mqtt (life_process l) = ListenFailed →
   proc_mqtt (life_process l') = ListenFailed).
Proof.
  unfold life_step, hears. destruct (gone l); [done|]. intros Hr. destruct a; simpl in Hr.
  all: life_cases; simpl; try naive_solver.
  match goal with H : main_calls !! _ = Some ?call |- _ =>
    destruct (main_call_mqtt _ call (life_process l) H) as [->|(li & li' & -> & ->)]
  end; naive_solver.
Qed.

(** Only the engine panics. *)
Lemma main_call_engine (k : nat) (call : process St Q → process St Q) p : main_calls !! k = Some call →
  live_engine (proc_live (call p)) = live_engine (proc_live p).
Proof.
  destruct k as [|[|[|[|[|[|[|k]]]]]]]; intros Hk; try done; apply (inj Some) in Hk; subst call; try done.
  - unfold close_sinks. by destruct (proc_oee p).
  - apply cancel_engine.
Qed.

Lemma not_gone l : gone l = false →
  life_phase l ≠ Exited ∧ live_engine (proc_live (life_process l)) ≠ EnginePanicked.
Proof. unfold gone. destruct (life_phase l); [intros Hg%bool_decide_eq_false..|]; done. Qed.

Lemma life_step_panic a l ls l' : life_step a l = Some (ls, l') →
  live_engine (proc_live (life_process l')) = EnginePanicked →
  ∃ e, shared_engine (proc_system (life_process l)) = Some e ∧ tickInterval e ≤ 0.
Proof.
  unfold life_step. destruct (gone l) eqn:Hg; [done|]. apply not_gone in Hg as [_ Hg].
  intros Hr Hp. destruct a; simpl in Hr.
  - destruct (proc_mqtt _); try done. by injection Hr as <- <-.
  - destruct (proc_mqtt _); try done. injection Hr as <- <-.
    change (live_engine (proc_live (cancel (with_mqtt ListenFailed (life_process l)))) = EnginePanicked) in Hp.
    by rewrite (cancel_engine (with_mqtt ListenFailed (life_process l))) in Hp.
  - destruct (proc_mqtt _) as [|li|]; try done. apply bind_Some in Hr as (li' & _ & Hr).
    apply bind_Some in Hr as ([ls1 y] & Hy & [= <- <-]). by eapply live_step_panic.
  - destruct (proc_mqtt _) as [|li|]; try done. by apply bind_Some in Hr as (li' & _ & [= <- <-]).
  - destruct (proc_mqtt _) as [|li|]; try done. by apply bind_Some in Hr as (li' & _ & [= <- <-]).
  - destruct (proc_http _); [|done]. by injection Hr as <- <-.
  - destruct (works _ a); [|done]. apply bind_Some in Hr as ([ls1 y] & Hy & [= <- <-]).
    by eapply live_step_panic.
  - destruct (life_phase l); try done. by injection Hr as <- <-.
  - destruct (life_phase l) as [|k|]; try done. apply bind_Some in Hr as (call & Hk & [= <- <-]).
    simpl in Hp. by rewrite (main_call_engine k call _ Hk) in Hp.
  - destruct (life_phase l) as [|k|]; try done. destruct (bool_decide _); [|done]. by injection Hr as <- <-.
Qed.

(** While the process is there, so is its clock. *)
Lemma gone_iff l : (∀ a, life_step a l = None) ↔
  life_phase l = Exited ∨ live_engine (proc_live (life_process l)) = EnginePanicked.
Proof.
  split.
  - intros Hn. specialize (Hn (Works (OnParts (OfBroker (Broker.Tick 0))))).
    destruct (gone l) eqn:Hg.
    + unfold gone in Hg. destruct (life_phase l); [right|right|by left]; by apply bool_decide_eq_true in Hg.
    + exfalso. unfold life_step in Hn. rewrite Hg in Hn. apply not_gone in Hg as [_ Hg].
      simpl in Hn. unfold live_step in Hn. rewrite bool_decide_false in Hn by done. discriminate.
  - intros Hg a. assert (gone l = true) as Hgt.
    { unfold gone. destruct Hg as [->|Hg]; [done|]. destruct (life_phase l); [..|done]; by apply bool_decide_eq_true. }
    unfold life_step. by rewrite Hgt.
Qed.

(** ** The messages, through the whole life *)

(** What [main] has when [StartServers] returns. *)
Definition start_life (c : Config) (m : Modules St Q) : life St Q :=
  {| life_process := start_process c m; life_phase := Serving |}.

Section running.
Variables (max : Z) (r : TopicRegistry) (n : nat) (tps : list string) (st : St)
  (c : Config) (m : Modules St Q) (q : Q).
Hypothesis max_pos : 0 ≤ max.
Hypothesis r_wf : wf_registry r.
Hypothesis m_start : StartServers m = start_system max r n tps st (workers_of c q).

(** Broker and pipeline go on as if there were no shutdown but [CloseAll]; the
    workers stay what they are, and the engine panics on its interval only. *)
Record life_inv (lls : list live_label) l : Prop := {
  life_broker : ∃ ab, execute (perform s) ab (init max r n) =
    Some (on_broker (on_parts lls), sys_broker (proc_system (life_process l)));
  life_pipeline : ∃ ap, execute pl_step ap (NewPipeline tps st n) =
    Some (on_pipeline (on_parts lls), sys_pipeline (proc_system (life_process l)));
  life_in_step : in_step (on_parts lls) (proc_system (life_process l));
  life_workers : right_workers c (workers (sys_fan (proc_system (life_process l))));
  life_panic : live_engine (proc_live (life_process l)) = EnginePanicked →
    OEEEnabled c = true ∧ OEETickInterval c ≤ 0;
}.

Lemma life_step_inv ls l a ls1 l1 :
  life_inv ls l → life_step a l = Some (ls1, l1) → life_inv (ls ++ ls1) l1.
Proof.
  intros [(ab & Hb) (ap & Hp) Hin Hw Hpan] Hs.
  assert (live_engine (proc_live (life_process l1)) = EnginePanicked →
    OEEEnabled c = true ∧ OEETickInterval c ≤ 0) as Hpan1.
  { intros He. destruct (life_step_panic a l ls1 l1 Hs He) as (e & Hsh & Hle).
    destruct (right_engine c _ e Hw Hsh) as [Hen Hi]. by rewrite Hi in Hle. }
  destruct (life_step_system a l ls1 l1 Hs) as [(sa & Hsa & _)|(Hno & Hbr & Hpl & Hfan & Hcl)].
  - pose proof (sys_step_in_step s sa _ _ _ (proj1 Hin) Hsa) as Hin1.
    destruct (sys_step_parts s sa _ _ _ Hsa) as (ab1 & ap1 & _ & Hb1 & Hp1 & _).
    split; rewrite ?on_parts_app; [exists (ab ++ ab1)|exists (ap ++ ap1)|by eapply in_step_app| |done].
    + unfold on_broker in *. rewrite execute_app, Hb, omap_app. simpl. by rewrite Hb1.
    + unfold on_pipeline in *. rewrite execute_app, Hp, omap_app. simpl. by rewrite Hp1.
    + destruct (sys_step_workers s sa _ _ _ (proj1 Hin) Hsa) as [->|(i & msg & w & s0 & Hi & ->)]; [done|].
      by apply process_right.
  - split; rewrite ?on_parts_app, ?Hno, ?app_nil_r, ?Hbr, ?Hpl; [by exists ab|by exists ap| | |done].
    + destruct Hin as [[Hm Hd] Hin]. unfold in_step, agree. by rewrite Hbr, Hpl, Hfan.
    + destruct Hcl as [->| ->]; [done|by apply close_right].
Qed.

Lemma reachable_life_inv acts ls l :
  execute life_step acts (start_life c m) = Some (ls, l) → life_inv ls l.
Proof.
  apply (execute_ind life_step life_inv).
  - assert (proc_system (life_process (start_life c m)) = start_system max r n tps st (workers_of c q))
      as Hs by exact m_start.
    split; rewrite ?Hs; [by exists []|by exists []|done| |done].
    apply workers_of_right.
  - intros. by eapply life_step_inv.
Qed.

Lemma life_account `{!StoreSpec St} acts ls l :
  (∀ t, t ∈ allowed r → t ∈ tps) →
  execute life_step acts (start_life c m) = Some (ls, l) →
  message_account s r st (on_parts ls) (proc_system (life_process l)).
Proof.
  intros Ht [(ab & Hb) (ap & Hp) Hin _ _]%reachable_life_inv. by eapply parts_account.
Qed.
End running.

(** ** What [main] waits for *)

Lemma life_step_phase a l ls l' : life_step a l = Some (ls, l') →
  life_phase l = Serving → a = Signalled ∨ life_phase l' = Serving.
Proof.
  unfold life_step. destruct (gone l); [done|]. intros Hs Hp. destruct a; simpl in Hs; auto; right;
    try (rewrite Hp in Hs; done); life_cases; simpl; congruence.
Qed.

Lemma only_a_signal acts l ls l' : execute life_step acts l = Some (ls, l') →
  life_phase l = Serving → Signalled ∈ acts ∨ life_phase l' = Serving.
Proof.
  revert l ls. induction acts as [|a acts IH]; intros l ls; simpl; [intros [= _ <-]; auto|].
  intros Hx Hp. apply bind_Some in Hx as ([ls1 l1] & Hs & Hx).
  apply bind_Some in Hx as ([ls2 l2] & Hx & [= _ <-]). rewrite elem_of_cons.
  destruct (life_step_phase a l ls1 l1 Hs Hp) as [->|Hp1]; [auto|].
  destruct (IH l1 ls2 Hx Hp1); auto.
Qed.

(** ** The listener *)

Lemma perform_unheard a b lb b' : Broker.running b = ∅ → perform s a b = Some (lb, b') →
  (∀ c r, a ≠ Accept c r) → Broker.running b' = ∅ ∧ sent lb = [].
Proof.
  intros Hr. destruct a; simpl; intros Hp Hne.
  - by destruct (Hne c r).
  - by rewrite Hr, lookup_empty in Hp.
  - destruct (recv _) as [[]|]; simpl in Hp; [|done]. by injection Hp as <- <-.
  - by injection Hp as <- <-.
  - by injection Hp as <- <-.
  - by injection Hp as <- <-.
  - destruct (CloseAll _). by injection Hp as <- <-.
Qed.

(** Before the server listens, and when it cannot, there is no session. *)
Definition unheard (ls : list live_label) l : Prop :=
  hears l ∨ Broker.running (sys_broker (proc_system (life_process l))) = ∅ ∧ sent (on_broker (on_parts ls)) = [].

Lemma sys_step_unheard a y ls y' : agree y → Broker.running (sys_broker y) = ∅ → accepts a = false →
  sys_step s a y = Some (ls, y') → Broker.running (sys_broker y') = ∅ ∧ sent (on_broker ls) = [].
Proof.
  intros Hy Hr Ha Hs. pose proof (sys_step_cases s a y ls y' Hy Hs) as Hc.
  destruct a as [a|a|a|].
  - destruct Hc as (lb & b & Hb & -> & ->). rewrite on_broker_labels. simpl.
    eapply perform_unheard; [exact Hr|exact Hb|]. by intros c r ->.
  - destruct Hc as (lp & p & outs & _ & _ & -> & ->). rewrite on_broker_labels. simpl.
    by rewrite sent_LReceive.
  - destruct Hc as (lf & f & _ & _ & -> & ->). by rewrite on_broker_labels.
  - destruct Hc as (b & f & Hb & _ & -> & ->). simpl. by injection Hb as <-.
Qed.

Lemma life_step_unheard ls l a ls1 l1 : agree (proc_system (life_process l)) → unheard ls l →
  life_step a l = Some (ls1, l1) → unheard (ls ++ ls1) l1.
Proof.
  intros Hy Hu Hs. destruct (life_step_mqtt a l ls1 l1 Hs) as [Hh _].
  destruct Hu as [Hl|[Hr Hsent]]; [left; auto|]. unfold unheard. rewrite on_parts_app.
  unfold sent, on_broker in *.
  destruct (life_step_system a l ls1 l1 Hs) as [(sa & Hsa & Hacc)|(-> & -> & _ & _ & _)].
  - destruct (accepts sa) eqn:Ha; [left; auto|right].
    destruct (sys_step_unheard sa _ _ _ Hy Hr Ha Hsa) as [Hr1 Hs1].
    unfold sent, on_broker in Hs1. by rewrite !omap_app, Hsent, Hs1.
  - right. by rewrite app_nil_r.
Qed.

Lemma listen_failed acts l ls l' : execute life_step acts l = Some (ls, l') →
  MqttListenFails ∈ acts ∨ proc_mqtt (life_process l) = ListenFailed →
  proc_mqtt (life_process l') = ListenFailed.
Proof.
  revert l ls. induction acts as [|a acts IH]; intros l ls; simpl.
  { intros [= _ <-] [?%elem_of_nil|]; done. }
  intros Hx Hf. apply bind_Some in Hx as ([ls1 l1] & Hs & Hx).
  apply bind_Some in Hx as ([ls2 l2] & Hx & [= _ <-]). apply (IH l1 ls2 Hx).
  destruct (life_step_mqtt a l ls1 l1 Hs) as [_ Hm]. rewrite elem_of_cons in Hf. naive_solver.
Qed.
End life.

(** ** From [main] *)

Section main.
Context {St Q R : Type} `{Store St, IntervalStore Q, ShiftReader R}.
Variable ReadFile : string → option (list byte).
Variable chan_limit : Z.

(** C23: What is kept, what is lost and what ends it: at every moment of the
    life of the process, through its shutdown and up to its end, whatever the
    sessions, the subscribers, the live engine and the sinks do: topic by topic
    and in order, the messages the sessions have sent are those that were
    saved or refused by the store followed by those still on their way; the
    store holds what it held at the start and the saved ones, all of them sent
    by sessions entitled to.  The process ends in two ways only, [main]
    returns or the live engine panics; [main] returns only after a signal, and
    the engine panics only with OEE enabled and a tick interval that is not
    positive.  Then, and only then, no step is left, so that exactly the
    messages on their way are lost. *)
Theorem exit_account `{!StoreSpec St} Getenv c (st : St) (q : Q) db m db' acts ls l :
  Load Getenv = Ok c → 0 < QueueBufferSize c →
  InitModules ReadFile chan_limit c st q db = Initialised m db' →
  execute (life_step (R := R) (mod_server m)) acts (start_life c m) = Some (ls, l) →
  let ended := life_phase l = Exited in
  let panicked := live_engine (proc_live (life_process l)) = EnginePanicked in
  message_account (mod_server m) (mod_topics m) st (on_parts ls) (proc_system (life_process l)) ∧
  (ended → Signalled ∈ acts) ∧
  (panicked → OEEEnabled c = true ∧ OEETickInterval c ≤ 0) ∧
  ((∀ a, life_step (R := R) (mod_server m) a l = None) ↔ ended ∨ panicked).
Proof.
  intros Hc%Load_Ok _ Hm Hx ended panicked.
  destruct (StartServers_start ReadFile chan_limit c st q db m db' Hc Hm) as (Hst & _ & Hwf & Hmax & Ht).
  split; [|split; [|split; [|apply gone_iff]]].
  - by eapply (life_account _ _ _ _ _ _ _ _ _ Hmax Hwf Hst).
  - intros He. destruct (only_a_signal _ _ _ _ _ Hx eq_refl) as [|Hp]; [done|].
    unfold ended in He. congruence.
  - eapply life_panic, (reachable_life_inv _ _ _ _ _ _ _ _ _ Hst acts ls l Hx).
Qed.

(** When the MQTT server cannot listen its error is logged and the context
    cancelled, and nothing tells [main]: whatever happens next no session ever
    exists, nothing is sent and nothing stored, and [main] waits until a
    signal. *)
Theorem failed_listener_deaf `{!StoreSpec St} Getenv c (st : St) (q : Q) db m db' acts ls l :
  Load Getenv = Ok c → InitModules ReadFile chan_limit c st q db = Initialised m db' →
  execute (life_step (R := R) (mod_server m)) acts (start_life c m) = Some (ls, l) →
  MqttListenFails ∈ acts →
  let y := proc_system (life_process l) in
  Broker.running (sys_broker y) = ∅ ∧ sent (on_broker (on_parts ls)) = [] ∧
  stored (Ingestion.store (sys_pipeline y)) = stored st ∧
  (Signalled ∉ acts → life_phase l = Serving).
Proof.
  intros Hc%Load_Ok Hm Hx Hf y. subst y.
  destruct (StartServers_start ReadFile chan_limit c st q db m db' Hc Hm) as (Hst & _ & Hwf & Hmax & Ht).
  destruct (life_account _ _ _ _ _ _ _ _ _ Hmax Hwf Hst acts ls l Ht Hx) as [_ Hsent Hstored _].
  assert (unheard ls l ∧ agree (proc_system (life_process l))) as [[[li Hl]|[Hr Hs]] _].
  { revert Hx. apply (execute_ind (life_step (mod_server m))
      (λ ls l, unheard ls l ∧ agree (proc_system (life_process l)))).
    - split; [by right|]. change (agree (StartServers m)). by rewrite Hst.
    - intros ls0 l0 a ls1 l1 [Hu Hy] Ha. split; [by eapply life_step_unheard|].
      destruct (life_step_system _ a l0 ls1 l1 Ha) as [(sa & Hsa & _)|(_ & Hbr & Hpl & Hfan & _)].
      + by eapply sys_step_in_step.
      + unfold agree. by rewrite Hbr, Hpl, Hfan. }
  { rewrite (listen_failed _ acts _ ls l Hx) in Hl by by left. done. }
  split; [done|]. split; [done|]. split.
  - rewrite Hstored. assert (saves (on_pipeline (on_parts ls)) = []) as ->; [|by rewrite app_nil_r].
    destruct (saves (on_pipeline (on_parts ls))) as [|m0 ms] eqn:Hsv; [done|].
    specialize (Hsent (MsgTopic m0)). rewrite Hs in Hsent. symmetry in Hsent.
    apply app_eq_nil in Hsent as [Hfin _].
    assert (m0 ∈ at_topic (MsgTopic m0) (finished (on_pipeline (on_parts ls)))) as Hin.
    { apply at_topic_elem, saves_finished. rewrite Hsv. by left. }
    rewrite Hfin in Hin. by apply elem_of_nil in Hin.
  - intros Hn. by destruct (only_a_signal _ _ _ _ _ Hx eq_refl).
Qed.
End main.

(** ** A life *)

Definition in_process (a : sys_action) : life_action unit := Works (OnParts a).
Definition start_sample : life (list Message) memory_store := start_life sample_config sample_modules.
Definition live_on (acts : list (life_action unit)) :=
  execute (life_step (mod_server sample_modules)) acts start_sample.

Definition sample_life_actions : list (life_action unit) :=
  [MqttListens; Connect 0%nat state_client] ++ replicate 22 (in_process (OfBroker (Run 0%nat 0))) ++
  (in_process <$> through) ++ [Works EngineBegin; Works (ConnOpened "CNC-01" 7); Signalled; ShutdownCall;
  ShutdownCall; in_process (OfFan Take); in_process (OfFan (Work 1)); Works (EngineTick (at_unix 40) ["CNC-01"]%string);
  ShutdownCall; AcceptFails; ShutdownCall; Works (EngineNext ()); ShutdownCall; ShutdownCall; ShutdownCall;
  AcceptFails; MainReturns].
Definition sample_life := live_on sample_life_actions.
Definition sample_life_labels : list live_label := from_option fst [] sample_life.
Definition sample_life_end : life (list Message) memory_store := from_option snd start_sample sample_life.

Lemma sample_life_eq : execute (life_step (mod_server sample_modules)) sample_life_actions
  (start_life sample_config sample_modules) = Some (sample_life_labels, sample_life_end).
Proof. apply (computed_run sample_life). vm_compute. reflexivity. Qed.

(** The second message of the client is on its way and lost. *)
Lemma exit_account_witness :
  life_phase sample_life_end = Exited ∧
  message_account (mod_server sample_modules) (mod_topics sample_modules) [] (on_parts sample_life_labels)
    (proc_system (life_process sample_life_end)) ∧
  (∀ a, life_step (R := unit) (mod_server sample_modules) a sample_life_end = None) ∧
  Ingestion.store (sys_pipeline (proc_system (life_process sample_life_end))) = [cnc_message Shift.Running 10] ∧
  pending "machine/state" (sys_pipeline (proc_system (life_process sample_life_end))) =
    [cnc_message Shift.Stopped 20].
Proof.
  assert (life_phase sample_life_end = Exited) as Hend by (vm_compute; reflexivity).
  pose proof (exit_account (R := unit) (λ _, None) amd64_chan_limit sample_env sample_config []
    {| failures := []; table := ∅ |} _ sample_modules _ sample_life_actions sample_life_labels
    sample_life_end sample_loaded ltac:(reflexivity) sample_init_eq sample_life_eq) as (Hacc & _ & _ & Hgone).
  split; [exact Hend|]. split; [exact Hacc|]. split; [apply Hgone; by left|].
  split; vm_compute; reflexivity.
Defined.

Definition deaf_actions : list (life_action unit) :=
  [MqttListenFails; HttpFails; in_process (OfBroker (Broker.Tick 5))].
Definition deaf_life := live_on deaf_actions.
Definition deaf_labels : list live_label := from_option fst [] deaf_life.
Definition deaf_end : life (list Message) memory_store := from_option snd start_sample deaf_life.

Lemma deaf_life_eq : execute (life_step (mod_server sample_modules)) deaf_actions
  (start_life sample_config sample_modules) = Some (deaf_labels, deaf_end).
Proof. apply (computed_run deaf_life). vm_compute. reflexivity. Qed.

Lemma failed_listener_deaf_witness :
  Broker.running (sys_broker (proc_system (life_process deaf_end))) = ∅ ∧ life_phase deaf_end = Serving.
Proof.
  destruct (failed_listener_deaf (R := unit) (λ _, None) amd64_chan_limit sample_env sample_config []
    {| failures := []; table := ∅ |} _ sample_modules _ deaf_actions deaf_labels deaf_end
    sample_loaded sample_init_eq deaf_life_eq) as (Hr & _ & _ & Hp).
  - by left.
  - split; [exact Hr|]. apply Hp. unfold deaf_actions. rewrite !elem_of_cons, elem_of_nil.
    intros [?|[?|[?|[]]]]; discriminate.
Defined.

(** ** A life without a signal *)

(** With OEE and an interval of zero, which [Load] accepts, the engine ends the
    process as soon as its goroutine runs. *)
Theorem ended_unsignalled {R} `{ShiftReader R} :
  ∃ c, Load zero_interval_env = Ok c ∧
  ∃ m db', InitModules (λ _, None) amd64_chan_limit c ([] : list Message) {| failures := []; table := ∅ |}
      {| tables := empty_tables; Sql.failures := [] |} = Initialised m db' ∧
  ∃ l, execute (life_step (R := R) (mod_server m)) [Works EngineBegin] (start_life c m) = Some ([], l) ∧
    life_phase l = Serving ∧ ∀ a, life_step (R := R) (mod_server m) a l = None.
Proof.
  destruct zero_interval as (c & Hl & Hen & Ht & m & db' & Hm).
  exists c. split; [done|]. exists m, db'. split; [done|].
  pose proof (workers_start (λ _, None) amd64_chan_limit c _ _ _ m db' (Load_Ok _ _ Hl) Hen Hm) as He.
  exists (with_process (with_live (with_engine EnginePanicked (StartLive m)) (start_process c m)) (start_life c m)).
  split; [|split; [done|apply gone_iff; by right]].
  assert (live_step (R := R) (mod_server m) EngineBegin (StartLive m) =
    Some ([], with_engine EnginePanicked (StartLive m))) as Hs.
  { unfold live_step, silent, engine_begin. cbn [StartLive live_engine live_parts].
    rewrite He. cbn [NewEngine tickInterval]. by rewrite Ht. }
  rewrite execute_one. unfold life_step. cbn [gone start_life life_phase life_process start_process proc_live
    StartLive live_engine]. rewrite bool_decide_false by done.
  cbn [running_step start_life life_process works start_process proc_oee proc_live]. by rewrite Hen, Hs.
Qed.

(** ** A publication that was acknowledged and is gone *)

Definition hasty_client : reader :=
  Reader (BuildConnectPacket "cnc" "admin" "secret" 60 ++
    BuildPublishPacket "machine/state" (sample_text Shift.Running 10) x01 7) EOF.
Definition hasty_actions : list (life_action unit) :=
  [MqttListens; Connect 0%nat hasty_client] ++ replicate 16 (in_process (OfBroker (Run 0%nat 0))) ++
  [Signalled] ++ replicate 7 ShutdownCall ++ [MainReturns].
Definition hasty_life := live_on hasty_actions.
Definition hasty_labels : list live_label := from_option fst [] hasty_life.
Definition hasty_end : life (list Message) memory_store := from_option snd start_sample hasty_life.

(** The acknowledgement of a QoS 1 publication says that the message is in the
    channel, not that it is stored: there is a life of the process in which the
    client is sent CONNACK and PUBACK, the shutdown runs to its end, and the
    store has never seen the message. *)
Theorem acknowledged_lost :
  ∃ acts ls l, execute (life_step (R := unit) (mod_server sample_modules)) acts
      (start_life sample_config sample_modules) = Some (ls, l) ∧
    life_phase l = Exited ∧
    written <$> conns (shared (sys_broker (proc_system (life_process l)))) !! 0%nat =
      Some (EncodeConnack false ConnAccepted ++ EncodePuback 7) ∧
    sent (on_broker (on_parts ls)) = [cnc_message Shift.Running 10] ∧
    Ingestion.store (sys_pipeline (proc_system (life_process l))) = [].
Proof.
  exists hasty_actions, hasty_labels, hasty_end.
  split; [apply (computed_run hasty_life); vm_compute; reflexivity|].
  split; [vm_compute; reflexivity|]. split; [vm_compute; reflexivity|].
  split; vm_compute; reflexivity.
Qed.
